(* ===== verification/_CoqProject ===== *)
-Q . S2P
Prelude.v
CInt.v
Timer.v
LinuxLib.v
Bme680Data.v
Calib.v
Compensate.v
Variants.v
Driver.v
DriverSpec.v
DriverInv.v
Alerts.v
Spi.v
I2c.v
BusSim.v
SpiDriver.v
CondMonitor.v
Rwlock.v
Config.v
FifoSemaphore.v
Barrier.v
AssemblyLine.v
EventPair.v
Dining.v
StageThreads.v
DeadlockDetector.v
Monitor.v
SharedObject.v
SampleQueue.v
SyncObjects.v
IpcSync.v
Logger.v
PubSub.v
App.v
ReaderTasks.v
CMem.v
AppLoop.v
RecursiveMutex.v
ThreadPool.v
ForkHandler.v
Lifecycle.v
LifecycleThreads.v
AppMain.v
