(* ===== verification/Prelude.v ===== *)
(** * Verification of the BME680 driver and its synchronisation library

    The repository is a Linux kernel driver for the BME680 environmental
    sensor together with a C library of synchronisation patterns and an
    application that uses both; all of it is under
    src/BME680-kernel-module-thread-design-Advance/ (file names below are
    relative to it).  This development is a shallow embedding of its core
    logic.  The sources do not build as they stand (names that no file
    defines, two different declarations of the same struct), so each function
    is modelled as its text reads, and what it takes from elsewhere is a
    parameter.

    ** The parts and how they correspond

    Foundations
    - Prelude (this file): error numbers, counting over lists, tactics, hints.
    - CInt: the C integer types, [cast] and the wrapping operators, interval
      arithmetic by instance search.
    - LinuxLib: results ([res]: a value, a negative code, or [Stuck] for a
      call that never returns), the state and error monad [M], and the kernel
      services as classes with their documented laws: the bit-field macros,
      64-bit division, regmap.  [linux_ref] and [simbus] are the concrete
      instances the witnesses run on.

    The driver
    - Bme680Data: the registers of bme680.h; the state ([struct bme680_data],
      bme680.c) as the record [bme680_data], and [drv], which adds the bus.
    - Calib: bme680_read_calib.
    - Compensate: calc_temperature, calc_pressure, calc_humidity and the two
      gas formulas; Variants: the second set, bme680_compensate_*, which the
      driver does not call.
    - Driver: bme680_set_mode to bme680_core_resume, one definition per
      function; DriverSpec: their theorems; DriverInv: sessions of calls.
    - Alerts: the polling thread and the sample FIFO of bme680.c, and
      bme680_ipc.c (the threshold tasks, the messages, init and cleanup).
    - Spi: bme680_spi.c, the paged register access; I2c: bme680_i2c.c, whose
      accessors discharge the register map interface of the driver.
    - BusSim: two buses on which the driver cannot tell the difference (a
      relation between computations, and its rules); SpiDriver: the driver over
      Spi against the driver on the chip, and the entry points of bme680_spi.c.

    The synchronisation library
    - CondMonitor: threads that share a mutex and condition variables.  An
      operation is given by program points; a stretch of code between two of
      them runs under the mutex and is one step ([exec_event]).  Threads
      interleave at every point; a wait may also return by itself (timeout,
      error, spurious wake-up), as the component's [wake_ok] says.
      [reachable] is what the theorems quantify over.
    - Rwlock (rwlock.c), FifoSemaphore (fifo_semaphore.c), Barrier
      (barrier.c), EventPair (event_pair.c): programs over CondMonitor.
    - Config (bme680_config.c): clients of a read-write lock, proved against
      the class [RwLock], which Rwlock discharges.
    - Monitor (monitor.c): the ring of samples, which uses Rwlock and
      DeadlockDetector (deadlock_detector.c, functions on its table).
    - SharedObject: the interface of an object that several threads call, as
      classes: a specification of atomic requests, and the simulation and
      progress that an implementation owes; discharged for every program over
      CondMonitor from laws about one stretch of its code.  SampleQueue: the
      specification of a queue of samples, which Monitor keeps; SyncObjects:
      those of FifoSemaphore and EventPair.
    - IpcSync (ipc_sync.c): one sample in shared memory, copied in steps.
    - ThreadPool (thread_pool.c): workers and their linked list of tasks in a
      heap, which uses Barrier and EventPair.
    - Dining (dining_philosophers.c) and RecursiveMutex (recursive_mutex.c):
      step functions of their own, because their accesses are not all under
      one mutex; AssemblyLine (assembly_line.c): stages over the promise of
      the barrier; StageThreads: the same stages over the steps of Barrier and
      Dining.
    - Logger (logger.c): computations of [M] on the file, level and mutex.
    - PubSub (pubsub.c): subscriptions, and publications as single steps.
    - Timer (timer.c) and ForkHandler (fork_handler.c): functions of what the
      clock and the system's calls answer.
    - CMem: blocks of memory reached through pointers, malloc and free, and
      the mutexes, condition variables and thread handles in them, with a
      predicate for runs ([runs]) and its rules.  Lifecycle: the init and
      destroy functions of twelve of the library's objects over it, and the
      handlers that cancellation runs; LifecycleThreads: the theorems of those
      that own threads.

    The programs
    - App: the command lines, starts and cleanups of bme680_app.c (whose start
      runs on Logger) and 1.c, and what they compute.
    - AppMain: main of bme680_app.c over CMem and Lifecycle, from its first
      init to its end.
    - AppLoop: read_sensor and event_loop of bme680_app.c, over any objects
      that keep SharedObject's interface, and over Monitor, FifoSemaphore and
      EventPair.
    - ReaderTasks: the four tasks of 1.c, over the descriptors and queues that
      they share.

    ** What the theorems show

    - Data: the calibration decoder inverts the chip's layout (one field
      excepted); the compensation formulas are the integer formulas without
      overflow on typed inputs, with the ranges of their results and their
      traps.
    - Driver: the register map that a configuration leaves is the abstract
      [config_regs]; the mode round trip; the bytes a reading is assembled
      from; the value of every channel; the end-of-conversion poll ends after
      at most ten reads; every entry point leaves the lock free; what a
      successful probe establishes.
    - Sessions: whatever the bus does and whichever calls fail, the driver's
      state stays well typed.
    - SPI: any session of paged accesses behaves as a flat register file
      (refinement), as long as no page change is interrupted; a session of the
      whole driver over it answers as on the chip itself.  I2C: the register
      map over the accessors keeps every law the driver assumes.
    - Alerts: the polling thread, the FIFO and a threshold task implement a
      bounded queue, which refuses a sample exactly when it is full; what is
      taken is alerted once and in order; the System V message is sent at most
      once; which runs of a task leave its timer dead.
    - Concurrency, for any number of threads and every interleaving: mutual
      exclusion and exact counters (Rwlock, RecursiveMutex), accounting
      (FifoSemaphore, EventPair), separation of rounds (Barrier), absence of
      deadlock and of lost wake-ups, queues implemented by a ring and by a
      linked list (Monitor, ThreadPool), atomic registers implemented by
      copies in steps (IpcSync, Config), an atomic bus (PubSub), the bounds of
      what a line of unsynchronised stages computes (AssemblyLine).  Threads
      release only the locks they hold ([may_call]); what a stray
      rwlock_unlock does is part of [rwlock_counters].
    - Compositions: the stages with their barrier and their forks refine the
      abstract line and never get stuck together (StageThreads).
    - Lifecycle: what the init and destroy functions leave of the memory,
      whatever the system answers: the objects that are lost, those that are
      given back in full, and the failures that end in undefined behaviour
      (a refused mutex among them, which barrier_init and event_pair_init
      ignore).
    - Programs: the path of a sample from the sensor through monitor, event
      loop and assembly line to the pool (what the sensor delivered is stored,
      given up or at work), and from the device to the reader's queues; the
      mq_send in which the producer falls asleep for good; the end of the event loop once running is cleared; the end of the
      reader's tasks after a signal, and what prevents it; the descriptors they
      close twice; the pointers that bme680_app never
      sets; the decoding of a block, the period of a timer.
    - Behaviour that contradicts what the code means to do is stated and
      proved as such: the reader left asleep by a writer's timeout, the
      barrier that a spurious wake-up opens, the circular wait that the
      detector accepts, the pool that never runs a task and cannot be
      destroyed, the logger that waits for itself and the program that
      therefore never starts, the alert timer that dies, the semaphore that a
      second process resets, the loop whose count is no limit.

    ** Bounds, fuel, assumptions

    - The only fuel is the ten turns of the end-of-conversion poll, which are
      the code's own counter, and the size of the heap in [free_tasks]
      (ThreadPool), proved enough by [free_tasks_lookup]; in Lifecycle the list
      of tasks is walked at most once per block that was ever allocated, and
      AppMain walks the list of subscribers with the same bound.
    - Integers are reduced at the width of their C type where the code
      computes with data; counters of threads are unbounded where the
      invariant bounds them by the number of threads, and RecursiveMutex
      assumes fewer than 2^31 events.
    - An access to shared memory outside any lock is one atomic step; a copy
      of a structure is one step per field.  Where the code leaves defined
      behaviour (a worker of the pool that goes on without the mutex after a
      timeout, a use of a closed file, an unlock by a client that does not
      hold the lock) the model stops the thread ([Hang], [Stuck], [None]).
    - Whether a call of the system or an allocation succeeds is an argument or
      part of an event where the definition says so; elsewhere allocations
      succeed.  Log messages and CPU affinity are left out.
    - The models of concurrency start from an initialised object, also where
      init assigns its own parameter, which Lifecycle shows.  Lifecycle runs
      init and destroy while no other thread uses the object; pthread_cond_init
      succeeds there, pthread_mutex_init, malloc and pthread_create answer as
      the environment says, and a joined thread returns, acts on its
      cancellation or never ends.
    - The temperature that the stages count up is of a class [TempType]
      (AssemblyLine): an s32, or a float, whose additions are exact up to 2^24
      and stop there ([float_stops_growing]); other temperatures are integers,
      except in App, where the float is exact in sixteenths.
    - The completion and the atomic counter of Alerts keep their widths: the
      one saturates, the other wraps.

    ** Not modelled

    The place at which a cancelled thread stops (Lifecycle has the handlers).
    The program cancels three kinds of threads: the stages, whose handler is
    undefined wherever it runs (LifecycleThreads); the timer's, when nobody
    else uses its objects any more; and, in the child of a fork, threads that
    do not exist there.  Also left out: the module, driver, attribute and
    channel tables; the declarations of the headers; the formatting of log
    messages; and two functions of bme680_app.c that cannot be part of the
    program (the first event_loop, which the second one redefines, and
    signal_handler, which uses a variable of main). *)

From stdpp Require Export base tactics numbers list gmap option strings sorting.
From Stdlib Require Export ZArith Lia ZifyBool.

Open Scope Z_scope.

(** ** Error numbers (the errno.h values the sources return negated) *)

Definition EPERM : Z := 1.
Definition EIO : Z := 5.
Definition EBADF : Z := 9.
Definition EAGAIN : Z := 11.
Definition ENOMEM : Z := 12.
Definition ENODEV : Z := 19.
Definition EINVAL : Z := 22.
Definition EDEADLK : Z := 35.
Definition EMSGSIZE : Z := 90.
Definition ETIMEDOUT : Z := 110.

(** ** Tactics *)

(** Case analysis on the tests of a C condition in the goal or a hypothesis. *)
Ltac csplit :=
  repeat match goal with
  | |- context [if ?b then _ else _] => destruct b eqn:?
  | H : context [if ?b then _ else _] |- _ => destruct b eqn:?
  end; simplify_eq/=.

(** Linear arithmetic with division and remainder by constants. *)
Ltac dlia := Z.to_euclidean_division_equations; lia.

(** ** Counting the elements of a list that satisfy a test

    The synchronisation components keep integer counters (active readers,
    waiting writers, held forks); their invariants relate such a counter to
    the number of threads in a given state. *)

Section count.
Context {A : Type}.
Implicit Types (f g : A -> bool) (l : list A).

Fixpoint count_if f l : Z :=
  match l with
  | [] => 0
  | x :: l => Z.b2z (f x) + count_if f l
  end.

Lemma count_if_nonneg f l : 0 <= count_if f l.
Proof. induction l as [|x l IH]; simpl; [lia|]. destruct (f x); simpl; lia. Qed.

Lemma count_if_le_length f l : count_if f l <= Z.of_nat (length l).
Proof. induction l as [|x l IH]; simpl; [lia|]. destruct (f x); simpl; lia. Qed.

Lemma count_if_app f l k : count_if f (l ++ k) = count_if f l + count_if f k.
Proof. induction l as [|x l IH]; simpl; [lia|]. lia. Qed.

(** Replacing one element moves the count by the difference of the tests. *)
Lemma count_if_insert f l i x y :
  l !! i = Some x ->
  count_if f (<[i:=y]> l) = count_if f l - Z.b2z (f x) + Z.b2z (f y).
Proof.
  revert i; induction l as [|z l IH]; intros [|i] H; simplify_eq/=; [lia|].
  rewrite (IH _ H). lia.
Qed.

Lemma count_if_lookup f l i x :
  l !! i = Some x -> f x = true -> 1 <= count_if f l.
Proof.
  revert i; induction l as [|z l IH]; intros [|i] H Hx; simplify_eq/=.
  - rewrite Hx; simpl. pose proof (count_if_nonneg f l). lia.
  - specialize (IH _ H Hx). destruct (f z); simpl; lia.
Qed.

Lemma count_if_pos f l :
  0 < count_if f l -> exists i x, l !! i = Some x /\ f x = true.
Proof.
  induction l as [|z l IH]; simpl; [lia|]. destruct (f z) eqn:Hz; intros H.
  - exists 0%nat, z. done.
  - destruct IH as (i & x & Hi & Hx); [simpl in H; lia|].
    exists (S i), x. done.
Qed.

Lemma count_if_zero f l :
  count_if f l = 0 <-> forall i x, l !! i = Some x -> f x = false.
Proof.
  split.
  - intros H i x Hi. destruct (f x) eqn:Hx; [|done].
    pose proof (count_if_lookup f l i x Hi Hx). lia.
  - intros H. pose proof (count_if_nonneg f l).
    destruct (decide (0 < count_if f l)) as [Hp|]; [|lia].
    destruct (count_if_pos f l Hp) as (i & x & Hi & Hx).
    rewrite (H i x Hi) in Hx. done.
Qed.

(** Two different positions satisfying the test make the count at least 2. *)
Lemma count_if_two f l i j x y :
  i <> j -> l !! i = Some x -> l !! j = Some y ->
  f x = true -> f y = true -> 2 <= count_if f l.
Proof.
  revert i j; induction l as [|z l IH]; intros [|i] [|j] Hij Hi Hj Hx Hy;
    simplify_eq/=.
  - rewrite Hx. pose proof (count_if_lookup f l j y Hj Hy). simpl; lia.
  - rewrite Hy. pose proof (count_if_lookup f l i x Hi Hx). simpl; lia.
  - assert (i <> j) as Hne by congruence.
    specialize (IH i j Hne Hi Hj Hx Hy). destruct (f z); simpl; lia.
Qed.

Lemma count_if_ext f g l :
  (forall x, f x = g x) -> count_if f l = count_if g l.
Proof. intros H; induction l as [|x l IH]; simpl; [done|]. by rewrite H, IH. Qed.

Lemma count_if_le f g l :
  Forall (fun x => f x = true -> g x = true) l -> count_if f l <= count_if g l.
Proof.
  induction 1 as [|x l Hx _ IH]; simpl; [lia|].
  destruct (f x); [rewrite Hx by done|destruct (g x)]; simpl; lia.
Qed.

(** If all elements but one satisfy the test, the one that does not is alone. *)
Lemma count_if_all_but f l i x :
  l !! i = Some x -> f x = false -> count_if f l = Z.of_nat (length l) - 1 ->
  forall j y, j <> i -> l !! j = Some y -> f y = true.
Proof.
  intros Hi Hx Hc j y Hji Hj. destruct (f y) eqn:Hy; [done|].
  assert (count_if f l + count_if (fun x => negb (f x)) l = Z.of_nat (length l)) as Hn.
  { clear. induction l as [|z l IH]; simpl; [done|]. destruct (f z); simpl; lia. }
  pose proof (count_if_two (fun x => negb (f x)) l i j x y) as H2.
  cbv beta in H2. rewrite Hx, Hy in H2. specialize (H2 (not_eq_sym Hji) Hi Hj eq_refl eq_refl). lia.
Qed.

(** A map that does not change the test does not change the count. *)
Lemma count_if_map f (h : A -> A) l :
  (forall x, f (h x) = f x) -> count_if f (map h l) = count_if f l.
Proof. intros H; induction l as [|x l IH]; simpl; [done|]. by rewrite H, IH. Qed.

Lemma count_if_replicate f n x :
  count_if f (replicate n x) = if f x then Z.of_nat n else 0.
Proof.
  induction n as [|n IH]; simpl; [by destruct (f x)|].
  rewrite IH. destruct (f x); simpl; lia.
Qed.
End count.

(** ** Lemmas on list update shared by the components *)

Lemma list_lookup_insert_case {A} (l : list A) i j x y :
  <[i:=x]> l !! j = Some y ->
  (i = j /\ y = x /\ (i < length l)%nat) \/ (i <> j /\ l !! j = Some y).
Proof.
  intros H. destruct (decide (i = j)) as [->|Hne].
  - left. assert (j < length l)%nat as Hlt.
    { apply lookup_lt_Some in H. by rewrite length_insert in H. }
    rewrite list_lookup_insert_eq in H by done. naive_solver.
  - right. by rewrite list_lookup_insert_ne in H by done.
Qed.

(** ** Hint databases *)

Create HintDb bme680.
#[export] Hint Resolve count_if_nonneg count_if_le_length : bme680.
Create HintDb bme680_rw.
Create Rewrite HintDb bme680_rw.
#[export] Hint Rewrite @length_insert @count_if_replicate : bme680_rw.
