(* ===== verification/CInt.v ===== *)
(** * CInt: C integers at their width

    The integer types the sources use (u8 .. s64 in the driver, uint8_t ..
    int64_t, int and unsigned in the application), a value being a [Z] in the
    type's range.  [cast t] is conversion to type [t]: reduction modulo 2^w,
    re-centred for a signed type.  Signed overflow wraps (the kernel is built
    so; for user-space code it is what the hardware does, and the theorems
    that depend on a counter prove that it stays in range).  Division and
    remainder truncate towards zero and are [None] on a zero divisor, where
    the machine traps.  [Bnd] is interval arithmetic by instance search: it
    proves that the intermediate results of a compensation formula fit. *)

From S2P Require Import Prelude.

Inductive ity := U8 | S8 | U16 | S16 | U32 | S32 | U64 | S64.

#[export] Instance ity_eq_dec : EqDecision ity.
Proof. solve_decision. Defined.

Definition modulus (t : ity) : Z :=
  match t with
  | U8 | S8 => 256
  | U16 | S16 => 65536
  | U32 | S32 => 4294967296
  | U64 | S64 => 18446744073709551616
  end.

Definition tmin (t : ity) : Z :=
  match t with
  | U8 | U16 | U32 | U64 => 0
  | S8 => -128
  | S16 => -32768
  | S32 => -2147483648
  | S64 => -9223372036854775808
  end.

Definition tmax (t : ity) : Z := tmin t + modulus t - 1.

Definition in_range (t : ity) (z : Z) : Prop := tmin t <= z <= tmax t.

#[export] Instance in_range_dec t z : Decision (in_range t z).
Proof. unfold in_range. apply _. Defined.

Definition cast (t : ity) (z : Z) : Z := (z - tmin t) mod modulus t + tmin t.

(** ** Operators at a type: [x +[t] y] is C's [x + y] evaluated at type [t] *)

Declare Scope c_scope.
Delimit Scope c_scope with c.
Notation "x +[ t ] y" := (cast t (x + y)) (at level 50, left associativity) : c_scope.
Notation "x -[ t ] y" := (cast t (x - y)) (at level 50, left associativity) : c_scope.
Notation "x *[ t ] y" := (cast t (x * y)) (at level 40, left associativity) : c_scope.
Notation "x <<[ t ] n" := (cast t (Z.shiftl x n)) (at level 40, left associativity) : c_scope.
Notation "x >>[ t ] n" := (cast t (Z.shiftr x n)) (at level 40, left associativity) : c_scope.
Open Scope c_scope.

(** C's [/] and [%]: truncated, undefined (a trap) on zero. *)
Definition cdiv (t : ity) (x y : Z) : option Z :=
  if y =? 0 then None else Some (cast t (Z.quot x y)).

(** ** Conversion lemmas *)

Lemma modulus_pos t : 0 < modulus t.
Proof. by destruct t. Qed.

Lemma cast_range t z : in_range t (cast t z).
Proof.
  unfold in_range, tmax, cast.
  pose proof (Z.mod_pos_bound (z - tmin t) (modulus t) (modulus_pos t)). lia.
Qed.

Lemma cast_id t z : in_range t z -> cast t z = z.
Proof.
  unfold in_range, tmax, cast. intros H. rewrite Z.mod_small by lia. lia.
Qed.

Lemma cast_idemp t z : cast t (cast t z) = cast t z.
Proof. apply cast_id, cast_range. Qed.

Lemma cast_id_iff t z : cast t z = z <-> in_range t z.
Proof. split; [|apply cast_id]. intros <-. apply cast_range. Qed.

(** Two integers convert to the same value exactly when they differ by a
    multiple of the modulus. *)
Lemma cast_eq_iff t a b : cast t a = cast t b <-> (a - b) mod modulus t = 0.
Proof.
  unfold cast. pose proof (modulus_pos t) as Hm. split.
  - intros H. assert ((a - tmin t) mod modulus t = (b - tmin t) mod modulus t) as E by lia.
    replace (a - b) with ((a - tmin t) - (b - tmin t)) by lia.
    rewrite Zminus_mod, E, Z.sub_diag. apply Z.mod_0_l. lia.
  - intros H. f_equal.
    replace (a - tmin t) with ((b - tmin t) + (a - b)) by lia.
    rewrite Z.add_mod, H, Z.add_0_r, Z.mod_mod by lia. done.
Qed.

Lemma cast_u_small t z : tmin t = 0 -> 0 <= z < modulus t -> cast t z = z.
Proof. intros H0 H. apply cast_id. unfold in_range, tmax. lia. Qed.

(** Converting a negative [int] to [unsigned] adds 2^32. *)
Lemma cast_u32_neg z : -4294967296 <= z < 0 -> cast U32 z = z + 4294967296.
Proof.
  intros H. unfold cast; simpl tmin; simpl modulus.
  rewrite Z.sub_0_r, Z.add_0_r.
  rewrite <- (Z.mod_add z 1 4294967296) by lia. apply Z.mod_small. lia.
Qed.

(** Converting through a type of the same width. *)
Lemma cast_same_modulus t t' z :
  modulus t = modulus t' -> cast t (cast t' z) = cast t z.
Proof.
  intros Hm. apply cast_eq_iff. rewrite Hm. apply cast_eq_iff, cast_idemp.
Qed.

Lemma cast_u t z : tmin t = 0 -> cast t z = z mod modulus t.
Proof. unfold cast. intros ->. by rewrite Z.sub_0_r, Z.add_0_r. Qed.

(** Reassembling a 16-bit value from its two bytes. *)
Lemma le_bytes_cast t z :
  modulus t = 65536 -> in_range t z ->
  cast t (cast U8 z + 256 * cast U8 (Z.shiftr z 8)) = z.
Proof.
  intros Hm Hz. rewrite <- (cast_id t z Hz) at 3. apply cast_eq_iff.
  rewrite !cast_u, Z.shiftr_div_pow2 by done. simpl (modulus U8).
  change (2 ^ 8) with 256. rewrite Hm.
  rewrite <- Z.rem_mul_r by lia. change (256 * 256) with 65536.
  rewrite <- Zminus_mod_idemp_l, Z.mod_mod, Zminus_mod_idemp_l by lia.
  by rewrite Z.sub_diag.
Qed.

(** A shifted value or-ed with low bits below the shift is their sum. *)
Lemma lor_shiftl_add a b n :
  0 <= n -> 0 <= b < 2 ^ n -> Z.lor (Z.shiftl a n) b = a * 2 ^ n + b.
Proof.
  intros Hn Hb. rewrite <- Z.shiftl_mul_pow2 by done.
  assert (Z.land (Z.shiftl a n) b = 0) as Hd.
  { apply Z.bits_inj'; intros i Hi. rewrite Z.land_spec, Z.shiftl_spec, Z.bits_0 by lia.
    destruct (Z.lt_ge_cases i n) as [Hin|Hin]; [by rewrite Z.testbit_neg_r by lia|].
    rewrite <- (Z.mod_small b (2 ^ n)), Z.mod_pow2_bits_high by lia.
    apply andb_false_r. }
  by rewrite <- Z.lxor_lor, Z.add_nocarry_lxor.
Qed.

#[export] Hint Resolve cast_range : bme680.

(** ** Interval arithmetic by instance search *)

Class Bnd (x lo hi : Z) : Prop := bnd : lo <= x <= hi.
#[export] Hint Mode Bnd ! - - : typeclass_instances.
(** The search is on the operator that is written, never on its unfolding. *)
#[export] Hint Opaque Z.add Z.sub Z.mul Z.div Z.quot Z.shiftl Z.shiftr cast
  : typeclass_instances.

Definition min4 a b c d : Z := Z.min (Z.min a b) (Z.min c d).
Definition max4 a b c d : Z := Z.max (Z.max a b) (Z.max c d).

#[export] Instance bnd_add x a b y c d :
  Bnd x a b -> Bnd y c d -> Bnd (x + y) (a + c) (b + d).
Proof. unfold Bnd; lia. Qed.

#[export] Instance bnd_sub x a b y c d :
  Bnd x a b -> Bnd y c d -> Bnd (x - y) (a - d) (b - c).
Proof. unfold Bnd; lia. Qed.

Lemma mul_interval_l x a b y :
  a <= x <= b -> Z.min (a * y) (b * y) <= x * y <= Z.max (a * y) (b * y).
Proof.
  intros [Ha Hb]. destruct (Z.le_ge_cases 0 y) as [Hy|Hy].
  - pose proof (Z.mul_le_mono_nonneg_r _ _ y Hy Ha).
    pose proof (Z.mul_le_mono_nonneg_r _ _ y Hy Hb). lia.
  - pose proof (Z.mul_le_mono_nonpos_r _ _ y Hy Ha).
    pose proof (Z.mul_le_mono_nonpos_r _ _ y Hy Hb). lia.
Qed.

#[export] Instance bnd_mul x a b y c d :
  Bnd x a b -> Bnd y c d ->
  Bnd (x * y) (min4 (a * c) (a * d) (b * c) (b * d))
              (max4 (a * c) (a * d) (b * c) (b * d)).
Proof.
  unfold Bnd, min4, max4. intros Hx Hy.
  pose proof (mul_interval_l x a b y Hx) as H1.
  pose proof (mul_interval_l y c d a Hy) as H2.
  pose proof (mul_interval_l y c d b Hy) as H3.
  rewrite !(Z.mul_comm y) in *. rewrite !(Z.mul_comm _ a) in *.
  rewrite !(Z.mul_comm _ b) in *. lia.
Qed.

#[export] Instance bnd_shiftr x a b n :
  Bnd x a b -> Bnd (Z.shiftr x n) (Z.shiftr a n) (Z.shiftr b n).
Proof.
  unfold Bnd. intros H. destruct (Z.le_ge_cases 0 n) as [Hn|Hn].
  - rewrite !Z.shiftr_div_pow2 by done.
    pose proof (Z.pow_pos_nonneg 2 n ltac:(lia) Hn).
    split; apply Z.div_le_mono; lia.
  - rewrite <- (Z.opp_involutive n), !Z.shiftr_opp_r.
    rewrite !Z.shiftl_mul_pow2 by lia.
    pose proof (Z.pow_pos_nonneg 2 (- n) ltac:(lia) ltac:(lia)). nia.
Qed.

#[export] Instance bnd_shiftl x a b n :
  Bnd x a b -> Bnd (Z.shiftl x n) (Z.shiftl a n) (Z.shiftl b n).
Proof.
  intros H. rewrite <- (Z.opp_involutive n), !Z.shiftl_opp_r.
  by apply bnd_shiftr.
Qed.

#[export] Instance bnd_quot x a b p :
  Bnd x a b -> Bnd (Z.quot x (Zpos p)) (Z.quot a (Zpos p)) (Z.quot b (Zpos p)).
Proof. unfold Bnd. intros H. split; apply Z.quot_le_mono; lia. Qed.

#[export] Instance bnd_div x a b p :
  Bnd x a b -> Bnd (x / Zpos p) (a / Zpos p) (b / Zpos p).
Proof. unfold Bnd. intros H. split; apply Z.div_le_mono; lia. Qed.

(** The fallback: a converted value is in its type's range. *)
#[export] Instance bnd_cast t x : Bnd (cast t x) (tmin t) (tmax t) | 50.
Proof. apply cast_range. Qed.

Lemma bnd_const c : Bnd c c c.
Proof. unfold Bnd; lia. Qed.

Ltac is_zconst c :=
  lazymatch c with
  | Z0 => idtac | Zpos ?p => is_pconst p | Zneg ?p => is_pconst p
  end
with is_pconst p :=
  lazymatch p with xH => idtac | xO ?q => is_pconst q | xI ?q => is_pconst q end.

#[export] Hint Extern 0 (Bnd ?c _ _) =>
  is_zconst c; apply bnd_const : typeclass_instances.

(** A range hypothesis used as a bound. *)
Lemma in_range_bnd t x : in_range t x -> Bnd x (tmin t) (tmax t).
Proof. done. Qed.

(** A conversion is the identity once the interval of its argument fits. *)
Lemma cast_bnd t x lo hi :
  Bnd x lo hi -> ((tmin t <=? lo) && (hi <=? tmax t) = true)%bool -> cast t x = x.
Proof.
  unfold Bnd. intros H Hb. apply cast_id. unfold in_range.
  apply andb_prop in Hb. lia.
Qed.

(** [drop_casts] removes, innermost first, every conversion whose argument
    provably fits. *)
Ltac no_cast e := lazymatch e with context [cast _ _] => fail | _ => idtac end.
Ltac drop_casts :=
  repeat match goal with
  | |- context [cast ?t ?e] =>
      no_cast e;
      rewrite (cast_bnd t e _ _ ltac:(typeclasses eauto) ltac:(vm_compute; reflexivity))
  end.

(** [bound e as H] proves the interval of [e] and names it. *)
Tactic Notation "bound" constr(e) "as" ident(H) :=
  let T := open_constr:(Bnd e _ _) in
  assert T as H by typeclasses eauto;
  match type of H with
  | Bnd ?x ?a ?b =>
      let a' := eval vm_compute in a in
      let b' := eval vm_compute in b in
      change (Bnd x a' b') in H
  end.

Lemma bnd_weaken x a b lo hi :
  Bnd x a b -> ((lo <=? a) && (b <=? hi) = true)%bool -> Bnd x lo hi.
Proof. unfold Bnd. intros H Hb. apply andb_prop in Hb. lia. Qed.

(** [by_bound] proves a goal [Bnd e lo hi] from the interval of [e]. *)
Ltac by_bound := eapply bnd_weaken; [typeclasses eauto|vm_compute; reflexivity].

(** Shifts by constants are divisions and products by powers of two. *)
Ltac norm_shifts :=
  repeat (rewrite Z.shiftr_div_pow2 by lia); repeat (rewrite Z.shiftl_mul_pow2 by lia);
  repeat match goal with |- context [2 ^ ?n] =>
    let v := eval vm_compute in (2 ^ n) in change (2 ^ n) with v end.

(** Two let-chains agree if their heads do and the rests agree on every value
    in the head's interval. *)
Lemma let_exact {A} (e e' lo hi : Z) (f g : Z -> A) :
  e = e' -> Bnd e' lo hi -> (forall x, Bnd x lo hi -> f x = g x) -> f e = g e'.
Proof. intros -> Hb Hf. auto. Qed.

(** One step along two let-chains, the left one with conversions, the right
    one over unbounded integers: the conversions of the head are dropped and
    the head becomes a variable with its interval. *)
Ltac let_step :=
  match goal with
  | |- (let y := ?e in @?f y) = (let z := ?e' in @?g z) =>
      let Hb := fresh "Hb" in
      bound e' as Hb;
      lazymatch type of Hb with
      | Bnd _ ?a ?b =>
          refine (let_exact e e' a b f g _ Hb _);
          [clear Hb; drop_casts; norm_shifts; reflexivity
          |clear Hb; let x := fresh "v" in intros x ?; cbv beta]
      end
  end.

(** Inlines the first let of the left-hand side. *)
Ltac let_subst :=
  match goal with
  | |- (let x := ?e in @?f x) = ?r =>
      let t := eval cbv beta in (f e) in change (t = r)
  end.

(** A quotient is no larger than its (nonnegative) dividend. *)
Lemma quot_bnd p w hi : 0 <= p <= hi -> w <> 0 -> Bnd (Z.quot p w) (- hi) hi.
Proof.
  unfold Bnd. intros Hp Hw. destruct (Z.lt_ge_cases 0 w).
  - pose proof (Z.quot_pos p w ltac:(lia) ltac:(lia)).
    pose proof (Z.quot_le_upper_bound p w p ltac:(lia) ltac:(nia)). lia.
  - pose proof (Z.quot_opp_r p w Hw) as E.
    pose proof (Z.quot_pos p (- w) ltac:(lia) ltac:(lia)).
    pose proof (Z.quot_le_upper_bound p (- w) p ltac:(lia) ltac:(nia)). lia.
Qed.
