(* ===== verification/Timer.v ===== *)
(** * Timer: the periodic thread (timer.c)

    timer_task takes the time, computes the deadline of the turn, runs the
    callback and sleeps until the deadline.  A [timespec] is seconds and
    nanoseconds; the arithmetic is that of a 64-bit long.  The clock, what the
    callback takes, and when clock_nanosleep returns come from the
    environment as the readings of the turns.

    The theorems: the deadline is the time plus the interval, in normal form,
    for every interval from 0 to 9.2 * 10^12 ms; a negative interval gives a
    time that clock_nanosleep refuses; and callbacks are at least the interval
    apart when the sleep keeps its promise. *)

From S2P Require Import Prelude CInt.

Record timespec := { tv_sec : Z; tv_nsec : Z }.

Definition ns (t : timespec) : Z := tv_sec t * 1000000000 + tv_nsec t.
Definition normal (t : timespec) : Prop := 0 <= tv_nsec t < 1000000000.

(** The deadline of a turn that starts at [ts]. *)
Definition timer_deadline (interval_ms : Z) (ts : timespec) : timespec :=
  let nsec := tv_nsec ts +[S64] (interval_ms *[S64] 1000000) in
  if nsec >=? 1000000000
  then {| tv_sec := tv_sec ts +[S64] Z.quot nsec 1000000000; tv_nsec := Z.rem nsec 1000000000 |}
  else {| tv_sec := tv_sec ts; tv_nsec := nsec |}.

(** The clock of a machine that has been up for less than 2^62 seconds. *)
Definition clock_ok (ts : timespec) : Prop := normal ts /\ 0 <= tv_sec ts < 2 ^ 62.

Lemma timer_deadline_sum interval_ms ts :
  clock_ok ts -> 0 <= interval_ms <= 9200000000000 ->
  ns (timer_deadline interval_ms ts) = ns ts + interval_ms * 1000000 /\ normal (timer_deadline interval_ms ts).
Proof.
  intros [Hn Hs] Hi. unfold normal in *. change (2 ^ 62) with 4611686018427387904 in Hs. unfold timer_deadline.
  rewrite (cast_id S64 (interval_ms * 1000000)) by (unfold in_range, tmax; cbn [tmin modulus]; lia).
  rewrite cast_id by (unfold in_range, tmax; cbn [tmin modulus]; lia).
  destruct (Z.geb_spec (tv_nsec ts + interval_ms * 1000000) 1000000000); unfold ns, normal; cbn [tv_sec tv_nsec]; [|lia].
  rewrite Z.quot_div_nonneg, Z.rem_mod_nonneg by lia. rewrite cast_id by (unfold in_range, tmax; cbn [tmin modulus]; dlia).
  dlia.
Qed.

(** The deadline of a turn.  For every clock reading in normal form and
    every interval between 0 and 9.2 * 10^12 milliseconds the deadline is
    exactly the reading plus the interval, without overflow and with the
    nanoseconds in normal form.  For a negative interval no seconds are
    carried: if the interval exceeds the nanoseconds of the reading, those of
    the deadline are negative. *)
Theorem timer_deadline_exact interval_ms ts :
  clock_ok ts -> -9200000000000 <= interval_ms <= 9200000000000 ->
  (0 <= interval_ms ->
   ns (timer_deadline interval_ms ts) = ns ts + interval_ms * 1000000 /\ normal (timer_deadline interval_ms ts)) /\
  (interval_ms < 0 ->
   tv_sec (timer_deadline interval_ms ts) = tv_sec ts /\
   tv_nsec (timer_deadline interval_ms ts) = tv_nsec ts + interval_ms * 1000000 /\
   (normal (timer_deadline interval_ms ts) <-> - interval_ms * 1000000 <= tv_nsec ts)).
Proof.
  intros Hts Hi. split; [intros; apply timer_deadline_sum; [done|lia]|]. intros Hneg. destruct Hts as [Hn _].
  unfold normal in *. unfold timer_deadline.
  rewrite (cast_id S64 (interval_ms * 1000000)) by (unfold in_range, tmax; cbn [tmin modulus]; lia).
  rewrite cast_id by (unfold in_range, tmax; cbn [tmin modulus]; lia).
  destruct (Z.geb_spec (tv_nsec ts + interval_ms * 1000000) 1000000000); cbn [tv_sec tv_nsec]; [lia|].
  split_and!; [done|done|lia].
Qed.

(** ** The thread *)

(** A turn: the reading of the clock, and the time at which clock_nanosleep
    returned (0 and not before the deadline, or an error at once). *)
Record turn := { now : timespec; woken : timespec; sleep_ret : Z }.

(** The callbacks of a run of the thread: at each turn that the loop enters
    ([running] is read before it), one, at the reading of the turn. *)
Fixpoint timer_task (running : list bool) (turns : list turn) : list timespec :=
  match running, turns with
  | true :: running, t :: turns => now t :: timer_task running turns
  | _, _ => []
  end.

(** The environment: the clock does not go back, and a sleep that returns 0
    returns at or after the deadline. *)
Fixpoint turns_ok (interval_ms : Z) (turns : list turn) : Prop :=
  match turns with
  | [] => True
  | t :: turns =>
      clock_ok (now t) /\ ns (now t) <= ns (woken t) /\
      (sleep_ret t = 0 -> ns (timer_deadline interval_ms (now t)) <= ns (woken t)) /\
      match turns with [] => True | t' :: _ => ns (woken t) <= ns (now t') end /\
      turns_ok interval_ms turns
  end.

Fixpoint spaced (d : Z) (l : list timespec) : Prop :=
  match l with
  | t :: ((t' :: _) as l') => ns t + d <= ns t' /\ spaced d l'
  | _ => True
  end.

(** The period.  As long as every clock_nanosleep returns 0, two
    consecutive callbacks start at least the interval apart, whatever the
    callbacks take; once running is cleared there is no further callback. *)
Theorem timer_period interval_ms running turns :
  0 <= interval_ms <= 9200000000000 -> turns_ok interval_ms turns -> Forall (fun t => sleep_ret t = 0) turns ->
  spaced (interval_ms * 1000000) (timer_task running turns) /\
  (forall k, running !! k = Some false -> (length (timer_task running turns) <= k)%nat).
Proof.
  intros Hi Hok Hs. split.
  - revert running Hok Hs. induction turns as [|t turns IH]; intros running Hok Hs; [by destruct running as [|[] ?]|].
    apply Forall_cons in Hs as [Hs0 Hs]. destruct Hok as (Hc & _ & Hd & Hnext & Hok).
    destruct running as [|[] running]; [done| |done]. simpl. specialize (IH running Hok Hs).
    destruct running as [|[] running]; [by destruct turns| |by destruct turns].
    destruct turns as [|t' turns]; [done|]. simpl in IH |- *. split; [|done].
    destruct (timer_deadline_sum interval_ms (now t) Hc Hi) as [Hsum _]. specialize (Hd Hs0). lia.
  - clear Hok Hs. revert turns. induction running as [|[] running IH]; intros turns [|k] Hk; simplify_eq/=; try lia.
    + destruct turns as [|t turns]; simpl; [lia|]. specialize (IH turns k Hk). lia.
Qed.

(** ** Witnesses *)

Definition ts_ex (s n : Z) : timespec := {| tv_sec := s; tv_nsec := n |}.

Lemma timer_deadline_exact_witness :
  timer_deadline 1500 (ts_ex 10 700000000) = ts_ex 12 200000000 /\
  ns (timer_deadline 1500 (ts_ex 10 700000000)) = ns (ts_ex 10 700000000) + 1500 * 1000000.
Proof.
  split; [reflexivity|].
  apply (timer_deadline_exact 1500 (ts_ex 10 700000000)); [|lia|lia]. unfold clock_ok, normal. simpl. lia.
Defined.

Definition turns_ex : list turn :=
  [{| now := ts_ex 1 0; woken := ts_ex 2 0; sleep_ret := 0 |}; {| now := ts_ex 2 5; woken := ts_ex 3 5; sleep_ret := 0 |};
   {| now := ts_ex 3 7; woken := ts_ex 4 7; sleep_ret := 0 |}].

Lemma timer_period_witness :
  timer_task [true; true; true; false] turns_ex = [ts_ex 1 0; ts_ex 2 5; ts_ex 3 7] /\
  spaced (1000 * 1000000) (timer_task [true; true; true; false] turns_ex).
Proof.
  split; [reflexivity|].
  apply (timer_period 1000 [true; true; true; false] turns_ex); [lia| |repeat constructor].
  vm_compute. intuition discriminate.
Defined.
