(* ===== verification/LinuxLib.v ===== *)
(** * LinuxLib: the kernel services the driver calls

    None of this code is under src/: it is the interface the driver is
    written against, given as type classes.  [LinuxLib] is the pure helpers
    (bit-field macros, unaligned loads, ilog2, 64-bit division), [Regmap] the
    register-map accessors over a bus of type [B], [Bme680Macros] the names
    bme680.c uses that neither it nor bme680.h defines.  [LinuxLibOk] and
    [RegmapOk] are their documented behaviour, assumed by the theorems that
    need it; [linux_ref] and [simbus] are concrete instances, which satisfy
    these laws and on which the witnesses run. *)

From S2P Require Import Prelude CInt.

(** ** Results

    A value, the negative return code of a failed call, or [Stuck]: the call
    never returns (a division trap, or [mutex_lock] on a mutex that is not
    going to be released). *)

Inductive res (A : Type) := Ok (a : A) | Err (e : Z) | Stuck.
Arguments Ok {_} _.
Arguments Err {_} _.
Arguments Stuck {_}.

(** A failure code is negative and the call returns. *)
Definition clean {A} (r : res A) : Prop :=
  match r with Ok _ => True | Err e => e < 0 | Stuck => False end.

Definition is_ok {A} (r : res A) : bool :=
  match r with Ok _ => true | _ => false end.

(** ** State and error: [S -> S * res A]

    A C function that returns a negative code on failure is a computation of
    [M S A]; the state changes made before the failure remain.  The
    sequencing notation is stdpp's [x <- m; k]. *)

Definition M (S A : Type) : Type := S -> S * res A.

#[export] Instance M_ret S : MRet (M S) := fun A a s => (s, Ok a).
#[export] Instance M_bind S : MBind (M S) := fun A B k m s =>
  match m s with
  | (s', Ok a) => k a s'
  | (s', Err e) => (s', Err e)
  | (s', Stuck) => (s', Stuck)
  end.

Definition stuck {S A} : M S A := fun s => (s, Stuck).
Definition throw {S A} (e : Z) : M S A := fun s => (s, Err e).
Definition get {S} : M S S := fun s => (s, Ok s).
Definition modify {S} (f : S -> S) : M S unit := fun s => (f s, Ok tt).

Lemma M_bind_ok {S A B} (m : M S A) (k : A -> M S B) s s' a :
  m s = (s', Ok a) -> (m ≫= k) s = k a s'.
Proof. unfold mbind, M_bind. by intros ->. Qed.

Lemma M_bind_err {S A B} (m : M S A) (k : A -> M S B) s s' e :
  m s = (s', Err e) -> (m ≫= k) s = (s', Err e).
Proof. unfold mbind, M_bind. by intros ->. Qed.

Lemma M_bind_stuck {S A B} (m : M S A) (k : A -> M S B) s s' :
  m s = (s', Stuck) -> (m ≫= k) s = (s', Stuck).
Proof. unfold mbind, M_bind. by intros ->. Qed.

(** A sequence that succeeds: both parts do. *)
Lemma M_bind_ok_inv {S A B} (m : M S A) (k : A -> M S B) s s'' b :
  (m ≫= k) s = (s'', Ok b) -> exists s' a, m s = (s', Ok a) /\ k a s' = (s'', Ok b).
Proof.
  unfold mbind, M_bind. destruct (m s) as [s' [a|e|]]; intros H; simplify_eq. eauto.
Qed.

(** The ways a sequence can end: the first part ends it, or the second. *)
Lemma M_bind_inv {S A B} (m : M S A) (k : A -> M S B) s s'' r :
  (m ≫= k) s = (s'', r) ->
  (exists e, m s = (s'', Err e) /\ r = Err e) \/
  (m s = (s'', Stuck) /\ r = Stuck) \/
  (exists s' a, m s = (s', Ok a) /\ k a s' = (s'', r)).
Proof.
  unfold mbind, M_bind. destruct (m s) as [s' [a|e|]]; intros H; simplify_eq.
  - right; right. by exists s', a.
  - left. by exists e.
  - right; left. done.
Qed.

(** A relation between the states before and after a computation, whatever
    its result; [keeps R m] composes when [R] is a preorder. *)
Definition keeps {S A} (R : S -> S -> Prop) (m : M S A) : Prop :=
  forall s s' r, m s = (s', r) -> R s s'.

Lemma keeps_bind {S A B} (R : S -> S -> Prop) (m : M S A) (k : A -> M S B) :
  Transitive R -> keeps R m -> (forall a, keeps R (k a)) -> keeps R (m ≫= k).
Proof.
  intros HR Hm Hk s s' r E.
  apply M_bind_inv in E as [(e & E & _)|[[E _]|(s1 & a & E & E')]]; [eauto..|].
  etrans; [eapply Hm, E|eapply Hk, E'].
Qed.

Lemma keeps_ret {S A} (R : S -> S -> Prop) (a : A) : Reflexive R -> keeps R (mret a).
Proof. intros HR s s' r E. unfold mret, M_ret in E. by simplify_eq. Qed.

Lemma keeps_throw {S A} (R : S -> S -> Prop) e : Reflexive R -> keeps R (throw (A:=A) e).
Proof. intros HR s s' r E. unfold throw in E. by simplify_eq. Qed.

(** The same for the results: no failure code that is not negative, and no
    hang. *)
Definition returns {S A} (m : M S A) : Prop := forall s s' r, m s = (s', r) -> clean r.

Lemma returns_bind {S A B} (m : M S A) (k : A -> M S B) :
  returns m -> (forall a, returns (k a)) -> returns (m ≫= k).
Proof.
  intros Hm Hk s s' r E.
  apply M_bind_inv in E as [(e & E & ->)|[[E ->]|(s1 & a & E & E')]];
    [apply (Hm _ _ _ E)|apply (Hm _ _ _ E)|apply (Hk _ _ _ _ E')].
Qed.

Lemma returns_ret {S A} (a : A) : returns (S:=S) (mret a).
Proof. intros s s' r E. unfold mret, M_ret in E. by simplify_eq. Qed.

Lemma returns_throw {S A} e : e < 0 -> returns (S:=S) (throw (A:=A) e).
Proof. intros He s s' r E. unfold throw in E. by simplify_eq. Qed.

(** ** Pure helpers *)

Class LinuxLib := {
  GENMASK : Z -> Z -> Z;               (* linux/bits.h *)
  BIT : Z -> Z;
  FIELD_GET : Z -> Z -> Z;             (* linux/bitfield.h *)
  FIELD_PREP : Z -> Z -> Z;
  get_unaligned_le16 : Z -> Z -> Z;    (* linux/unaligned.h, of two bytes *)
  ilog2 : Z -> Z;                      (* linux/log2.h *)
  div64_s64 : Z -> Z -> option Z;      (* linux/math64.h; None is a trap *)
}.

(** A mask of the bits [l .. h]. *)
Definition field (h l : Z) : Z := Z.shiftl (Z.ones (h - l + 1)) l.

Class LinuxLibOk {L : LinuxLib} : Prop := {
  GENMASK_ok h l : 0 <= l <= h -> GENMASK h l = field h l;
  BIT_ok n : 0 <= n -> BIT n = Z.shiftl 1 n;
  FIELD_GET_ok h l v :
    0 <= l <= h -> FIELD_GET (field h l) v = Z.shiftr (Z.land v (field h l)) l;
  FIELD_PREP_ok h l v :
    0 <= l <= h -> FIELD_PREP (field h l) v = Z.land (Z.shiftl v l) (field h l);
  le16_ok a b :
    in_range U8 a -> in_range U8 b -> get_unaligned_le16 a b = a + 256 * b;
  ilog2_ok n : 0 < n -> 2 ^ ilog2 n <= n < 2 ^ (ilog2 n + 1);
  div64_s64_ok x y : y <> 0 -> div64_s64 x y = Some (cast S64 (Z.quot x y));
  div64_s64_zero x : div64_s64 x 0 = None;
}.
Arguments LinuxLibOk : clear implicits.

(** ** The register map *)

Class Regmap (B : Type) := {
  regmap_read : Z -> M B Z;
  regmap_write : Z -> Z -> M B unit;
  regmap_bulk_read : Z -> nat -> M B (list Z);
  regmap_update_bits : Z -> Z -> Z -> M B unit;
}.

(** What the driver relies on, for a device whose registers in [stable]
    change only when they are written: [reg_of b r] is the content of
    register [r] when the bus is in state [b]. *)
Class RegmapOk (B : Type) {R : Regmap B} (stable : Z -> bool)
    (reg_of : B -> Z -> Z) : Prop := {
  rm_read_ok b b' r v :
    regmap_read r b = (b', Ok v) -> stable r = true -> v = reg_of b r;
  rm_read_frame b b' r res r' :
    regmap_read r b = (b', res) -> stable r' = true -> reg_of b' r' = reg_of b r';
  rm_write_ok b b' r v r' :
    regmap_write r v b = (b', Ok tt) -> stable r = true -> stable r' = true ->
    reg_of b' r' = if r' =? r then cast U8 v else reg_of b r';
  rm_update_ok b b' r m v r' :
    regmap_update_bits r m v b = (b', Ok tt) -> stable r = true -> stable r' = true ->
    reg_of b' r' =
      if r' =? r
      then cast U8 (Z.lor (Z.land (reg_of b r) (Z.lnot m)) (Z.land v m))
      else reg_of b r';
  rm_bulk_ok b b' r n bs :
    regmap_bulk_read r n b = (b', Ok bs) ->
    length bs = n /\ Forall (in_range U8) bs /\
    forall i, (i < n)%nat -> stable (r + Z.of_nat i) = true ->
      nth i bs 0 = reg_of b (r + Z.of_nat i);
  rm_bulk_frame b b' r n res r' :
    regmap_bulk_read r n b = (b', res) -> stable r' = true ->
    reg_of b' r' = reg_of b r';
  rm_range b r : stable r = true -> in_range U8 (reg_of b r);
  rm_read_clean b b' r res : regmap_read r b = (b', res) -> clean res;
  rm_write_clean b b' r v res : regmap_write r v b = (b', res) -> clean res;
  rm_bulk_clean b b' r n res : regmap_bulk_read r n b = (b', res) -> clean res;
  rm_update_clean b b' r m v res : regmap_update_bits r m v b = (b', res) -> clean res;
}.

(** ** Names bme680.c uses without a definition in the repository *)

Class Bme680Macros := {
  BME680_CALIB_ADDR1 : Z;
  BME680_CALIB_ADDR2 : Z;
  BME680_CALIB_ADDR3 : Z;
  BME680_RSERROR_MASK : Z;
  BME680_MODE_MASK : Z;
  BME680_OSR_MASK : Z;
  BME680_FILTER_MASK : Z;
  BME680_FILTER_3 : Z;
  BME680_REG_MEAS_STATUS_0 : Z;
  BME680_GAS_RANGE_RL_MASK : Z;
  BME680_ENABLE_GAS_MEAS_L : Z;
  BME680_ENABLE_HEATER : Z;
  BME680_OSR_2X : Z;
  BME680_OSR_4X : Z;
  BME680_OSR_8X : Z;
  BME680_CHIP_ID : Z;
  BME680_SPI_MEM_PAGE_BIT : Z;
  lookup_k : Z -> Z;
  lookup_m : Z -> Z;
}.

(** ** Concrete instances, for the witnesses *)

(** The number of trailing zeros of a mask. *)
Fixpoint pos_ctz (p : positive) : Z :=
  match p with xO q => 1 + pos_ctz q | _ => 0 end.
Definition mask_shift (m : Z) : Z :=
  match m with Zpos p => pos_ctz p | _ => 0 end.

Definition linux_ref : LinuxLib := {|
  GENMASK h l := field h l;
  BIT n := Z.shiftl 1 n;
  FIELD_GET m v := Z.shiftr (Z.land v m) (mask_shift m);
  FIELD_PREP m v := Z.land (Z.shiftl v (mask_shift m)) m;
  get_unaligned_le16 a b := a + 256 * b;
  ilog2 n := Z.log2 n;
  div64_s64 x y := cdiv S64 x y;
|}.

Lemma mask_shift_even z : 0 < z -> mask_shift (2 * z) = 1 + mask_shift z.
Proof. by destruct z. Qed.

Lemma mask_shift_odd z : 0 <= z -> mask_shift (2 * z + 1) = 0.
Proof. by destruct z. Qed.

Lemma mask_shift_shiftl z (n : nat) :
  0 < z -> mask_shift (Z.shiftl z (Z.of_nat n)) = Z.of_nat n + mask_shift z.
Proof.
  intros Hz. rewrite Z.shiftl_mul_pow2 by lia.
  induction n as [|n IH]; [by rewrite Z.mul_1_r|].
  replace (z * 2 ^ Z.of_nat (S n)) with (2 * (z * 2 ^ Z.of_nat n)).
  - rewrite mask_shift_even, IH; [lia|].
    pose proof (Z.pow_pos_nonneg 2 (Z.of_nat n)). nia.
  - rewrite Nat2Z.inj_succ, Z.pow_succ_r by lia. lia.
Qed.

Lemma mask_shift_field h l : 0 <= l <= h -> mask_shift (field h l) = l.
Proof.
  intros H. unfold field. rewrite Z.ones_equiv.
  replace (Z.pred (2 ^ (h - l + 1))) with (2 * (2 ^ (h - l) - 1) + 1)
    by (rewrite Z.pow_add_r by lia; lia).
  pose proof (Z.pow_pos_nonneg 2 (h - l) ltac:(lia) ltac:(lia)).
  replace l with (Z.of_nat (Z.to_nat l)) at 2 by lia.
  rewrite mask_shift_shiftl, mask_shift_odd; lia.
Qed.

Lemma linux_ref_ok : LinuxLibOk linux_ref.
Proof.
  constructor; simpl; intros.
  - done.
  - done.
  - by rewrite mask_shift_field.
  - by rewrite mask_shift_field.
  - done.
  - pose proof (Z.log2_spec n ltac:(lia)) as [? ?].
    split; [lia|]. by rewrite Z.add_1_r.
  - unfold cdiv. by rewrite (proj2 (Z.eqb_neq y 0)).
  - done.
Qed.

(** The values the mainline driver gives these names. *)
Definition macros_ref : Bme680Macros := {|
  BME680_CALIB_ADDR1 := 0x8A;
  BME680_CALIB_ADDR2 := 0xE1;
  BME680_CALIB_ADDR3 := 0x00;
  BME680_RSERROR_MASK := field 7 4;
  BME680_MODE_MASK := field 1 0;
  BME680_OSR_MASK := field 7 5;
  BME680_FILTER_MASK := field 4 2;
  BME680_FILTER_3 := 2;
  BME680_REG_MEAS_STATUS_0 := 0x1D;
  BME680_GAS_RANGE_RL_MASK := field 3 0;
  BME680_ENABLE_GAS_MEAS_L := 0x10;
  BME680_ENABLE_HEATER := 0;
  BME680_OSR_2X := 2;
  BME680_OSR_4X := 3;
  BME680_OSR_8X := 4;
  BME680_CHIP_ID := 0x61;
  BME680_SPI_MEM_PAGE_BIT := 16;
  lookup_k i := 2147483647;
  lookup_m i := 2147483647;
|}.

(** A simulated bus: a register file, the values that successive reads of
    the measurement status register will return (then its content), and a
    script of faults (one entry per transfer, [Some e] making that transfer
    fail with a negative code). *)
Record simbus := { regs : Z -> Z; status : list Z; faults : list (option Z) }.

Definition sim_xfer {A} (f : simbus -> (Z -> Z) * list Z * A) : M simbus A := fun b =>
  match faults b with
  | Some e :: fs =>
      ({| regs := regs b; status := status b; faults := fs |}, Err (- Z.abs e - 1))
  | fs => let '(rs, st, a) := f b in
          ({| regs := rs; status := st; faults := tail fs |}, Ok a)
  end.

Definition set_reg (r v : Z) (rs : Z -> Z) : Z -> Z :=
  fun r' => if r' =? r then cast U8 v else rs r'.

#[export] Instance sim_regmap : Regmap simbus := {|
  regmap_read r := sim_xfer (fun b =>
    match (r =? 0x1D), status b with
    | true, v :: st => (regs b, st, cast U8 v)
    | _, _ => (regs b, status b, cast U8 (regs b r))
    end);
  regmap_write r v := sim_xfer (fun b => (set_reg r v (regs b), status b, tt));
  regmap_bulk_read r n := sim_xfer (fun b =>
    (regs b, status b, (fun i => cast U8 (regs b (r + Z.of_nat i))) <$> seq 0 n));
  regmap_update_bits r m v := sim_xfer (fun b =>
    (set_reg r (Z.lor (Z.land (cast U8 (regs b r)) (Z.lnot m)) (Z.land v m)) (regs b),
     status b, tt));
|}.

Lemma sim_xfer_inv {A} f b b' (r : res A) :
  sim_xfer f b = (b', r) ->
  (exists e, r = Err e /\ e < 0 /\ regs b' = regs b) \/
  (r = Ok (snd (f b)) /\ regs b' = fst (fst (f b))).
Proof.
  unfold sim_xfer. destruct (f b) as [[rs st] a] eqn:E.
  destruct (faults b) as [|[e|] fs]; intros H; simplify_eq/=; eauto.
  left. eexists. split_and!; eauto. lia.
Qed.

Definition sim_reg (b : simbus) (r : Z) : Z := cast U8 (regs b r).

(** All registers but the measurement status are stable. *)
Definition sim_stable (r : Z) : bool := negb (r =? 0x1D).

Lemma sim_regmap_ok : RegmapOk simbus sim_stable sim_reg.
Proof.
  constructor; simpl; unfold sim_reg, sim_stable, clean.
  all: intros; try (match goal with H : sim_xfer _ _ = _ |- _ =>
    apply sim_xfer_inv in H as [(? & ? & ? & HR)|(? & HR)] end;
    simplify_eq/=; rewrite ?HR; unfold set_reg; try done).
  - by replace (r =? 29) with false by lia.
  - by destruct (r =? 29), (status b).
  - destruct (r' =? r); [|done]. by rewrite cast_idemp.
  - destruct (r' =? r); [|done]. by rewrite cast_idemp.
  - rewrite length_fmap, length_seq. split_and!; [done| |].
    + apply Forall_fmap, Forall_true. intros; apply cast_range.
    + intros i Hi _. rewrite nth_lookup, list_lookup_fmap.
      rewrite lookup_seq_lt by done. done.
  - apply cast_range.
Qed.
