(* ===== verification/Bme680Data.v ===== *)
(** * Bme680Data: the driver's registers and state

    The register numbers and masks of bme680.h, the calibration record, the
    FIFO sample and the driver state ([struct bme680_data]).  The repository
    declares the last three both in bme680.c and, differently, in bme680.h;
    the records here have the fields of bme680.c that the modelled functions
    use, and [t_fine] (used by bme680.c, declared only in bme680.h).  [locked]
    is [data->lock], the mutex that serialises the register accesses. *)

From S2P Require Import Prelude CInt LinuxLib.

(** ** bme680.h: registers *)

Definition BME680_REG_CHIP_ID : Z := 0xD0.
Definition BME680_REG_SOFT_RESET : Z := 0xE0.
Definition BME680_CMD_SOFTRESET : Z := 0xB6.
Definition BME680_REG_STATUS : Z := 0x73.
Definition BME680_REG_CTRL_HUM : Z := 0x72.
Definition BME680_REG_CTRL_MEAS : Z := 0x74.
Definition BME680_REG_CONFIG : Z := 0x75.
Definition BME680_REG_CTRL_GAS_1 : Z := 0x71.
Definition BME680_REG_GAS_WAIT_0 : Z := 0x64.
Definition BME680_REG_RES_HEAT_0 : Z := 0x5A.
Definition BME680_REG_TEMP_MSB : Z := 0x22.
Definition BME680_REG_PRESS_MSB : Z := 0x1F.
Definition BME680_REG_HUM_MSB : Z := 0x25.
Definition BME680_REG_GAS_R_MSB : Z := 0x2A.
Definition BME680_REG_MEAS_STAT_0 : Z := 0x1D.

Section masks.
Context `{LinuxLib}.
Definition BME680_GAS_RANGE_MASK : Z := GENMASK 3 0.
Definition BME680_NEW_DATA_MSK : Z := BIT 7.
End masks.

(** ** bme680.c: operating modes and channels *)

Inductive bme680_op_mode := BME680_MODE_SLEEP | BME680_MODE_FORCED.
Definition op_mode_val (m : bme680_op_mode) : Z :=
  match m with BME680_MODE_SLEEP => 0 | BME680_MODE_FORCED => 1 end.

(** The IIO channel types of [bme680_channels]; [IIO_OTHER] is any type that
    is not one of the four. *)
Inductive iio_chan_type :=
  IIO_TEMP | IIO_PRESSURE | IIO_HUMIDITYRELATIVE | IIO_RESISTANCE | IIO_OTHER.

(** The attribute masks that read_raw and write_raw distinguish. *)
Inductive iio_chan_info :=
  IIO_CHAN_INFO_RAW | IIO_CHAN_INFO_PROCESSED | IIO_CHAN_INFO_OVERSAMPLING_RATIO
| IIO_CHAN_INFO_SAMP_FREQ | IIO_CHAN_INFO_HEATER_TEMP | IIO_CHAN_INFO_HEATER_DUR.

(** ** bme680.c: calibration *)

Record bme680_calib := {
  par_t1 : Z; par_t2 : Z; par_t3 : Z;
  par_p1 : Z; par_p2 : Z; par_p3 : Z; par_p4 : Z; par_p5 : Z;
  par_p6 : Z; par_p7 : Z; par_p8 : Z; par_p9 : Z; par_p10 : Z;
  par_h1 : Z; par_h2 : Z; par_h3 : Z; par_h4 : Z; par_h5 : Z;
  par_h6 : Z; par_h7 : Z;
  par_gh1 : Z; par_gh2 : Z; par_gh3 : Z;
  res_heat_range : Z; res_heat_val : Z; range_sw_err : Z;
}.

(** Every field is in the range of its C type. *)
Record calib_wf (c : bme680_calib) : Prop := {
  wf_t1 : in_range U16 (par_t1 c); wf_t2 : in_range S16 (par_t2 c);
  wf_t3 : in_range S8 (par_t3 c);
  wf_p1 : in_range U16 (par_p1 c); wf_p2 : in_range S16 (par_p2 c);
  wf_p3 : in_range S8 (par_p3 c); wf_p4 : in_range S16 (par_p4 c);
  wf_p5 : in_range S16 (par_p5 c); wf_p6 : in_range S8 (par_p6 c);
  wf_p7 : in_range S8 (par_p7 c); wf_p8 : in_range S16 (par_p8 c);
  wf_p9 : in_range S16 (par_p9 c); wf_p10 : in_range U8 (par_p10 c);
  wf_h1 : in_range U16 (par_h1 c); wf_h2 : in_range U16 (par_h2 c);
  wf_h3 : in_range S8 (par_h3 c); wf_h4 : in_range S8 (par_h4 c);
  wf_h5 : in_range S8 (par_h5 c); wf_h6 : in_range U8 (par_h6 c);
  wf_h7 : in_range S8 (par_h7 c);
  wf_gh1 : in_range S8 (par_gh1 c); wf_gh2 : in_range S16 (par_gh2 c);
  wf_gh3 : in_range S8 (par_gh3 c);
  wf_rhr : in_range U8 (res_heat_range c); wf_rhv : in_range S8 (res_heat_val c);
  wf_rse : in_range S8 (range_sw_err c);
}.

#[export] Hint Resolve wf_t1 wf_t2 wf_t3 wf_p1 wf_p2 wf_p3 wf_p4 wf_p5 wf_p6
  wf_p7 wf_p8 wf_p9 wf_p10 wf_h1 wf_h2 wf_h3 wf_h4 wf_h5 wf_h6 wf_h7 wf_gh1
  wf_gh2 wf_gh3 wf_rhr wf_rhv wf_rse : bme680.

(** The calibration as [devm_iio_device_alloc] leaves it: zeroed. *)
Definition calib_zero : bme680_calib :=
  Build_bme680_calib 0 0 0 0 0 0 0 0 0 0 0 0 0 0 0 0 0 0 0 0 0 0 0 0 0 0.

(** ** bme680.c: the FIFO sample *)

Record bme680_fifo_data := {
  temp : Z;       (* s32 *)
  pressure : Z;   (* u32 *)
  humidity : Z;   (* u32 *)
  gas_res : Z;    (* u32 *)
}.

#[export] Instance fifo_data_eq_dec : EqDecision bme680_fifo_data.
Proof. solve_decision. Defined.

Definition fifo_data_wf (f : bme680_fifo_data) : Prop :=
  in_range S32 (temp f) /\ in_range U32 (pressure f) /\
  in_range U32 (humidity f) /\ in_range U32 (gas_res f).

(** ** bme680.c: the driver state *)

Record bme680_data := {
  calib : bme680_calib;
  t_fine : Z;
  oversampling_temp : Z;
  oversampling_press : Z;
  oversampling_humid : Z;
  preheat_curr_mA : Z;
  heater_dur : Z;
  heater_temp : Z;
  temp_adc : Z;
  pressure_adc : Z;
  humid_adc : Z;
  gas_adc : Z;
  gas_range : Z;
  locked : bool;
}.

Definition set_calib (v_calib : bme680_calib) (d : bme680_data) : bme680_data := {|
  calib := v_calib; t_fine := t_fine d; oversampling_temp := oversampling_temp d; 
  oversampling_press := oversampling_press d; oversampling_humid := oversampling_humid d; 
  preheat_curr_mA := preheat_curr_mA d; heater_dur := heater_dur d; 
  heater_temp := heater_temp d; temp_adc := temp_adc d; pressure_adc := pressure_adc d; 
  humid_adc := humid_adc d; gas_adc := gas_adc d; gas_range := gas_range d; 
  locked := locked d
|}.

Definition set_t_fine (v_t_fine : Z) (d : bme680_data) : bme680_data := {|
  calib := calib d; t_fine := v_t_fine; oversampling_temp := oversampling_temp d; 
  oversampling_press := oversampling_press d; oversampling_humid := oversampling_humid d; 
  preheat_curr_mA := preheat_curr_mA d; heater_dur := heater_dur d; 
  heater_temp := heater_temp d; temp_adc := temp_adc d; pressure_adc := pressure_adc d; 
  humid_adc := humid_adc d; gas_adc := gas_adc d; gas_range := gas_range d; 
  locked := locked d
|}.

Definition set_adc (v_temp_adc : Z) (v_pressure_adc : Z) (v_humid_adc : Z) (v_gas_adc : Z) (v_gas_range : Z) (d : bme680_data) : bme680_data := {|
  calib := calib d; t_fine := t_fine d; oversampling_temp := oversampling_temp d; 
  oversampling_press := oversampling_press d; oversampling_humid := oversampling_humid d; 
  preheat_curr_mA := preheat_curr_mA d; heater_dur := heater_dur d; 
  heater_temp := heater_temp d; temp_adc := v_temp_adc; pressure_adc := v_pressure_adc; 
  humid_adc := v_humid_adc; gas_adc := v_gas_adc; gas_range := v_gas_range; 
  locked := locked d
|}.

Definition set_oversampling_temp (v_oversampling_temp : Z) (d : bme680_data) : bme680_data := {|
  calib := calib d; t_fine := t_fine d; oversampling_temp := v_oversampling_temp; 
  oversampling_press := oversampling_press d; oversampling_humid := oversampling_humid d; 
  preheat_curr_mA := preheat_curr_mA d; heater_dur := heater_dur d; 
  heater_temp := heater_temp d; temp_adc := temp_adc d; pressure_adc := pressure_adc d; 
  humid_adc := humid_adc d; gas_adc := gas_adc d; gas_range := gas_range d; 
  locked := locked d
|}.

Definition set_oversampling_press (v_oversampling_press : Z) (d : bme680_data) : bme680_data := {|
  calib := calib d; t_fine := t_fine d; oversampling_temp := oversampling_temp d; 
  oversampling_press := v_oversampling_press; oversampling_humid := oversampling_humid d; 
  preheat_curr_mA := preheat_curr_mA d; heater_dur := heater_dur d; 
  heater_temp := heater_temp d; temp_adc := temp_adc d; pressure_adc := pressure_adc d; 
  humid_adc := humid_adc d; gas_adc := gas_adc d; gas_range := gas_range d; 
  locked := locked d
|}.

Definition set_oversampling_humid (v_oversampling_humid : Z) (d : bme680_data) : bme680_data := {|
  calib := calib d; t_fine := t_fine d; oversampling_temp := oversampling_temp d; 
  oversampling_press := oversampling_press d; oversampling_humid := v_oversampling_humid; 
  preheat_curr_mA := preheat_curr_mA d; heater_dur := heater_dur d; 
  heater_temp := heater_temp d; temp_adc := temp_adc d; pressure_adc := pressure_adc d; 
  humid_adc := humid_adc d; gas_adc := gas_adc d; gas_range := gas_range d; 
  locked := locked d
|}.

Definition set_preheat_curr_mA (v_preheat_curr_mA : Z) (d : bme680_data) : bme680_data := {|
  calib := calib d; t_fine := t_fine d; oversampling_temp := oversampling_temp d; 
  oversampling_press := oversampling_press d; oversampling_humid := oversampling_humid d; 
  preheat_curr_mA := v_preheat_curr_mA; heater_dur := heater_dur d; 
  heater_temp := heater_temp d; temp_adc := temp_adc d; pressure_adc := pressure_adc d; 
  humid_adc := humid_adc d; gas_adc := gas_adc d; gas_range := gas_range d; 
  locked := locked d
|}.

Definition set_heater_dur (v_heater_dur : Z) (d : bme680_data) : bme680_data := {|
  calib := calib d; t_fine := t_fine d; oversampling_temp := oversampling_temp d; 
  oversampling_press := oversampling_press d; oversampling_humid := oversampling_humid d; 
  preheat_curr_mA := preheat_curr_mA d; heater_dur := v_heater_dur; 
  heater_temp := heater_temp d; temp_adc := temp_adc d; pressure_adc := pressure_adc d; 
  humid_adc := humid_adc d; gas_adc := gas_adc d; gas_range := gas_range d; 
  locked := locked d
|}.

Definition set_heater_temp (v_heater_temp : Z) (d : bme680_data) : bme680_data := {|
  calib := calib d; t_fine := t_fine d; oversampling_temp := oversampling_temp d; 
  oversampling_press := oversampling_press d; oversampling_humid := oversampling_humid d; 
  preheat_curr_mA := preheat_curr_mA d; heater_dur := heater_dur d; 
  heater_temp := v_heater_temp; temp_adc := temp_adc d; pressure_adc := pressure_adc d; 
  humid_adc := humid_adc d; gas_adc := gas_adc d; gas_range := gas_range d; 
  locked := locked d
|}.

Definition set_locked (v_locked : bool) (d : bme680_data) : bme680_data := {|
  calib := calib d; t_fine := t_fine d; oversampling_temp := oversampling_temp d; 
  oversampling_press := oversampling_press d; oversampling_humid := oversampling_humid d; 
  preheat_curr_mA := preheat_curr_mA d; heater_dur := heater_dur d; 
  heater_temp := heater_temp d; temp_adc := temp_adc d; pressure_adc := pressure_adc d; 
  humid_adc := humid_adc d; gas_adc := gas_adc d; gas_range := gas_range d; 
  locked := v_locked
|}.

Definition data_wf (d : bme680_data) : Prop :=
  calib_wf (calib d) /\ in_range S32 (t_fine d) /\
  in_range U8 (oversampling_temp d) /\
  in_range U8 (oversampling_press d) /\
  in_range U8 (oversampling_humid d) /\
  in_range U8 (preheat_curr_mA d) /\
  in_range U16 (heater_dur d) /\
  in_range U16 (heater_temp d) /\
  in_range S32 (temp_adc d) /\
  in_range U32 (pressure_adc d) /\
  in_range U16 (humid_adc d) /\
  in_range U32 (gas_adc d) /\
  in_range U8 (gas_range d).

(** The state of the driver with its bus and the module's [bme680_i2c_lock]. *)
Record drv (B : Type) := { data : bme680_data; bus : B; i2c_locked : bool }.
Arguments Build_drv {_} _ _ _.
Arguments data {_} _.
Arguments bus {_} _.
Arguments i2c_locked {_} _.

Section drv_ops.
Context {B : Type}.

(** A bus transfer performed by the driver. *)
Definition on_bus {A} (m : M B A) : M (drv B) A := fun s =>
  let '(b', r) := m (bus s) in (Build_drv (data s) b' (i2c_locked s), r).

(** A read, and an update, of the driver state. *)
Definition get_data : M (drv B) bme680_data := fun s => (s, Ok (data s)).
Definition set_data (f : bme680_data -> bme680_data) : M (drv B) unit := fun s =>
  (Build_drv (f (data s)) (bus s) (i2c_locked s), Ok tt).

Lemma on_bus_data {A} (m : M B A) s s' r :
  on_bus m s = (s', r) -> data s' = data s /\ i2c_locked s' = i2c_locked s /\ m (bus s) = (bus s', r).
Proof. unfold on_bus. destruct (m (bus s)) eqn:E. naive_solver. Qed.

Lemma keeps_on_bus {A} R (m : M B A) :
  (forall s b, R s (Build_drv (data s) b (i2c_locked s))) -> keeps R (on_bus m).
Proof.
  intros HR s s' r E. unfold on_bus in E. destruct (m (bus s)). by simplify_eq.
Qed.

Lemma keeps_set_data R f :
  (forall s, R s (Build_drv (f (data s)) (bus s) (i2c_locked s))) ->
  keeps R (set_data f).
Proof. intros HR s s' r E. unfold set_data in E. by simplify_eq. Qed.

Lemma keeps_get_data R : Reflexive R -> keeps R get_data.
Proof. intros HR s s' r E. unfold get_data in E. by simplify_eq. Qed.

Lemma returns_on_bus {A} (m : M B A) : returns m -> returns (on_bus m).
Proof.
  intros Hm s s' r E. apply on_bus_data in E as (_ & _ & E). by eapply Hm.
Qed.

Lemma returns_set_data f : returns (set_data f).
Proof. intros s s' r E. unfold set_data in E. by simplify_eq. Qed.

Lemma returns_get_data : returns get_data.
Proof. intros s s' r E. unfold get_data in E. by simplify_eq. Qed.

Lemma set_data_bind {A} f (k : unit -> M (drv B) A) s :
  (set_data f ≫= k) s = k tt (Build_drv (f (data s)) (bus s) (i2c_locked s)).
Proof. done. Qed.

Lemma get_data_bind {A} (k : bme680_data -> M (drv B) A) s :
  (get_data ≫= k) s = k (data s) s.
Proof. done. Qed.
End drv_ops.

#[export] Hint Rewrite @set_data_bind @get_data_bind : bme680_rw.

(** One step of a [keeps] or [returns] proof, by the shape of the code. *)
Ltac keeps_step :=
  match goal with
  | |- keeps _ (_ ≫= _) => apply keeps_bind; [try tc_solve| |intros ?; cbv beta]
  | |- keeps _ (on_bus _) => apply keeps_on_bus
  | |- keeps _ (set_data _) => apply keeps_set_data
  | |- keeps _ get_data => apply keeps_get_data; try tc_solve
  | |- keeps _ (mret _) => apply keeps_ret; try tc_solve
  | |- keeps _ (throw _) => apply keeps_throw; try tc_solve
  | |- returns (_ ≫= _) => apply returns_bind; [|intros ?; cbv beta]
  | |- returns (on_bus _) => apply returns_on_bus
  | |- returns (set_data _) => apply returns_set_data
  | |- returns get_data => apply returns_get_data
  | |- returns (mret _) => apply returns_ret
  | |- returns (throw _) => apply returns_throw
  end.
