(* ===== verification/Calib.v ===== *)
(** * Calib: reading the calibration (bme680_read_calib)

    The three blocks of factory calibration are read by [regmap_bulk_read]
    and decoded field by field into [data->bme680].  [calib_buf1],
    [calib_buf2] and [calib_buf3] are the three groups of assignments;
    [bme680_read_calib] is the function, whose early returns leave the groups
    already assigned.  The theorems: the decoded record is well typed, the
    decoder inverts the chip's layout [nvm1]/[nvm2]/[nvm3] (but for
    [par_h1], which the code assembles from the wrong byte), and a failed
    block leaves the later fields alone. *)

From S2P Require Import Prelude CInt LinuxLib Bme680Data.

(** ** Byte positions (the three enums of bme680.c) *)

Definition T2_LSB : nat := 0.
Definition T3 : nat := 2.
Definition P1_LSB : nat := 4.
Definition P2_LSB : nat := 6.
Definition P3 : nat := 8.
Definition P4_LSB : nat := 10.
Definition P5_LSB : nat := 12.
Definition P7 : nat := 14.
Definition P6 : nat := 15.
Definition P8_LSB : nat := 18.
Definition P9_LSB : nat := 20.
Definition P10 : nat := 22.

Definition H2_MSB : nat := 0.
Definition H1_LSB : nat := 1.
Definition H3 : nat := 3.
Definition H4 : nat := 4.
Definition H5 : nat := 5.
Definition H6 : nat := 6.
Definition H7 : nat := 7.
Definition T1_LSB : nat := 8.
Definition GH2_LSB : nat := 10.
Definition GH1 : nat := 12.
Definition GH3 : nat := 13.

Definition RES_HEAT_VAL : nat := 0.
Definition RES_HEAT_RANGE : nat := 2.
Definition RANGE_SW_ERR : nat := 4.

(** Byte [i] of a buffer ([regmap_bulk_read] fills all of it). *)
Definition byte_at (buf : list Z) (i : nat) : Z := nth i buf 0.

Section calib.
Context `{LinuxLib} `{Bme680Macros}.

(** [get_unaligned_le16(buf + i)] *)
Definition le16_at (buf : list Z) (i : nat) : Z :=
  get_unaligned_le16 (byte_at buf i) (byte_at buf (S i)).

Definition calib_buf1 (buf : list Z) (c : bme680_calib) : bme680_calib := {|
  par_t2 := cast S16 (le16_at buf T2_LSB);
  par_t3 := cast S8 (byte_at buf T3);
  par_p1 := cast U16 (le16_at buf P1_LSB);
  par_p2 := cast S16 (le16_at buf P2_LSB);
  par_p3 := cast S8 (byte_at buf P3);
  par_p4 := cast S16 (le16_at buf P4_LSB);
  par_p5 := cast S16 (le16_at buf P5_LSB);
  par_p6 := cast S8 (byte_at buf P6);
  par_p7 := cast S8 (byte_at buf P7);
  par_p8 := cast S16 (le16_at buf P8_LSB);
  par_p9 := cast S16 (le16_at buf P9_LSB);
  par_p10 := cast U8 (byte_at buf P10);
  par_t1 := par_t1 c; par_h1 := par_h1 c; par_h2 := par_h2 c; par_h3 := par_h3 c;
  par_h4 := par_h4 c; par_h5 := par_h5 c; par_h6 := par_h6 c; par_h7 := par_h7 c;
  par_gh1 := par_gh1 c; par_gh2 := par_gh2 c; par_gh3 := par_gh3 c;
  res_heat_range := res_heat_range c; res_heat_val := res_heat_val c;
  range_sw_err := range_sw_err c;
|}.

Definition calib_buf2 (buf2 : list Z) (c : bme680_calib) : bme680_calib := {|
  par_h2 := cast U16 (Z.lor (Z.shiftl (byte_at buf2 H2_MSB) 4)
                            (Z.land (Z.shiftr (byte_at buf2 H1_LSB) 4) 0x0f));
  par_h1 := cast U16 (Z.lor (Z.shiftl (byte_at buf2 H1_LSB) 4)
                            (Z.land (byte_at buf2 H1_LSB) 0x0f));
  par_h3 := cast S8 (byte_at buf2 H3);
  par_h4 := cast S8 (byte_at buf2 H4);
  par_h5 := cast S8 (byte_at buf2 H5);
  par_h6 := cast U8 (byte_at buf2 H6);
  par_h7 := cast S8 (byte_at buf2 H7);
  par_t1 := cast U16 (le16_at buf2 T1_LSB);
  par_gh2 := cast S16 (le16_at buf2 GH2_LSB);
  par_gh1 := cast S8 (byte_at buf2 GH1);
  par_gh3 := cast S8 (byte_at buf2 GH3);
  par_t2 := par_t2 c; par_t3 := par_t3 c; par_p1 := par_p1 c; par_p2 := par_p2 c;
  par_p3 := par_p3 c; par_p4 := par_p4 c; par_p5 := par_p5 c; par_p6 := par_p6 c;
  par_p7 := par_p7 c; par_p8 := par_p8 c; par_p9 := par_p9 c; par_p10 := par_p10 c;
  res_heat_range := res_heat_range c; res_heat_val := res_heat_val c;
  range_sw_err := range_sw_err c;
|}.

Definition calib_buf3 (buf3 : list Z) (c : bme680_calib) : bme680_calib := {|
  res_heat_val := cast S8 (byte_at buf3 RES_HEAT_VAL);
  res_heat_range := cast U8 (FIELD_GET BME680_RSERROR_MASK (byte_at buf3 RES_HEAT_RANGE));
  range_sw_err := cast S8 (FIELD_GET BME680_RSERROR_MASK (byte_at buf3 RANGE_SW_ERR));
  par_t1 := par_t1 c; par_t2 := par_t2 c; par_t3 := par_t3 c; par_p1 := par_p1 c;
  par_p2 := par_p2 c; par_p3 := par_p3 c; par_p4 := par_p4 c; par_p5 := par_p5 c;
  par_p6 := par_p6 c; par_p7 := par_p7 c; par_p8 := par_p8 c; par_p9 := par_p9 c;
  par_p10 := par_p10 c; par_h1 := par_h1 c; par_h2 := par_h2 c; par_h3 := par_h3 c;
  par_h4 := par_h4 c; par_h5 := par_h5 c; par_h6 := par_h6 c; par_h7 := par_h7 c;
  par_gh1 := par_gh1 c; par_gh2 := par_gh2 c; par_gh3 := par_gh3 c;
|}.

Context {B : Type} `{Regmap B}.

(** Assign a group of fields of [data->bme680]. *)
Definition upd_calib (f : bme680_calib -> bme680_calib) : M (drv B) unit :=
  set_data (fun d => set_calib (f (calib d)) d).

Definition bme680_read_calib : M (drv B) unit :=
  buf ← on_bus (regmap_bulk_read BME680_CALIB_ADDR1 23);
  _ ← upd_calib (calib_buf1 buf);
  buf2 ← on_bus (regmap_bulk_read BME680_CALIB_ADDR2 14);
  _ ← upd_calib (calib_buf2 buf2);
  buf3 ← on_bus (regmap_bulk_read BME680_CALIB_ADDR3 5);
  upd_calib (calib_buf3 buf3).

End calib.

(** ** The chip's layout of a calibration (the datasheet's memory map) *)

(** The two bytes of a 16-bit parameter, low byte first. *)
Definition bytes16 (z : Z) : list Z := [cast U8 z; cast U8 (Z.shiftr z 8)].

Definition nvm1 (c : bme680_calib) : list Z :=
  bytes16 (par_t2 c) ++ [cast U8 (par_t3 c); 0] ++ bytes16 (par_p1 c) ++
  bytes16 (par_p2 c) ++ [cast U8 (par_p3 c); 0] ++ bytes16 (par_p4 c) ++
  bytes16 (par_p5 c) ++ [cast U8 (par_p7 c); cast U8 (par_p6 c); 0; 0] ++
  bytes16 (par_p8 c) ++ bytes16 (par_p9 c) ++ [par_p10 c].

(** The two 12-bit humidity parameters share the byte at [H1_LSB]: its high
    nibble is the low nibble of [par_h2], its low nibble that of [par_h1];
    the high byte of [par_h1] follows. *)
Definition h12_byte (c : bme680_calib) : Z := 16 * (par_h2 c mod 16) + par_h1 c mod 16.

Definition nvm2 (c : bme680_calib) : list Z :=
  [Z.shiftr (par_h2 c) 4; h12_byte c; Z.shiftr (par_h1 c) 4;
   cast U8 (par_h3 c); cast U8 (par_h4 c); cast U8 (par_h5 c); par_h6 c;
   cast U8 (par_h7 c)] ++ bytes16 (par_t1 c) ++ bytes16 (par_gh2 c) ++
  [cast U8 (par_gh1 c); cast U8 (par_gh3 c)].

Definition nvm3 (c : bme680_calib) : list Z :=
  [cast U8 (res_heat_val c); 0; Z.shiftl (res_heat_range c) 4; 0;
   Z.shiftl (range_sw_err c) 4].

(** The value the code computes for [par_h1] from that byte. *)
Definition h1_read (c : bme680_calib) : Z := 16 * h12_byte c + par_h1 c mod 16.

(** A copy of [c] whose [par_h1] is replaced. *)
Definition with_h1 (h : Z) (c : bme680_calib) : bme680_calib := {|
  par_t1 := par_t1 c; par_t2 := par_t2 c; par_t3 := par_t3 c; par_p1 := par_p1 c;
  par_p2 := par_p2 c; par_p3 := par_p3 c; par_p4 := par_p4 c; par_p5 := par_p5 c;
  par_p6 := par_p6 c; par_p7 := par_p7 c; par_p8 := par_p8 c; par_p9 := par_p9 c;
  par_p10 := par_p10 c; par_h1 := h; par_h2 := par_h2 c; par_h3 := par_h3 c;
  par_h4 := par_h4 c; par_h5 := par_h5 c; par_h6 := par_h6 c; par_h7 := par_h7 c;
  par_gh1 := par_gh1 c; par_gh2 := par_gh2 c; par_gh3 := par_gh3 c;
  res_heat_range := res_heat_range c; res_heat_val := res_heat_val c;
  range_sw_err := range_sw_err c;
|}.

(** ** Lemmas *)

Lemma with_h1_id c : with_h1 (par_h1 c) c = c.
Proof. by destruct c. Qed.

Section calib_lemmas.
Context {L : LinuxLib} {LOk : LinuxLibOk L} {BM : Bme680Macros}.

(** Each group assigns only converted values, so it keeps the record typed. *)
Lemma calib_buf1_wf buf c : calib_wf c -> calib_wf (calib_buf1 buf c).
Proof. intros Hc. constructor; simpl; auto with bme680. Qed.

Lemma calib_buf2_wf buf c : calib_wf c -> calib_wf (calib_buf2 buf c).
Proof. intros Hc. constructor; simpl; auto with bme680. Qed.

Lemma calib_buf3_wf buf c : calib_wf c -> calib_wf (calib_buf3 buf c).
Proof. intros Hc. constructor; simpl; auto with bme680. Qed.

Lemma le16_bytes t z :
  modulus t = 65536 -> in_range t z ->
  cast t (get_unaligned_le16 (cast U8 z) (cast U8 (Z.shiftr z 8))) = z.
Proof. intros. rewrite le16_ok by apply cast_range. by apply le_bytes_cast. Qed.

Lemma s8_byte z : in_range S8 z -> cast S8 (cast U8 z) = z.
Proof. intros. rewrite cast_same_modulus by done. by apply cast_id. Qed.

Lemma field_74_get z : 0 <= z < 16 -> FIELD_GET (field 7 4) (Z.shiftl z 4) = z.
Proof.
  intros Hz. rewrite FIELD_GET_ok by lia. unfold field. simpl (7 - 4 + 1).
  rewrite <- Z.shiftl_land, Z.shiftr_shiftl_l by lia.
  rewrite Z.sub_diag, Z.shiftl_0_r, Z.land_ones by lia. by apply Z.mod_small.
Qed.

(** The nibble packing of the two 12-bit parameters. *)
Lemma h2_decode c :
  0 <= par_h2 c < 4096 ->
  Z.lor (Z.shiftl (Z.shiftr (par_h2 c) 4) 4)
        (Z.land (Z.shiftr (h12_byte c) 4) 15) = par_h2 c.
Proof.
  intros Hh. unfold h12_byte.
  change 15 with (Z.ones 4). rewrite Z.land_ones by lia.
  rewrite !Z.shiftr_div_pow2 by lia. change (2 ^ 4) with 16.
  rewrite lor_shiftl_add by (change (2 ^ 4) with 16; dlia).
  change (2 ^ 4) with 16. dlia.
Qed.

Lemma h1_decode c :
  0 <= par_h1 c ->
  Z.lor (Z.shiftl (h12_byte c) 4) (Z.land (h12_byte c) 15) = h1_read c.
Proof.
  intros Hh. unfold h1_read, h12_byte.
  change 15 with (Z.ones 4). rewrite Z.land_ones by lia.
  rewrite lor_shiftl_add by (change (2 ^ 4) with 16; dlia).
  change (2 ^ 4) with 16. dlia.
Qed.

Lemma decode_nvm c c0 :
  calib_wf c -> par_h1 c < 4096 -> par_h2 c < 4096 ->
  0 <= res_heat_range c < 16 -> 0 <= range_sw_err c < 16 ->
  BME680_RSERROR_MASK = field 7 4 ->
  calib_buf3 (nvm3 c) (calib_buf2 (nvm2 c) (calib_buf1 (nvm1 c) c0)) =
  with_h1 (h1_read c) c.
Proof.
  intros Hc H1 H2 Hr Hs HM.
  pose proof (wf_h1 c Hc). pose proof (wf_h2 c Hc).
  assert (in_range U16 (h1_read c)) as Hh.
  { unfold in_range, h1_read, h12_byte, tmax in *; simpl in *. dlia. }
  unfold calib_buf3, calib_buf2, calib_buf1, with_h1, le16_at; simpl.
  unfold byte_at; simpl. rewrite HM.
  rewrite h2_decode, h1_decode by (unfold in_range, tmax in *; simpl in *; lia).
  rewrite !field_74_get, !s8_byte, !le16_bytes by (done || auto with bme680).
  rewrite !cast_id; [done|..]; auto with bme680;
    unfold in_range, tmax in *; simpl; lia.
Qed.
End calib_lemmas.

(** From [s] to [s'] only the calibration changes, and it stays well typed. *)
Definition wf_calib_step {B} (s s' : drv B) : Prop :=
  calib_wf (calib (data s)) ->
  calib_wf (calib (data s')) /\ data s' = set_calib (calib (data s')) (data s).

#[export] Instance wf_calib_step_refl B : Reflexive (@wf_calib_step B).
Proof. intros s Hs. split; [done|]. by destruct (data s). Qed.

#[export] Instance wf_calib_step_trans B : Transitive (@wf_calib_step B).
Proof.
  intros s1 s2 s3 H12 H23 H1. destruct (H12 H1) as [H2 E2].
  destruct (H23 H2) as [H3 E3]. split; [done|]. rewrite E3, E2. done.
Qed.

Lemma read_calib_keeps_wf {L : LinuxLib} {BM : Bme680Macros} {B} {R : Regmap B} :
  keeps wf_calib_step (bme680_read_calib (B:=B)).
Proof.
  unfold bme680_read_calib, upd_calib.
  repeat keeps_step; intros s; simpl.
  all: intros; try (split; [|done]); simpl;
    auto using calib_buf1_wf, calib_buf2_wf, calib_buf3_wf.
  all: split; [done|]; by destruct (data s).
Qed.

(** ** Properties *)

Section calib_props.
Context {L : LinuxLib} {BM : Bme680Macros}.
Context {B : Type} {R : Regmap B}.

(** Every outcome of [bme680_read_calib], success or a failed transfer at
    any of the three blocks, leaves the calibration well typed (each field in
    the range of its C type) and changes no other part of the driver state. *)
Theorem read_calib_wf s s' r :
  bme680_read_calib s = (s', r) ->
  calib_wf (calib (data s)) ->
  calib_wf (calib (data s')) /\ data s' = set_calib (calib (data s')) (data s).
Proof.
  intros E Hc. exact (read_calib_keeps_wf _ _ _ E Hc).
Qed.

(** C14: on a chip whose memory holds the layout of calibration [c] (12-bit
    humidity parameters, 4-bit heater fields), [bme680_read_calib] succeeds and
    stores [c] itself in every field but [par_h1], which becomes [h1_read c]. *)
Theorem read_calib_roundtrip {LOk : LinuxLibOk L} c s b1 b2 b3 :
  calib_wf c -> par_h1 c < 4096 -> par_h2 c < 4096 ->
  0 <= res_heat_range c < 16 -> 0 <= range_sw_err c < 16 ->
  BME680_RSERROR_MASK = field 7 4 ->
  regmap_bulk_read BME680_CALIB_ADDR1 23 (bus s) = (b1, Ok (nvm1 c)) ->
  regmap_bulk_read BME680_CALIB_ADDR2 14 b1 = (b2, Ok (nvm2 c)) ->
  regmap_bulk_read BME680_CALIB_ADDR3 5 b2 = (b3, Ok (nvm3 c)) ->
  bme680_read_calib s =
    (Build_drv (set_calib (with_h1 (h1_read c) c) (data s)) b3 (i2c_locked s), Ok tt).
Proof.
  intros Hc H1 H2 Hr Hs HM E1 E2 E3.
  unfold bme680_read_calib, upd_calib, set_data, on_bus, mbind, M_bind.
  rewrite E1; simpl. rewrite E2; simpl. rewrite E3; simpl.
  by rewrite decode_nvm.
Qed.

(** The byte that holds the high part of [par_h1] on the chip (position 2
    of the second block) is never used: whatever it is, the decoded record is
    the same, and the calibration [c] is decoded exactly only if that high
    part happens to equal the byte before it. *)
Theorem read_calib_h1_ignores_msb {LOk : LinuxLibOk L} c c0 v :
  calib_wf c -> par_h1 c < 4096 -> par_h2 c < 4096 ->
  calib_buf2 (<[2%nat:=v]> (nvm2 c)) c0 = calib_buf2 (nvm2 c) c0 /\
  (par_h1 (calib_buf2 (nvm2 c) c0) = par_h1 c <-> par_h1 c / 16 = h12_byte c).
Proof.
  intros Hc H1 H2. split; [done|].
  pose proof (wf_h1 c Hc) as Hh. unfold in_range, tmax in Hh; simpl in Hh.
  simpl par_h1 at 1. unfold byte_at; simpl. rewrite h1_decode by lia.
  rewrite cast_id; unfold h1_read, h12_byte, in_range, tmax; simpl; dlia.
Qed.
End calib_props.

(** ** Witnesses *)

(** A calibration with every field in its 12-bit or 4-bit range, and a bus
    that holds its image. *)
Definition calib_ex : bme680_calib :=
  Build_bme680_calib 26203 26377 3 37139 (-10317) 88 6842 (-97) 30 36 (-2873)
    (-2900) 30 781 1026 0 45 20 120 (-100) (-30) (-5969) 18 1 49 2.

Definition data_zero : bme680_data :=
  Build_bme680_data calib_zero 0 0 0 0 0 0 0 0 0 0 0 0 false.

(** A register file holding list [l] from address [a] on. *)
Definition regs_with (a : Z) (l : list Z) (rs : Z -> Z) : Z -> Z := fun r =>
  if (a <=? r) && (r <? a + Z.of_nat (length l))
  then nth (Z.to_nat (r - a)) l 0 else rs r.

Definition bus_ex : simbus := {|
  regs := regs_with 0x8A (nvm1 calib_ex)
            (regs_with 0xE1 (nvm2 calib_ex)
               (regs_with 0x00 (nvm3 calib_ex) (fun _ => 0)));
  status := []; faults := [];
|}.

#[local] Existing Instance linux_ref.
#[local] Existing Instance macros_ref.
#[local] Existing Instance linux_ref_ok.

Lemma calib_ex_wf : calib_wf calib_ex.
Proof. constructor; vm_compute; split; discriminate. Qed.

Lemma calib_zero_wf : calib_wf calib_zero.
Proof. constructor; vm_compute; split; discriminate. Qed.

Lemma read_calib_wf_witness :
  calib_wf (calib (data (fst (bme680_read_calib (Build_drv data_zero bus_ex false))))).
Proof.
  eapply read_calib_wf; [apply surjective_pairing|apply calib_zero_wf].
Defined.

Lemma read_calib_roundtrip_witness :
  exists s', bme680_read_calib (Build_drv data_zero bus_ex false) = (s', Ok tt).
Proof.
  eexists. eapply (read_calib_roundtrip calib_ex _ bus_ex bus_ex bus_ex);
    [apply calib_ex_wf|vm_compute; done..].
Defined.

Lemma read_calib_h1_ignores_msb_witness :
  par_h1 (calib_buf2 (nvm2 calib_ex) calib_zero) <> par_h1 calib_ex.
Proof.
  intros E. apply (read_calib_h1_ignores_msb calib_ex calib_zero 0) in E.
  - vm_compute in E. discriminate.
  - apply calib_ex_wf.
  - reflexivity.
  - reflexivity.
Defined.
