(* ===== verification/Compensate.v ===== *)
(** * Compensate: the compensation formulas of the driver

    [calc_temperature], [calc_pressure], [calc_humidity] and the two gas
    resistance formulas of bme680.c, with every intermediate result at the
    width the C expression has.  [calc_temperature] also updates
    [data->t_fine], which the pressure and humidity formulas read.  A formula
    that divides by a computed value returns an option: [None] is the
    division trap.  The theorems compare the formulas with the same formulas
    over unbounded integers (no intermediate overflow), and give the ranges
    of the results and the inputs that trap. *)

From S2P Require Import Prelude CInt LinuxLib Bme680Data Calib.

Section compensate.
Context `{LinuxLib} `{Bme680Macros}.

Definition calc_temperature (d : bme680_data) (temp_adc : Z) : bme680_data * Z :=
  let c := calib d in
  let var1 := (Z.shiftr (cast S32 temp_adc) 3) -[S32] (par_t1 c <<[S32] 1) in
  let var2 := Z.shiftr (var1 *[S64] par_t2 c) 11 in
  let var3 := Z.shiftr (Z.shiftr var1 1 *[S64] Z.shiftr var1 1) 12 in
  let var3 := Z.shiftr (var3 *[S64] (par_t3 c <<[S32] 4)) 14 in
  let tf := cast S32 (var2 +[S64] var3) in
  let calc_temp := cast S16 (Z.shiftr ((tf *[S32] 5) +[S32] 128) 8) in
  (set_t_fine tf d, calc_temp).

Definition calc_pressure (d : bme680_data) (pressure_adc : Z) : option Z :=
  let c := calib d in
  let var1 := Z.shiftr (t_fine d) 1 -[S64] 64000 in
  let var2 := Z.shiftr
    (Z.shiftr (Z.shiftr var1 2 *[S64] Z.shiftr var1 2) 11 *[S64] par_p6 c) 2 in
  let var2 := var2 +[S64] ((var1 *[S64] par_p5 c) <<[S64] 1) in
  let var2 := Z.shiftr var2 2 +[S64] (par_p4 c <<[S64] 16) in
  let var1 :=
    Z.shiftr (Z.shiftr (Z.shiftr var1 2 *[S64] Z.shiftr var1 2) 13
                *[S64] (par_p3 c <<[S64] 5)) 3
    +[S64] Z.shiftr (par_p2 c *[S64] var1) 1 in
  let var1 := Z.shiftr var1 18 in
  let var1 := Z.shiftr ((32768 +[S64] var1) *[S64] par_p1 c) 15 in
  let calc_press := 1048576 -[U32] pressure_adc in
  let calc_press := cast U32 ((calc_press -[S64] Z.shiftr var2 12) *[S64] 3125) in
  q ← div64_s64 calc_press var1;
  let calc_press := q *[S64] 1000 in
  let var1 := Z.shiftr
    (par_p9 c *[S64]
       Z.shiftr (Z.shiftr calc_press 13 *[S64] Z.shiftr calc_press 13) 12) 25 in
  let var2 := Z.shiftr (par_p8 c *[S64] calc_press) 19 in
  let var3 := Z.shiftr (par_p10 c *[S64] calc_press) 48 in
  let calc_press := calc_press +[S64]
    Z.shiftr (((var1 +[S64] var2) +[S64] var3) +[S64] (par_p7 c <<[S64] 7)) 4 in
  Some (cast U32 calc_press).

Definition calc_humidity (d : bme680_data) (humid_adc : Z) : Z :=
  let c := calib d in
  let div100 x := cast S32 (Z.quot x 100) in
  let temp_scaled := Z.shiftr ((t_fine d *[S32] 5) +[S32] 128) 8 in
  let var1 := (humid_adc -[S32] (par_h1 c *[S32] 16))
              -[S32] Z.shiftr (div100 (temp_scaled *[S32] par_h3 c)) 1 in
  let var2 := Z.shiftr
    (par_h2 c *[S32]
      ((div100 (temp_scaled *[S32] par_h4 c)
        +[S32] div100 (Z.shiftr
                 (temp_scaled *[S32] div100 (temp_scaled *[S32] par_h5 c)) 6))
       +[S32] (1 <<[S32] 14))) 10 in
  let var3 := var1 *[S32] var2 in
  let var4 := par_h6 c <<[S32] 7 in
  let var4 := Z.shiftr (var4 +[S32] div100 (temp_scaled *[S32] par_h7 c)) 4 in
  let var5 := Z.shiftr (Z.shiftr var3 14 *[S32] Z.shiftr var3 14) 10 in
  let var6 := Z.shiftr (var4 *[S32] var5) 1 in
  let calc_hum := Z.shiftr (Z.shiftr (var3 +[S32] var6) 10 *[S32] 1000) 12 in
  let calc_hum :=
    if calc_hum >? 100000 then 100000
    else if calc_hum <? 0 then 0 else calc_hum in
  cast U32 calc_hum.

Definition calc_gas_resistance_low (d : bme680_data) (gas_adc gas_range : Z) : option Z :=
  let c := calib d in
  let var1 := Z.shiftr
    ((1340 +[S64] (5 *[S64] range_sw_err c)) *[S64] lookup_k gas_range) 16 in
  let var2 := ((gas_adc <<[S64] 15) -[S64] 16777216) +[S64] var1 in
  let var3 := Z.shiftr (lookup_m gas_range *[S64] var1) 9 in
  q ← cdiv S64 (var3 +[S64] Z.shiftr var2 1) var2;
  Some (cast U32 q).

Definition calc_gas_resistance_high (d : bme680_data) (gas_adc gas_range : Z) : option Z :=
  let var2 := cast U32 (Z.shiftr 262144 gas_range) in
  let var1 := (gas_adc *[U64] 512) -[U64] 512 in
  let var3 := cast U32 (Z.quot (var1 *[U64] var2) 3) in
  q ← cdiv U32 (var3 *[U32] 100) (cast U32 (par_gh1 (calib d)));
  Some (cast U32 q).

End compensate.

(** ** The formulas over unbounded integers *)

(** t_fine as the datasheet's integer formula gives it. *)
Definition t_fine_spec (c : bme680_calib) (adc : Z) : Z :=
  let var1 := adc / 8 - 2 * par_t1 c in
  var1 * par_t2 c / 2048
  + (var1 / 2) * (var1 / 2) / 4096 * (16 * par_t3 c) / 16384.

(** Degrees Celsius times 100, from t_fine. *)
Definition centi_celsius (tf : Z) : Z := (tf * 5 + 128) / 256.

(** The divisor of the pressure formula. *)
Definition press_divisor (c : bme680_calib) (tf : Z) : Z :=
  let v := tf / 2 - 64000 in
  let w := v / 4 * (v / 4) / 8192 * (par_p3 c * 32) / 8 + par_p2 c * v / 2 in
  let w := w / 262144 in
  (32768 + w) * par_p1 c / 32768.

(** The whole pressure formula.  The reductions that remain are C's casts to
    [unsigned int], of the dividend and of the result. *)
Definition press_spec (c : bme680_calib) (tf adc : Z) : option Z :=
  let v := tf / 2 - 64000 in
  let o := v / 4 * (v / 4) / 2048 * par_p6 c / 4 in
  let o := o + v * par_p5 c * 2 in
  let o := o / 4 + par_p4 c * 65536 in
  let w := v / 4 * (v / 4) / 8192 * (par_p3 c * 32) / 8 + par_p2 c * v / 2 in
  let w := w / 262144 in
  let w := (32768 + w) * par_p1 c / 32768 in
  let p := 1048576 - adc in
  let p := cast U32 ((p - o / 4096) * 3125) in
  if w =? 0 then None else
  let p := Z.quot p w * 1000 in
  let a := par_p9 c * (p / 8192 * (p / 8192) / 4096) / 33554432 in
  let b := par_p8 c * p / 524288 in
  let e := par_p10 c * p / 281474976710656 in
  let p := p + (a + b + e + par_p7 c * 128) / 16 in
  Some (cast U32 p).

(** The range of t_fine on a 20-bit conversion result. *)
Definition t_fine_ok (tf : Z) : Prop := -2232320 <= tf <= 2232320.

(** ** Lemmas *)

(** The intervals of the fields of a well-typed calibration. *)
Ltac wf_bounds Hc :=
  pose proof (in_range_bnd _ _ (wf_t1 _ Hc)); pose proof (in_range_bnd _ _ (wf_t2 _ Hc));
  pose proof (in_range_bnd _ _ (wf_t3 _ Hc)); pose proof (in_range_bnd _ _ (wf_p1 _ Hc));
  pose proof (in_range_bnd _ _ (wf_p2 _ Hc)); pose proof (in_range_bnd _ _ (wf_p3 _ Hc));
  pose proof (in_range_bnd _ _ (wf_p4 _ Hc)); pose proof (in_range_bnd _ _ (wf_p5 _ Hc));
  pose proof (in_range_bnd _ _ (wf_p6 _ Hc)); pose proof (in_range_bnd _ _ (wf_p7 _ Hc));
  pose proof (in_range_bnd _ _ (wf_p8 _ Hc)); pose proof (in_range_bnd _ _ (wf_p9 _ Hc));
  pose proof (in_range_bnd _ _ (wf_p10 _ Hc)).

Lemma t_fine_spec_bound c adc :
  calib_wf c -> 0 <= adc < 2 ^ 20 -> t_fine_ok (t_fine_spec c adc).
Proof.
  intros Hc Ha. wf_bounds Hc. assert (Bnd adc 0 1048575) by (unfold Bnd; lia).
  change (Bnd (t_fine_spec c adc) (-2232320) 2232320).
  unfold t_fine_spec. by_bound.
Qed.

Section compensate_lemmas.
Context {L : LinuxLib} {BM : Bme680Macros}.

Lemma calc_temperature_t_fine d adc :
  calib_wf (calib d) -> 0 <= adc < 2 ^ 20 ->
  t_fine (fst (calc_temperature d adc)) = t_fine_spec (calib d) adc.
Proof.
  intros Hc Ha. wf_bounds Hc. assert (Bnd adc 0 1048575) by (unfold Bnd; lia).
  unfold calc_temperature, t_fine_spec; simpl. drop_casts. norm_shifts.
  by rewrite (Z.mul_comm (par_t1 _)), (Z.mul_comm (par_t3 _)).
Qed.

(** The result in terms of the t_fine stored. *)
Lemma calc_temperature_eq d adc :
  let tf := t_fine (fst (calc_temperature d adc)) in
  calc_temperature d adc =
    (set_t_fine tf d, cast S16 (Z.shiftr ((tf *[S32] 5) +[S32] 128) 8)).
Proof.
  unfold calc_temperature. cbv beta zeta. cbn [fst set_t_fine t_fine]. reflexivity.
Qed.

Lemma celsius_cast tf :
  t_fine_ok tf -> cast S16 (Z.shiftr ((tf *[S32] 5) +[S32] 128) 8) = cast S16 (centi_celsius tf).
Proof.
  intros Ht. assert (Bnd tf (-2232320) 2232320) by exact Ht.
  unfold centi_celsius in *. f_equal. drop_casts. by norm_shifts.
Qed.

Lemma calc_humidity_bounds d adc : 0 <= calc_humidity d adc <= 100000.
Proof.
  unfold calc_humidity. cbv zeta.
  match goal with |- context [if ?x >? 100000 then _ else _] =>
    generalize x as h; intros h end.
  destruct (h >? 100000) eqn:E1; [by vm_compute|].
  destruct (h <? 0) eqn:E2; [by vm_compute|].
  rewrite cast_id; unfold in_range, tmax; simpl; lia.
Qed.
End compensate_lemmas.

(** ** Properties *)

Section compensate_props.
Context {L : LinuxLib} {BM : Bme680Macros}.

(** C17: for every well-typed calibration and every 20-bit conversion result,
    no intermediate step of [calc_temperature] overflows: t_fine is the value
    of the formula over the integers and lies within +-2232320.  The
    temperature returned is the formula's value in hundredths of a degree
    reduced to 16 bits by the final cast to s16, so it is that value exactly
    if the value fits an s16. *)
Theorem calc_temperature_exact d adc :
  calib_wf (calib d) -> 0 <= adc < 2 ^ 20 ->
  let '(d', T) := calc_temperature d adc in
  let tf := t_fine_spec (calib d) adc in
  d' = set_t_fine tf d /\ t_fine_ok tf /\
  T = cast S16 (centi_celsius tf) /\ (T = centi_celsius tf <-> in_range S16 (centi_celsius tf)).
Proof.
  intros Hc Ha. rewrite calc_temperature_eq, calc_temperature_t_fine by done.
  pose proof (t_fine_spec_bound _ adc Hc Ha) as Hb.
  rewrite (celsius_cast _ Hb). split_and!; [done..|apply cast_id_iff].
Qed.

(** C18: [calc_pressure] computes, for every well-typed calibration, every
    t_fine that a 20-bit temperature can produce and every 20-bit pressure
    reading, exactly the formula over the integers (no 64-bit overflow),
    up to the two casts to [unsigned int] it performs; and it traps in
    div64_s64 exactly when the formula's divisor is zero. *)
Theorem calc_pressure_exact {LOk : LinuxLibOk L} d adc :
  calib_wf (calib d) -> t_fine_ok (t_fine d) -> 0 <= adc < 2 ^ 20 ->
  calc_pressure d adc = press_spec (calib d) (t_fine d) adc /\
  (calc_pressure d adc = None <-> press_divisor (calib d) (t_fine d) = 0).
Proof.
  intros Hc Ht Ha.
  assert (calc_pressure d adc = press_spec (calib d) (t_fine d) adc) as ->.
  { wf_bounds Hc. assert (Bnd adc 0 1048575) by (unfold Bnd; lia).
    assert (Bnd (t_fine d) (-2232320) 2232320) by done.
    cbv beta delta [calc_pressure press_spec].
    let_subst. do 9 let_step. destruct (Z.eqb_spec v5 0) as [->|Ez].
    - by rewrite div64_s64_zero.
    - rewrite div64_s64_ok by done.
      match goal with |- Some ?a ≫= ?f = _ => change (Some a ≫= f) with (f a) end.
      pose proof (quot_bnd v7 v5 4294967295 ltac:(assumption) Ez).
      cbv beta. do 5 let_step. done. }
  split; [done|]. unfold press_spec, press_divisor. cbv beta zeta.
  match goal with |- context [if ?b then _ else _] => destruct b eqn:Ez end;
    [apply Z.eqb_eq in Ez|apply Z.eqb_neq in Ez]; done.
Qed.

(** Whatever the calibration, the temperature and the reading, and even
    if an intermediate product wraps, the humidity returned is between 0 and
    100000 (100 %rH). *)
Theorem calc_humidity_range d adc : 0 <= calc_humidity d adc <= 100000.
Proof. apply calc_humidity_bounds. Qed.

(** The high-range gas formula divides by [par_gh1] converted to unsigned.
    For a negative [par_gh1] the divisor is above 2^32 - 129, so whatever the
    reading and the range the resistance returned is 0 or 1; for a zero
    [par_gh1] the division traps. *)
Theorem calc_gas_resistance_high_degenerate d adc rng :
  calib_wf (calib d) -> par_gh1 (calib d) <= 0 ->
  (par_gh1 (calib d) = 0 /\ calc_gas_resistance_high d adc rng = None) \/
  (par_gh1 (calib d) < 0 /\
   exists r, calc_gas_resistance_high d adc rng = Some r /\ 0 <= r <= 1).
Proof.
  intros Hc Hg. pose proof (wf_gh1 _ Hc) as Hr. unfold in_range, tmax in Hr; simpl in Hr.
  unfold calc_gas_resistance_high, cdiv. cbv zeta.
  match goal with |- context [?x *[U32] 100] => generalize (x *[U32] 100), (cast_range U32 (x * 100)) end.
  intros n Hn. unfold in_range, tmax in Hn; simpl in Hn.
  destruct (decide (par_gh1 (calib d) = 0)) as [E|E].
  - left. by rewrite E.
  - right. split; [lia|]. rewrite cast_u32_neg by lia.
    assert (4294967168 <= par_gh1 (calib d) + 4294967296 < 4294967296) as Hm by lia.
    revert Hm. generalize (par_gh1 (calib d) + 4294967296) as m. intros m Hm.
    rewrite (proj2 (Z.eqb_neq m 0)) by lia. simpl.
    assert (0 <= Z.quot n m <= 1) as Hq.
    { pose proof (Z.quot_pos n m). pose proof (Z.quot_lt_upper_bound n m 2). lia. }
    eexists. split; [done|]. rewrite cast_idemp, cast_id; [lia|].
    unfold in_range, tmax; simpl tmin; simpl modulus; lia.
Qed.
End compensate_props.

(** ** Witnesses *)

#[local] Existing Instance linux_ref.
#[local] Existing Instance macros_ref.
#[local] Existing Instance linux_ref_ok.

Definition data_ex : bme680_data := set_calib calib_ex data_zero.

(** A reading of 26.17 degrees. *)
(** A well-typed calibration for which the s16 overflows. *)
Definition calib_hot : bme680_calib :=
  Build_bme680_calib 0 32767 0 0 0 0 0 0 0 0 0 0 0 0 0 0 0 0 0 0 0 0 0 0 0 0.

Theorem calc_temperature_wraps :
  calib_wf calib_hot /\ centi_celsius (t_fine_spec calib_hot (2 ^ 20 - 1)) = 40958 /\
  (calc_temperature (set_calib calib_hot data_ex) (2 ^ 20 - 1)).2 = -24578.
Proof. split; [constructor; split; discriminate|]. split; vm_compute; reflexivity. Qed.

Lemma calc_temperature_exact_witness :
  snd (calc_temperature data_ex 502456) = 2617.
Proof.
  pose proof (calc_temperature_exact data_ex 502456 calib_ex_wf ltac:(lia)) as H.
  destruct (calc_temperature data_ex 502456) as [d' T].
  destruct H as (_ & _ & -> & _). reflexivity.
Defined.

Lemma calc_pressure_exact_witness :
  exists p, calc_pressure (set_t_fine 130000 data_ex) 330000 = Some p.
Proof.
  eexists. erewrite (proj1 (calc_pressure_exact (set_t_fine 130000 data_ex) 330000
    calib_ex_wf ltac:(unfold t_fine_ok; simpl; lia) ltac:(lia))).
  vm_compute. reflexivity.
Defined.

Lemma calc_gas_resistance_high_degenerate_witness :
  exists r, calc_gas_resistance_high data_ex 500 3 = Some r /\ 0 <= r <= 1.
Proof.
  destruct (calc_gas_resistance_high_degenerate data_ex 500 3 calib_ex_wf
    ltac:(simpl; lia)) as [[E _]|[_ H]]; [discriminate E|exact H].
Defined.
