(* ===== verification/Variants.v ===== *)
(** * Variants: the second set of compensation formulas (bme680_compensate_* of bme680.c)

    Formulas that the driver's entry points do not call, in 64-bit arithmetic
    with divisions where Compensate's have shifts.  They take the driver's
    calibration and the t_fine that bme680_compensate_temp computes (the
    structure they store it in has no such field: its type is the parameter
    [tf]).  [None] is a division trap or an undefined shift.

    The theorems: the temperature sees only the reading divided by 16384, 64
    different values; the gas formula is exact on typed inputs, returns 0 for
    twelve of the sixteen ranges and takes the two negative constants of its
    table for 255 and 253; the humidity shifts by a computed amount, defined
    only in a small interval; p10 has no influence on the pressure. *)

From S2P Require Import Prelude CInt LinuxLib Bme680Data Calib Compensate.

Definition sdiv (x y : Z) : Z := cast S64 (Z.quot x y).

(** The t_fine it stores, and the temperature returned. *)
Definition bme680_compensate_temp (tf : ity) (c : bme680_calib) (adc_temp : Z) : Z * Z :=
  let var1 := sdiv adc_temp 16384 -[S64] (par_t1 c *[S64] 2) in
  let var2 := var1 *[S64] par_t2 c in
  let var3 := sdiv ((sdiv var1 2 *[S64] sdiv var1 2) *[S64] par_t3 c) 1024 in
  let t_fine := cast tf (var2 +[S64] var3) in
  let calc_temp := sdiv ((t_fine *[S64] 5) +[S64] 128) 256 in
  (t_fine, cast S32 calc_temp).

Definition bme680_compensate_press (c : bme680_calib) (t_fine adc_press : Z) : option Z :=
  let var1 := sdiv t_fine 2 -[S64] 64000 in
  let var2 := sdiv ((var1 *[S64] var1) *[S64] par_p6 c) 32768 in
  let var2 := var2 +[S64] ((var1 *[S64] par_p5 c) *[S64] 2) in
  let var2 := sdiv var2 4 +[S64] (par_p4 c *[S64] 65536) in
  let var3 := sdiv (sdiv ((par_p3 c *[S64] var1) *[S64] var1) 524288 +[S64] (par_p2 c *[S64] var1)) 524288 in
  let var4 := (1 +[S64] sdiv var3 32768) *[S64] par_p1 c in
  let calc_press := 1048576 -[U32] adc_press in
  calc_press ← cdiv S64 ((calc_press -[S64] sdiv var2 4096) *[S64] 6250) var4;
  let var1 := sdiv ((par_p9 c *[S64] calc_press) *[S64] calc_press) 2147483648 in
  let var2 := sdiv (calc_press *[S64] par_p8 c) 32768 in
  let var3 := ((sdiv calc_press 256 *[S64] sdiv calc_press 256) *[S64] sdiv calc_press 256)
              *[S64] Z.quot (par_p10 c) 131072 in
  let calc_press := calc_press +[S64] sdiv (((var1 +[S64] var2) +[S64] var3) +[S64] (par_p7 c *[S64] 128)) 16 in
  Some (cast U32 calc_press).

(** [var3 >> 14 - calc_hum] shifts by [14 - calc_hum]. *)
Definition shift_right (x n : Z) : option Z := if (0 <=? n) && (n <? 64) then Some (Z.shiftr x n) else None.

(** [var3], and [calc_hum] before the shift. *)
Definition hum_terms (c : bme680_calib) (t_fine adc_hum : Z) : Z * Z :=
  let temp_comp := sdiv ((t_fine *[S64] 5) +[S64] 128) 256 in
  let var1 := (adc_hum -[S64] (par_h1 c *[S32] 16)) -[S64] Z.shiftr (sdiv (temp_comp *[S64] par_h3 c) 100) 1 in
  let var2 := par_h2 c *[S64]
    ((sdiv (temp_comp *[S64] par_h4 c) 100
      +[S64] sdiv (Z.shiftr (temp_comp *[S64] sdiv (temp_comp *[S64] par_h5 c) 100) 6) 100)
     +[S64] 16384) in
  let var3 := var1 *[S64] var2 in
  let var4 := Z.shiftr ((par_h6 c <<[S64] 7) *[S64] sdiv (temp_comp *[S64] par_h7 c) 100) 4 in
  let var3 := var3 +[S64] var4 in
  let calc_hum := sdiv (Z.shiftr (sdiv ((Z.shiftr var3 14 *[S64] Z.shiftr var3 14) *[S64] par_h6 c) 100) 1) 4096 in
  (var3, calc_hum).

Definition bme680_compensate_hum (c : bme680_calib) (t_fine adc_hum : Z) : option Z :=
  let '(var3, calc_hum) := hum_terms c t_fine adc_hum in
  calc_hum ← shift_right var3 (14 -[S64] calc_hum);
  let calc_hum := Z.shiftr (Z.shiftr (calc_hum *[S64] 1000) 13 *[S64] 100) 12 in
  let calc_hum := if calc_hum >? 100000 then 100000 else calc_hum in
  let calc_hum := if calc_hum <? 0 then 0 else calc_hum in
  Some (cast U32 calc_hum).

(** The table is declared u8. *)
Definition const_array : list Z :=
  map (cast U8) [0;0;0;0;0;-1;0;-3;0;0;0;1;1;2;0;0;0;0;0;0;0;0;0;0;0;0;0;0;0;0;0;0].

Definition bme680_compensate_gas (c : bme680_calib) (adc_gas const_array_idx : Z) : Z :=
  let const_array1 := cast U8 (Z.land const_array_idx 0x0F * 2) in
  let const_array2 := cast U8 (const_array1 + 1) in
  let k1 := nth (Z.to_nat const_array1) const_array 0 in
  let k2 := nth (Z.to_nat const_array2) const_array 0 in
  let var1 := sdiv ((1340 +[S64] (5 *[S64] range_sw_err c)) *[S64] k1) 65536 in
  let var2 := sdiv (((adc_gas *[S32] 32768) -[S32] 16777216) *[S64] k2) 4096 in
  let var3 := sdiv (res_heat_range c *[S64] var2) 4 +[S64] (var1 *[S64] 4) in
  cast U32 (sdiv (5 *[S64] var3) 100).

(** ** Temperature *)

Lemma sdiv_exact x a b p :
  Bnd x a b -> ((tmin S64 <=? Z.quot a (Zpos p)) && (Z.quot b (Zpos p) <=? tmax S64) = true) ->
  sdiv x (Zpos p) = Z.quot x (Zpos p).
Proof. intros Hb Ht. unfold sdiv. eapply cast_bnd; [by apply bnd_quot|done]. Qed.

(** Bme680_compensate_temp sees only the reading divided by 16384: two
    readings in the same block give the same t_fine and temperature, so that
    a 20-bit reading has at most 64 different results.  On typed inputs the
    formula before the conversion to the type of t_fine does not overflow. *)
Theorem compensate_temp_blocks tf c adc adc' :
  calib_wf c -> 0 <= adc < 2 ^ 20 -> 0 <= adc' < 2 ^ 20 ->
  (adc / 16384 = adc' / 16384 -> bme680_compensate_temp tf c adc = bme680_compensate_temp tf c adc') /\
  0 <= adc / 16384 < 64 /\
  (bme680_compensate_temp tf c adc).1 =
    cast tf ((adc / 16384 - 2 * par_t1 c) * par_t2 c +
      Z.quot (Z.quot (adc / 16384 - 2 * par_t1 c) 2 * Z.quot (adc / 16384 - 2 * par_t1 c) 2 * par_t3 c) 1024).
Proof.
  intros Hc Ha Ha'. change (2 ^ 20) with 1048576 in *. split_and!.
  - intros E. unfold bme680_compensate_temp, sdiv. rewrite (Z.quot_div_nonneg adc), (Z.quot_div_nonneg adc') by lia. by rewrite E.
  - apply Z.div_pos; lia.
  - apply Z.div_lt_upper_bound; lia.
  - wf_bounds Hc. unfold bme680_compensate_temp, sdiv. cbn [fst]. rewrite (Z.quot_div_nonneg adc) by lia.
    assert (Bnd (adc / 16384) 0 63) as Hq by (unfold Bnd; dlia).
    revert Hq. generalize (adc / 16384). intros q Hq. f_equal. drop_casts. rewrite (Z.mul_comm 2 (par_t1 c)). reflexivity.
Qed.

(** ** Gas *)

(** The constants of the sixteen ranges, as the table is read. *)
Definition gas_constants (i : Z) : Z * Z :=
  if i =? 2 then (0, 255) else if i =? 3 then (0, 253) else if i =? 5 then (0, 1) else if i =? 6 then (1, 2) else (0, 0).

(** Bme680_compensate_gas on typed inputs is the formula over the
    integers, without overflow and within the table, with the constants of
    [gas_constants]: 255 and 253 where the table says -1 and -3.  For the
    twelve ranges whose constants are 0 the result is 0 whatever the reading. *)
Theorem compensate_gas_exact c adc_gas idx :
  calib_wf c -> in_range U16 adc_gas -> in_range U8 idx ->
  let i := idx mod 16 in
  let '(k1, k2) := gas_constants i in
  bme680_compensate_gas c adc_gas idx =
    cast U32 (Z.quot (5 * (Z.quot (res_heat_range c * Z.quot ((adc_gas - 512) * 32768 * k2) 4096) 4 +
                           4 * Z.quot ((1340 + 5 * range_sw_err c) * k1) 65536)) 100) /\
  (i ∉ [2; 3; 5; 6] -> bme680_compensate_gas c adc_gas idx = 0).
Proof.
  intros Hc Ha Hi. cbv zeta.
  pose proof (in_range_bnd _ _ (wf_rhr _ Hc)) as Hr. pose proof (in_range_bnd _ _ (wf_rse _ Hc)) as Hs.
  pose proof (in_range_bnd _ _ Ha) as Hb.
  assert (0 <= idx mod 16 < 16) as Hm by (apply Z.mod_pos_bound; lia).
  assert (forall k1 k2, nth (Z.to_nat (cast U8 (idx mod 16 * 2))) const_array 0 = k1 ->
    nth (Z.to_nat (cast U8 (cast U8 (idx mod 16 * 2) + 1))) const_array 0 = k2 ->
    Bnd k1 0 255 -> Bnd k2 0 255 ->
    bme680_compensate_gas c adc_gas idx =
      cast U32 (Z.quot (5 * (Z.quot (res_heat_range c * Z.quot ((adc_gas - 512) * 32768 * k2) 4096) 4 +
                           4 * Z.quot ((1340 + 5 * range_sw_err c) * k1) 65536)) 100)) as Hgen.
  { intros k1 k2 E1 E2 B1 B2. unfold bme680_compensate_gas, sdiv. change 0x0F with (Z.ones 4).
    rewrite Z.land_ones by lia. change (2 ^ 4) with 16. cbv zeta. rewrite E1, E2. f_equal. drop_casts.
    replace (adc_gas * 32768 - 16777216) with ((adc_gas - 512) * 32768) by lia. rewrite (Z.mul_comm _ 4). reflexivity. }
  assert (forall k1 k2, gas_constants (idx mod 16) = (k1, k2) ->
    nth (Z.to_nat (cast U8 (idx mod 16 * 2))) const_array 0 = k1 /\
    nth (Z.to_nat (cast U8 (cast U8 (idx mod 16 * 2) + 1))) const_array 0 = k2 /\ 0 <= k1 <= 255 /\ 0 <= k2 <= 255 /\
    (idx mod 16 ∉ [2; 3; 5; 6] -> k1 = 0 /\ k2 = 0)) as Hk.
  { intros k1 k2 E. clear Hgen. revert Hm E. generalize (idx mod 16). intros i Hm E.
    assert (i = 0 \/ i = 1 \/ i = 2 \/ i = 3 \/ i = 4 \/ i = 5 \/ i = 6 \/ i = 7 \/ i = 8 \/ i = 9 \/ i = 10 \/
      i = 11 \/ i = 12 \/ i = 13 \/ i = 14 \/ i = 15) as Hcase by lia.
    repeat destruct Hcase as [->|Hcase]; [..|subst i]; vm_compute in E; injection E as <- <-;
      (split_and!; try (vm_compute; first [reflexivity|discriminate]));
      first [intros _; split; reflexivity | intros Hn; exfalso; apply Hn; apply (bool_decide_unpack _); reflexivity]. }
  destruct (gas_constants (idx mod 16)) as [k1 k2]. destruct (Hk _ _ eq_refl) as (E1 & E2 & B1 & B2 & H0).
  rewrite (Hgen k1 k2 E1 E2 B1 B2). split; [done|]. intros Hn. destruct (H0 Hn) as [-> ->].
  rewrite !Z.mul_0_r. reflexivity.
Qed.

(** ** Humidity and pressure *)

(** Bme680_compensate_hum shifts by 14 minus the term that was meant to be
    subtracted: it is defined exactly when that term is between -49 and 14,
    and its result is then between 0 and 100000. *)
Theorem compensate_hum_defined c t_fine adc_hum :
  (is_Some (bme680_compensate_hum c t_fine adc_hum) <-> -49 <= (hum_terms c t_fine adc_hum).2 <= 14) /\
  (forall h, bme680_compensate_hum c t_fine adc_hum = Some h -> 0 <= h <= 100000).
Proof.
  unfold bme680_compensate_hum. assert (in_range S64 (hum_terms c t_fine adc_hum).2) as Hr by apply cast_range.
  destruct (hum_terms c t_fine adc_hum) as [v3 ch]. cbn [snd] in *. unfold shift_right.
  assert (14 -[S64] ch = if ch <? -9223372036854775793 then 14 - ch - 18446744073709551616 else 14 - ch) as E.
  { unfold in_range, tmax in Hr. simpl in Hr. destruct (Z.ltb_spec ch (-9223372036854775793)).
    - unfold cast. simpl. rewrite <- (Z.mod_add _ (-1)) by lia. rewrite Z.mod_small; lia.
    - apply cast_id. unfold in_range, tmax. simpl. lia. }
  assert (0 <= 14 -[S64] ch < 64 <-> -49 <= ch <= 14) as <-.
  { rewrite E. unfold in_range, tmax in Hr. simpl in Hr. destruct (Z.ltb_spec ch (-9223372036854775793)); lia. }
  clear E Hr. generalize (14 -[S64] ch). intros n. split.
  - destruct (Z.leb_spec 0 n), (Z.ltb_spec n 64); cbn [andb mbind option_bind]; split;
      try (intros [x Hx]; discriminate Hx); intros; first [lia | by eexists].
  - intros h. destruct ((0 <=? _) && _); [|done]. cbn [mbind option_bind]. set (z := Z.shiftr _ 12). clearbody z.
    intros Hh. apply (inj Some) in Hh. subst h.
    assert (0 <= (let z := if z >? 100000 then 100000 else z in if z <? 0 then 0 else z) <= 100000) as Hx.
    { cbv zeta. destruct (Z.gtb_spec z 100000); [|destruct (Z.ltb_spec z 0)]; simpl; lia. }
    cbv zeta in Hx |- *. rewrite cast_id; [done|]. unfold in_range, tmax. cbn [tmin modulus]. lia.
Qed.

(** p10 divided by 131072 is 0. *)
Lemma p10_vanishes c : calib_wf c -> Z.quot (par_p10 c) 131072 = 0.
Proof.
  intros Hc. pose proof (wf_p10 _ Hc) as H. unfold in_range, tmax in H. simpl in H. apply Z.quot_small. lia.
Qed.

(** The pressure variant traps for every reading when p1 is 0. *)
Theorem compensate_press_traps c t_fine adc : par_p1 c = 0 -> bme680_compensate_press c t_fine adc = None.
Proof. intros H. unfold bme680_compensate_press. cbv zeta. rewrite H, Z.mul_0_r. reflexivity. Qed.

(** ** Witnesses *)

(** The two readings are 0.6 degrees apart by the driver's formula. *)
Lemma compensate_temp_blocks_witness :
  bme680_compensate_temp S32 calib_ex 491520 = bme680_compensate_temp S32 calib_ex 507903 /\
  (calc_temperature data_ex 491520).2 <> (calc_temperature data_ex 507903).2.
Proof.
  split; [|vm_compute; discriminate].
  apply (compensate_temp_blocks S32 calib_ex 491520 507903 calib_ex_wf ltac:(lia) ltac:(lia)). reflexivity.
Defined.

Lemma compensate_gas_exact_witness :
  bme680_compensate_gas calib_ex 700 4 = 0 /\ bme680_compensate_gas calib_ex 511 3 <> 0.
Proof.
  split; [|vm_compute; discriminate].
  apply (proj2 (compensate_gas_exact calib_ex 700 4 calib_ex_wf ltac:(vm_compute; split; discriminate)
    ltac:(vm_compute; split; discriminate))).
  apply (bool_decide_unpack _). reflexivity.
Defined.

Lemma compensate_hum_defined_witness :
  bme680_compensate_hum calib_ex 130000 20000 = None.
Proof.
  destruct (proj1 (compensate_hum_defined calib_ex 130000 20000)) as [H _].
  destruct (bme680_compensate_hum calib_ex 130000 20000) as [h|]; [|reflexivity].
  exfalso. specialize (H ltac:(by eexists)). revert H. vm_compute. intuition congruence.
Defined.
