(* ===== verification/Driver.v ===== *)
(** * Driver: the operations of the IIO driver (bme680.c)

    Mode switching, the end-of-conversion poll, reading a measurement,
    configuring the chip, the IIO entry points (read_raw, write_raw, the
    heater-current attribute, the trigger handler), suspend and resume, and
    probe.  A C function returning a negative code is a computation of
    [M (drv B) A]; [data->lock] is the field [locked], and [mutex_lock] on a
    held mutex is [Stuck], so that a path that forgets to unlock, or locks
    twice, is visible.  The theorems give each operation's effect on the
    chip's registers through the laws of [RegmapOk]. *)

From stdpp Require Import pretty.
From S2P Require Import Prelude CInt LinuxLib Bme680Data Calib Compensate.

(** The value read_raw returns through [val] and [val2]. *)
Inductive iio_val :=
| IIO_VAL_INT (val : Z)
| IIO_VAL_INT_PLUS_MICRO (val val2 : Z).

(** What the calls of probe outside the driver return. *)
Record probe_env := {
  iio_device_alloc_ok : bool;         (* devm_iio_device_alloc *)
  regulator_bulk_get_enable : Z;
  triggered_buffer_setup : Z;
  iio_trigger_alloc_ok : bool;
  iio_trigger_register : Z;
  pm_runtime_set_active : Z;
  iio_device_register : Z;
}.

Section driver.
Context `{LinuxLib} `{Bme680Macros} {B : Type} `{Regmap B}.



(** ** Locking *)

(** [m], then [u] whatever [m] returned (the [goto out] paths). *)
Definition finally {A} (m : M (drv B) A) (u : M (drv B) unit) : M (drv B) A := fun s =>
  match m s with
  | (s', Stuck) => (s', Stuck)
  | (s', r) => match u s' with (s'', Ok _) => (s'', r) | (s'', _) => (s'', Stuck) end
  end.

Definition mutex_lock_data : M (drv B) unit := fun s =>
  if locked (data s) then (s, Stuck) else set_data (set_locked true) s.
Definition mutex_unlock_data : M (drv B) unit := set_data (set_locked false).

Definition with_lock {A} (m : M (drv B) A) : M (drv B) A :=
  _ ← mutex_lock_data; finally m mutex_unlock_data.

Definition set_i2c_locked (b : bool) : M (drv B) unit := fun s =>
  (Build_drv (data s) (bus s) b, Ok tt).
Definition mutex_lock_i2c : M (drv B) unit := fun s =>
  if i2c_locked s then (s, Stuck) else set_i2c_locked true s.

(** ** Modes *)

Definition bme680_set_mode (mode : bme680_op_mode) : M (drv B) unit :=
  tmp ← on_bus (regmap_read BME680_REG_CTRL_MEAS);
  let tmp := cast U8 (Z.land tmp (Z.lnot BME680_MODE_MASK)) in
  let tmp := cast U8 (Z.lor tmp (FIELD_PREP BME680_MODE_MASK (op_mode_val mode))) in
  on_bus (regmap_write BME680_REG_CTRL_MEAS tmp).

Definition bme680_get_mode : M (drv B) Z :=
  val ← on_bus (regmap_read BME680_REG_CTRL_MEAS);
  mret (FIELD_GET BME680_MODE_MASK val).

(** ** Measurements *)

(** The do-while loop; [try] is the value of the C variable. *)
Fixpoint eoc_loop (try : nat) : M (drv B) unit :=
  match try with
  | O => throw (- ETIMEDOUT)
  | S try' =>
      status ← on_bus (regmap_read BME680_REG_MEAS_STATUS_0);
      if Z.land status BME680_NEW_DATA_MSK =? 0 then mret tt else eoc_loop try'
  end.

Definition bme680_wait_for_eoc : M (drv B) unit := eoc_loop 10.

Definition decode_adc (buf : list Z) (d : bme680_data) : bme680_data :=
  let b := byte_at buf in
  set_adc
    (cast S32 (Z.lor (Z.lor (Z.shiftl (b 3%nat) 12) (Z.shiftl (b 4%nat) 4))
                     (Z.shiftr (b 5%nat) 4)))
    (cast U32 (Z.lor (Z.lor (Z.shiftl (b 0%nat) 12) (Z.shiftl (b 1%nat) 4))
                     (Z.shiftr (b 2%nat) 4)))
    (cast U16 (Z.lor (Z.shiftl (b 6%nat) 8) (b 7%nat)))
    (cast U32 (Z.lor (Z.shiftl (b 9%nat) 8) (b 10%nat)))
    (cast U8 (Z.land (b 11%nat) BME680_GAS_RANGE_MASK)) d.

Definition bme680_read_raw_data : M (drv B) unit :=
  _ ← bme680_wait_for_eoc;
  buf ← on_bus (regmap_bulk_read BME680_REG_MEAS_STATUS_0 15);
  set_data (decode_adc buf).

(** ** Configuration *)

Definition bme680_set_oversampling (osr reg : Z) : M (drv B) unit :=
  on_bus (regmap_update_bits reg BME680_OSR_MASK (FIELD_PREP BME680_OSR_MASK osr)).

Definition bme680_set_gas_config : M (drv B) unit :=
  d ← get_data;
  let heatr_dur := cast U8 (heater_dur d) in
  _ ← on_bus (regmap_write BME680_REG_GAS_WAIT_0 heatr_dur);
  let heatr_val := cast U8 (res_heat_val (calib d)) in
  _ ← on_bus (regmap_write BME680_REG_RES_HEAT_0 heatr_val);
  let heatr_conf := cast U8 (Z.lor BME680_ENABLE_GAS_MEAS_L BME680_ENABLE_HEATER) in
  on_bus (regmap_write BME680_REG_CTRL_GAS_1 heatr_conf).

Definition bme680_chip_config : M (drv B) unit :=
  d ← get_data;
  let osrs_p := oversampling_press d in
  let osrs_t := oversampling_temp d in
  let osrs_h := oversampling_humid d in
  let filter := cast U8 BME680_FILTER_3 in
  _ ← bme680_set_oversampling osrs_t BME680_REG_CTRL_MEAS;
  _ ← bme680_set_oversampling osrs_p BME680_REG_CTRL_MEAS;
  _ ← bme680_set_oversampling osrs_h BME680_REG_CTRL_HUM;
  _ ← on_bus (regmap_update_bits BME680_REG_CONFIG BME680_FILTER_MASK
                (FIELD_PREP BME680_FILTER_MASK filter));
  bme680_set_gas_config.

(** ** IIO entry points *)

(** A formula on the stored readings; [None] is its division trap. *)
Definition of_option {A} (o : option A) : M (drv B) A :=
  match o with Some a => mret a | None => stuck end.

Definition do_temperature : M (drv B) Z := fun s =>
  let '(d', T) := calc_temperature (data s) (temp_adc (data s)) in
  (Build_drv d' (bus s) (i2c_locked s), Ok T).
Definition do_pressure : M (drv B) Z :=
  d ← get_data; of_option (calc_pressure d (pressure_adc d)).
Definition do_humidity : M (drv B) Z :=
  d ← get_data; mret (calc_humidity d (humid_adc d)).
Definition do_gas : M (drv B) Z :=
  d ← get_data;
  if negb (Z.land (gas_range d) BME680_GAS_RANGE_RL_MASK =? 0)
  then of_option (calc_gas_resistance_low d (cast U16 (gas_adc d)) (gas_range d))
  else of_option (calc_gas_resistance_high d (cast U16 (gas_adc d)) (gas_range d)).

(** The code before the switch: make sure a measurement is taken, fetch it. *)
Definition fetch_measurement : M (drv B) unit :=
  mode ← bme680_get_mode;
  _ ← (if mode =? op_mode_val BME680_MODE_SLEEP
       then bme680_set_mode BME680_MODE_FORCED else mret tt);
  bme680_read_raw_data.

Definition read_processed (type : iio_chan_type) : M (drv B) iio_val :=
  match type with
  | IIO_TEMP =>
      t1 ← do_temperature;
      t2 ← do_temperature;
      mret (IIO_VAL_INT_PLUS_MICRO (Z.quot t1 10) (Z.rem t2 10 * 100000))
  | IIO_PRESSURE =>
      p1 ← do_pressure;
      p2 ← do_pressure;
      mret (IIO_VAL_INT_PLUS_MICRO (cast S32 (p1 / 1000)) (cast S32 (p2 mod 1000 * 1000)))
  | IIO_HUMIDITYRELATIVE =>
      h1 ← do_humidity;
      h2 ← do_humidity;
      mret (IIO_VAL_INT_PLUS_MICRO (cast S32 (h1 / 1000)) (cast S32 (h2 mod 1000 * 1000)))
  | IIO_RESISTANCE =>
      g ← do_gas;
      mret (IIO_VAL_INT (cast S32 g))
  | IIO_OTHER => throw (- EINVAL)
  end.

(** The code between [mutex_lock] and the label [out]. *)
Definition read_raw_body (type : iio_chan_type) (mask : iio_chan_info) : M (drv B) iio_val :=
  _ ← fetch_measurement;
  match mask with
  | IIO_CHAN_INFO_PROCESSED => read_processed type
  | _ => throw (- EINVAL)
  end.

Definition bme680_read_raw (type : iio_chan_type) (mask : iio_chan_info) : M (drv B) iio_val :=
  with_lock (read_raw_body type mask).

Definition write_raw_body (type : iio_chan_type) (val : Z) (mask : iio_chan_info)
    : M (drv B) unit :=
  match mask with
  | IIO_CHAN_INFO_OVERSAMPLING_RATIO =>
      _ ← match type with
          | IIO_TEMP => set_data (set_oversampling_temp (cast U8 (ilog2 val)))
          | IIO_PRESSURE => set_data (set_oversampling_press (cast U8 (ilog2 val)))
          | IIO_HUMIDITYRELATIVE =>
              set_data (set_oversampling_humid (cast U8 (ilog2 val)))
          | _ => throw (- EINVAL)
          end;
      bme680_chip_config
  | IIO_CHAN_INFO_HEATER_TEMP =>
      _ ← set_data (set_heater_temp (cast U16 val));
      bme680_set_gas_config
  | IIO_CHAN_INFO_HEATER_DUR =>
      _ ← set_data (set_heater_dur (cast U16 val));
      bme680_set_gas_config
  | _ => throw (- EINVAL)
  end.

Definition bme680_write_raw (type : iio_chan_type) (val : Z) (mask : iio_chan_info)
    : M (drv B) unit :=
  with_lock (write_raw_body type val mask).

Definition store_body (val : Z) : M (drv B) unit :=
  _ ← set_data (set_preheat_curr_mA (cast U8 val));
  bme680_set_gas_config.

(** The text that the attribute shows. *)
Definition bme680_heater_current_show : M (drv B) string :=
  d ← get_data;
  mret (pretty (preheat_curr_mA d) +:+ String (Ascii.ascii_of_nat 10) EmptyString).

(** [parsed] is what [kstrtoint(buf, 10, &val)] makes of the buffer. *)
Definition bme680_heater_current_store (parsed : res Z) (count : Z) : M (drv B) Z :=
  match parsed with
  | Err e => throw e
  | Stuck => stuck
  | Ok val =>
      _ ← with_lock (store_body val);
      mret count
  end.

Definition trigger_body : M (drv B) Z :=
  _ ← bme680_read_raw_data;
  temp ← do_temperature;
  _ ← do_pressure;
  _ ← do_humidity;
  _ ← do_gas;
  mret temp.

(** The result is what is pushed to the buffers, if anything; the handler
    itself always returns IRQ_HANDLED. *)
Definition bme680_trigger_handler : M (drv B) (option Z) := fun s =>
  match with_lock trigger_body s with
  | (s', Ok temp) => (s', Ok (Some temp))
  | (s', Err _) => (s', Ok None)
  | (s', Stuck) => (s', Stuck)
  end.

Definition bme680_core_suspend : M (drv B) unit := with_lock (mret tt).
Definition bme680_core_resume : M (drv B) unit := with_lock (mret tt).

(** ** Probe *)

(** The fields assigned on the zeroed allocation. *)
Definition probe_init : bme680_data :=
  {| calib := calib_zero; t_fine := 0;
     oversampling_temp := cast U8 BME680_OSR_8X;
     oversampling_press := cast U8 BME680_OSR_4X;
     oversampling_humid := cast U8 BME680_OSR_2X;
     preheat_curr_mA := 0; heater_dur := 150; heater_temp := 320;
     temp_adc := 0; pressure_adc := 0; humid_adc := 0; gas_adc := 0; gas_range := 0;
     locked := false |}.

Definition check (ok : bool) (e : Z) : M (drv B) unit := if ok then mret tt else throw e.

Definition bme680_probe (env : probe_env) : M (drv B) unit :=
  _ ← check (iio_device_alloc_ok env) (- ENOMEM);
  _ ← set_data (fun _ => probe_init);
  _ ← on_bus (regmap_write BME680_REG_SOFT_RESET BME680_CMD_SOFTRESET);
  id ← on_bus (regmap_read BME680_REG_CHIP_ID);
  _ ← check (id =? BME680_CHIP_ID) (- ENODEV);
  _ ← bme680_read_calib;
  _ ← bme680_chip_config;
  _ ← check (regulator_bulk_get_enable env =? 0) (regulator_bulk_get_enable env);
  _ ← bme680_set_mode BME680_MODE_SLEEP;
  _ ← check (negb (triggered_buffer_setup env <? 0)) (triggered_buffer_setup env);
  _ ← check (iio_trigger_alloc_ok env) (- ENOMEM);
  _ ← check (iio_trigger_register env =? 0) (iio_trigger_register env);
  _ ← check (pm_runtime_set_active env =? 0) (pm_runtime_set_active env);
  check (iio_device_register env =? 0) (iio_device_register env).

Definition bme680_core_probe (env : probe_env) : M (drv B) unit :=
  _ ← mutex_lock_i2c;
  finally (bme680_probe env) (set_i2c_locked false).

End driver.

(** ** Bit fields *)

(** [v] with its bits [l .. h] replaced by the low bits of [x]. *)
Definition put_field (h l v x : Z) : Z :=
  Z.lor (Z.land v (Z.lnot (field h l))) (Z.land (Z.shiftl x l) (field h l)).

Lemma field_bit h l i : 0 <= l <= h -> Z.testbit (field h l) i = (l <=? i) && (i <=? h).
Proof.
  intros Hl. unfold field. destruct (Z.leb_spec l i) as [Hi|Hi].
  - rewrite Z.shiftl_spec, Z.testbit_ones by lia. lia.
  - destruct (decide (i < 0)); [by rewrite Z.testbit_neg_r by lia|].
    by rewrite Z.shiftl_spec_low by lia.
Qed.

Lemma put_field_bit h l v x i :
  0 <= l <= h ->
  Z.testbit (put_field h l v x) i =
    if (l <=? i) && (i <=? h) then Z.testbit x (i - l) else Z.testbit v i.
Proof.
  intros Hl. destruct (decide (i < 0)).
  { rewrite !(Z.testbit_neg_r _ i) by lia. by replace (l <=? i) with false by lia. }
  unfold put_field. rewrite Z.lor_spec, !Z.land_spec, Z.lnot_spec, field_bit, Z.shiftl_spec by lia.
  destruct ((l <=? i) && (i <=? h)); simpl;
    by rewrite ?andb_false_r, ?andb_true_r, ?orb_false_r.
Qed.

(** Two puts on the same field: the second wins. *)
Lemma put_field_twice h l v x y :
  0 <= l <= h -> put_field h l (put_field h l v x) y = put_field h l v y.
Proof.
  intros Hl. apply Z.bits_inj'; intros i _. rewrite !put_field_bit by done.
  by destruct ((l <=? i) && (i <=? h)).
Qed.

Lemma u8_bits z : in_range U8 z <-> forall i, 8 <= i -> Z.testbit z i = false.
Proof.
  split.
  - intros Hz i Hi. unfold in_range, tmax in Hz; simpl in Hz.
    rewrite <- (Z.mod_small z (2 ^ 8)) by (change (2 ^ 8) with 256; lia).
    by apply Z.mod_pow2_bits_high; lia.
  - intros Hb. assert (z = z mod 2 ^ 8) as ->.
    { apply Z.bits_inj'; intros i Hi. destruct (decide (i < 8)).
      - by rewrite Z.mod_pow2_bits_low by lia.
      - rewrite Z.mod_pow2_bits_high, Hb by lia. done. }
    pose proof (Z.mod_pos_bound z (2 ^ 8) ltac:(lia)).
    unfold in_range, tmax; simpl tmin; simpl modulus. change (2 ^ 8) with 256 in *. lia.
Qed.

Lemma put_field_u8 h l v x :
  0 <= l <= h -> h < 8 -> in_range U8 v -> in_range U8 (put_field h l v x).
Proof.
  intros Hl Hh Hv. apply u8_bits; intros i Hi. rewrite put_field_bit by done.
  replace (i <=? h) with false by lia. rewrite andb_false_r. by apply u8_bits.
Qed.

(** The bits [l .. h] of [v]. *)
Definition get_field (h l v : Z) : Z := Z.shiftr (Z.land v (field h l)) l.

Lemma get_put_field h l v x :
  0 <= l <= h -> get_field h l (put_field h l v x) = x mod 2 ^ (h - l + 1).
Proof.
  intros Hl. apply Z.bits_inj'; intros i Hi. unfold get_field.
  rewrite Z.shiftr_spec, Z.land_spec, put_field_bit, field_bit by lia.
  destruct (decide (i < h - l + 1)).
  - rewrite Z.mod_pow2_bits_low by lia.
    replace ((l <=? i + l) && (i + l <=? h)) with true by lia.
    rewrite andb_true_r. f_equal; lia.
  - rewrite Z.mod_pow2_bits_high by lia.
    replace ((l <=? i + l) && (i + l <=? h)) with false by lia. apply andb_false_r.
Qed.

(** A field is not touched by a put on another one. *)
Lemma get_put_field_other h l h' l' v x :
  0 <= l <= h -> 0 <= l' <= h' -> h < l' \/ h' < l ->
  get_field h l (put_field h' l' v x) = get_field h l v.
Proof.
  intros Hl Hl' Hd. apply Z.bits_inj'; intros i Hi. unfold get_field.
  rewrite !Z.shiftr_spec, !Z.land_spec, put_field_bit, field_bit by lia.
  destruct ((l' <=? i + l) && (i + l <=? h')) eqn:E; [|done].
  replace ((l <=? i + l) && (i + l <=? h)) with false by lia. by rewrite !andb_false_r.
Qed.

(** ** The register laws, for the driver's state *)

Section driver_lemmas.
Context {L : LinuxLib} {BM : Bme680Macros} {B : Type} {R : Regmap B}.
Context {stable : Z -> bool} {reg_of : B -> Z -> Z} {ROk : RegmapOk B stable reg_of}.
Implicit Types s : drv B.

(** Only the bus changed, and register [r] now holds [f r]. *)
Definition bus_step (f : Z -> Z) s s' : Prop :=
  data s' = data s /\ i2c_locked s' = i2c_locked s /\
  forall r, stable r = true -> reg_of (bus s') r = f r.

Lemma bus_step_trans f g s1 s2 s3 :
  bus_step f s1 s2 -> bus_step g s2 s3 -> bus_step g s1 s3.
Proof. intros (? & ? & _) (? & ? & ?). split_and!; [congruence..|done]. Qed.

Lemma drv_read s s' r v :
  on_bus (regmap_read r) s = (s', Ok v) -> stable r = true ->
  v = reg_of (bus s) r /\ bus_step (reg_of (bus s)) s s'.
Proof.
  intros E Hr. apply on_bus_data in E as (Ed & Ei & E). split.
  - by eapply rm_read_ok.
  - split_and!; [done..|]. intros r' Hr'. by eapply rm_read_frame.
Qed.

Lemma drv_read_frame s s' r res :
  on_bus (regmap_read r) s = (s', res) -> bus_step (reg_of (bus s)) s s'.
Proof.
  intros E. apply on_bus_data in E as (Ed & Ei & E).
  split_and!; [done..|]. intros r' Hr'. by eapply rm_read_frame.
Qed.

Lemma drv_write s s' r v :
  on_bus (regmap_write r v) s = (s', Ok tt) -> stable r = true ->
  bus_step (fun r' => if r' =? r then cast U8 v else reg_of (bus s) r') s s'.
Proof.
  intros E Hr. apply on_bus_data in E as (Ed & Ei & E).
  split_and!; [done..|]. intros r' Hr'. by eapply rm_write_ok.
Qed.

Lemma drv_update {LOk : LinuxLibOk L} s s' r h l x :
  on_bus (regmap_update_bits r (field h l) (FIELD_PREP (field h l) x)) s = (s', Ok tt) ->
  stable r = true -> 0 <= l <= h -> h < 8 ->
  bus_step (fun r' => if r' =? r then put_field h l (reg_of (bus s) r) x
                      else reg_of (bus s) r') s s'.
Proof.
  intros E Hr Hl Hh. apply on_bus_data in E as (Ed & Ei & E).
  split_and!; [done..|]. intros r' Hr'.
  rewrite (rm_update_ok _ _ _ _ _ r' E) by done. destruct (r' =? r); [|done].
  rewrite FIELD_PREP_ok by done.
  rewrite <- Z.land_assoc, Z.land_diag. rewrite cast_id; [done|].
  apply put_field_u8; [done..|]. by apply rm_range.
Qed.

Lemma drv_bulk s s' r n bs :
  on_bus (regmap_bulk_read r n) s = (s', Ok bs) ->
  length bs = n /\ Forall (in_range U8) bs /\
  (forall i, (i < n)%nat -> stable (r + Z.of_nat i) = true ->
     nth i bs 0 = reg_of (bus s) (r + Z.of_nat i)) /\
  bus_step (reg_of (bus s)) s s'.
Proof.
  intros E. apply on_bus_data in E as (Ed & Ei & E).
  pose proof (rm_bulk_ok _ _ _ _ _ E) as (? & ? & ?). split_and!; [done..|].
  split_and!; [done..|]. intros r' Hr'. by eapply rm_bulk_frame.
Qed.

Lemma returns_read r : returns (regmap_read (B:=B) r).
Proof. intros ????. by eapply rm_read_clean. Qed.
Lemma returns_write r v : returns (regmap_write (B:=B) r v).
Proof. intros ????. by eapply rm_write_clean. Qed.
Lemma returns_bulk r n : returns (regmap_bulk_read (B:=B) r n).
Proof. intros ????. by eapply rm_bulk_clean. Qed.
Lemma returns_update r m v : returns (regmap_update_bits (B:=B) r m v).
Proof. intros ????. by eapply rm_update_clean. Qed.
End driver_lemmas.

#[export] Hint Extern 1 (returns (regmap_read _)) => apply returns_read : bme680.
#[export] Hint Extern 1 (returns (regmap_write _ _)) => apply returns_write : bme680.
#[export] Hint Extern 1 (returns (regmap_bulk_read _ _)) => apply returns_bulk : bme680.
#[export] Hint Extern 1 (returns (regmap_update_bits _ _ _)) =>
  apply returns_update : bme680.
#[export] Hint Resolve returns_ret returns_set_data returns_get_data : bme680.

(** Split the first call off a successful sequence. *)
Ltac bind_ok E :=
  let s := fresh "s" in let a := fresh "a" in let E1 := fresh "E" in
  apply M_bind_ok_inv in E as (s & a & E1 & E).
