(* ===== verification/DriverSpec.v ===== *)
(** * DriverSpec: what the driver's operations do to the chip

    The theorems on Driver: the end-of-conversion poll, the mode switch, the
    registers written by the configuration, the layout of a measurement, the
    values returned by read_raw, the lock discipline of every entry point and
    the postcondition of probe.  [config_regs] is the abstract register map
    that the configuration implements. *)

From stdpp Require Import pretty.
From S2P Require Import Prelude CInt LinuxLib Bme680Data Calib Compensate Driver.

Section poll.
Context {L : LinuxLib} {BM : Bme680Macros} {B : Type} {R : Regmap B}.

(** The bus after [n] consecutive reads of the status register, and what the
    next read returns. *)
Fixpoint after_reads (n : nat) (b : B) : B :=
  match n with
  | O => b
  | S n => after_reads n (fst (regmap_read BME680_REG_MEAS_STATUS_0 b))
  end.
Definition status_at (n : nat) (b : B) : res Z :=
  snd (regmap_read BME680_REG_MEAS_STATUS_0 (after_reads n b)).

(** A read that keeps the loop going: the new-data bit is set. *)
Definition busy (r : res Z) : bool :=
  match r with Ok v => negb (Z.land v BME680_NEW_DATA_MSK =? 0) | _ => false end.

Definition poll_result (r : res Z) : res unit :=
  match r with Ok _ => Ok tt | Err e => Err e | Stuck => Stuck end.

Definition with_bus (b : B) (s : drv B) : drv B := Build_drv (data s) b (i2c_locked s).

Lemma eoc_loop_step n s :
  eoc_loop (S n) s =
    let s' := with_bus (fst (regmap_read BME680_REG_MEAS_STATUS_0 (bus s))) s in
    if busy (status_at 0 (bus s)) then eoc_loop n s'
    else (s', poll_result (status_at 0 (bus s))).
Proof.
  unfold status_at, after_reads, busy. cbn [eoc_loop].
  unfold mbind, M_bind, on_bus, with_bus.
  destruct (regmap_read _ (bus s)) as [b' [v|e|]]; cbn [fst snd]; [|done..].
  by destruct (Z.land v _ =? 0).
Qed.

Lemma eoc_loop_settles n i s :
  (i < n)%nat -> (forall j, (j < i)%nat -> busy (status_at j (bus s)) = true) ->
  busy (status_at i (bus s)) = false ->
  eoc_loop n s = (with_bus (after_reads (S i) (bus s)) s, poll_result (status_at i (bus s))).
Proof.
  revert i s. induction n as [|n IH]; intros i s Hi Hb He; [lia|].
  rewrite eoc_loop_step. cbv zeta. destruct i as [|i]; [by rewrite He|].
  rewrite (Hb 0%nat) by lia. rewrite (IH i); [done|lia| |done].
  intros j Hj. apply (Hb (S j)). lia.
Qed.

Lemma eoc_loop_timeout n s :
  (forall j, (j < n)%nat -> busy (status_at j (bus s)) = true) ->
  eoc_loop n s = (with_bus (after_reads n (bus s)) s, Err (- ETIMEDOUT)).
Proof.
  revert s. induction n as [|n IH]; intros s Hb.
  { by destruct s. }
  rewrite eoc_loop_step. cbv zeta. rewrite (Hb 0%nat) by lia.
  rewrite IH; [done|]. intros j Hj. apply (Hb (S j)). lia.
Qed.

(** C20: the end-of-conversion poll always ends, after at most ten status
    reads: if the [i]-th of them is the first that fails or shows no new-data
    bit, it stops there with that outcome; if all ten show the bit it returns
    -ETIMEDOUT after exactly ten reads. *)
Theorem wait_for_eoc_exact s :
  (forall i, (i < 10)%nat ->
     (forall j, (j < i)%nat -> busy (status_at j (bus s)) = true) ->
     busy (status_at i (bus s)) = false ->
     bme680_wait_for_eoc s =
       (with_bus (after_reads (S i) (bus s)) s, poll_result (status_at i (bus s)))) /\
  ((forall j, (j < 10)%nat -> busy (status_at j (bus s)) = true) ->
     bme680_wait_for_eoc s = (with_bus (after_reads 10 (bus s)) s, Err (- ETIMEDOUT))).
Proof.
  split; intros; [by apply eoc_loop_settles|by apply eoc_loop_timeout].
Qed.
End poll.

(** ** Results and locks *)

Section locks.
Context {L : LinuxLib} {BM : Bme680Macros} {B : Type} {R : Regmap B}.
Context {stable : Z -> bool} {reg_of : B -> Z -> Z} {ROk : RegmapOk B stable reg_of}.
Implicit Types s : drv B.

Lemma returns_eoc n : returns (eoc_loop (B:=B) n).
Proof.
  induction n as [|n IH]; cbn [eoc_loop]; [by apply returns_throw|].
  repeat keeps_step; try case_match; auto with bme680.
Qed.

#[local] Hint Resolve returns_eoc : bme680.

Lemma returns_read_raw_data : returns (bme680_read_raw_data (B:=B)).
Proof.
  unfold bme680_read_raw_data, bme680_wait_for_eoc.
  repeat keeps_step; auto with bme680.
Qed.

Lemma returns_set_mode m : returns (bme680_set_mode (B:=B) m).
Proof. unfold bme680_set_mode. repeat keeps_step; auto with bme680. Qed.

Lemma returns_set_gas_config : returns (bme680_set_gas_config (B:=B)).
Proof. unfold bme680_set_gas_config. repeat keeps_step; auto with bme680. Qed.
#[local] Hint Resolve returns_read_raw_data returns_set_mode returns_set_gas_config : bme680.

Lemma returns_chip_config : returns (bme680_chip_config (B:=B)).
Proof.
  unfold bme680_chip_config, bme680_set_oversampling.
  repeat keeps_step; auto with bme680.
Qed.

Lemma returns_fetch : returns (fetch_measurement (B:=B)).
Proof.
  unfold fetch_measurement, bme680_get_mode.
  repeat keeps_step; try case_match; auto with bme680.
Qed.

Lemma returns_temperature : returns (do_temperature (B:=B)).
Proof. intros s s' r E. unfold do_temperature in E. by case_match; simplify_eq. Qed.

Lemma returns_humidity : returns (do_humidity (B:=B)).
Proof. unfold do_humidity. repeat keeps_step. Qed.
#[local] Hint Resolve returns_chip_config returns_fetch returns_temperature
  returns_humidity : bme680.

Definition may_trap (type : iio_chan_type) : bool :=
  match type with IIO_PRESSURE | IIO_RESISTANCE => true | _ => false end.

Lemma EINVAL_neg : - EINVAL < 0.
Proof. done. Qed.
#[local] Hint Resolve EINVAL_neg returns_throw : bme680.

Lemma returns_read_processed type :
  may_trap type = false -> returns (read_processed (B:=B) type).
Proof. destruct type; intros; simplify_eq/=; repeat keeps_step; auto with bme680. Qed.

(** Around any body, the lock is free again when the call returns; on a held
    lock the call blocks before doing anything. *)
Lemma with_lock_ends {A} (m : M (drv B) A) s s' r :
  with_lock m s = (s', r) -> locked (data s) = false ->
  r = Stuck \/ locked (data s') = false.
Proof.
  intros E Hl. unfold with_lock, mutex_lock_data, mbind, M_bind in E.
  rewrite Hl in E. simpl in E. unfold finally in E.
  destruct (m _) as [s1 [a|e|]]; simpl in E; simplify_eq; auto.
Qed.

Lemma with_lock_returns {A} (m : M (drv B) A) s s' r :
  with_lock m s = (s', r) -> locked (data s) = false -> returns m -> clean r.
Proof.
  intros E Hl Hm. unfold with_lock, mutex_lock_data, mbind, M_bind in E.
  rewrite Hl in E. simpl in E. unfold finally in E.
  destruct (m _) as [s1 r1] eqn:E1. apply Hm in E1.
  destruct r1; simpl in E; by simplify_eq.
Qed.

Lemma with_lock_blocks {A} (m : M (drv B) A) s :
  locked (data s) = true -> with_lock m s = (s, Stuck).
Proof.
  intros Hl. unfold with_lock, mutex_lock_data, mbind, M_bind. by rewrite Hl.
Qed.

(** The calls through which the rest of the kernel enters the driver. *)
Inductive request :=
| ReadRaw (type : iio_chan_type) (mask : iio_chan_info)
| WriteRaw (type : iio_chan_type) (val : Z) (mask : iio_chan_info)
| HeaterCurrentStore (parsed : res Z) (count : Z)
| Trigger
| Suspend
| Resume.

Definition forget {A} (x : drv B * res A) : drv B * res unit :=
  (fst x, match snd x with Ok _ => Ok tt | Err e => Err e | Stuck => Stuck end).

Definition exec_request (q : request) (s : drv B) : drv B * res unit :=
  match q with
  | ReadRaw type mask => forget (bme680_read_raw type mask s)
  | WriteRaw type val mask => bme680_write_raw type val mask s
  | HeaterCurrentStore parsed count => forget (bme680_heater_current_store parsed count s)
  | Trigger => forget (bme680_trigger_handler s)
  | Suspend => bme680_core_suspend s
  | Resume => bme680_core_resume s
  end.

Definition request_may_trap (q : request) : bool :=
  match q with
  | ReadRaw type IIO_CHAN_INFO_PROCESSED => may_trap type
  | Trigger => true
  | _ => false
  end.

Definition request_wf (q : request) : Prop :=
  match q with HeaterCurrentStore parsed _ => clean parsed | _ => True end.

Lemma returns_write_body type val mask : returns (write_raw_body (B:=B) type val mask).
Proof.
  unfold write_raw_body.
  destruct mask; repeat keeps_step; auto with bme680.
  destruct type; auto with bme680.
Qed.

Lemma returns_read_body type mask :
  request_may_trap (ReadRaw type mask) = false ->
  returns (read_raw_body (B:=B) type mask).
Proof.
  unfold read_raw_body. intros Ht.
  repeat keeps_step; auto with bme680.
  destruct mask; auto using returns_read_processed with bme680.
Qed.

Lemma returns_store_body val : returns (store_body (B:=B) val).
Proof. unfold store_body. repeat keeps_step; auto with bme680. Qed.

Lemma exec_request_ends q s :
  locked (data s) = false ->
  (exec_request q s).2 = Stuck \/ locked (data (exec_request q s).1) = false.
Proof.
  intros Hl. destruct q as [ty mask|ty val mask|[val|e|] n| | |]; simpl; auto.
  - unfold bme680_read_raw. destruct (with_lock _ s) as [s' r] eqn:E.
    apply with_lock_ends in E as [->|E]; auto.
  - unfold bme680_write_raw. destruct (with_lock _ s) as [s' r] eqn:E.
    apply with_lock_ends in E as [->|E]; auto.
  - unfold mbind, M_bind. destruct (with_lock _ s) as [s' r] eqn:E.
    apply with_lock_ends in E as [->|E]; try destruct r; auto.
  - unfold bme680_trigger_handler. destruct (with_lock _ s) as [s' r] eqn:E.
    apply with_lock_ends in E as [->|E]; try destruct r; auto.
  - unfold bme680_core_suspend. destruct (with_lock _ s) as [s' r] eqn:E.
    apply with_lock_ends in E as [->|E]; auto.
  - unfold bme680_core_resume. destruct (with_lock _ s) as [s' r] eqn:E.
    apply with_lock_ends in E as [->|E]; auto.
Qed.

Lemma exec_request_returns q s :
  locked (data s) = false -> request_wf q -> request_may_trap q = false ->
  clean (exec_request q s).2.
Proof.
  intros Hl Hq Ht. destruct q as [ty mask|ty val mask|[val|e|] n| | |]; simpl; try done.
  - unfold bme680_read_raw. destruct (with_lock _ s) as [s' r] eqn:E.
    apply with_lock_returns in E; [|done|by apply returns_read_body]. by destruct r.
  - unfold bme680_write_raw. destruct (with_lock _ s) as [s' r] eqn:E.
    by apply with_lock_returns in E; [|done|apply returns_write_body].
  - unfold mbind, M_bind. destruct (with_lock _ s) as [s' r] eqn:E.
    apply with_lock_returns in E; [|done|apply returns_store_body]. by destruct r.
  - unfold bme680_core_suspend. destruct (with_lock _ s) as [s' r] eqn:E.
    by apply with_lock_returns in E; [|done|apply returns_ret].
  - unfold bme680_core_resume. destruct (with_lock _ s) as [s' r] eqn:E.
    by apply with_lock_returns in E; [|done|apply returns_ret].
Qed.

(** C3: [data->lock] is never leaked.  A request that arrives while the lock
    is held does nothing until it is free; one that starts on a free lock
    ends with the lock free again, whichever early return it takes, unless it
    stops in a division trap, and only the pressure and gas channels and the
    trigger handler can trap: every other request returns success or a
    negative code. *)
Theorem lock_discipline q s :
  request_wf q ->
  (locked (data s) = true -> (exec_request q s).1 = s) /\
  (locked (data s) = false ->
     let '(s', r) := exec_request q s in
     (r = Stuck \/ locked (data s') = false) /\
     (request_may_trap q = false -> clean r /\ locked (data s') = false)).
Proof.
  intros Hq. split; intros Hl.
  - destruct q as [ty mask|ty val mask|[val|e|] n| | |]; simpl; auto.
    all: unfold bme680_read_raw, bme680_write_raw, bme680_trigger_handler,
      bme680_core_suspend, bme680_core_resume, mbind, M_bind;
      by rewrite with_lock_blocks.
  - pose proof (exec_request_ends q s Hl) as He.
    pose proof (exec_request_returns q s Hl Hq) as Hr.
    destruct (exec_request q s) as [s' r]; simpl in *. split; [done|].
    intros Ht. specialize (Hr Ht). destruct He as [->|]; done.
Qed.
End locks.

(** ** Register contents *)

Section registers.
Context {L : LinuxLib} {LOk : LinuxLibOk L} {BM : Bme680Macros} {B : Type} {R : Regmap B}.
Context {stable : Z -> bool} {reg_of : B -> Z -> Z} {ROk : RegmapOk B stable reg_of}.
Implicit Types s : drv B.

Lemma set_mode_step m s s1 :
  BME680_MODE_MASK = field 1 0 -> stable BME680_REG_CTRL_MEAS = true ->
  bme680_set_mode m s = (s1, Ok tt) ->
  bus_step (reg_of:=reg_of) (stable:=stable) (fun r' =>
      if r' =? BME680_REG_CTRL_MEAS
      then put_field 1 0 (reg_of (bus s) r') (op_mode_val m) else reg_of (bus s) r') s s1.
Proof.
  intros HM Hst E. unfold bme680_set_mode in E.
  bind_ok E. destruct (drv_read _ _ _ _ E0 Hst) as [-> Hs0].
  cbv zeta in E. rewrite HM in *.
  pose proof (rm_range (bus s) _ Hst) as Hu8.
  assert (in_range U8 (Z.land (reg_of (bus s) BME680_REG_CTRL_MEAS) (Z.lnot (field 1 0)))) as Hl.
  { apply u8_bits. intros i Hi. rewrite Z.land_spec. apply u8_bits with (i:=i) in Hu8; [|done].
    by rewrite Hu8. }
  rewrite FIELD_PREP_ok, (cast_id U8 (Z.land _ (Z.lnot _))) in E by (done || lia).
  change (Z.lor _ _) with (put_field 1 0 (reg_of (bus s) BME680_REG_CTRL_MEAS) (op_mode_val m)) in E.
  rewrite cast_id in E by (apply put_field_u8; [lia..|done]).
  apply drv_write in E; [|done]. rewrite cast_id in E by (apply put_field_u8; [lia..|done]).
  destruct Hs0 as (Hd & Hi & Hr0), E as (Hd1 & Hi1 & Hr1).
  split_and!; [congruence..|]. intros r' Hr'. rewrite Hr1 by done.
  destruct (Z.eqb_spec r' BME680_REG_CTRL_MEAS) as [->|]; [done|]. by apply Hr0.
Qed.

(** After [bme680_set_mode m], the mode field of CTRL_MEAS is [m]: a
    following [bme680_get_mode] returns it or the negative code of its failed
    read.  The upper six bits (the oversampling settings), every other stable
    register and the driver state are as before. *)
Theorem set_mode_get_mode m s s1 s2 r :
  BME680_MODE_MASK = field 1 0 -> stable BME680_REG_CTRL_MEAS = true ->
  bme680_set_mode m s = (s1, Ok tt) -> bme680_get_mode s1 = (s2, r) ->
  (r = Ok (op_mode_val m) \/ exists e, r = Err e /\ e < 0) /\
  bus_step (reg_of:=reg_of) (stable:=stable) (fun r' =>
      if r' =? BME680_REG_CTRL_MEAS
      then put_field 1 0 (reg_of (bus s) r') (op_mode_val m) else reg_of (bus s) r') s s1 /\
  data s2 = data s.
Proof.
  intros HM Hst E E'. pose proof (set_mode_step _ _ _ HM Hst E) as Hs1.
  unfold bme680_get_mode in *. rewrite HM in *.
  apply M_bind_inv in E' as [(e & E' & ->)|[[E' ->]|(s3 & v & E' & Er)]].
  - pose proof (drv_read_frame (stable:=stable) _ _ _ _ E') as (Hd & _).
    apply returns_on_bus in E'; [|auto with bme680]. split_and!; [by eauto|done|].
    rewrite Hd. apply Hs1.
  - apply returns_on_bus in E'; [done|auto with bme680].
  - apply drv_read in E' as [-> (Hd & _)]; [|done].
    unfold mret, M_ret in Er. simplify_eq.
    split_and!; [left; f_equal|done|rewrite Hd; apply Hs1].
    destruct Hs1 as (_ & _ & Hr1). rewrite Hr1 by done. rewrite Z.eqb_refl.
    rewrite FIELD_GET_ok by lia. change (Z.shiftr (Z.land ?a _) 0) with (get_field 1 0 a).
    rewrite get_put_field by lia. by destruct m.
Qed.

(** What the configuration promises: the final register map, from the driver
    state [d] and the registers [rs] before. *)
Definition gas_regs (d : bme680_data) (rs : Z -> Z) (r : Z) : Z :=
  if r =? BME680_REG_GAS_WAIT_0 then heater_dur d mod 256
  else if r =? BME680_REG_RES_HEAT_0 then cast U8 (res_heat_val (calib d))
  else if r =? BME680_REG_CTRL_GAS_1
       then cast U8 (Z.lor BME680_ENABLE_GAS_MEAS_L BME680_ENABLE_HEATER)
  else rs r.

Definition config_regs (d : bme680_data) (rs : Z -> Z) (r : Z) : Z :=
  gas_regs d (fun r =>
    if r =? BME680_REG_CTRL_MEAS then put_field 7 5 (rs r) (oversampling_press d)
    else if r =? BME680_REG_CTRL_HUM then put_field 7 5 (rs r) (oversampling_humid d)
    else if r =? BME680_REG_CONFIG then put_field 4 2 (rs r) (cast U8 BME680_FILTER_3)
    else rs r) r.

(** The registers the driver configures hold what was last written to them,
    and the masks are the datasheet's. *)
Record config_ok : Prop := {
  cfg_osr : BME680_OSR_MASK = field 7 5;
  cfg_filter : BME680_FILTER_MASK = field 4 2;
  cfg_stable : Forall (fun r => stable r = true)
    [BME680_REG_CTRL_MEAS; BME680_REG_CTRL_HUM; BME680_REG_CONFIG;
     BME680_REG_GAS_WAIT_0; BME680_REG_RES_HEAT_0; BME680_REG_CTRL_GAS_1];
}.

Lemma set_oversampling_step s s' osr r :
  config_ok -> stable r = true -> bme680_set_oversampling osr r s = (s', Ok tt) ->
  bus_step (reg_of:=reg_of) (stable:=stable) (fun r' => if r' =? r then put_field 7 5 (reg_of (bus s) r) osr
                  else reg_of (bus s) r') s s'.
Proof.
  intros HC Hr E. unfold bme680_set_oversampling in E. rewrite (cfg_osr HC) in E.
  by apply drv_update in E.
Qed.

Lemma set_gas_config_regs s s' :
  config_ok -> bme680_set_gas_config s = (s', Ok tt) ->
  bus_step (reg_of:=reg_of) (stable:=stable) (gas_regs (data s) (reg_of (bus s))) s s'.
Proof.
  intros HC E. pose proof (cfg_stable HC) as Hst. rewrite !Forall_cons in Hst.
  destruct Hst as (_ & _ & _ & H1 & H2 & H3 & _).
  unfold bme680_set_gas_config in E. rewrite get_data_bind in E. cbv zeta in E.
  bind_ok E. destruct a. apply drv_write in E0 as (D0 & I0 & R0); [|done].
  bind_ok E. destruct a. apply drv_write in E0 as (D1 & I1 & R1); [|done].
  apply drv_write in E as (D2 & I2 & R2); [|done].
  split_and!; [congruence..|]. intros r Hr. unfold gas_regs.
  rewrite R2, R1, R0 by done. rewrite !cast_idemp.
  unfold BME680_REG_CTRL_GAS_1, BME680_REG_RES_HEAT_0, BME680_REG_GAS_WAIT_0 in *.
  destruct (Z.eqb_spec r 0x64), (Z.eqb_spec r 0x5A), (Z.eqb_spec r 0x71);
    simplify_eq; try done. by rewrite cast_u.
Qed.

Lemma chip_config_step s s' :
  config_ok -> bme680_chip_config s = (s', Ok tt) ->
  bus_step (reg_of:=reg_of) (stable:=stable) (config_regs (data s) (reg_of (bus s))) s s'.
Proof.
  intros HC E. pose proof (cfg_stable HC) as Hst. rewrite !Forall_cons in Hst.
  destruct Hst as (H1 & H2 & H3 & _).
  unfold bme680_chip_config in E. rewrite get_data_bind in E. cbv zeta in E.
  bind_ok E. destruct a. apply set_oversampling_step in E0 as (D0 & I0 & R0); [|done..].
  bind_ok E. destruct a. apply set_oversampling_step in E0 as (D1 & I1 & R1); [|done..].
  bind_ok E. destruct a. apply set_oversampling_step in E0 as (D2 & I2 & R2); [|done..].
  bind_ok E. destruct a. rewrite (cfg_filter HC) in E0.
  apply drv_update in E0 as (D3 & I3 & R3); [|done..].
  apply set_gas_config_regs in E as (D4 & I4 & R4); [|done].
  split_and!; [congruence..|]. intros r Hr. rewrite R4 by done.
  replace (data s3) with (data s) by congruence.
  unfold config_regs, gas_regs. csplit; try done; try lia.
  all: rewrite R3 by done.
  all: unfold BME680_REG_CTRL_MEAS, BME680_REG_CTRL_HUM, BME680_REG_CONFIG in *.
  all: repeat match goal with H : (?r =? _) = true |- _ => apply Z.eqb_eq in H end; subst; simpl.
  all: rewrite ?R2, ?R1, ?R0 by done; simpl.
  all: rewrite ?put_field_twice by lia; try done.
  by repeat match goal with H : (r =? _) = false |- _ => rewrite H end.
Qed.
Lemma ilog2_pow2 k : 0 <= k <= 5 -> cast U8 (ilog2 (2 ^ k)) = k.
Proof.
  intros Hk. assert (0 < 2 ^ k) as Hp by (apply Z.pow_pos_nonneg; lia).
  pose proof (ilog2_ok (2 ^ k) Hp) as [Hlo Hhi].
  assert (ilog2 (2 ^ k) = k) as ->.
  { assert (0 <= ilog2 (2 ^ k)) as H0.
    { destruct (Z.neg_nonneg_cases (ilog2 (2 ^ k))) as [Hn|]; [|done].
      assert (2 ^ (ilog2 (2 ^ k) + 1) <= 1); [|lia].
      destruct (decide (ilog2 (2 ^ k) + 1 = 0)) as [->|]; [done|].
      rewrite Z.pow_neg_r; lia. }
    apply Z.pow_le_mono_r_iff in Hlo; [|lia..].
    apply Z.pow_lt_mono_r_iff in Hhi; lia. }
  rewrite cast_id; [done|]. unfold in_range, tmax; simpl; lia.
Qed.

(** A successful call under the lock is its body, between lock and unlock. *)
Lemma with_lock_ok {A} (m : M (drv B) A) s s' a :
  with_lock m s = (s', Ok a) -> locked (data s) = false ->
  exists s1, m (Build_drv (set_locked true (data s)) (bus s) (i2c_locked s)) = (s1, Ok a) /\
    data s' = set_locked false (data s1) /\ bus s' = bus s1 /\ i2c_locked s' = i2c_locked s1.
Proof.
  intros E Hl. unfold with_lock, mutex_lock_data, mbind, M_bind in E.
  rewrite Hl in E. simpl in E. unfold finally in E.
  destruct (m _) as [s1 [x|e|]]; simpl in E; simplify_eq. by exists s1.
Qed.

(** C8: when [bme680_chip_config] succeeds, every stable register of the chip
    holds exactly what [config_regs] says: the three oversampling and filter
    fields and the three gas registers written, all other bits and registers
    and the driver state untouched. *)
Theorem chip_config_registers s s' :
  config_ok -> bme680_chip_config s = (s', Ok tt) ->
  bus_step (reg_of:=reg_of) (stable:=stable) (config_regs (data s) (reg_of (bus s))) s s'.
Proof. apply chip_config_step. Qed.

(** Three settings of the driver never reach the chip.  On two states that
    differ only in [oversampling_temp], [heater_temp] and [preheat_curr_mA], a
    successful configuration leaves identical registers: the temperature
    oversampling is overwritten by the pressure oversampling in the same field
    of the same register, and [heater_temp] is copied to a local that is never
    used. *)
Theorem chip_config_ignored_settings s t x y z s' t' :
  config_ok -> bus t = bus s ->
  data t = set_oversampling_temp x (set_heater_temp y (set_preheat_curr_mA z (data s))) ->
  bme680_chip_config s = (s', Ok tt) -> bme680_chip_config t = (t', Ok tt) ->
  forall r, stable r = true -> reg_of (bus t') r = reg_of (bus s') r.
Proof.
  intros HC Hb Hd Es Et r Hr.
  apply chip_config_step in Es as (_ & _ & ->); [|done..].
  apply chip_config_step in Et as (_ & _ & ->); [|done..].
  by rewrite Hb, Hd.
Qed.

(** Setting an oversampling ratio of 2^k (k up to 5) through write_raw
    stores the code k, and for the pressure channel bits 7:5 of CTRL_MEAS hold
    k afterwards; the code that [bme680_oversampling_t] gives that ratio is
    k + 1 (x1 is 1, x16 is 5), in bits 4:2.  For the humidity channel the low
    three bits of CTRL_HUM, where the header puts the humidity oversampling,
    are not changed at all. *)
Theorem write_raw_oversampling_codes k s s' :
  config_ok -> 0 <= k <= 5 -> locked (data s) = false ->
  (bme680_write_raw IIO_PRESSURE (2 ^ k) IIO_CHAN_INFO_OVERSAMPLING_RATIO s = (s', Ok tt) ->
     oversampling_press (data s') = k /\
     get_field 7 5 (reg_of (bus s') BME680_REG_CTRL_MEAS) = k /\
     get_field 4 2 (reg_of (bus s') BME680_REG_CTRL_MEAS) =
     get_field 4 2 (reg_of (bus s) BME680_REG_CTRL_MEAS)) /\
  (bme680_write_raw IIO_HUMIDITYRELATIVE (2 ^ k) IIO_CHAN_INFO_OVERSAMPLING_RATIO s = (s', Ok tt) ->
     oversampling_humid (data s') = k /\
     get_field 7 5 (reg_of (bus s') BME680_REG_CTRL_HUM) = k /\
     get_field 2 0 (reg_of (bus s') BME680_REG_CTRL_HUM) =
     get_field 2 0 (reg_of (bus s) BME680_REG_CTRL_HUM)).
Proof.
  intros HC Hk Hl. pose proof (cfg_stable HC) as Hst. rewrite !Forall_cons in Hst.
  destruct Hst as (H1 & H2 & _).
  pose proof (ilog2_pow2 k Hk) as Hlog.
  assert (k mod 2 ^ (7 - 5 + 1) = k) as Hmod by (apply Z.mod_small; lia).
  split; intros E; apply with_lock_ok in E as (s1 & E & Ed & Eb & _); try done.
  all: unfold write_raw_body in E; rewrite set_data_bind in E.
  all: apply chip_config_step in E as (Ed1 & _ & Hr); try done.
  all: rewrite Ed, Eb, Ed1; simpl; rewrite Hlog; (split; [done|]).
  all: rewrite Hr by done; unfold config_regs, gas_regs; simpl; rewrite Hlog.
  all: rewrite get_put_field, get_put_field_other by lia; done.
Qed.
End registers.

(** ** Measurements *)

Section measurements.
Context {L : LinuxLib} {LOk : LinuxLibOk L} {BM : Bme680Macros} {B : Type} {R : Regmap B}.
Context {stable : Z -> bool} {reg_of : B -> Z -> Z} {ROk : RegmapOk B stable reg_of}.
Implicit Types s : drv B.

(** Only the bus may have changed, and no stable register did. *)
Definition bus_frame s s' : Prop :=
  bus_step (reg_of:=reg_of) (stable:=stable) (reg_of (bus s)) s s'.

#[export] Instance bus_frame_refl : Reflexive bus_frame.
Proof. by intros s. Qed.
#[export] Instance bus_frame_trans : Transitive bus_frame.
Proof.
  intros s1 s2 s3 (? & ? & H1) (? & ? & H2). split_and!; [congruence..|].
  intros r Hr. by rewrite H2, H1.
Qed.

Lemma keeps_frame_read r : keeps bus_frame (on_bus (regmap_read r)).
Proof. intros s s' res E. by eapply drv_read_frame. Qed.

Lemma keeps_frame_eoc n : keeps bus_frame (eoc_loop n).
Proof.
  induction n as [|n IH]; cbn [eoc_loop]; [by keeps_step|].
  apply keeps_bind; [tc_solve|apply keeps_frame_read|intros v; cbv beta].
  case_match; [by keeps_step|done].
Qed.

(** A 20-bit and a 16-bit reading from its bytes. *)
Lemma adc20_bytes a b c :
  in_range U8 a -> in_range U8 b -> in_range U8 c ->
  Z.lor (Z.lor (Z.shiftl a 12) (Z.shiftl b 4)) (Z.shiftr c 4) = a * 4096 + b * 16 + c / 16.
Proof.
  unfold in_range, tmax; simpl; intros Ha Hb Hc.
  rewrite (Z.shiftl_mul_pow2 b), Z.shiftr_div_pow2 by lia. change (2 ^ 4) with 16.
  rewrite (lor_shiftl_add a) by (change (2 ^ 12) with 4096; lia).
  change (2 ^ 12) with 4096.
  assert (a * 4096 + b * 16 = Z.shiftl (a * 256 + b) 4) as E
    by (rewrite Z.shiftl_mul_pow2 by lia; lia).
  rewrite E at 1. rewrite lor_shiftl_add by (change (2 ^ 4) with 16; dlia).
  change (2 ^ 4) with 16. lia.
Qed.

Lemma adc16_bytes a b :
  in_range U8 b -> Z.lor (Z.shiftl a 8) b = a * 256 + b.
Proof.
  unfold in_range, tmax; simpl; intros Hb.
  by rewrite lor_shiftl_add by (change (2 ^ 8) with 256; lia).
Qed.

Lemma adc20_range a b c :
  in_range U8 a -> in_range U8 b -> in_range U8 c ->
  0 <= a * 4096 + b * 16 + c / 16 < 2 ^ 20.
Proof.
  unfold in_range, tmax; simpl; intros Ha Hb Hc. change (2 ^ 20) with 1048576. dlia.
Qed.

(** The assignments of the C function on a buffer of bytes. *)
Lemma decode_adc_exact buf d :
  (forall i, (i < 15)%nat -> in_range U8 (byte_at buf i)) ->
  let b := byte_at buf in
  decode_adc buf d =
    set_adc (b 3%nat * 4096 + b 4%nat * 16 + b 5%nat / 16)
      (b 0%nat * 4096 + b 1%nat * 16 + b 2%nat / 16)
      (b 6%nat * 256 + b 7%nat) (b 9%nat * 256 + b 10%nat) (b 11%nat mod 16) d.
Proof.
  intros Hb b. unfold decode_adc. fold b. fold b in Hb. cbv zeta.
  pose proof (adc20_range _ _ _ (Hb 3%nat ltac:(lia)) (Hb 4%nat ltac:(lia)) (Hb 5%nat ltac:(lia))) as H1.
  pose proof (adc20_range _ _ _ (Hb 0%nat ltac:(lia)) (Hb 1%nat ltac:(lia)) (Hb 2%nat ltac:(lia))) as H2.
  rewrite !adc20_bytes, !adc16_bytes by (apply Hb; lia).
  unfold BME680_GAS_RANGE_MASK. rewrite GENMASK_ok by lia.
  unfold field. change (Z.shiftl (Z.ones (3 - 0 + 1)) 0) with (Z.ones 4).
  rewrite Z.land_ones by lia. change (2 ^ 4) with 16.
  pose proof (Hb 6%nat ltac:(lia)). pose proof (Hb 7%nat ltac:(lia)).
  pose proof (Hb 9%nat ltac:(lia)). pose proof (Hb 10%nat ltac:(lia)).
  change (2 ^ 20) with 1048576 in *.
  rewrite !cast_id; [done|..]; unfold in_range, tmax in *; simpl in *; dlia.
Qed.

(** Where [bme680_read_raw_data] takes its readings from.  The buffer
    starts at the status register 0x1D, so on success the pressure reading is
    made of the status byte and of registers 0x1E and 0x1F, the temperature
    reading of 0x20, 0x21 and 0x22, the humidity of 0x23 and 0x24, the gas
    reading of 0x26, 0x27 and the low nibble of 0x28, while bme680.h places
    pressure at 0x1F, temperature at 0x22, humidity at 0x25 and gas at 0x2A.
    The temperature reading has at most 20 bits; nothing else of the driver
    state changes. *)
Theorem read_raw_data_layout s s' :
  BME680_REG_MEAS_STATUS_0 = BME680_REG_MEAS_STAT_0 ->
  (forall r, 0x1E <= r <= 0x2B -> stable r = true) ->
  bme680_read_raw_data s = (s', Ok tt) ->
  let rg := reg_of (bus s) in
  (exists status, in_range U8 status /\
    data s' = set_adc (rg 0x20 * 4096 + rg 0x21 * 16 + rg BME680_REG_TEMP_MSB / 16)
      (status * 4096 + rg 0x1E * 16 + rg BME680_REG_PRESS_MSB / 16)
      (rg 0x23 * 256 + rg 0x24) (rg 0x26 * 256 + rg 0x27) (rg 0x28 mod 16) (data s)) /\
  0 <= temp_adc (data s') < 2 ^ 20 /\ 0 <= pressure_adc (data s') < 2 ^ 20.
Proof.
  intros HS Hst E rg. unfold bme680_read_raw_data in E.
  bind_ok E. apply keeps_frame_eoc in E0 as (D0 & _ & R0).
  bind_ok E. apply drv_bulk in E0 as (Hlen & Hu8 & Hb & D1 & _ & _).
  injection E as <-. cbn [data]. rewrite D1, D0. rewrite HS in Hb.
  unfold BME680_REG_MEAS_STAT_0 in Hb.
  assert (forall i : nat, (0 < i < 15)%nat -> byte_at a0 i = rg (29 + Z.of_nat i)) as Hbyte.
  { intros i Hi. unfold byte_at. rewrite Hb, R0; [done|apply Hst; lia|lia|apply Hst; lia]. }
  assert (forall i : nat, (0 < i < 15)%nat -> in_range U8 (rg (29 + Z.of_nat i))) as Hrg.
  { intros i Hi. apply rm_range, Hst. lia. }
  assert (in_range U8 (byte_at a0 0)) as H0.
  { rewrite Forall_forall in Hu8. apply Hu8. unfold byte_at.
    destruct a0; [done|]. simpl. left. }
  assert (forall i : nat, (0 < i < 15)%nat -> in_range U8 (byte_at a0 i)) as Hb8.
  { intros i Hi. rewrite Hbyte by done. by apply Hrg. }
  assert (forall i : nat, (i < 15)%nat -> in_range U8 (byte_at a0 i)) as Hall.
  { intros [|i] Hi; [done|]. apply Hb8; lia. }
  rewrite decode_adc_exact by done. simpl.
  pose proof (adc20_range _ _ _ (Hall 3%nat ltac:(lia)) (Hall 4%nat ltac:(lia)) (Hall 5%nat ltac:(lia))).
  pose proof (adc20_range _ _ _ (Hall 0%nat ltac:(lia)) (Hall 1%nat ltac:(lia)) (Hall 2%nat ltac:(lia))).
  split; [|done]. exists (byte_at a0 0). split; [done|].
  by rewrite (Hbyte 1%nat), (Hbyte 2%nat), (Hbyte 3%nat), (Hbyte 4%nat), (Hbyte 5%nat),
    (Hbyte 6%nat), (Hbyte 7%nat), (Hbyte 9%nat), (Hbyte 10%nat), (Hbyte 11%nat) by lia.
Qed.
End measurements.

(** ** read_raw *)

Section read_raw.
Context {L : LinuxLib} {BM : Bme680Macros} {B : Type} {R : Regmap B}.
Context {stable : Z -> bool} {reg_of : B -> Z -> Z} {ROk : RegmapOk B stable reg_of}.
Implicit Types s : drv B.

(** The value a user of the IIO channel sees, in millionths. *)
Definition micro (v : iio_val) : Z :=
  match v with
  | IIO_VAL_INT v => v * 1000000
  | IIO_VAL_INT_PLUS_MICRO v v2 => v * 1000000 + v2
  end.

(** What a processed channel is meant to read, in millionths of its unit:
    tenths of a degree with two decimals, thousands of the pressure and
    humidity formulas' results, and the gas formulas' result reinterpreted as
    an [int].  [None] is a trap. *)
Definition processed_spec (type : iio_chan_type) (d : bme680_data) : option Z :=
  match type with
  | IIO_TEMP => Some ((calc_temperature d (temp_adc d)).2 * 100000)
  | IIO_PRESSURE => p ← calc_pressure d (pressure_adc d); Some (p * 1000)
  | IIO_HUMIDITYRELATIVE => Some (calc_humidity d (humid_adc d) * 1000)
  | IIO_RESISTANCE =>
      g ← (if negb (Z.land (gas_range d) BME680_GAS_RANGE_RL_MASK =? 0)
           then calc_gas_resistance_low d (cast U16 (gas_adc d)) (gas_range d)
           else calc_gas_resistance_high d (cast U16 (gas_adc d)) (gas_range d));
      Some (cast S32 g * 1000000)
  | IIO_OTHER => None
  end.

Lemma calc_pressure_range d adc p : calc_pressure d adc = Some p -> in_range U32 p.
Proof.
  unfold calc_pressure. cbv zeta. intros H.
  apply bind_Some in H as (q & _ & H). cbv beta in H.
  injection H as <-. apply cast_range.
Qed.

(** The split in integer part and millionths loses nothing. *)
Lemma split_micro x :
  0 <= x < 4294967296 ->
  micro (IIO_VAL_INT_PLUS_MICRO (cast S32 (x / 1000)) (cast S32 (x mod 1000 * 1000))) = x * 1000.
Proof.
  intros Hx. simpl. rewrite !cast_id by (unfold in_range, tmax; simpl; dlia). dlia.
Qed.

(** Computing the temperature a second time changes nothing. *)
Lemma temperature_twice d adc :
  let '(d1, T) := calc_temperature d adc in
  temp_adc d1 = temp_adc d /\ calc_temperature d1 adc = (d1, T).
Proof. by destruct d. Qed.

Lemma do_temperature_twice s :
  exists s1 T, do_temperature s = (s1, Ok T) /\ do_temperature s1 = (s1, Ok T) /\
    T = (calc_temperature (data s) (temp_adc (data s))).2.
Proof.
  unfold do_temperature.
  pose proof (temperature_twice (data s) (temp_adc (data s))) as H.
  destruct (calc_temperature (data s) (temp_adc (data s))) as [d1 T].
  destruct H as [H1 H2]. do 2 eexists. split; [done|]. split; [|done].
  cbn [data bus i2c_locked]. by rewrite H1, H2.
Qed.

Lemma split_centi T : micro (IIO_VAL_INT_PLUS_MICRO (Z.quot T 10) (Z.rem T 10 * 100000)) = T * 100000.
Proof. simpl. dlia. Qed.

(** A formula that only reads the state. *)
Lemma of_option_eq {A} (o : option A) s :
  of_option o s = (s, match o with Some a => Ok a | None => Stuck end).
Proof. by destruct o. Qed.

Lemma do_pressure_eq s :
  do_pressure s = (s, match calc_pressure (data s) (pressure_adc (data s)) with
                      | Some p => Ok p | None => Stuck end).
Proof. unfold do_pressure. rewrite get_data_bind. apply of_option_eq. Qed.

Lemma do_gas_eq s :
  do_gas s =
    (s, match (if negb (Z.land (gas_range (data s)) BME680_GAS_RANGE_RL_MASK =? 0)
               then calc_gas_resistance_low (data s) (cast U16 (gas_adc (data s))) (gas_range (data s))
               else calc_gas_resistance_high (data s) (cast U16 (gas_adc (data s))) (gas_range (data s)))
        with Some g => Ok g | None => Stuck end).
Proof. unfold do_gas. rewrite get_data_bind. destruct (negb _); apply of_option_eq. Qed.

Lemma read_processed_value s type :
  type <> IIO_OTHER ->
  match processed_spec type (data s) with
  | None => (read_processed type s).2 = Stuck
  | Some m => exists s' v, read_processed type s = (s', Ok v) /\ micro v = m
  end.
Proof.
  intros Ht. destruct type; [| | | |done]; cbn [read_processed processed_spec].
  - destruct (do_temperature_twice s) as (s1 & T & H1 & H2 & ->).
    do 2 eexists. split; [|apply split_centi].
    rewrite (M_bind_ok _ _ _ _ _ H1), (M_bind_ok _ _ _ _ _ H2). reflexivity.
  - pose proof (do_pressure_eq s) as H.
    destruct (calc_pressure (data s) (pressure_adc (data s))) as [p|] eqn:E; cbn [mbind option_bind].
    + do 2 eexists. split; [|apply split_micro].
      * rewrite (M_bind_ok _ _ _ _ _ H), (M_bind_ok _ _ _ _ _ H). reflexivity.
      * apply calc_pressure_range in E. unfold in_range, tmax in E; simpl in E. lia.
    + by rewrite (M_bind_stuck _ _ _ _ H).
  - do 2 eexists. split; [reflexivity|]. apply split_micro.
    pose proof (calc_humidity_bounds (data s) (humid_adc (data s))). lia.
  - pose proof (do_gas_eq s) as H.
    destruct (if negb _ then _ else _) as [g|]; cbn [mbind option_bind].
    + do 2 eexists. split; [rewrite (M_bind_ok _ _ _ _ _ H); reflexivity|done].
    + by rewrite (M_bind_stuck _ _ _ _ H).
Qed.

(** The state in which the body of a locked call starts. *)
Definition lock s : drv B := Build_drv (set_locked true (data s)) (bus s) (i2c_locked s).

Lemma with_lock_eq {A} (m : M (drv B) A) s :
  locked (data s) = false ->
  with_lock m s = finally m mutex_unlock_data (lock s).
Proof.
  intros Hl. unfold with_lock, mutex_lock_data, mbind, M_bind. by rewrite Hl.
Qed.

Lemma finally_result {A} (m : M (drv B) A) s :
  (finally m mutex_unlock_data s).2 = (m s).2.
Proof. unfold finally. by destruct (m s) as [s' [a|e|]]. Qed.

(** C21: the value a processed read returns.  Once the measurement has been
    fetched (leaving the driver in state [s1]), the pair (val, val2) is the
    channel's formula on the readings in [s1], split into an integer part and
    millionths without loss, for negative temperatures too; where the formula
    divides by zero the call traps instead of returning; and if fetching
    fails, its negative code is returned. *)
Theorem read_raw_processed_value s type :
  locked (data s) = false -> type <> IIO_OTHER ->
  let '(s1, fetched) := fetch_measurement (lock s) in
  let result := (bme680_read_raw type IIO_CHAN_INFO_PROCESSED s).2 in
  match fetched with
  | Ok _ =>
      match processed_spec type (data s1) with
      | Some m => exists v, result = Ok v /\ micro v = m
      | None => result = Stuck
      end
  | Err e => result = Err e /\ e < 0
  | Stuck => False
  end.
Proof.
  intros Hl Ht. destruct (fetch_measurement (lock s)) as [s1 r] eqn:E.
  cbv zeta. unfold bme680_read_raw. rewrite with_lock_eq, finally_result by done.
  unfold read_raw_body. pose proof (returns_fetch _ _ _ E) as Hc.
  destruct r as [[]|e|]; [|by rewrite (M_bind_err _ _ _ _ _ E)|done].
  rewrite (M_bind_ok _ _ _ _ _ E).
  pose proof (read_processed_value s1 type Ht) as Hv.
  destruct (processed_spec type (data s1)) as [m|]; [|done].
  destruct Hv as (s2 & v & -> & Hv). by exists v.
Qed.

(** Every request of read_raw for an attribute other than PROCESSED, the
    advertised RAW and OVERSAMPLING_RATIO included, fails with a negative
    code, and only after the whole measurement cycle has been run on the bus:
    when that succeeds the code is -EINVAL. *)
Theorem read_raw_unsupported s type mask :
  locked (data s) = false -> mask <> IIO_CHAN_INFO_PROCESSED ->
  let '(s1, fetched) := fetch_measurement (lock s) in
  let '(s', result) := bme680_read_raw type mask s in
  bus s' = bus s1 /\
  exists e, result = Err e /\ e < 0 /\ (fetched = Ok tt -> e = - EINVAL).
Proof.
  intros Hl Hm. destruct (fetch_measurement (lock s)) as [s1 r] eqn:E.
  unfold bme680_read_raw. rewrite with_lock_eq by done.
  pose proof (returns_fetch _ _ _ E) as Hc.
  assert (exists e, read_raw_body type mask (lock s) = (s1, Err e) /\ e < 0 /\
                    (r = Ok tt -> e = - EINVAL)) as (e & Hb & He & Hr).
  { unfold read_raw_body. destruct r as [[]|e|]; [| |done].
    - exists (- EINVAL). rewrite (M_bind_ok _ _ _ _ _ E). by destruct mask.
    - exists e. by rewrite (M_bind_err _ _ _ _ _ E). }
  unfold finally. rewrite Hb. simpl. split; [done|]. by exists e.
Qed.

(** The compensation state is not touched. *)
Definition same_t_fine s s' : Prop := t_fine (data s') = t_fine (data s).

#[export] Instance same_t_fine_refl : Reflexive same_t_fine.
Proof. done. Qed.
#[export] Instance same_t_fine_trans : Transitive same_t_fine.
Proof. intros s1 s2 s3 H1 H2. unfold same_t_fine in *. congruence. Qed.

Lemma keeps_t_fine_eoc n : keeps same_t_fine (eoc_loop (B:=B) n).
Proof.
  induction n as [|n IH]; cbn [eoc_loop]; repeat keeps_step; try done.
  case_match; [by keeps_step|done].
Qed.

Lemma keeps_t_fine_fetch : keeps same_t_fine (fetch_measurement (B:=B)).
Proof.
  unfold fetch_measurement, bme680_get_mode, bme680_set_mode, bme680_read_raw_data,
    bme680_wait_for_eoc.
  repeat keeps_step; try done; [|apply keeps_t_fine_eoc].
  case_match; repeat keeps_step; done.
Qed.

Lemma finally_t_fine {A} (m : M (drv B) A) s :
  keeps same_t_fine m ->
  t_fine (data (finally m mutex_unlock_data s).1) = t_fine (data s).
Proof.
  intros Hm. unfold finally. destruct (m s) as [s' [a|e|]] eqn:E; by apply Hm in E.
Qed.

(** Only the temperature channel refreshes [t_fine].  A read of any other
    channel or attribute, whatever the outcome, leaves it as it was, although
    the measurement it fetched includes a new temperature reading: pressure
    and humidity are compensated with the temperature of the last read of the
    temperature channel (0 if there was none since probe). *)
Theorem read_raw_stale_t_fine s type mask :
  type <> IIO_TEMP \/ mask <> IIO_CHAN_INFO_PROCESSED ->
  t_fine (data (bme680_read_raw type mask s).1) = t_fine (data s).
Proof.
  intros Ht. unfold bme680_read_raw.
  destruct (locked (data s)) eqn:Hl; [by rewrite with_lock_blocks|].
  rewrite with_lock_eq, finally_t_fine; [done| |done].
  unfold read_raw_body, read_processed, do_pressure, do_humidity, do_gas.
  apply keeps_bind; [tc_solve|apply keeps_t_fine_fetch|intros _].
  destruct mask; try (by keeps_step). destruct type; [by destruct Ht|..].
  all: repeat keeps_step; try case_match.
  all: repeat (unfold of_option; case_match; repeat keeps_step).
  all: try (intros s1 s2 r E; unfold stuck in E; by simplify_eq).
Qed.

(** ** The heater-current attribute *)

Definition same_data s s' : Prop := data s' = data s.
#[export] Instance same_data_refl : Reflexive same_data.
Proof. done. Qed.
#[export] Instance same_data_trans : Transitive same_data.
Proof. intros s1 s2 s3 H1 H2. unfold same_data in *. congruence. Qed.

Lemma keeps_data_gas_config : keeps same_data (bme680_set_gas_config (B:=B)).
Proof. unfold bme680_set_gas_config. repeat keeps_step; done. Qed.

(** What is stored is shown: after a store of [val], also one whose write to
    the chip failed, the attribute shows the decimal of val modulo 256 (the
    field is a u8), hence val itself exactly if it is a byte. *)
Theorem heater_current_shown s val n :
  locked (data s) = false ->
  (bme680_heater_current_show (bme680_heater_current_store (Ok val) n s).1).2 =
    Ok (pretty (cast U8 val) +:+ String (Ascii.ascii_of_nat 10) EmptyString).
Proof.
  intros Hl. unfold bme680_heater_current_store.
  assert (preheat_curr_mA (data (with_lock (store_body (B:=B) val) s).1) = cast U8 val) as Hp.
  { rewrite with_lock_eq by done. unfold finally, store_body, mbind, M_bind at 1, set_data. simpl.
    destruct (bme680_set_gas_config _) as [s1 r] eqn:E. apply keeps_data_gas_config in E.
    unfold same_data in E. by destruct r; simpl; rewrite E. }
  unfold mbind, M_bind. destruct (with_lock _ s) as [s1 [x|e|]]; simpl in *; by rewrite Hp.
Qed.
End read_raw.

(** ** Probe *)

Section probe.
Context {L : LinuxLib} {LOk : LinuxLibOk L} {BM : Bme680Macros} {B : Type} {R : Regmap B}.
Context {stable : Z -> bool} {reg_of : B -> Z -> Z} {ROk : RegmapOk B stable reg_of}.
Implicit Types s : drv B.

(** A call outside the driver returns 0 or a negative code. *)
Definition probe_env_ok (env : probe_env) : Prop :=
  regulator_bulk_get_enable env <= 0 /\ iio_trigger_register env <= 0 /\
  pm_runtime_set_active env <= 0 /\ iio_device_register env <= 0.

Lemma returns_check ok e : (ok = false -> e < 0) -> returns (check (B:=B) ok e).
Proof. intros He. destruct ok; [apply returns_ret|apply returns_throw; auto]. Qed.

Lemma check_ok ok e s s' : check ok e s = (s', Ok tt) -> ok = true /\ s' = s.
Proof.
  unfold check, throw, mret, M_ret. destruct ok; intros E; by simplify_eq.
Qed.

Lemma returns_read_calib : returns (bme680_read_calib (B:=B)).
Proof. unfold bme680_read_calib, upd_calib. repeat keeps_step; auto with bme680. Qed.

Lemma returns_probe env : probe_env_ok env -> returns (bme680_probe (B:=B) env).
Proof.
  intros (H1 & H2 & H3 & H4). unfold bme680_probe.
  repeat keeps_step; try (apply returns_check; (done || lia)).
  all: eauto using returns_read_calib, returns_chip_config, returns_set_mode with bme680.
Qed.

Lemma keeps_frame_calib :
  keeps (fun s s' => forall r, stable r = true -> reg_of (bus s') r = reg_of (bus s) r)
    (bme680_read_calib (B:=B)).
Proof.
  assert (Transitive (fun s s' : drv B =>
    forall r, stable r = true -> reg_of (bus s') r = reg_of (bus s) r)) as HT.
  { intros s1 s2 s3 H1 H2 r Hr. by rewrite H2, H1. }
  unfold bme680_read_calib, upd_calib.
  repeat (apply keeps_bind; [done| |intros ?; cbv beta]).
  all: try (intros s s' r E; unfold set_data in E; by simplify_eq).
  all: intros s s' r E r' Hr'; apply on_bus_data in E as (_ & _ & E); by eapply rm_bulk_frame.
Qed.

Lemma probe_ok env s s' :
  config_ok (stable:=stable) -> BME680_MODE_MASK = field 1 0 ->
  bme680_probe env s = (s', Ok tt) ->
  calib_wf (calib (data s')) /\ locked (data s') = false /\ t_fine (data s') = 0 /\
  heater_temp (data s') = 320 /\ heater_dur (data s') = 150 /\
  get_field 1 0 (reg_of (bus s') BME680_REG_CTRL_MEAS) = op_mode_val BME680_MODE_SLEEP /\
  get_field 7 5 (reg_of (bus s') BME680_REG_CTRL_MEAS) = cast U8 BME680_OSR_4X mod 8 /\
  get_field 7 5 (reg_of (bus s') BME680_REG_CTRL_HUM) = cast U8 BME680_OSR_2X mod 8 /\
  get_field 4 2 (reg_of (bus s') BME680_REG_CONFIG) = cast U8 BME680_FILTER_3 mod 8 /\
  reg_of (bus s') BME680_REG_GAS_WAIT_0 = 150 /\
  reg_of (bus s') BME680_REG_RES_HEAT_0 = cast U8 (res_heat_val (calib (data s'))) /\
  reg_of (bus s') BME680_REG_CTRL_GAS_1 = cast U8 (Z.lor BME680_ENABLE_GAS_MEAS_L BME680_ENABLE_HEATER) /\
  iio_device_alloc_ok env = true /\ iio_trigger_alloc_ok env = true /\
  regulator_bulk_get_enable env = 0 /\ iio_device_register env = 0.
Proof.
  intros HC HM E. pose proof (cfg_stable HC) as Hst. rewrite !Forall_cons in Hst.
  destruct Hst as (H1 & H2 & H3 & H4 & H5 & H6 & _).
  unfold bme680_probe in E.
  bind_ok E. destruct a. apply check_ok in E0 as [Ha ->]. rewrite set_data_bind in E.
  bind_ok E. apply on_bus_data in E0 as (D1 & _ & _).
  bind_ok E. apply on_bus_data in E0 as (D2 & _ & _).
  bind_ok E. destruct a1. apply check_ok in E0 as [_ ->].
  bind_ok E. destruct a1. pose proof (read_calib_keeps_wf _ _ _ E0) as Hcal.
  bind_ok E. destruct a1. apply (chip_config_step (stable:=stable)) in E1 as (D4 & _ & R4); [|done].
  bind_ok E. destruct a1. apply check_ok in E1 as [Hreg ->].
  bind_ok E. destruct a1. apply (set_mode_step (stable:=stable)) in E1 as (D5 & _ & R5); [|done..].
  bind_ok E. destruct a1. apply check_ok in E1 as [_ ->].
  bind_ok E. destruct a1. apply check_ok in E1 as [Htr ->].
  bind_ok E. destruct a1. apply check_ok in E1 as [_ ->].
  bind_ok E. destruct a1. apply check_ok in E1 as [_ ->].
  apply check_ok in E as [Hdev ->].
  destruct Hcal as [Hwf Hd]; [rewrite D2, D1; apply calib_zero_wf|].
  rewrite D5, D4. rewrite D2, D1 in Hd.
  assert (oversampling_press (data s2) = cast U8 BME680_OSR_4X) as Hp by by rewrite Hd.
  assert (oversampling_humid (data s2) = cast U8 BME680_OSR_2X) as Hh by by rewrite Hd.
  assert (heater_dur (data s2) = 150) as Hdur by by rewrite Hd.
  assert (res_heat_val (calib (data s2)) = res_heat_val (calib (set_calib (calib (data s2)) probe_init))) as Hrh by done.
  rewrite Hd. clear Hd.
  split_and!; try done; try lia.
  all: rewrite R5, R4 by done; cbn - [get_field put_field op_mode_val cast].
  - by rewrite get_put_field by lia.
  - rewrite get_put_field_other, get_put_field, Hp by lia. done.
  - rewrite get_put_field, Hh by lia. done.
  - rewrite get_put_field by lia. done.
  - by rewrite Hdur.
  - done.
  - done.
Qed.

(** Nothing in probe takes the mutex of the driver's state. *)
Definition same_lock (s s' : drv B) : Prop := locked (data s') = locked (data s).
#[local] Instance same_lock_preorder : PreOrder same_lock.
Proof. split; [done|]. intros s1 s2 s3 H1 H2. unfold same_lock in *. congruence. Qed.

Lemma keeps_lock_bus {A} (f : B -> B * res A) : keeps same_lock (on_bus f).
Proof. intros s s' r E. unfold same_lock. by apply on_bus_data in E as (-> & _). Qed.
Lemma keeps_lock_check ok e : keeps same_lock (check (B:=B) ok e).
Proof. destruct ok; [apply keeps_ret|apply keeps_throw]; tc_solve. Qed.
Lemma keeps_lock_calib : keeps same_lock (bme680_read_calib (B:=B)).
Proof.
  unfold bme680_read_calib, upd_calib.
  repeat first [apply keeps_lock_bus | progress keeps_step]; intros s; unfold same_lock; simpl; by destruct (data s).
Qed.

Lemma probe_lock env s s' r :
  bme680_probe env s = (s', r) -> iio_device_alloc_ok env = true -> locked (data s') = false.
Proof.
  intros E Ha. unfold bme680_probe in E. rewrite Ha in E. cbn [check] in E.
  unfold mbind at 1, M_bind at 1 in E. cbn [mret M_ret] in E. rewrite set_data_bind in E.
  match type of E with ?m ?s0 = _ => enough (keeps same_lock m) as Hk by (apply Hk in E; exact E) end.
  unfold bme680_chip_config, bme680_set_oversampling, bme680_set_gas_config, bme680_set_mode.
  repeat first [apply keeps_lock_bus | apply keeps_lock_check | apply keeps_lock_calib | progress keeps_step]; done.
Qed.

(** C19: what probe leaves behind.  After a success the chip answered with the
    right id, every outside call succeeded, the calibration is well typed,
    t_fine is 0 and the heater defaults are 320 degrees and 150; the chip is in
    sleep mode, and the six registers that the driver configures hold: the
    pressure oversampling in bits 7:5 of CTRL_MEAS, the humidity oversampling in
    those of CTRL_HUM, the filter in bits 4:2 of CONFIG, the heater duration in
    GAS_WAIT_0, res_heat_val of the calibration in RES_HEAT_0, and the two
    enable flags in CTRL_GAS_1.  Otherwise probe returns a negative code; it
    never hangs.  In both cases bme680_i2c_lock, taken by [bme680_core_probe],
    is free afterwards, and so is the mutex of the driver's state, if that
    state was allocated. *)
Theorem core_probe_outcome env s :
  config_ok (stable:=stable) -> BME680_MODE_MASK = field 1 0 -> probe_env_ok env ->
  i2c_locked s = false ->
  let '(s', r) := bme680_core_probe env s in
  clean r /\ i2c_locked s' = false /\
  (iio_device_alloc_ok env = true -> locked (data s') = false) /\
  (r = Ok tt ->
     calib_wf (calib (data s')) /\ t_fine (data s') = 0 /\
     heater_temp (data s') = 320 /\ heater_dur (data s') = 150 /\
     get_field 1 0 (reg_of (bus s') BME680_REG_CTRL_MEAS) = op_mode_val BME680_MODE_SLEEP /\
     get_field 7 5 (reg_of (bus s') BME680_REG_CTRL_MEAS) = cast U8 BME680_OSR_4X mod 8 /\
     get_field 7 5 (reg_of (bus s') BME680_REG_CTRL_HUM) = cast U8 BME680_OSR_2X mod 8 /\
     get_field 4 2 (reg_of (bus s') BME680_REG_CONFIG) = cast U8 BME680_FILTER_3 mod 8 /\
     reg_of (bus s') BME680_REG_GAS_WAIT_0 = 150 /\
     reg_of (bus s') BME680_REG_RES_HEAT_0 = cast U8 (res_heat_val (calib (data s'))) /\
     reg_of (bus s') BME680_REG_CTRL_GAS_1 = cast U8 (Z.lor BME680_ENABLE_GAS_MEAS_L BME680_ENABLE_HEATER) /\
     iio_device_alloc_ok env = true /\ iio_trigger_alloc_ok env = true /\
     regulator_bulk_get_enable env = 0 /\ iio_device_register env = 0).
Proof.
  intros HC HM He Hi. unfold bme680_core_probe, mbind, M_bind, mutex_lock_i2c, set_i2c_locked.
  rewrite Hi. unfold finally at 1. fold (set_i2c_locked (B:=B) true).
  destruct (bme680_probe env _) as [s1 r] eqn:E.
  pose proof (returns_probe env He _ _ _ E) as Hc. pose proof (probe_lock _ _ _ _ E) as Hl.
  destruct r as [[]|e|]; simpl; [|done..]. split_and!; [done..|]. intros _.
  apply (probe_ok _ _ _ HC HM) in E as (? & _ & E). by split.
Qed.
End probe.

(** ** Witnesses *)

#[local] Existing Instance linux_ref.
#[local] Existing Instance macros_ref.
#[local] Existing Instance linux_ref_ok.
#[local] Existing Instance sim_regmap_ok.

(** A chip that holds [calib_ex], answers with its id, and is busy for two
    polls before each measurement. *)
Definition chip_ex : simbus := {|
  regs := fun r =>
    if r =? BME680_REG_CHIP_ID then 0x61
    else if r =? BME680_REG_CTRL_MEAS then 0x54
    else if r =? 0x20 then 0x7A else if r =? 0x21 then 0xAB
    else regs bus_ex r;
  status := [0x80; 0x80; 0]; faults := [];
|}.

Definition drv_ex : drv simbus := Build_drv data_ex chip_ex false.

Lemma config_ok_ex : config_ok (stable:=sim_stable).
Proof. by constructor; vm_compute; repeat constructor. Qed.

Definition env_ex : probe_env := Build_probe_env true 0 0 true 0 0 0.

Lemma lock_discipline_witness :
  let '(s', r) := exec_request (WriteRaw IIO_PRESSURE 4 IIO_CHAN_INFO_OVERSAMPLING_RATIO) drv_ex in
  clean r /\ locked (data s') = false.
Proof.
  pose proof (lock_discipline (WriteRaw IIO_PRESSURE 4 IIO_CHAN_INFO_OVERSAMPLING_RATIO)
    drv_ex I) as [_ H].
  specialize (H eq_refl). destruct (exec_request _ _) as [s' r].
  apply H. reflexivity.
Defined.

Lemma set_mode_get_mode_witness :
  let s1 := (bme680_set_mode BME680_MODE_FORCED drv_ex).1 in
  (bme680_get_mode s1).2 = Ok 1.
Proof.
  pose proof (set_mode_get_mode BME680_MODE_FORCED drv_ex
    (bme680_set_mode BME680_MODE_FORCED drv_ex).1 _ _
    eq_refl eq_refl eq_refl (surjective_pairing _)) as [[H|(e & H & _)] _].
  - exact H.
  - discriminate H.
Defined.

Lemma chip_config_registers_witness :
  sim_reg (bus (bme680_chip_config (lock drv_ex)).1) BME680_REG_CTRL_MEAS = 0x14.
Proof.
  pose proof (chip_config_registers (lock drv_ex) _ config_ok_ex
    (eq_refl : bme680_chip_config (lock drv_ex) = ((bme680_chip_config (lock drv_ex)).1, Ok tt)))
    as (_ & _ & H).
  rewrite H by reflexivity. vm_compute. reflexivity.
Defined.

Lemma chip_config_ignored_settings_witness :
  let t := Build_drv (set_oversampling_temp 5 (set_heater_temp 200
             (set_preheat_curr_mA 9 (data drv_ex)))) (bus drv_ex) false in
  sim_reg (bus (bme680_chip_config t).1) 0x74 =
  sim_reg (bus (bme680_chip_config drv_ex).1) 0x74.
Proof.
  intros t. exact (chip_config_ignored_settings drv_ex t 5 200 9 _ _ config_ok_ex
    eq_refl eq_refl eq_refl eq_refl 0x74 eq_refl).
Defined.

Lemma write_raw_oversampling_codes_witness :
  let s' := (bme680_write_raw IIO_PRESSURE 16 IIO_CHAN_INFO_OVERSAMPLING_RATIO drv_ex).1 in
  get_field 7 5 (sim_reg (bus s') BME680_REG_CTRL_MEAS) = 4.
Proof.
  intros s'.
  exact (proj1 (proj2 (proj1 (write_raw_oversampling_codes (stable:=sim_stable) 4 drv_ex s'
    config_ok_ex ltac:(lia) eq_refl) eq_refl))).
Defined.

Lemma read_raw_data_layout_witness :
  temp_adc (data (bme680_read_raw_data drv_ex).1) = 0x7AAB0.
Proof.
  pose proof (read_raw_data_layout (stable:=sim_stable) drv_ex (bme680_read_raw_data drv_ex).1 eq_refl
    ltac:(intros r Hr; unfold sim_stable; lia) eq_refl) as [(st & _ & ->) _].
  vm_compute. reflexivity.
Defined.

Lemma read_raw_processed_value_witness :
  exists v, (bme680_read_raw IIO_TEMP IIO_CHAN_INFO_PROCESSED drv_ex).2 = Ok v /\
            micro v = 261600000.
Proof.
  pose proof (read_raw_processed_value drv_ex IIO_TEMP eq_refl ltac:(discriminate)) as H.
  vm_compute in H. destruct H as (v & Hv & Hm). exists v. split; [exact Hv|exact Hm].
Defined.

Lemma read_raw_unsupported_witness :
  (bme680_read_raw IIO_TEMP IIO_CHAN_INFO_RAW drv_ex).2 = Err (- EINVAL).
Proof.
  pose proof (read_raw_unsupported drv_ex IIO_TEMP IIO_CHAN_INFO_RAW eq_refl
    ltac:(discriminate)) as H.
  vm_compute in H. destruct H as (_ & e & H & _ & He).
  vm_compute. rewrite H, He; reflexivity.
Defined.

Lemma read_raw_stale_t_fine_witness :
  t_fine (data (bme680_read_raw IIO_HUMIDITYRELATIVE IIO_CHAN_INFO_PROCESSED drv_ex).1) = 0.
Proof.
  rewrite (read_raw_stale_t_fine drv_ex IIO_HUMIDITYRELATIVE IIO_CHAN_INFO_PROCESSED
    ltac:(left; discriminate)). reflexivity.
Defined.

Lemma core_probe_outcome_witness :
  let s' := (bme680_core_probe env_ex (Build_drv data_zero chip_ex false)).1 in
  get_field 7 5 (sim_reg (bus s') BME680_REG_CTRL_MEAS) = 3.
Proof.
  intros s'.
  pose proof (core_probe_outcome (stable:=sim_stable) env_ex (Build_drv data_zero chip_ex false)
    config_ok_ex eq_refl ltac:(repeat split; vm_compute; discriminate) eq_refl) as H.
  assert ((bme680_core_probe env_ex (Build_drv data_zero chip_ex false)).2 = Ok tt) as Hok
    by (vm_compute; reflexivity).
  subst s'. destruct (bme680_core_probe env_ex _) as [s' r]. simpl in *.
  destruct H as (_ & _ & _ & H). specialize (H Hok).
  destruct H as (_ & _ & _ & _ & _ & H & _). exact H.
Defined.
