(* ===== verification/DriverInv.v ===== *)
(** * DriverInv: the driver's state is well typed in every session

    [data_ok] is the invariant of [struct bme680_data] between two calls:
    every field is in the range of its C type, the stored readings have the
    chip's 20 bits, and [t_fine] is a value that a 20-bit temperature can
    produce.  These are the hypotheses of the exactness theorems of
    Compensate.  The theorem: a successful probe establishes it, and every
    sequence of calls from the rest of the kernel keeps it, whatever the bus
    does and whichever calls fail. *)

From S2P Require Import Prelude CInt LinuxLib Bme680Data Calib Compensate Driver DriverSpec.

Definition data_ok (d : bme680_data) : Prop :=
  data_wf d /\ t_fine_ok (t_fine d) /\ 0 <= temp_adc d < 2 ^ 20 /\ 0 <= pressure_adc d < 2 ^ 20.

(** Keeping the invariant, whatever the result. *)
Definition ok_step {B} (s s' : drv B) : Prop := data_ok (data s) -> data_ok (data s').

#[export] Instance ok_step_preorder {B} : PreOrder (@ok_step B).
Proof. split; unfold ok_step; [by intros ?|intros x y z ? ?; auto]. Qed.

(** The calls of a session in turn; a call that never returns ends it. *)
Section session.
Context `{LinuxLib} `{Bme680Macros} {B : Type} `{Regmap B}.

Fixpoint run_requests (qs : list request) (s : drv B) : drv B :=
  match qs with
  | [] => s
  | q :: qs =>
      match exec_request q s with
      | (s', Stuck) => s'
      | (s', _) => run_requests qs s'
      end
  end.
End session.

Section inv.
Context {L : LinuxLib} {LOk : LinuxLibOk L} {BM : Bme680Macros} {B : Type} {R : Regmap B}.

(** Bulk reads return bytes. *)
Hypothesis bulk_bytes : forall (b b' : B) r n bs,
  regmap_bulk_read r n b = (b', Ok bs) -> Forall (in_range U8) bs.

Lemma byte_at_range bs i : Forall (in_range U8) bs -> in_range U8 (byte_at bs i).
Proof.
  intros Hb. unfold byte_at. destruct (Nat.lt_ge_cases i (length bs)) as [Hi|Hi].
  - rewrite Forall_forall in Hb. apply Hb, list_elem_of_In, nth_In. done.
  - rewrite nth_overflow by done. unfold in_range, tmax. simpl. lia.
Qed.

Lemma decode_adc_ok bs d :
  Forall (in_range U8) bs -> data_ok d -> data_ok (decode_adc bs d).
Proof.
  intros Hb (Hwf & Ht & _ & _). unfold data_wf in Hwf. destruct_and!.
  pose proof (byte_at_range bs 0 Hb) as B0. pose proof (byte_at_range bs 1 Hb) as B1.
  pose proof (byte_at_range bs 2 Hb) as B2. pose proof (byte_at_range bs 3 Hb) as B3.
  pose proof (byte_at_range bs 4 Hb) as B4. pose proof (byte_at_range bs 5 Hb) as B5.
  pose proof (adc20_range _ _ _ B0 B1 B2) as HP. pose proof (adc20_range _ _ _ B3 B4 B5) as HT.
  unfold data_ok, data_wf, decode_adc, set_adc. simpl. split_and!; try done; try apply cast_range.
  all: rewrite adc20_bytes by done; rewrite cast_id by (unfold in_range, tmax; simpl; lia); lia.
Qed.

Lemma keeps_ok_bus {A} (m : M B A) : keeps ok_step (on_bus m).
Proof. apply keeps_on_bus. intros s b Hs. exact Hs. Qed.

Lemma keeps_ok_set f :
  (forall d, data_ok d -> data_ok (f d)) -> keeps ok_step (set_data (B:=B) f).
Proof. intros Hf. apply keeps_set_data. intros s Hs. by apply Hf. Qed.

Lemma keeps_ok_finally {A} (m : M (drv B) A) : keeps ok_step m -> keeps ok_step (with_lock m).
Proof.
  intros Hm s s' r E Hs. unfold with_lock, mutex_lock_data, mutex_unlock_data, set_data, finally, mbind, M_bind in E.
  destruct (locked (data s)); [by simplify_eq|].
  destruct (m _) as [s1 [a|e|]] eqn:Em; simplify_eq/=; apply Hm in Em;
    [specialize (Em Hs) as [Hw ?]..|by apply Em].
  all: split; [exact Hw|done].
Qed.

Ltac ok_step_tac :=
  repeat first [apply keeps_ok_bus | progress keeps_step]; try done; try tc_solve.

Lemma keeps_ok_eoc n : keeps ok_step (eoc_loop (B:=B) n).
Proof.
  induction n as [|n IH]; simpl; ok_step_tac.
  destruct (_ =? _); [by ok_step_tac|done].
Qed.

Lemma keeps_ok_read_raw_data : keeps ok_step (bme680_read_raw_data (B:=B)).
Proof.
  unfold bme680_read_raw_data. apply keeps_bind; [tc_solve|apply keeps_ok_eoc|]. intros _.
  intros s s' r E. apply M_bind_inv in E as [(e & E & _)|[[E _]|(s1 & bs & E1 & E2)]].
  1,2: apply on_bus_data in E as (Hd & _ & _); unfold ok_step; by rewrite Hd.
  apply on_bus_data in E1 as (Hd & _ & Hb). apply bulk_bytes in Hb.
  unfold set_data in E2. injection E2 as <- _. unfold ok_step. simpl. rewrite Hd.
  by apply decode_adc_ok.
Qed.

Lemma keeps_ok_fetch : keeps ok_step (fetch_measurement (B:=B)).
Proof.
  unfold fetch_measurement, bme680_get_mode. apply keeps_bind; [tc_solve|by ok_step_tac|intros mode].
  apply keeps_bind; [tc_solve| |intros _; apply keeps_ok_read_raw_data].
  case_match; [unfold bme680_set_mode|]; by ok_step_tac.
Qed.

Lemma keeps_ok_gas_config : keeps ok_step (bme680_set_gas_config (B:=B)).
Proof. unfold bme680_set_gas_config. ok_step_tac. Qed.

Lemma keeps_ok_chip_config : keeps ok_step (bme680_chip_config (B:=B)).
Proof.
  unfold bme680_chip_config, bme680_set_oversampling. ok_step_tac. apply keeps_ok_gas_config.
Qed.

Lemma keeps_ok_temperature : keeps ok_step (do_temperature (B:=B)).
Proof.
  intros s s' r E. unfold do_temperature in E.
  destruct (calc_temperature (data s) (temp_adc (data s))) as [d' T] eqn:Ec.
  injection E as <- _. intros (Hwf & Ht & Ha & Hp). simpl.
  assert (d' = set_t_fine (t_fine d') (data s)) as Hd' by (unfold calc_temperature in Ec; by simplify_eq/=).
  assert (t_fine_ok (t_fine d')) as Hok.
  { replace d' with (fst (calc_temperature (data s) (temp_adc (data s)))) by by rewrite Ec.
    rewrite calc_temperature_t_fine by (apply Hwf || done). apply t_fine_spec_bound; [apply Hwf|done]. }
  rewrite Hd'. split_and!; [|done|apply Ha|apply Ha|apply Hp|apply Hp].
  unfold data_wf in *. simpl. destruct_and!. split_and!; try done.
  unfold t_fine_ok in Hok. unfold in_range, tmax. simpl. lia.
Qed.

Lemma keeps_ok_option {A} (o : bme680_data -> option A) :
  keeps ok_step (d ← get_data; of_option (B:=B) (o d)).
Proof.
  apply keeps_bind; [tc_solve|apply keeps_get_data; tc_solve|]. intros d.
  unfold of_option. destruct (o d); [apply keeps_ret; tc_solve|]. intros s s' r E. by injection E as <- _.
Qed.

Lemma keeps_ok_gas : keeps ok_step (do_gas (B:=B)).
Proof.
  unfold do_gas. apply keeps_bind; [tc_solve|apply keeps_get_data; tc_solve|]. intros d.
  case_match; unfold of_option; case_match; try (apply keeps_ret; tc_solve);
    intros s s' r E; by injection E as <- _.
Qed.

(** The channels' computations, in the order of the code. *)
Ltac ok_channels :=
  repeat first
    [ apply keeps_ok_temperature
    | apply (keeps_ok_option (fun d => calc_pressure d (pressure_adc d)))
    | apply (keeps_ok_option (fun d => Some (calc_humidity d (humid_adc d))))
    | apply keeps_ok_gas
    | apply keeps_ret; tc_solve | apply keeps_throw; tc_solve
    | apply keeps_bind; [tc_solve| |intros ?; cbv beta] ].

Lemma keeps_ok_processed type : keeps ok_step (read_processed (B:=B) type).
Proof. destruct type; simpl; ok_channels. Qed.

Lemma keeps_ok_request q s : request_wf q -> ok_step s (exec_request (B:=B) q s).1.
Proof.
  intros Hq. destruct q as [ty mask|ty val mask|[val|e|] n| | |]; simpl.
  - destruct (bme680_read_raw ty mask s) as [s' r] eqn:E. simpl. revert E.
    apply keeps_ok_finally. unfold read_raw_body.
    apply keeps_bind; [tc_solve|apply keeps_ok_fetch|intros _].
    destruct mask; try (by ok_step_tac). apply keeps_ok_processed.
  - destruct (bme680_write_raw ty val mask s) as [s' r] eqn:E. simpl. revert E.
    apply keeps_ok_finally. unfold write_raw_body.
    destruct mask; try (by ok_step_tac);
      (apply keeps_bind; [tc_solve| |intros _; first [apply keeps_ok_chip_config | apply keeps_ok_gas_config]]).
    1: destruct ty; try (by ok_step_tac).
    all: apply keeps_ok_set; intros d (Hwf & Ht & Ha & Hp); unfold data_wf in Hwf; destruct_and!;
      unfold data_ok, data_wf; simpl; split_and!; try done; apply cast_range.
  - destruct ((_ ← with_lock (store_body val); mret n) s) as [s' r] eqn:E. simpl. revert E.
    apply keeps_bind; [tc_solve| |intros _; by ok_step_tac].
    apply keeps_ok_finally. unfold store_body.
    apply keeps_bind; [tc_solve| |intros _; apply keeps_ok_gas_config].
    apply keeps_ok_set; intros d (Hwf & Ht & Ha & Hp). unfold data_wf in Hwf. destruct_and!.
    unfold data_ok, data_wf; simpl; split_and!; try done; apply cast_range.
  - done.
  - done.
  - unfold bme680_trigger_handler. destruct (with_lock trigger_body s) as [s' r] eqn:E.
    assert (ok_step s s') as Hk; [|by destruct r]. revert E. apply keeps_ok_finally.
    unfold trigger_body.
    apply keeps_bind; [tc_solve|apply keeps_ok_read_raw_data|intros _]. ok_channels.
  - unfold bme680_core_suspend. destruct (with_lock _ s) as [s' r] eqn:E. simpl. revert E.
    apply keeps_ok_finally. by ok_step_tac.
  - unfold bme680_core_resume. destruct (with_lock _ s) as [s' r] eqn:E. simpl. revert E.
    apply keeps_ok_finally. by ok_step_tac.
Qed.
End inv.

(** ** Probe establishes the invariant *)

Section probe.
Context {L : LinuxLib} {LOk : LinuxLibOk L} {BM : Bme680Macros} {B : Type} {R : Regmap B}.
Hypothesis bulk_bytes : forall (b b' : B) r n bs,
  regmap_bulk_read r n b = (b', Ok bs) -> Forall (in_range U8) bs.

Lemma probe_init_ok : data_ok probe_init.
Proof.
  unfold data_ok, data_wf, probe_init, t_fine_ok. simpl.
  split_and!; try apply cast_range; try apply calib_zero_wf; try lia; unfold in_range, tmax; simpl; lia.
Qed.

Lemma keeps_ok_calib : keeps ok_step (bme680_read_calib (B:=B)).
Proof.
  intros s s' r E (Hwf & Ht & Ha & Hp). unfold data_wf in Hwf. destruct_and!.
  destruct (read_calib_keeps_wf _ _ _ E) as [Hc Hd]; [done|]. rewrite Hd.
  unfold data_ok, data_wf. simpl. split_and!; done.
Qed.

Lemma keeps_ok_check ok e : keeps ok_step (check (B:=B) ok e).
Proof. unfold check. destruct ok; [apply keeps_ret|apply keeps_throw]; tc_solve. Qed.

Lemma keeps_ok_set_mode m : keeps ok_step (bme680_set_mode (B:=B) m).
Proof. unfold bme680_set_mode. repeat first [apply keeps_ok_bus | progress keeps_step]. Qed.

Lemma probe_data_ok env s s' : bme680_core_probe env s = (s', Ok tt) -> data_ok (data s').
Proof.
  unfold bme680_core_probe, mutex_lock_i2c, mbind, M_bind. destruct (i2c_locked s); [done|].
  unfold set_i2c_locked at 1, finally. set (s1 := Build_drv _ _ _).
  destruct (bme680_probe env s1) as [s2 [[]|e|]] eqn:E; simpl; intros E'; simplify_eq. simpl.
  unfold bme680_probe in E. apply M_bind_ok_inv in E as (s3 & [] & _ & E).
  rewrite set_data_bind in E. cbv beta in E.
  assert (ok_step (Build_drv probe_init (bus s3) (i2c_locked s3)) s2) as Hk; [|by apply Hk, probe_init_ok].
  revert E. generalize (Build_drv probe_init (bus s3) (i2c_locked s3)). intros s4 E. revert E.
  match goal with |- ?m _ = (_, ?r) -> _ => revert s4 s2; generalize r; assert (keeps ok_step m) as Hm end.
  { repeat first [apply keeps_ok_bus | apply keeps_ok_calib | apply keeps_ok_chip_config
      | apply keeps_ok_set_mode | apply keeps_ok_check
      | apply keeps_bind; [tc_solve| |intros ?; cbv beta]]. }
  intros r s4 s2. apply Hm.
Qed.

(** ** What a read returns *)

Definition val_ok (v : iio_val) : Prop :=
  match v with
  | IIO_VAL_INT v => in_range S32 v
  | IIO_VAL_INT_PLUS_MICRO v w => in_range S32 v /\ in_range S32 w /\ - 1000000 < w < 1000000
  end.

Lemma split_thousand x : 0 <= x mod 1000 * 1000 < 1000000.
Proof. pose proof (Z.mod_pos_bound x 1000). lia. Qed.

Lemma read_processed_typed type s s' v :
  read_processed (B:=B) type s = (s', Ok v) -> val_ok v.
Proof.
  assert (forall x, in_range S32 (cast S32 (x mod 1000 * 1000)) /\
    -1000000 < cast S32 (x mod 1000 * 1000) < 1000000) as Hs.
  { intros x. split; [apply cast_range|]. pose proof (split_thousand x).
    rewrite cast_id; [lia|]. unfold in_range, tmax. simpl. lia. }
  destruct type; simpl; intros E; repeat (apply M_bind_ok_inv in E as (? & ? & ? & E));
    unfold mret, M_ret in E; try done; injection E as _ <-; simpl;
    try apply cast_range; try (split; [apply cast_range|apply Hs]).
  match goal with H : do_temperature ?s = (_, Ok ?t), H' : do_temperature _ = (_, Ok ?u) |- context [Z.quot ?t 10] =>
    unfold do_temperature, calc_temperature in H, H'; injection H as _ <-; injection H' as _ <- end.
  match goal with |- context [Z.quot (cast S16 ?x) 10] => pose proof (cast_range S16 x) as H1 end.
  match goal with |- context [Z.rem (cast S16 ?x) 10] => pose proof (cast_range S16 x) as H2 end.
  unfold in_range, tmax in *. simpl in *. split_and!; dlia.
Qed.
End probe.

(** ** Property *)

Section property.
Context {L : LinuxLib} {LOk : LinuxLibOk L} {BM : Bme680Macros} {B : Type} {R : Regmap B}.
Context {stable : Z -> bool} {reg_of : B -> Z -> Z} {ROk : RegmapOk B stable reg_of}.

(** C23: the driver's state is well typed in every session.  After a
    successful probe, from whatever memory it started, and after any sequence
    of calls (reads, writes, stores, triggers, suspend and resume, whichever
    of them fail, and up to one that traps), every field is in the range of
    its C type, the stored temperature and pressure have 20 bits and t_fine is
    one that such a temperature produces, so that the compensation formulas
    are exact; and a value that a read then returns is a pair of ints with a
    fraction of fewer than a million millionths. *)
Theorem driver_session_typed env s0 s qs type s' v :
  bme680_core_probe env s0 = (s, Ok tt) -> Forall request_wf qs ->
  data_ok (data (run_requests qs s)) /\
  (bme680_read_raw type IIO_CHAN_INFO_PROCESSED (run_requests qs s) = (s', Ok v) -> val_ok v).
Proof.
  intros Hp Hqs. apply probe_data_ok in Hp. split.
  - revert s Hp. induction Hqs as [|q qs Hq _ IH]; intros s Hp; simpl; [done|].
    pose proof (keeps_ok_request (fun b b' r n bs E => proj1 (proj2 (rm_bulk_ok _ _ _ _ _ E))) q s Hq Hp) as Hs.
    destruct (exec_request q s) as [s1 [[]|e|]]; auto.
  - unfold bme680_read_raw, with_lock, read_raw_body. intros E.
    apply M_bind_ok_inv in E as (s1 & [] & _ & E). unfold finally in E.
    destruct ((_ ← fetch_measurement; read_processed type) s1) as [s2 [x|e|]] eqn:Eb; try done.
    apply M_bind_ok_inv in Eb as (s3 & [] & _ & Eb). apply read_processed_typed in Eb.
    by simplify_eq/=.
Qed.
End property.

(** ** Witness *)

#[local] Existing Instance linux_ref.
#[local] Existing Instance macros_ref.
#[local] Existing Instance linux_ref_ok.
#[local] Existing Instance sim_regmap_ok.

Definition session_ex : list request :=
  [ReadRaw IIO_TEMP IIO_CHAN_INFO_PROCESSED; WriteRaw IIO_PRESSURE 8 IIO_CHAN_INFO_OVERSAMPLING_RATIO;
   HeaterCurrentStore (Ok 300) 3; Trigger].

Lemma driver_session_typed_witness :
  exists s, bme680_core_probe env_ex drv_ex = (s, Ok tt) /\ preheat_curr_mA (data (run_requests session_ex s)) = 44 /\
    data_ok (data (run_requests session_ex s)) /\
    exists s' v, bme680_read_raw IIO_TEMP IIO_CHAN_INFO_PROCESSED (run_requests session_ex s) = (s', Ok v) /\ val_ok v.
Proof.
  eexists. split; [vm_compute; reflexivity|]. split; [vm_compute; reflexivity|].
  split.
  - eapply (driver_session_typed (stable := sim_stable) env_ex drv_ex _ session_ex IIO_TEMP drv_ex (IIO_VAL_INT 0));
      [vm_compute; reflexivity|repeat constructor].
  - eexists _, _. split; [vm_compute; reflexivity|].
    eapply (driver_session_typed (stable := sim_stable) env_ex drv_ex _ session_ex IIO_TEMP);
      [vm_compute; reflexivity|repeat constructor|vm_compute; reflexivity].
Defined.
