(* ===== verification/Alerts.v ===== *)
(** * Alerts: the sample FIFO, the polling thread and the threshold alerts

    bme680_poll_thread puts samples into a kfifo; a timer takes one per period
    and sends an alert per threshold exceeded.  The timer's task is written
    twice, in bme680.c ([CoreTask]) and in bme680_ipc.c ([IpcTask], which
    tries three times); [exec_alert] runs either with the polling thread.  A
    kernel timer is one-shot: it fires again only if the task calls mod_timer.
    The kfifo is the kernel's, given by its laws.

    The other half of bme680_ipc.c follows: the System V message and its
    retries, the netlink messages and their buffers, the third check_threshold_task, init and cleanup.

    The theorems: the pipeline is a bounded queue ([pipe_step]) that refuses
    a sample exactly when it is full, and the alerts are those of the samples
    taken; a negative temperature always exceeds its threshold; the timer of
    bme680_ipc.c dies exactly when the three tries of a run find nothing; the System V alert is sent at most once, in at
    most three attempts, and its text is the first 63 characters; init
    releases on failure what it acquired, but cleanup then uses freed memory. *)

From S2P Require Import Prelude CInt LinuxLib Bme680Data.

(** ** kfifo (linux/kfifo.h) *)

Class Kfifo (F : Type) := {
  kfifo_put : bme680_fifo_data -> F -> F * bool;
  kfifo_get : F -> F * option bme680_fifo_data;
}.

Class KfifoOk (F : Type) {K : Kfifo F} (size : nat) (contents : F -> list bme680_fifo_data) : Prop := {
  kf_bound f : (length (contents f) <= size)%nat;
  kf_put f s : kfifo_put s f =
    ((kfifo_put s f).1, bool_decide (length (contents f) < size)%nat) /\
    contents (kfifo_put s f).1 =
      if bool_decide (length (contents f) < size)%nat then contents f ++ [s] else contents f;
  kf_get f : match contents f with
    | [] => (kfifo_get f).2 = None /\ contents (kfifo_get f).1 = []
    | s :: l => (kfifo_get f).2 = Some s /\ contents (kfifo_get f).1 = l
    end;
}.

(** ** The polling thread and the timer's task *)

Record thresholds := { threshold_temp : Z; threshold_press : Z; threshold_hum : Z; threshold_gas : Z }.

Inductive alert := TempAlert | PressAlert | HumAlert | GasAlert.

(** The four tests; [fifo.temp] is an [s32] compared with a [u32]. *)
Definition threshold_alerts (t : thresholds) (s : bme680_fifo_data) : list alert :=
  (if cast U32 (temp s) >? threshold_temp t then [TempAlert] else []) ++
  (if pressure s >? threshold_press t then [PressAlert] else []) ++
  (if humidity s >? threshold_hum t then [HumAlert] else []) ++
  (if gas_res s >? threshold_gas t then [GasAlert] else []).

Inductive task_variant := CoreTask | IpcTask.
#[export] Instance task_variant_eq_dec : EqDecision task_variant.
Proof. solve_decision. Defined.

(** [trying]: the retries left of a task of bme680_ipc.c in progress.  [sent]
    are the alerts handed to netlink, [dropped] and [taken] the samples that
    kfifo_put refused and kfifo_get gave back (oldest first). *)
Record alert_state (F : Type) := {
  fifo : F;
  data_ready : Z;
  error_count : Z;
  armed : bool;
  trying : option nat;
  sent : list alert;
  dropped : list bme680_fifo_data;
  taken : list bme680_fifo_data;
}.
Arguments Build_alert_state {_} _ _ _ _ _ _ _ _.
Arguments fifo {_} _.
Arguments data_ready {_} _.
Arguments error_count {_} _.
Arguments armed {_} _.
Arguments trying {_} _.
Arguments sent {_} _.
Arguments dropped {_} _.
Arguments taken {_} _.

Inductive alert_event :=
| Poll (read : option bme680_fifo_data)   (* bme680_read_raw_data: a sample, or an error *)
| Fire                                    (* the timer *)
| Retry.                                  (* the next turn of the loop in progress *)

(** complete (linux/completion.h): the counter stays at UINT_MAX. *)
Definition complete (done : Z) : Z := if done =? tmax U32 then done else done + 1.

(** atomic_inc (linux/atomic.h): an [int] that wraps around. *)
Definition atomic_inc (v : Z) : Z := cast S32 (v + 1).

Section pipeline.
Context {F : Type} {K : Kfifo F} (t : thresholds).

(** One turn of bme680_poll_thread; the result of kfifo_put is not looked at. *)
Definition bme680_poll_thread (read : option bme680_fifo_data) (c : alert_state F) : alert_state F :=
  match read with
  | Some s =>
      let '(f, ok) := kfifo_put s (fifo c) in
      {| fifo := f; data_ready := complete (data_ready c); error_count := error_count c;
         armed := armed c; trying := trying c; sent := sent c;
         dropped := if ok then dropped c else dropped c ++ [s]; taken := taken c |}
  | None =>
      {| fifo := fifo c; data_ready := data_ready c; error_count := atomic_inc (error_count c);
         armed := armed c; trying := trying c; sent := sent c; dropped := dropped c; taken := taken c |}
  end.

(** A kfifo_get under the semaphore: what follows depends on the task. *)
Definition take_sample (c : alert_state F) (got missed : bool * option nat) : alert_state F :=
  match kfifo_get (fifo c) with
  | (f, Some s) =>
      {| fifo := f; data_ready := data_ready c; error_count := error_count c;
         armed := got.1; trying := got.2; sent := sent c ++ threshold_alerts t s;
         dropped := dropped c; taken := taken c ++ [s] |}
  | (f, None) =>
      {| fifo := f; data_ready := data_ready c; error_count := error_count c;
         armed := missed.1; trying := missed.2; sent := sent c;
         dropped := dropped c; taken := taken c |}
  end.

(** check_threshold_task of bme680.c: always ends with mod_timer. *)
Definition check_threshold_core (c : alert_state F) : alert_state F :=
  take_sample c (true, None) (true, None).

(** One turn of the loop of check_threshold_task of bme680_ipc.c with
    [retries] left after it; without a sample at the end it returns before
    mod_timer. *)
Definition check_threshold_ipc (retries : nat) (c : alert_state F) : alert_state F :=
  take_sample c (true, None) (false, match retries with O => None | _ => Some retries end).

Definition exec_alert (v : task_variant) (c : alert_state F) (e : alert_event) : option (alert_state F) :=
  match e with
  | Poll read => Some (bme680_poll_thread read c)
  | Fire =>
      if armed c then
        match v with
        | CoreTask => Some (check_threshold_core c)
        | IpcTask => Some (check_threshold_ipc 2 c)
        end
      else None
  | Retry =>
      match trying c with
      | Some (S n) => Some (check_threshold_ipc n c)
      | _ => None
      end
  end.

Fixpoint run_alerts (v : task_variant) (c : alert_state F) (es : list alert_event) : option (alert_state F) :=
  match es with
  | [] => Some c
  | e :: es => c' ← exec_alert v c e; run_alerts v c' es
  end.

Definition alert_start (f : F) : alert_state F :=
  {| fifo := f; data_ready := 0; error_count := 0; armed := true; trying := None; sent := [];
     dropped := []; taken := [] |}.
End pipeline.

(** ** The pipeline as a bounded queue

    The specification: a queue of [size] samples.  What arrives when it holds
    [size] of them is refused, everything else comes out once, in order. *)

Record sample_pipe := {
  held : list bme680_fifo_data; refused : list bme680_fifo_data; gone : list bme680_fifo_data;
}.
Definition pipe_empty : sample_pipe := {| held := []; refused := []; gone := [] |}.

Definition pipe_step (size : nat) (q : sample_pipe) (e : alert_event) : sample_pipe :=
  match e with
  | Poll None => q
  | Poll (Some s) =>
      if bool_decide (length (held q) < size)%nat
      then {| held := held q ++ [s]; refused := refused q; gone := gone q |}
      else {| held := held q; refused := refused q ++ [s]; gone := gone q |}
  | Fire | Retry =>
      match held q with
      | [] => q
      | s :: l => {| held := l; refused := refused q; gone := gone q ++ [s] |}
      end
  end.
Definition pipe_run (size : nat) (es : list alert_event) : sample_pipe :=
  fold_left (pipe_step size) es pipe_empty.

(** The samples read, and the reads that failed. *)
Definition polled (es : list alert_event) : list bme680_fifo_data :=
  omap (fun e => match e with Poll read => read | _ => None end) es.
Definition failed_reads (es : list alert_event) : Z :=
  count_if (fun e => match e with Poll None => true | _ => false end) es.

Lemma polled_snoc es e :
  polled (es ++ [e]) = polled es ++ match e with Poll (Some s) => [s] | _ => [] end.
Proof. unfold polled. rewrite omap_app. f_equal. by destruct e as [[?|]| |]. Qed.

Lemma failed_snoc es e :
  failed_reads (es ++ [e]) = failed_reads es + match e with Poll None => 1 | _ => 0 end.
Proof. unfold failed_reads. rewrite count_if_app. f_equal. by destruct e as [[?|]| |]. Qed.

Lemma pipe_run_snoc size es e : pipe_run size (es ++ [e]) = pipe_step size (pipe_run size es) e.
Proof. unfold pipe_run. by rewrite fold_left_app. Qed.

(** Nothing but the refused samples is missing, and the rest is in order. *)
Lemma pipe_run_polled size es :
  let q := pipe_run size es in
  polled es ≡ₚ gone q ++ held q ++ refused q /\ (refused q = [] -> polled es = gone q ++ held q) /\
  sublist (gone q ++ held q) (polled es).
Proof.
  induction es as [|e es IH] using rev_ind; [by split_and!|]. simpl in *.
  rewrite polled_snoc, pipe_run_snoc. destruct IH as (HP & HL & HS), (pipe_run size es) as [h r g].
  destruct e as [[s|]| |]; simpl in *; rewrite ?app_nil_r; try done.
  - case_bool_decide; simpl; split_and!.
    + rewrite HP, <- !app_assoc. do 2 f_equiv. apply Permutation_app_comm.
    + intros Hr. by rewrite (HL Hr), <- app_assoc.
    + rewrite app_assoc. by apply sublist_app.
    + by rewrite HP, <- !app_assoc.
    + intros Hr. by apply app_eq_nil in Hr as [_ ?].
    + by apply sublist_inserts_r.
  - destruct h as [|x l]; simpl; [done|]. by rewrite <- !app_assoc.
  - destruct h as [|x l]; simpl; [done|]. by rewrite <- !app_assoc.
Qed.

(** ** The pipeline's invariant *)

Section pipeline_inv.
Context {F : Type} {K : Kfifo F} {size : nat} {contents : F -> list bme680_fifo_data}
  {KOk : KfifoOk F size contents} (t : thresholds).

(** A configuration that implements the queue. *)
Record implements (c : alert_state F) (q : sample_pipe) : Prop := {
  im_held : contents (fifo c) = held q;
  im_refused : dropped c = refused q;
  im_gone : taken c = gone q;
  im_sent : sent c = flat_map (threshold_alerts t) (gone q);
}.

Record pipe_inv (v : task_variant) (es : list alert_event) (c : alert_state F) : Prop := {
  pi_queue : implements c (pipe_run size es);
  pi_ready : data_ready c = Z.min (Z.of_nat (length (polled es))) (tmax U32);
  pi_errors : error_count c = cast S32 (failed_reads es);
  pi_timer : v = CoreTask -> armed c = true;
  pi_trying : armed c = true -> trying c = None;
}.

(** A take does what the queue does, and changes neither counter. *)
Lemma take_sample_implements c got missed q :
  implements c q -> implements (take_sample t c got missed) (pipe_step size q Fire).
Proof.
  intros [Hh Hr Hg Hs]. unfold take_sample. pose proof (kf_get (fifo c)) as Hget. simpl. rewrite Hh in Hget.
  destruct (kfifo_get (fifo c)) as [f [s|]], (held q) as [|x l] eqn:El;
    simpl in Hget; destruct Hget as [E1 E2]; try done; constructor; simpl; try done; try congruence.
  injection E1 as ->. rewrite Hs, flat_map_app. simpl. by rewrite app_nil_r.
Qed.

Lemma take_sample_timer c got missed :
  let c' := take_sample t c got missed in
  data_ready c' = data_ready c /\ error_count c' = error_count c /\
  (armed c', trying c') = match contents (fifo c) with [] => missed | _ => got end.
Proof.
  unfold take_sample. pose proof (kf_get (fifo c)) as Hget.
  destruct (kfifo_get (fifo c)) as [f [s|]], (contents (fifo c)) as [|x l];
    simpl in *; destruct Hget as [E1 _]; try done; split_and!; by destruct got, missed.
Qed.

Lemma poll_implements read c q :
  implements c q -> implements (bme680_poll_thread read c) (pipe_step size q (Poll read)).
Proof.
  intros [Hh Hr Hg Hs]. destruct read as [s|]; simpl; [|by constructor].
  pose proof (kf_put (fifo c) s) as [E1 E2]. rewrite Hh in E1, E2.
  destruct (kfifo_put s (fifo c)) as [f ok]. simpl in *. injection E1 as ->.
  case_bool_decide; constructor; simpl; congruence.
Qed.

Lemma complete_min n :
  complete (Z.min (Z.of_nat n) (tmax U32)) = Z.min (Z.of_nat (S n)) (tmax U32).
Proof.
  unfold complete. destruct (Z.eqb_spec (Z.min (Z.of_nat n) (tmax U32)) (tmax U32)); lia.
Qed.

Lemma atomic_inc_cast n : atomic_inc (cast S32 n) = cast S32 (n + 1).
Proof.
  unfold atomic_inc. apply cast_eq_iff. replace (cast S32 n + 1 - (n + 1)) with (cast S32 n - n) by lia.
  apply cast_eq_iff, cast_idemp.
Qed.

Lemma exec_alert_inv v es c e c' :
  pipe_inv v es c -> exec_alert t v c e = Some c' -> pipe_inv v (es ++ [e]) c'.
Proof.
  intros Hc E.
  assert (forall got missed, e = Fire \/ e = Retry -> (v = CoreTask -> got.1 = true /\ missed.1 = true) ->
    (got.1 = true -> got.2 = None) -> (missed.1 = true -> missed.2 = None) ->
    pipe_inv v (es ++ [e]) (take_sample t c got missed)) as Htake.
  { intros got missed He Hv Hg Hm. destruct Hc as [Hq Hr Hn Hti Htr].
    destruct (take_sample_timer c got missed) as (E1 & E2 & E3).
    constructor; rewrite ?polled_snoc, ?failed_snoc, ?pipe_run_snoc.
    - replace (pipe_step size _ e) with (pipe_step size (pipe_run size es) Fire) by (by destruct He as [-> | ->]).
      by apply take_sample_implements.
    - rewrite E1, Hr. by destruct He as [-> | ->]; rewrite app_nil_r.
    - rewrite E2, Hn. f_equal. by destruct He as [-> | ->]; simpl; lia.
    - intros Hcore. destruct (Hv Hcore), got, missed. destruct (contents (fifo c)); injection E3 as E4 E5; simpl in *; congruence.
    - destruct got, missed. destruct (contents (fifo c)); injection E3 as E4 E5; rewrite E4, E5; done. }
  destruct e as [read| |]; simpl in E.
  - destruct Hc as [Hq Hr Hn Hti Htr]. injection E as <-.
    constructor; rewrite ?polled_snoc, ?failed_snoc, ?pipe_run_snoc; [by apply poll_implements|..];
      destruct read as [s|]; simpl; try (destruct (kfifo_put s (fifo c))); simpl; rewrite ?app_nil_r, ?Z.add_0_r; try done.
    + rewrite length_app, Nat.add_comm. simpl. by rewrite Hr, complete_min.
    + by rewrite Hn, atomic_inc_cast.
  - destruct (armed c) eqn:Ha; [|done]. destruct v; injection E as <-; apply Htake; auto; done.
  - destruct (trying c) as [[|n]|] eqn:Ht; try done. injection E as <-. apply Htake; auto; try done.
    intros ->. pose proof (pi_trying _ _ _ Hc (pi_timer _ _ _ Hc eq_refl)). congruence.
Qed.

Lemma run_alerts_app v c es es' :
  run_alerts t v c (es ++ es') = (c' ← run_alerts t v c es; run_alerts t v c' es').
Proof.
  revert c. induction es as [|e es IH]; intros c; simpl; [done|].
  destruct (exec_alert t v c e) as [c1|]; simpl; [apply IH|done].
Qed.

Lemma run_alerts_inv v f es c :
  contents f = [] -> run_alerts t v (alert_start f) es = Some c -> pipe_inv v es c.
Proof.
  intros Hf. revert c. induction es as [|e es IH] using rev_ind; intros c E.
  - simpl in E. injection E as <-. by constructor.
  - rewrite run_alerts_app in E. apply bind_Some in E as (c1 & E1 & E). simpl in E.
    apply bind_Some in E as (c2 & E2 & E). injection E as <-. eapply exec_alert_inv; [|done]. by apply IH.
Qed.

(** A dead timer stays dead, and nothing is sent any more. *)
Lemma dead_timer c es c' :
  armed c = false -> trying c = None -> run_alerts t IpcTask c es = Some c' ->
  armed c' = false /\ trying c' = None /\ sent c' = sent c /\ taken c' = taken c.
Proof.
  revert c. induction es as [|e es IH]; intros c Ha Ht E; simpl in E; [by simplify_eq|].
  apply bind_Some in E as (c1 & E1 & E). destruct e as [[s|]| |]; simpl in E1.
  - destruct (kfifo_put s (fifo c)) as [f ok]. injection E1 as <-. by apply IH in E.
  - injection E1 as <-. by apply IH in E.
  - by rewrite Ha in E1.
  - by rewrite Ht in E1.
Qed.

(** A try of the task of bme680_ipc.c. *)
Lemma try_finds c e c' :
  e = Fire \/ e = Retry -> contents (fifo c) <> [] -> exec_alert t IpcTask c e = Some c' -> armed c' = true.
Proof.
  assert (forall n, contents (fifo c) <> [] -> armed (check_threshold_ipc t n c) = true) as H.
  { intros n Hne. destruct (take_sample_timer c (true, None) (false, match n with O => None | _ => Some n end))
      as (_ & _ & E). destruct (contents (fifo c)); [done|]. by injection E. }
  intros [-> | ->] Hne E; simpl in E; repeat case_match; try done; injection E as <-; by apply H.
Qed.

Lemma try_misses n c :
  contents (fifo c) = [] ->
  let c' := check_threshold_ipc t n c in
  contents (fifo c') = [] /\ armed c' = false /\ trying c' = match n with O => None | _ => Some n end /\
    sent c' = sent c /\ taken c' = taken c.
Proof.
  intros He. unfold check_threshold_ipc, take_sample. pose proof (kf_get (fifo c)) as Hget. rewrite He in Hget.
  destruct (kfifo_get (fifo c)) as [f' [s|]]; simpl in *; [by destruct Hget|]. by destruct Hget.
Qed.

(** Failed reads change nothing but their counter. *)
Lemma failed_polls n c es :
  exists k, run_alerts t IpcTask c (replicate n (Poll None) ++ es) = run_alerts t IpcTask
    {| fifo := fifo c; data_ready := data_ready c; error_count := k; armed := armed c; trying := trying c;
       sent := sent c; dropped := dropped c; taken := taken c |} es.
Proof.
  revert c. induction n as [|n IH]; intros c; [by exists (error_count c); destruct c|].
  destruct (IH (bme680_poll_thread None c)) as [k Hk]. exists k.
  cbn [replicate app run_alerts exec_alert mbind option_bind]. by rewrite Hk.
Qed.

Lemma three_misses c n1 n2 :
  armed c = true -> contents (fifo c) = [] -> exists c3,
    run_alerts t IpcTask c
      (Fire :: replicate n1 (Poll None) ++ Retry :: replicate n2 (Poll None) ++ [Retry]) = Some c3 /\
    armed c3 = false /\ trying c3 = None /\ sent c3 = sent c /\ taken c3 = taken c.
Proof.
  intros Ha He. cbn [run_alerts exec_alert mbind option_bind]. rewrite Ha. cbn [mbind option_bind].
  destruct (try_misses 2 c He) as (E1 & A1 & T1 & S1 & K1). set (c1 := check_threshold_ipc t 2 c) in *.
  destruct (failed_polls n1 c1 (Retry :: replicate n2 (Poll None) ++ [Retry])) as [k1 ->].
  set (d1 := Build_alert_state _ _ _ _ _ _ _ _). cbn [run_alerts exec_alert]. cbn [trying d1]. rewrite T1.
  cbn [mbind option_bind]. destruct (try_misses 1 d1 E1) as (E2 & A2 & T2 & S2 & K2).
  set (c2 := check_threshold_ipc t 1 d1) in *. destruct (failed_polls n2 c2 [Retry]) as [k2 ->].
  set (d2 := Build_alert_state _ _ _ _ _ _ _ _). cbn [run_alerts exec_alert]. cbn [trying d2]. rewrite T2.
  cbn [mbind option_bind]. destruct (try_misses 0 d2 E2) as (_ & A3 & T3 & S3 & K3).
  eexists. split; [done|]. split_and!; [done|done| |].
  - rewrite S3. simpl. rewrite S2. done.
  - rewrite K3. simpl. rewrite K2. done.
Qed.

(** ** Properties of the pipeline *)

(** C24: the sample pipeline implements a bounded queue of [size] samples, for
    either task and every interleaving of the polling thread and the timer:
    after the same events the FIFO holds, and the timer's task has taken, what
    [pipe_step] says, and the samples refused are those that arrived while the
    FIFO held [size] of them.  So nothing is duplicated or reordered, nothing
    but a refused sample is lost, and without a refusal what was read is what
    was taken and what is still held.  The alerts sent are those of the samples
    taken.  data_ready is completed for every sample read, also for the refused
    ones, up to UINT_MAX; error_count counts the failed reads, as an int. *)
Theorem alert_pipeline v f es c :
  contents f = [] -> run_alerts t v (alert_start f) es = Some c ->
  let q := pipe_run size es in
  (contents (fifo c) = held q /\ taken c = gone q /\ dropped c = refused q) /\
  polled es ≡ₚ gone q ++ held q ++ refused q /\ sublist (gone q ++ held q) (polled es) /\
  (refused q = [] -> polled es = gone q ++ held q) /\
  sent c = flat_map (threshold_alerts t) (gone q) /\
  data_ready c = Z.min (Z.of_nat (length (polled es))) (tmax U32) /\
  error_count c = cast S32 (failed_reads es).
Proof.
  intros Hf E q. apply run_alerts_inv in E as [[] Hr Hn _ _]; [|done].
  destruct (pipe_run_polled size es) as (HP & HL & HS). by split_and!.
Qed.

(** C25: the periodic check, in every state that the pipeline can reach.  The
    timer of bme680.c is armed again after every run of its task.  A try of the
    task of bme680_ipc.c that finds a sample arms the timer; a run whose three
    tries find the FIFO empty, failed reads of the polling thread between them,
    leaves it disarmed, and then, whatever follows and however many samples
    arrive, it is never armed again, no sample is taken and no alert is sent. *)
Theorem alert_timer f es :
  contents f = [] ->
  (forall c, run_alerts t CoreTask (alert_start f) es = Some c -> armed c = true) /\
  (forall c, run_alerts t IpcTask (alert_start f) es = Some c ->
     (forall e c', e = Fire \/ e = Retry -> contents (fifo c) <> [] ->
        exec_alert t IpcTask c e = Some c' -> armed c' = true) /\
     (armed c = true -> contents (fifo c) = [] -> forall n1 n2, exists c3,
        run_alerts t IpcTask c
          (Fire :: replicate n1 (Poll None) ++ Retry :: replicate n2 (Poll None) ++ [Retry]) = Some c3 /\
        forall es' c', run_alerts t IpcTask c3 es' = Some c' ->
          armed c' = false /\ sent c' = sent c /\ taken c' = taken c)).
Proof.
  intros Hf. split.
  { intros c E. apply run_alerts_inv in E; [|done]. by apply (pi_timer _ _ _ E). }
  intros c E. split; [intros e c' He; by apply try_finds|].
  intros Ha He n1 n2. destruct (three_misses c n1 n2 Ha He) as (c3 & E3 & Ha3 & Ht3 & Hs & Hk).
  exists c3. split; [done|]. intros es' c' E'.
  destruct (dead_timer c3 es' c' Ha3 Ht3 E') as (? & _ & -> & ->). done.
Qed.
End pipeline_inv.

(** What exceeds a threshold.  For a well-typed sample and thresholds,
    the unsigned quantities alert exactly when they are above their
    threshold; the temperature does so when it is not negative, and a negative
    temperature alerts for every threshold below 2^31 (all the positive
    temperatures there are), because the comparison is unsigned. *)
Theorem threshold_alerts_exact t s :
  fifo_data_wf s -> 0 <= threshold_temp t < 2 ^ 31 ->
  (TempAlert ∈ threshold_alerts t s <-> temp s > threshold_temp t \/ temp s < 0) /\
  (PressAlert ∈ threshold_alerts t s <-> pressure s > threshold_press t) /\
  (HumAlert ∈ threshold_alerts t s <-> humidity s > threshold_hum t) /\
  (GasAlert ∈ threshold_alerts t s <-> gas_res s > threshold_gas t).
Proof.
  intros (Ht & _ & _ & _) Hthr. unfold in_range, tmax in Ht. simpl in Ht.
  assert (cast U32 (temp s) > threshold_temp t <-> temp s > threshold_temp t \/ temp s < 0) as Hc.
  { destruct (Z.lt_ge_cases (temp s) 0) as [Hn|Hn].
    - replace (cast U32 (temp s)) with (temp s + 4294967296); [lia|].
      symmetry. apply cast_u32_neg. lia.
    - rewrite cast_id by (unfold in_range, tmax; simpl; lia). lia. }
  unfold threshold_alerts. rewrite <- Hc.
  split_and!; rewrite !elem_of_app; repeat case_match;
    rewrite ?list_elem_of_singleton, ?elem_of_nil; intuition (congruence || lia).
Qed.

(** ** bme680_send_sysv_alert *)

(** [strncpy] into the first [n] bytes of a buffer: the string, then zeros. *)
Definition strncpy (n : nat) (src : list Z) : list Z := take n (src ++ replicate n 0).

(** The string that a byte buffer holds: up to its first zero. *)
Fixpoint c_string (buf : list Z) : list Z :=
  match buf with
  | [] => []
  | b :: buf => if b =? 0 then [] else b :: c_string buf
  end.

(** [mtext] after the copy and the assignment of its last byte. *)
Definition sysv_mtext (msg : list Z) : list Z := strncpy 63 msg ++ [0].

Record sysv_state := { ipc_locked : bool; queue : list (list Z); attempts : nat }.

Section sysv.
(** What the [i]-th call of msgsnd makes of it: [None] is success, otherwise
    the value of errno; and whether the [i]-th sleep returned ETIMEDOUT. *)
Context (msgsnd : nat -> option Z) (sleep_timedout : nat -> bool).

Fixpoint sysv_loop (retries : nat) (text : list Z) (s : sysv_state) : sysv_state :=
  match retries with
  | O => {| ipc_locked := false; queue := queue s; attempts := attempts s |}
  | S retries =>
      let i := attempts s in
      match msgsnd i with
      | None => {| ipc_locked := false; queue := queue s ++ [text]; attempts := S i |}
      | Some errno =>
          if negb (errno =? EAGAIN) then {| ipc_locked := false; queue := queue s; attempts := S i |}
          else if sleep_timedout i then {| ipc_locked := false; queue := queue s; attempts := S i |}
          else sysv_loop retries text {| ipc_locked := ipc_locked s; queue := queue s; attempts := S i |}
      end
  end.

Definition bme680_send_sysv_alert (msg : list Z) : M sysv_state unit := fun s =>
  if ipc_locked s then (s, Stuck)
  else (sysv_loop 3 (sysv_mtext msg) {| ipc_locked := true; queue := queue s; attempts := 0 |}, Ok tt).

(** The [i]-th attempt is given another one. *)
Definition tries_again (i : nat) : Prop := msgsnd i = Some EAGAIN /\ sleep_timedout i = false.

Record loop_ok (n : nat) (text : list Z) (s s' : sysv_state) : Prop := {
  lo_lock : ipc_locked s' = false;
  lo_attempts : (attempts s <= attempts s' <= attempts s + n)%nat;
  lo_again i : (attempts s <= i)%nat -> (S i < attempts s')%nat -> tries_again i;
  lo_queue :
    (queue s' = queue s ++ [text] /\ exists i, attempts s' = S i /\ msgsnd i = None) \/
    (queue s' = queue s /\ forall i, (attempts s <= i < attempts s')%nat -> msgsnd i <> None);
}.

(** The loop gives up after a failed attempt. *)
Lemma loop_gives_up n text s e :
  msgsnd (attempts s) = Some e ->
  loop_ok (S n) text s {| ipc_locked := false; queue := queue s; attempts := S (attempts s) |}.
Proof.
  intros Em. constructor; simpl; try done; try lia.
  right. split; [done|]. intros i Hi. replace i with (attempts s) by lia. congruence.
Qed.

Lemma sysv_loop_spec n text s : loop_ok n text s (sysv_loop n text s).
Proof.
  revert s. induction n as [|n IH]; intros s; simpl.
  { constructor; simpl; try done; try lia. right. split; [done|lia]. }
  destruct (msgsnd (attempts s)) as [errno|] eqn:Em; simpl.
  - destruct (Z.eqb_spec errno EAGAIN) as [->|He]; simpl; [|by eapply loop_gives_up].
    destruct (sleep_timedout (attempts s)) eqn:Es; simpl; [by eapply loop_gives_up|].
    specialize (IH {| ipc_locked := ipc_locked s; queue := queue s; attempts := S (attempts s) |}).
    destruct IH as [H1 H2 H3 H4]. simpl in *. constructor; [done|lia| |].
    + intros i Hi Hlt. destruct (decide (i = attempts s)) as [->|]; [done|]. apply H3; lia.
    + destruct H4 as [H4|[Hq H4]]; [by left|right]. split; [done|]. intros i Hi.
      destruct (decide (i = attempts s)) as [->|]; [congruence|]. apply H4. lia.
  - constructor; simpl; try done; try lia. left. split; [done|]. by eexists.
Qed.

(** The first attempt is made. *)
Lemma sysv_loop_tries n text s : (attempts s < attempts (sysv_loop (S n) text s))%nat.
Proof.
  simpl. destruct (msgsnd (attempts s)) as [e|]; simpl; [|lia].
  destruct (negb (e =? EAGAIN)); simpl; [lia|]. destruct (sleep_timedout (attempts s)); simpl; [lia|].
  match goal with |- context [sysv_loop n text ?s'] => pose proof (lo_attempts _ _ _ _ (sysv_loop_spec n text s')) as H end.
  simpl in H. lia.
Qed.
End sysv.

Lemma c_string_app a b : Forall (fun z => z <> 0) a -> c_string (a ++ 0 :: b) = a.
Proof.
  induction 1 as [|x a Hx _ IH]; simpl; [done|]. destruct (Z.eqb_spec x 0); [done|]. by rewrite IH.
Qed.

(** The System V alert.  Whatever msgsnd and the sleeps return, the call
    makes between one and three attempts, tries again exactly after EAGAIN
    and a sleep that did not time out, queues the message at most once, and
    exactly if the last attempt succeeded; the lock is free afterwards.  The
    message always has 64 bytes, and the string in it is the first 63
    characters of the alert. *)
Theorem sysv_alert_exact msgsnd sleep_timedout msg s :
  ipc_locked s = false -> Forall (fun z => z <> 0) msg ->
  exists s', bme680_send_sysv_alert msgsnd sleep_timedout msg s = (s', Ok tt) /\
    ipc_locked s' = false /\ (1 <= attempts s' <= 3)%nat /\
    (forall i, (S i < attempts s')%nat -> tries_again msgsnd sleep_timedout i) /\
    match msgsnd (pred (attempts s')) with
    | None => queue s' = queue s ++ [sysv_mtext msg]
    | Some _ => queue s' = queue s
    end /\
    length (sysv_mtext msg) = 64%nat /\ c_string (sysv_mtext msg) = take 63 msg.
Proof.
  intros Hl Hmsg. unfold bme680_send_sysv_alert. rewrite Hl. eexists. split; [done|].
  set (s0 := {| ipc_locked := true; queue := queue s; attempts := 0 |}).
  destruct (sysv_loop_spec msgsnd sleep_timedout 3 (sysv_mtext msg) s0) as [H1 H2 H3 H4].
  pose proof (sysv_loop_tries msgsnd sleep_timedout 2 (sysv_mtext msg) s0) as Hone.
  set (s' := sysv_loop msgsnd sleep_timedout 3 (sysv_mtext msg) s0) in *. simpl in H2, H3, H4, Hone.
  split_and!; [done|lia..| | | |].
  - intros i Hi. apply H3; [lia|done].
  - destruct H4 as [(Hq & i & Ei & Hi)|[Hq Hno]].
    + rewrite Ei. simpl. by rewrite Hi.
    + destruct (msgsnd _) eqn:E; [done|]. exfalso. apply (Hno (pred (attempts s')) ltac:(lia) E).
  - unfold sysv_mtext, strncpy. rewrite length_app, length_take, length_app, length_replicate. cbn [length]. lia.
  - unfold sysv_mtext, strncpy. rewrite take_app, <- app_assoc.
    destruct (decide (length msg < 63)%nat) as [Hs|Hs].
    + rewrite (take_ge msg) by lia.
      destruct (63 - length msg)%nat as [|k] eqn:Ek; [lia|]. simpl. by apply c_string_app.
    + replace (63 - length msg)%nat with 0%nat by lia. rewrite take_0. simpl.
      apply c_string_app. by apply Forall_take.
Qed.

(** ** The netlink messages

    [skbs] counts the socket buffers allocated and not yet freed.  The sends
    consume the buffer they are given whether they succeed or not (netlink's
    contract); their results are arguments. *)

Record net_state := { skbs : Z; net_sent : list string }.

Definition nlmsg_new (s : net_state) : net_state := {| skbs := skbs s + 1; net_sent := net_sent s |}.
Definition kfree_skb (s : net_state) : net_state := {| skbs := skbs s - 1; net_sent := net_sent s |}.
Definition netlink_xmit (msg : string) (ret : Z) (s : net_state) : net_state :=
  {| skbs := skbs s - 1; net_sent := if ret <? 0 then net_sent s else net_sent s ++ [msg] |}.

Definition bme680_netlink_send (new_ok put_ok : bool) (unicast : Z) (msg : string) (s : net_state) : net_state * Z :=
  if negb new_ok then (s, - ENOMEM)
  else if negb put_ok then (kfree_skb (nlmsg_new s), - EMSGSIZE)
  else (netlink_xmit msg unicast (nlmsg_new s), unicast).

Definition bme680_send_netlink_alert (new_ok put_ok : bool) (multicast : Z) (msg : string) (s : net_state) : net_state :=
  if negb new_ok then s
  else if negb put_ok then kfree_skb (nlmsg_new s)
  else
    let s := netlink_xmit msg multicast (nlmsg_new s) in
    if multicast <? 0 then kfree_skb s else s.

(** Every path of bme680_netlink_send gives up exactly the buffer it
    allocated and sends the message exactly when it does not return a negative
    code.  bme680_send_netlink_alert does so too, except when the multicast
    fails: the buffer, already consumed, is freed a second time. *)
Theorem netlink_buffers new_ok put_ok ret msg s :
  (let '(s', r) := bme680_netlink_send new_ok put_ok ret msg s in
   skbs s' = skbs s /\ net_sent s' = if r <? 0 then net_sent s else net_sent s ++ [msg]) /\
  skbs (bme680_send_netlink_alert new_ok put_ok ret msg s) =
    (if new_ok && put_ok && (ret <? 0) then skbs s - 1 else skbs s).
Proof.
  unfold bme680_netlink_send, bme680_send_netlink_alert.
  destruct new_ok, put_ok; simpl; csplit; split_and?; try done; lia.
Qed.

(** ** The task on the last conversion (check_threshold_task(void *arg))

    The THRESHOLD_ macros are not defined in the repository. *)

Inductive adc_alert :=
| Netlink (msg : string)
| Sysv (msg : string)
| IioEvent (type : iio_chan_type).

Definition check_threshold_adc (th_temp th_gas th_press th_hum : Z) (d : bme680_data) : list adc_alert :=
  (if temp_adc d >? th_temp then [Netlink "High temperature alert"; IioEvent IIO_TEMP] else []) ++
  (if gas_adc d >? th_gas then [Sysv "High gas alert"; IioEvent IIO_RESISTANCE] else []) ++
  (if pressure_adc d >? th_press then [Netlink "High pressure alert"] else []) ++
  (if humid_adc d >? th_hum then [Sysv "High humidity alert"] else []).

(** ** bme680_ipc_init and bme680_ipc_cleanup *)

Inductive pointer := Null | Live | Dangling.

(** What the module owns; [timer] is the thread of the periodic check. *)
Record ipc_module := {
  ipc_data : pointer;
  nl_sk : bool;
  sysv_queue : bool;
  timer : bool;
}.

Definition ipc_none : ipc_module := {| ipc_data := Null; nl_sk := false; sysv_queue := false; timer := false |}.

(** The results of kzalloc, netlink_kernel_create and msgget.  kfree leaves
    the pointer as it is. *)
Definition bme680_ipc_init (kzalloc_ok create_ok : bool) (msgget : Z) : M ipc_module unit := fun _ =>
  if negb kzalloc_ok then (ipc_none, Err (- ENOMEM))
  else if negb create_ok then
    ({| ipc_data := Dangling; nl_sk := false; sysv_queue := false; timer := false |}, Err (- ENOMEM))
  else if msgget <? 0 then
    ({| ipc_data := Dangling; nl_sk := false; sysv_queue := false; timer := false |}, Err (- ENOMEM))
  else ({| ipc_data := Live; nl_sk := true; sysv_queue := true; timer := true |}, Ok tt).

(** [Stuck] is the use of freed memory. *)
Definition bme680_ipc_cleanup : M ipc_module unit := fun s =>
  match ipc_data s with
  | Null => (s, Ok tt)
  | Dangling => (s, Stuck)
  | Live => ({| ipc_data := Dangling; nl_sk := false; sysv_queue := false; timer := false |}, Ok tt)
  end.

(** The module's resources.  A failed init returns -ENOMEM and holds no
    socket, no message queue and no timer, a successful one all three, and
    cleanup then releases them; but after an init that failed past its
    allocation, and after a first cleanup, the pointer is left dangling and
    cleanup uses freed memory. *)
Theorem ipc_lifecycle kzalloc_ok create_ok msgget s :
  let '(s1, r) := bme680_ipc_init kzalloc_ok create_ok msgget s in
  (r = Ok tt <-> kzalloc_ok = true /\ create_ok = true /\ 0 <= msgget) /\
  (r <> Ok tt -> r = Err (- ENOMEM) /\ nl_sk s1 = false /\ sysv_queue s1 = false /\ timer s1 = false /\
     ((bme680_ipc_cleanup s1).2 = Stuck <-> kzalloc_ok = true)) /\
  (r = Ok tt -> nl_sk s1 = true /\ sysv_queue s1 = true /\ timer s1 = true /\
     let '(s2, r2) := bme680_ipc_cleanup s1 in
     r2 = Ok tt /\ nl_sk s2 = false /\ sysv_queue s2 = false /\ timer s2 = false /\
     (bme680_ipc_cleanup s2).2 = Stuck).
Proof.
  unfold bme680_ipc_init. destruct kzalloc_ok, create_ok; simpl; try destruct (Z.ltb_spec msgget 0); simpl.
  all: split_and!; try done; try (split; [done|]; try (intros; lia); intros (_ & _ & ?); lia).
  all: try (intros; split_and!; try done; split; done).
  all: split; [done|intros (? & ? & ?); try done; lia].
Qed.

(** ** Witnesses *)

(** A kfifo of two elements: the first two of a list. *)
#[local] Instance fifo2 : Kfifo (list bme680_fifo_data) := {|
  kfifo_put s f :=
    if bool_decide (length (take 2 f) < 2)%nat then (take 2 f ++ [s], true) else (take 2 f, false);
  kfifo_get f := match take 2 f with [] => ([], None) | s :: l => (l, Some s) end;
|}.

#[local] Instance fifo2_ok : KfifoOk (list bme680_fifo_data) 2 (take 2).
Proof.
  constructor.
  - intros f. rewrite length_take. lia.
  - intros f s. simpl. case_bool_decide as Hl; simpl; (split; [done|]).
    + apply take_ge. rewrite length_app. cbn [length]. lia.
    + by rewrite take_take.
  - intros [|x [|y l]]; simpl; done.
Qed.

Definition cold : bme680_fifo_data := {| temp := -5; pressure := 101325; humidity := 40; gas_res := 5 |}.
Definition limits : thresholds :=
  {| threshold_temp := 30; threshold_press := 110000; threshold_hum := 80; threshold_gas := 1000 |}.

Definition pipeline_ex : list alert_event := [Poll (Some cold); Poll (Some cold); Poll (Some cold); Poll None; Fire].

Lemma alert_pipeline_witness :
  exists c, run_alerts limits CoreTask (alert_start []) pipeline_ex = Some c /\ sent c = [TempAlert] /\
    dropped c = [cold] /\ data_ready c = 3 /\ error_count c = 1 /\ taken c = gone (pipe_run 2 pipeline_ex).
Proof.
  eexists. split; [vm_compute; reflexivity|].
  split; [reflexivity|]. split; [reflexivity|]. split; [reflexivity|]. split; [reflexivity|].
  apply (alert_pipeline limits CoreTask [] pipeline_ex); reflexivity.
Defined.

(** The timer dies after a sample has been taken. *)
Lemma alert_timer_witness :
  exists c, run_alerts limits IpcTask (alert_start []) [Poll (Some cold); Fire] = Some c /\ sent c = [TempAlert] /\
    exists c3, run_alerts limits IpcTask c
        (Fire :: replicate 1 (Poll None) ++ Retry :: replicate 0 (Poll None) ++ [Retry]) = Some c3 /\
      forall es' c', run_alerts limits IpcTask c3 es' = Some c' ->
        armed c' = false /\ sent c' = sent c /\ taken c' = taken c.
Proof.
  eexists. split; [vm_compute; reflexivity|]. split; [reflexivity|].
  apply (proj2 (alert_timer limits [] [Poll (Some cold); Fire] eq_refl)); vm_compute; reflexivity.
Defined.

Lemma threshold_alerts_exact_witness : TempAlert ∈ threshold_alerts limits cold.
Proof.
  apply (proj1 (threshold_alerts_exact limits cold ltac:(repeat split; simpl; discriminate) ltac:(simpl; lia))).
  right. reflexivity.
Defined.

Lemma sysv_alert_exact_witness :
  exists s', bme680_send_sysv_alert (fun i => if (i =? 1)%nat then None else Some EAGAIN) (fun _ => false) [72; 105]
      {| ipc_locked := false; queue := []; attempts := 0 |} = (s', Ok tt) /\
    attempts s' = 2%nat /\ c_string (sysv_mtext [72; 105]) = [72; 105].
Proof.
  eexists. split; [vm_compute; reflexivity|]. split; [reflexivity|].
  destruct (sysv_alert_exact (fun i => if (i =? 1)%nat then None else Some EAGAIN) (fun _ => false) [72; 105]
    {| ipc_locked := false; queue := []; attempts := 0 |} eq_refl ltac:(repeat constructor; discriminate))
    as (s' & _ & _ & _ & _ & _ & _ & H).
  exact H.
Defined.
