(* ===== verification/Spi.v ===== *)
(** * Spi: the paged register transport (bme680_spi.c)

    Over SPI the chip has seven address bits; bit 4 of its status register
    chooses which half of the 256 registers they reach.  The transport keeps
    the last page it selected in [current_page] and changes page by a
    read-modify-write of the status register.  The SPI core is the class
    [SpiDev]; [SpiDevOk] is what a chip with the register file [mem] does with
    a transfer.  The theorems: under the cache invariant [cache_ok] the paged
    read and write are a read and a write of the flat register file, and both
    re-establish the invariant; a page change that fails leaves the cache on
    the old page. *)

From S2P Require Import Prelude CInt LinuxLib Bme680Data Driver.

Class SpiDev (B : Type) := {
  spi_write_then_read : list Z -> nat -> M B (list Z);
  spi_write : list Z -> M B unit;
}.

(** [struct bme680_spi_bus_context], with the device it points to. *)
Record bme680_spi_bus_context (B : Type) := { spi : B; current_page : Z }.
Arguments Build_bme680_spi_bus_context {_} _ _.
Arguments spi {_} _.
Arguments current_page {_} _.

Section spi.
Context `{Bme680Macros} {B : Type} `{SpiDev B}.

Definition on_spi {A} (m : M B A) : M (bme680_spi_bus_context B) A := fun ctx =>
  let '(b', r) := m (spi ctx) in (Build_bme680_spi_bus_context b' (current_page ctx), r).

Definition set_current_page (p : Z) : M (bme680_spi_bus_context B) unit := fun ctx =>
  (Build_bme680_spi_bus_context (spi ctx) p, Ok tt).

Definition page_of (reg : Z) : Z := if negb (Z.land reg 0x80 =? 0) then 0 else 1.

Definition bme680_regmap_spi_select_page (reg : Z) : M (bme680_spi_bus_context B) unit :=
  fun ctx =>
  let page := page_of reg in
  if page =? current_page ctx then (ctx, Ok tt) else
  (rx ← on_spi (spi_write_then_read [BME680_REG_STATUS] 1);
   let buf1 := nth 0 rx 0 in
   let buf1 :=
     if negb (page =? 0) then cast U8 (Z.lor buf1 BME680_SPI_MEM_PAGE_BIT)
     else cast U8 (Z.land buf1 (Z.lnot BME680_SPI_MEM_PAGE_BIT)) in
   _ ← on_spi (spi_write [BME680_REG_STATUS; buf1]);
   set_current_page page) ctx.

Definition bme680_regmap_spi_write (reg val : Z) : M (bme680_spi_bus_context B) unit :=
  _ ← bme680_regmap_spi_select_page reg;
  on_spi (spi_write [cast U8 (Z.land reg (Z.lnot 0x80)); val]).

Definition bme680_regmap_spi_read (reg : Z) (val_size : nat)
    : M (bme680_spi_bus_context B) (list Z) :=
  _ ← bme680_regmap_spi_select_page reg;
  on_spi (spi_write_then_read [cast U8 (Z.lor reg 0x80)] val_size).

(** The accessors that bypass the page selection. *)
Definition bme680_spi_reg_read (reg : Z) : M (bme680_spi_bus_context B) Z :=
  rx_buf ← on_spi (spi_write_then_read [cast U8 (Z.lor reg 0x80)] 1);
  mret (nth 0 rx_buf 0).

Definition bme680_spi_reg_write (reg val : Z) : M (bme680_spi_bus_context B) unit :=
  on_spi (spi_write [cast U8 (Z.land reg (Z.lnot 0x80)); cast U8 val]).

(** The context as probe allocates it: the page is not known yet. *)
Definition spi_probe_context (dev : B) : bme680_spi_bus_context B :=
  Build_bme680_spi_bus_context dev 0xff.
End spi.

(** ** The chip on the other side *)

(** The register that the seven address bits [a] reach on page [p]. *)
Definition phys (p a : Z) : Z := if p =? 1 then a else 0x80 + a.

(** The effect of a write command on the registers other than the status
    register, and on the selected page. *)
Definition mem_write (p : Z) (mem : Z -> Z) (a v r : Z) : Z :=
  if (a =? BME680_REG_STATUS) || negb (r =? phys p a) then mem r else cast U8 v.
Definition page_write (p a v : Z) : Z :=
  if a =? BME680_REG_STATUS then Z.b2z (Z.testbit v 4) else p.

(** A chip whose registers are [mem b] and whose selected page is [pg b].  A
    transfer is a read command if the top bit of its first byte is set, and a
    write command otherwise; spi_write_then_read sends zeros while it
    receives.  Registers keep what is written, but for the soft reset.  A
    failed write command may or may not have reached the chip. *)
Class SpiDevOk (B : Type) {D : SpiDev B} (mem : B -> Z -> Z) (pg : B -> Z) : Prop := {
  spi_u8 b r : in_range U8 (mem b r);
  spi_pg b : pg b = 0 \/ pg b = 1;
  spi_write_ok b b' a v :
    0 <= a < 0x80 -> phys (pg b) a <> BME680_REG_SOFT_RESET ->
    spi_write [a; v] b = (b', Ok tt) ->
    pg b' = page_write (pg b) a v /\
    forall r, mem b' r = mem_write (pg b) (mem b) a v r;
  spi_write_clean b b' bs res : spi_write bs b = (b', res) -> clean res;
  spi_read_ok b b' a bs :
    0 <= a < 0x80 -> spi_write_then_read [0x80 + a] 1 b = (b', Ok bs) ->
    bs = [if a =? BME680_REG_STATUS then nth 0 bs 0 else mem b (phys (pg b) a)];
  spi_read_frame b b' a n res :
    0 <= a < 0x80 -> spi_write_then_read [0x80 + a] n b = (b', res) ->
    pg b' = pg b /\ forall r, mem b' r = mem b r;
  spi_read_write_cmd b b' a bs :
    0 <= a < 0x80 -> phys (pg b) a <> BME680_REG_SOFT_RESET ->
    spi_write_then_read [a] 1 b = (b', Ok bs) ->
    length bs = 1%nat /\ Forall (in_range U8) bs /\
    pg b' = page_write (pg b) a 0 /\
    forall r, mem b' r = mem_write (pg b) (mem b) a 0 r;
  spi_read_clean b b' tx n res : spi_write_then_read tx n b = (b', res) -> clean res;
}.

(** ** Lemmas *)

(** The two bit operations on a register address. *)
Lemma addr_bits r :
  0 <= r < 256 ->
  cast U8 (Z.lor r 0x80) = 0x80 + r mod 128 /\
  cast U8 (Z.land r (Z.lnot 0x80)) = r mod 128 /\
  phys (page_of r) (r mod 128) = r.
Proof.
  intros Hr.
  assert (forall f : Z -> bool, (forall n : nat, (n < 256)%nat -> f (Z.of_nat n) = true) -> f r = true) as Hall.
  { intros f Hf. rewrite <- (Z2Nat.id r) by lia. apply Hf. lia. }
  assert (forallb (fun n =>
    let r := Z.of_nat n in
    (cast U8 (Z.lor r 0x80) =? 0x80 + r mod 128) &&
    (cast U8 (Z.land r (Z.lnot 0x80)) =? r mod 128) &&
    (phys (page_of r) (r mod 128) =? r)) (seq 0 256) = true) as Hc by by vm_compute.
  rewrite forallb_forall in Hc.
  assert (In (Z.to_nat r) (seq 0 256)) as Hin by (apply in_seq; lia).
  specialize (Hc _ Hin). rewrite Z2Nat.id in Hc by lia. cbv zeta in Hc. lia.
Qed.

Section spi_lemmas.
Context {BM : Bme680Macros} {B : Type} {D : SpiDev B}.
Context {mem : B -> Z -> Z} {pg : B -> Z} {DOk : SpiDevOk B mem pg}.
Hypothesis page_bit : BME680_SPI_MEM_PAGE_BIT = 16.
Implicit Types ctx : bme680_spi_bus_context B.

(** The cached page is the selected one, or no page at all. *)
Definition cache_ok ctx : Prop :=
  current_page ctx = pg (spi ctx) \/ (current_page ctx <> 0 /\ current_page ctx <> 1).

Lemma page_of_01 r : page_of r = 0 \/ page_of r = 1.
Proof. unfold page_of. destruct (negb _); auto. Qed.

(** The byte written back has exactly the wanted page bit. *)
Lemma page_byte v p :
  p = 0 \/ p = 1 ->
  Z.b2z (Z.testbit (if negb (p =? 0) then cast U8 (Z.lor v BME680_SPI_MEM_PAGE_BIT)
                    else cast U8 (Z.land v (Z.lnot BME680_SPI_MEM_PAGE_BIT))) 4) = p.
Proof.
  rewrite page_bit. intros [->| ->]; simpl negb; cbv iota; rewrite cast_u by done;
    change (modulus U8) with (2 ^ 8); rewrite Z.mod_pow2_bits_low by lia.
  - rewrite Z.land_spec, Z.lnot_spec by lia. by rewrite andb_false_r.
  - rewrite Z.lor_spec. by rewrite orb_true_r.
Qed.

Lemma select_page_ok reg ctx ctx' :
  cache_ok ctx -> bme680_regmap_spi_select_page reg ctx = (ctx', Ok tt) ->
  current_page ctx' = page_of reg /\ pg (spi ctx') = page_of reg /\
  forall r, mem (spi ctx') r = mem (spi ctx) r.
Proof.
  intros Hc E. unfold bme680_regmap_spi_select_page in E. cbv zeta in E.
  destruct (Z.eqb_spec (page_of reg) (current_page ctx)) as [Hp|Hp].
  { simplify_eq. split_and!; [done| |done].
    destruct Hc as [<-|[? ?]]; [done|]. destruct (page_of_01 reg); congruence. }
  bind_ok E. unfold on_spi in E0. destruct (spi_write_then_read _ _ _) as [b1 r1] eqn:E1.
  simplify_eq. apply spi_read_write_cmd in E1 as (_ & _ & Hp1 & Hm1);
    [|done|by destruct (spi_pg (spi ctx)) as [-> | ->]].
  bind_ok E. unfold on_spi in E0. simpl in E0. destruct (spi_write _ _) as [b2 r2] eqn:E2.
  simplify_eq. destruct a0. apply spi_write_ok in E2 as [Hp2 Hm2];
    [|done|by destruct (spi_pg b1) as [-> | ->]].
  unfold set_current_page in E. simplify_eq. simpl.
  split_and!; [done| |].
  - rewrite Hp2. unfold page_write. simpl. apply page_byte, page_of_01.
  - intros r. rewrite Hm2. unfold mem_write at 1. simpl. by rewrite Hm1.
Qed.

Lemma spi_read_refines reg ctx ctx' bs :
  0 <= reg < 256 -> reg mod 128 <> BME680_REG_STATUS ->
  cache_ok ctx -> bme680_regmap_spi_read reg 1 ctx = (ctx', Ok bs) ->
  bs = [mem (spi ctx) reg] /\ cache_ok ctx' /\
  forall r, mem (spi ctx') r = mem (spi ctx) r.
Proof.
  intros Hr Hs Hc E. unfold bme680_regmap_spi_read in E.
  destruct (addr_bits reg Hr) as (Ha & _ & Hphys). rewrite Ha in E.
  assert (0 <= reg mod 128 < 128) as Hb by dlia.
  bind_ok E. destruct a. apply select_page_ok in E0 as (Hcp & Hp & Hm); [|done].
  unfold on_spi in E. destruct (spi_write_then_read _ _ _) as [b1 r1] eqn:E1. simplify_eq.
  pose proof (spi_read_frame _ _ _ _ _ Hb E1) as [Hp1 Hm1].
  apply spi_read_ok in E1; [|done]. simpl. split_and!.
  - rewrite E1, Hp, (proj2 (Z.eqb_neq _ _) Hs), Hphys, Hm. done.
  - left. simpl. congruence.
  - intros r. by rewrite Hm1, Hm.
Qed.

Lemma spi_write_refines reg v ctx ctx' :
  0 <= reg < 256 -> reg mod 128 <> BME680_REG_STATUS -> reg <> BME680_REG_SOFT_RESET ->
  cache_ok ctx -> bme680_regmap_spi_write reg v ctx = (ctx', Ok tt) ->
  cache_ok ctx' /\
  forall r, mem (spi ctx') r = if r =? reg then cast U8 v else mem (spi ctx) r.
Proof.
  intros Hr Hs Hrst Hc E. unfold bme680_regmap_spi_write in E.
  destruct (addr_bits reg Hr) as (_ & Ha & Hphys). rewrite Ha in E.
  assert (0 <= reg mod 128 < 128) as Hb by dlia.
  bind_ok E. destruct a. apply select_page_ok in E0 as (Hcp & Hp & Hm); [|done].
  unfold on_spi in E. destruct (spi_write _ _) as [b1 r1] eqn:E1. simplify_eq.
  apply spi_write_ok in E1 as [Hp1 Hm1]; [|done|by rewrite Hp, Hphys].
  simpl. rewrite Hp in *. unfold page_write, mem_write in *.
  rewrite (proj2 (Z.eqb_neq _ _) Hs) in *. rewrite Hphys in *.
  split; [left; simpl; congruence|].
  intros r. rewrite Hm1, Hm. by destruct (r =? reg).
Qed.

(** ** Sessions *)

Inductive spi_op := SpiRead (reg : Z) | SpiWrite (reg val : Z).

Definition spi_op_ok (o : spi_op) : Prop :=
  match o with
  | SpiRead r => 0 <= r < 256 /\ r mod 128 <> BME680_REG_STATUS
  | SpiWrite r _ =>
      0 <= r < 256 /\ r mod 128 <> BME680_REG_STATUS /\ r <> BME680_REG_SOFT_RESET
  end.

(** The values read by a sequence of register accesses through the transport,
    and on the flat register file. *)
Fixpoint run_ops (os : list spi_op) : M (bme680_spi_bus_context B) (list Z) :=
  match os with
  | [] => mret []
  | SpiRead r :: os => v ← bme680_regmap_spi_read r 1; vs ← run_ops os; mret (v ++ vs)
  | SpiWrite r x :: os => _ ← bme680_regmap_spi_write r x; run_ops os
  end.

Fixpoint flat_ops (os : list spi_op) (f : Z -> Z) : list Z :=
  match os with
  | [] => []
  | SpiRead r :: os => f r :: flat_ops os f
  | SpiWrite r x :: os => flat_ops os (fun q => if q =? r then cast U8 x else f q)
  end.

Lemma flat_ops_ext os f g : (forall r, f r = g r) -> flat_ops os f = flat_ops os g.
Proof.
  revert f g. induction os as [|[r|r x] os IH]; intros f g Hfg; simpl; [done|..].
  - f_equal; [done|]. by apply IH.
  - apply IH. intros q. by rewrite Hfg.
Qed.

Lemma run_ops_refines os ctx ctx' vs :
  Forall spi_op_ok os -> cache_ok ctx -> run_ops os ctx = (ctx', Ok vs) ->
  vs = flat_ops os (mem (spi ctx)) /\ cache_ok ctx'.
Proof.
  intros Hos. revert ctx ctx' vs.
  induction Hos as [|o os Ho Hos IH]; intros ctx ctx' vs Hc E.
  { unfold run_ops, mret, M_ret in E. by simplify_eq. }
  destruct o as [r|r x]; cbn [run_ops flat_ops] in *.
  - destruct Ho as [Hr Hs]. bind_ok E. apply spi_read_refines in E0 as (-> & Hc0 & Hm); [|done..].
    bind_ok E. apply IH in E0 as [-> Hc1]; [|done]. unfold mret, M_ret in E. simplify_eq/=.
    split; [|done]. f_equal. by apply flat_ops_ext.
  - destruct Ho as (Hr & Hs & Hrst). bind_ok E. destruct a.
    apply spi_write_refines in E0 as [Hc0 Hm]; [|done..].
    apply IH in E as [-> Hc1]; [|done]. split; [|done]. by apply flat_ops_ext.
Qed.

(** C4: paging is transparent.  From the context that probe allocates (page
    unknown), any sequence of register reads and writes that succeeds reads
    exactly what the same sequence reads from a flat file of 256 registers,
    whatever pages it crosses, and the page cache is still right afterwards.
    The accesses are those that are neither to the status register nor a soft
    reset. *)
Theorem spi_session_refines os dev ctx' vs :
  Forall spi_op_ok os -> run_ops os (spi_probe_context dev) = (ctx', Ok vs) ->
  vs = flat_ops os (mem dev) /\ cache_ok ctx'.
Proof.
  intros Hos E. apply run_ops_refines in E; [done..|].
  right. simpl. lia.
Qed.

(** The accessors that bypass the page selection read the register of the
    page that happens to be selected: [bme680_spi_reg_read r] returns register
    [r] if the chip is on the page of [r], and otherwise the register of the
    other half of the address space. *)
Theorem spi_reg_read_unpaged r ctx ctx' v :
  0 <= r < 256 -> r mod 128 <> BME680_REG_STATUS ->
  bme680_spi_reg_read r ctx = (ctx', Ok v) ->
  v = mem (spi ctx) (if pg (spi ctx) =? page_of r then r else (r + 128) mod 256) /\
  pg (spi ctx') = pg (spi ctx) /\ current_page ctx' = current_page ctx.
Proof.
  intros Hr Hs E. unfold bme680_spi_reg_read in E.
  destruct (addr_bits r Hr) as (Ha & _ & Hphys). rewrite Ha in E.
  assert (0 <= r mod 128 < 128) as Hb by dlia.
  bind_ok E. unfold mret, M_ret in E. simplify_eq. unfold on_spi in E0.
  destruct (spi_write_then_read _ _ _) as [b1 r1] eqn:E1. simplify_eq.
  pose proof (spi_read_frame _ _ _ _ _ Hb E1) as [Hp1 _].
  apply spi_read_ok in E1; [|done]. simpl. split_and!; [|done..].
  rewrite E1, (proj2 (Z.eqb_neq _ _) Hs). simpl. f_equal.
  destruct (spi_pg (spi ctx)) as [Hp|Hp], (page_of_01 r) as [Hq|Hq];
    rewrite Hp, Hq in *; unfold phys in *; simpl in *; dlia.
Qed.
End spi_lemmas.

(** ** A concrete chip *)

(** Its registers, its page, and which of the coming transfers are lost. *)
Record simspi := { smem : Z -> Z; spage : bool; lost : list bool }.

Definition sim_command (a v : Z) (b : simspi) : simspi := {|
  smem := mem_write (Z.b2z (spage b)) (smem b) a v;
  spage := if a =? BME680_REG_STATUS then Z.testbit v 4 else spage b;
  lost := tail (lost b);
|}.

Definition sim_next (b : simspi) : simspi :=
  {| smem := smem b; spage := spage b; lost := tail (lost b) |}.

Definition sim_byte (b : simspi) (a : Z) : Z :=
  if a =? BME680_REG_STATUS then (if spage b then 16 else 0)
  else cast U8 (smem b (phys (Z.b2z (spage b)) a)).

#[export] Instance sim_spi : SpiDev simspi := {|
  spi_write_then_read tx n b :=
    if hd false (lost b) then (sim_next b, Err (- EIO)) else
    let a := hd 0 tx in
    if 0x80 <=? a then (sim_next b, Ok (replicate n (sim_byte b (a - 0x80))))
    else (sim_command a 0 b, Ok (replicate n 0xFF));
  spi_write bs b :=
    if hd false (lost b) then (sim_next b, Err (- EIO)) else
    (sim_command (hd 0 bs) (nth 1 bs 0) b, Ok tt);
|}.

Definition sim_mem (b : simspi) (r : Z) : Z := cast U8 (smem b r).
Definition sim_pg (b : simspi) : Z := Z.b2z (spage b).

Lemma sim_command_ok a v b :
  sim_pg (sim_command a v b) = page_write (sim_pg b) a v /\
  forall r, sim_mem (sim_command a v b) r = mem_write (sim_pg b) (sim_mem b) a v r.
Proof.
  unfold sim_pg, sim_mem, sim_command, page_write, mem_write; simpl. split.
  - by destruct (a =? BME680_REG_STATUS).
  - intros r. destruct (_ || _); [done|]. by rewrite cast_idemp.
Qed.

Lemma sim_spi_ok : SpiDevOk simspi sim_mem sim_pg.
Proof.
  constructor; simpl.
  - intros. apply cast_range.
  - intros b. unfold sim_pg. destruct (spage b); auto.
  - intros b b' a v _ _ E. destruct (hd false (lost b)); simplify_eq. apply sim_command_ok.
  - intros b b' bs res E. by destruct (hd false (lost b)); simplify_eq.
  - intros b b' a bs Ha E. destruct (hd false (lost b)); [by simplify_eq|].
    replace (0x80 <=? 0x80 + a) with true in E by lia. simplify_eq. simpl.
    replace (0x80 + a - 0x80) with a by lia. unfold sim_byte.
    by destruct (a =? BME680_REG_STATUS).
  - intros b b' a n res Ha E. destruct (hd false (lost b)); [by simplify_eq|].
    replace (0x80 <=? 0x80 + a) with true in E by lia. by simplify_eq.
  - intros b b' a bs Ha _ E. destruct (hd false (lost b)); [by simplify_eq|].
    replace (0x80 <=? a) with false in E by lia. simplify_eq. simpl.
    split; [done|]. split; [by constructor|]. apply sim_command_ok.
  - intros b b' tx n res E. destruct (hd false (lost b)); [by simplify_eq|].
    by destruct (0x80 <=? hd 0 tx); simplify_eq.
Qed.

(** An interrupted page change makes later reads return the wrong
    register.  The transfer that is to read the status register carries no
    read bit, so it is a write command that clears the page bit; if the
    following write is lost, the function returns its error, the cache still
    names page 1 and the chip is on page 0: on a chip with any contents [f],
    re-reading register 0x10, which had been read correctly, yields the
    contents of register 0x90, without an error. *)
Theorem spi_page_error_stale (f : Z -> Z) :
  let dev := {| smem := f; spage := true; lost := [false; false; false; false; true] |} in
  let rd r := bme680_regmap_spi_read (H:=macros_ref) r 1 in
  let '(c1, r1) := rd 0x10 (spi_probe_context dev) in
  let '(c2, r2) := rd 0x90 c1 in
  let '(c3, r3) := rd 0x10 c2 in
  r1 = Ok [cast U8 (f 0x10)] /\ r2 = Err (- EIO) /\ r3 = Ok [cast U8 (f 0x90)].
Proof. by vm_compute. Qed.

(** ** Witnesses *)

Definition spi_ex : simspi :=
  {| smem := fun r => r; spage := false; lost := [] |}.
Definition ops_ex : list spi_op := [SpiRead 0xD0; SpiWrite 0x74 0x54; SpiRead 0x74; SpiRead 0xE1].

#[local] Existing Instance macros_ref.
#[local] Existing Instance sim_spi_ok.

Lemma spi_session_refines_witness :
  (run_ops ops_ex (spi_probe_context spi_ex)).2 = Ok [0xD0; 0x54; 0xE1].
Proof.
  assert (exists vs, (run_ops ops_ex (spi_probe_context spi_ex)).2 = Ok vs) as [vs Hvs]
    by (eexists; vm_compute; reflexivity).
  destruct (run_ops ops_ex (spi_probe_context spi_ex)) as [ctx' r] eqn:E.
  simpl in Hvs |- *. subst r.
  destruct (spi_session_refines (BM:=macros_ref) (mem:=sim_mem) (pg:=sim_pg) eq_refl ops_ex spi_ex ctx' vs) as [-> _].
  - repeat constructor; vm_compute; (discriminate || (intros H; discriminate H)).
  - exact E.
  - reflexivity.
Defined.

Lemma spi_reg_read_unpaged_witness :
  (bme680_spi_reg_read 0x10 (spi_probe_context spi_ex)).2 = Ok 0x90.
Proof.
  destruct (bme680_spi_reg_read 0x10 (spi_probe_context spi_ex)) as [ctx' r] eqn:E.
  assert (exists v, r = Ok v) as [v ->] by (vm_compute in E; injection E as _ <-; eauto).
  simpl. f_equal.
  pose proof (spi_reg_read_unpaged (mem:=sim_mem) (pg:=sim_pg) 0x10 _ _ _
    ltac:(lia) ltac:(discriminate) E) as [-> _].
  reflexivity.
Defined.
