(* ===== verification/I2c.v ===== *)
(** * I2c: the I2C glue (bme680_i2c.c)

    The two register accessors over SMBus, and the entry points of the I2C
    driver around those of the core (Driver).  [RegmapVia] is the kernel's
    register map over a pair of accessors (no cache, 8-bit registers); with
    the laws of an SMBus device the accessors then give everything that the
    driver assumes of its register map ([RegmapOk]).

    bme680_i2c.c declares a mutex bme680_i2c_lock of its own, static, where
    bme680.h declares that of bme680.c: [same_lock] says whether the two names
    are one mutex.  The theorems: the accessors discharge the driver's
    interface; the outcome of probe for either reading of the lock; suspend
    and remove do not reach the driver's state. *)

From S2P Require Import Prelude CInt LinuxLib Bme680Data Calib Driver.

(** ** The accessors *)

(** The SMBus calls: a negative code, or the byte (0 for a write). *)
Class SMBus (B : Type) := {
  i2c_smbus_read_byte_data : Z -> B -> B * Z;
  i2c_smbus_write_byte_data : Z -> Z -> B -> B * Z;
}.

(** The parameters of the SMBus calls are u8. *)
Definition bme680_i2c_reg_read {B} `{SMBus B} (reg : Z) : M B Z := fun b =>
  let '(b', ret) := i2c_smbus_read_byte_data (cast U8 reg) b in
  if ret <? 0 then (b', Err ret) else (b', Ok ret).

Definition bme680_i2c_reg_write {B} `{SMBus B} (reg val : Z) : M B unit := fun b =>
  let '(b', ret) := i2c_smbus_write_byte_data (cast U8 reg) (cast U8 val) b in
  if ret <? 0 then (b', Err ret) else (b', Ok tt).

(** A device whose [stable] registers change only when they are written. *)
Class SMBusOk (B : Type) {D : SMBus B} (stable : Z -> bool) (reg_of : B -> Z -> Z) : Prop := {
  sm_read b b' r ret :
    i2c_smbus_read_byte_data r b = (b', ret) ->
    ret < 256 /\ (0 <= ret -> stable r = true -> ret = reg_of b r) /\
    forall r', stable r' = true -> reg_of b' r' = reg_of b r';
  sm_write b b' r v ret :
    in_range U8 v -> i2c_smbus_write_byte_data r v b = (b', ret) -> 0 <= ret -> stable r = true ->
    forall r', stable r' = true -> reg_of b' r' = if r' =? r then v else reg_of b r';
  sm_range b r : stable r = true -> in_range U8 (reg_of b r);
  sm_addr r : stable r = true -> in_range U8 r;
}.

(** ** The register map over accessors (linux/regmap.h) *)

Fixpoint read_each {B} (rd : Z -> M B Z) (r : Z) (n : nat) : M B (list Z) :=
  match n with
  | O => mret []
  | S n => v ← rd r; vs ← read_each rd (r + 1) n; mret (v :: vs)
  end.

Class RegmapVia (B : Type) (rd : Z -> M B Z) (wr : Z -> Z -> M B unit) {R : Regmap B} : Prop := {
  via_read r b : regmap_read r b = rd r b;
  via_write r v b : regmap_write r v b = wr r v b;
  via_bulk r n b : regmap_bulk_read r n b = read_each rd r n b;
  via_update r m v b :
    regmap_update_bits r m v b =
      (old ← rd r;
       let new := Z.lor (Z.land old (Z.lnot m)) (Z.land v m) in
       if new =? old then mret tt else wr r new) b;
}.

Section i2c_regmap.
Context {B : Type} {D : SMBus B} {stable : Z -> bool} {reg_of : B -> Z -> Z} {DOk : SMBusOk B stable reg_of}.

Lemma reg_read_inv r b b' res :
  bme680_i2c_reg_read r b = (b', res) ->
  clean res /\ (forall r', stable r' = true -> reg_of b' r' = reg_of b r') /\
  (forall v, res = Ok v -> in_range U8 v /\ (stable r = true -> v = reg_of b r)).
Proof.
  unfold bme680_i2c_reg_read. destruct (i2c_smbus_read_byte_data (cast U8 r) b) as [b1 ret] eqn:E.
  destruct (sm_read _ _ _ _ E) as (Hlt & Hv & Hf).
  destruct (Z.ltb_spec ret 0) as [Hneg|Hpos]; intros; simplify_eq; (split_and!; [done|done|]); intros v Hr; simplify_eq.
  split; [unfold in_range, tmax; simpl; lia|]. intros Hr.
  rewrite cast_id in Hv by by apply (sm_addr r). by apply Hv.
Qed.

Lemma reg_write_inv r v b b' res :
  bme680_i2c_reg_write r v b = (b', res) ->
  clean res /\
  (res = Ok tt -> stable r = true ->
   forall r', stable r' = true -> reg_of b' r' = if r' =? r then cast U8 v else reg_of b r').
Proof.
  unfold bme680_i2c_reg_write. destruct (i2c_smbus_write_byte_data _ _ b) as [b1 ret] eqn:E.
  destruct (Z.ltb_spec ret 0) as [Hneg|Hpos]; intros; simplify_eq; (split; [done|]); intros Hr Hs; [done|].
  rewrite cast_id in E by by apply (sm_addr r). eapply sm_write; try done. apply cast_range.
Qed.

Lemma read_each_inv r n b b' res :
  read_each bme680_i2c_reg_read r n b = (b', res) ->
  clean res /\ (forall r', stable r' = true -> reg_of b' r' = reg_of b r') /\
  forall bs, res = Ok bs -> length bs = n /\ Forall (in_range U8) bs /\
    forall i, (i < n)%nat -> stable (r + Z.of_nat i) = true -> nth i bs 0 = reg_of b (r + Z.of_nat i).
Proof.
  revert r b b' res. induction n as [|n IH]; intros r b b' res E; simpl in E.
  { unfold mret, M_ret in E. simplify_eq. split_and!; [done|done|]. intros bs H. simplify_eq.
    split_and!; [done|done|lia]. }
  apply M_bind_inv in E as [(e & E & ->)|[[E ->]|(b1 & v & E1 & E)]];
    [by destruct (reg_read_inv _ _ _ _ E) as (? & ? & _)..|].
  destruct (reg_read_inv _ _ _ _ E1) as (_ & Hf1 & Hv). specialize (Hv _ eq_refl) as [Hv8 Hv].
  apply M_bind_inv in E as [(e & E & ->)|[[E ->]|(b2 & vs & E2 & E)]].
  1,2: destruct (IH _ _ _ _ E) as (? & Hf & _); split_and!; [done| |done]; intros; rewrite Hf; auto.
  destruct (IH _ _ _ _ E2) as (_ & Hf & Hbs). destruct (Hbs _ eq_refl) as (Hlen & H8 & Hnth).
  unfold mret, M_ret in E. simplify_eq. split_and!; [done|intros; rewrite Hf; auto|].
  intros bs H. simplify_eq. split_and!; [by simpl; f_equal|by constructor|].
  intros [|i] Hi Hs; simpl.
  - rewrite Z.add_0_r in *. by apply Hv.
  - replace (r + Z.of_nat (S i)) with (r + 1 + Z.of_nat i) in * by lia. rewrite <- Hf1 by done. apply Hnth; [lia|done].
Qed.

Lemma update_inv r m v b b' res :
  (old ← bme680_i2c_reg_read r;
   let new := Z.lor (Z.land old (Z.lnot m)) (Z.land v m) in
   if new =? old then mret tt else bme680_i2c_reg_write r new) b = (b', res) ->
  clean res /\
  (res = Ok tt -> stable r = true -> forall r', stable r' = true ->
   reg_of b' r' = if r' =? r then cast U8 (Z.lor (Z.land (reg_of b r) (Z.lnot m)) (Z.land v m)) else reg_of b r').
Proof.
  intros E. apply M_bind_inv in E as [(e & E & ->)|[[E ->]|(b1 & old & E1 & E)]];
    [by destruct (reg_read_inv _ _ _ _ E) as (? & _); split..|].
  destruct (reg_read_inv _ _ _ _ E1) as (_ & Hf & Hold). specialize (Hold _ eq_refl) as [H8 Hold]. cbv zeta in E.
  destruct (Z.eqb_spec (Z.lor (Z.land old (Z.lnot m)) (Z.land v m)) old) as [Heq|_].
  - unfold mret, M_ret in E. simplify_eq. split; [done|]. intros _ Hr r' Hr'. rewrite Hf by done.
    specialize (Hold Hr). destruct (Z.eqb_spec r' r) as [->|]; [|done].
    rewrite <- Hold, Heq. by rewrite cast_id.
  - destruct (reg_write_inv _ _ _ _ _ E) as [Hc Hw]. split; [done|]. intros -> Hr r' Hr'.
    rewrite (Hw eq_refl Hr r' Hr'), (Hold Hr). destruct (r' =? r); [done|]. by apply Hf.
Qed.

(** C29: the I2C accessors are a register transport.  The register map that the
    kernel builds from bme680_i2c_reg_read and bme680_i2c_reg_write, on a
    device whose registers keep what is written, satisfies every law that the
    driver relies on: what reads, bulk reads, writes and updates of bit fields
    return and leave, the bytes' range, and clean results. *)
Theorem i2c_regmap_ok (R : Regmap B) (HR : RegmapVia B bme680_i2c_reg_read bme680_i2c_reg_write) :
  RegmapOk B stable reg_of.
Proof.
  constructor; intros *; rewrite ?via_read, ?via_write, ?via_bulk, ?via_update; intros E.
  - destruct (reg_read_inv _ _ _ _ E) as (_ & _ & Hv). by apply Hv.
  - destruct (reg_read_inv _ _ _ _ E) as (_ & Hf & _). by apply Hf.
  - intros. destruct (reg_write_inv _ _ _ _ _ E) as [_ Hw]. by apply Hw.
  - intros. destruct (update_inv _ _ _ _ _ _ E) as [_ Hw]. by apply Hw.
  - destruct (read_each_inv _ _ _ _ _ E) as (_ & _ & H). by apply H.
  - destruct (read_each_inv _ _ _ _ _ E) as (_ & H & _). by apply H.
  - by apply sm_range.
  - by destruct (reg_read_inv _ _ _ _ E).
  - by destruct (reg_write_inv _ _ _ _ _ E).
  - by destruct (read_each_inv _ _ _ _ _ E).
  - by destruct (update_inv _ _ _ _ _ _ E).
Qed.
End i2c_regmap.

(** ** The entry points *)

(** The I2C client: the core driver's state, the data that
    i2c_set_clientdata stored, and this file's mutex. *)
Record i2c_client (B : Type) := { core : drv B; client_data : option bme680_data; i2c_lock : bool }.
Arguments Build_i2c_client {_} _ _ _.
Arguments core {_} _.
Arguments client_data {_} _.
Arguments i2c_lock {_} _.

Section entry_points.
Context `{LinuxLib} `{Bme680Macros} {B : Type} `{Regmap B} (same_lock : bool).

Definition set_glue_lock (b : bool) (c : i2c_client B) : i2c_client B :=
  if same_lock then Build_i2c_client (Build_drv (data (core c)) (bus (core c)) b) (client_data c) (i2c_lock c)
  else Build_i2c_client (core c) (client_data c) b.
Definition glue_locked (c : i2c_client B) : bool := if same_lock then i2c_locked (core c) else i2c_lock c.

Definition glue_lock : M (i2c_client B) unit := fun c =>
  if glue_locked c then (c, Stuck) else (set_glue_lock true c, Ok tt).
Definition glue_unlock : M (i2c_client B) unit := modify (set_glue_lock false).

Definition on_core {A} (m : M (drv B) A) : M (i2c_client B) A := fun c =>
  let '(s, r) := m (core c) in (Build_i2c_client s (client_data c) (i2c_lock c), r).

Definition set_clientdata (d : bme680_data) : M (i2c_client B) unit :=
  modify (fun c => Build_i2c_client (core c) (Some d) (i2c_lock c)).

(** The core's probe and the unlock on either path. *)
Definition probe_and_unlock (env : probe_env) : M (i2c_client B) unit := fun c =>
  match on_core (bme680_core_probe env) c with
  | (c, Ok _) => glue_unlock c
  | (c, Err e) => (set_glue_lock false c, Err e)
  | (c, Stuck) => (c, Stuck)
  end.

(** The data is the zeroed allocation.  [kzalloc_ok] and [regmap_err] are the results of devm_kzalloc and
    devm_regmap_init. *)
Definition bme680_i2c_probe (kzalloc_ok : bool) (regmap_err : option Z) (env : probe_env) : M (i2c_client B) unit :=
  if negb kzalloc_ok then throw (- ENOMEM)
  else
    match regmap_err with
    | Some e => throw e
    | None =>
        _ ← glue_lock;
        _ ← set_clientdata data_zero;
        probe_and_unlock env
    end.

(** [poll_thread] is whether anything has started the thread that
    kthread_stop is given. *)
Definition bme680_core_remove (poll_thread : bool) : M (drv B) unit :=
  _ ← mutex_lock_i2c;
  if poll_thread then set_i2c_locked false else stuck.

Definition bme680_i2c_remove (poll_thread : bool) : M (i2c_client B) unit :=
  _ ← glue_lock; _ ← on_core (bme680_core_remove poll_thread); glue_unlock.

(** bme680_core_suspend and bme680_core_resume on the client's data. *)
Definition lock_client_data : M (i2c_client B) unit := fun c =>
  match client_data c with
  | Some d => (c, if locked d then Stuck else Ok tt)
  | None => (c, Stuck)
  end.
Definition bme680_i2c_suspend : M (i2c_client B) unit :=
  _ ← glue_lock; _ ← lock_client_data; glue_unlock.
Definition bme680_i2c_resume : M (i2c_client B) unit := bme680_i2c_suspend.
End entry_points.

(** Probing over I2C, from a client whose locks are free.  If the mutex
    that bme680_i2c.c holds around bme680_core_probe is the one that the core
    takes (the declaration of bme680.h), probe never returns; if it is a
    mutex of its own, probe returns what the core's probe returns, with the
    state it leaves, and both mutexes free.  An allocation failure leaves the
    client as it was. *)
Theorem i2c_probe_outcome `{LinuxLib} `{Bme680Macros} {B : Type} `{Regmap B} kzalloc_ok regmap_err env (c : i2c_client B)
    (Hfree : i2c_locked (core c) = false /\ i2c_lock c = false) :
  (kzalloc_ok = true -> regmap_err = None ->
   (bme680_i2c_probe true kzalloc_ok regmap_err env c).2 = Stuck /\
   (let '(s, r) := bme680_core_probe env (core c) in
    let '(c', r') := bme680_i2c_probe false kzalloc_ok regmap_err env c in
    r' = r /\ core c' = s /\ client_data c' = Some data_zero /\
    (r <> Stuck -> i2c_lock c' = false /\ i2c_locked (core c') = false))) /\
  (kzalloc_ok = false \/ regmap_err <> None -> forall same,
   (bme680_i2c_probe same kzalloc_ok regmap_err env c).1 = c /\
   is_ok (bme680_i2c_probe same kzalloc_ok regmap_err env c).2 = false).
Proof.
  destruct Hfree as [Hl1 Hl2]. split.
  - intros -> ->. unfold bme680_i2c_probe. cbn [negb].
    unfold mbind, M_bind, glue_lock, glue_locked, set_clientdata, modify, probe_and_unlock, on_core, glue_unlock, set_glue_lock.
    rewrite Hl1, Hl2. cbn. split; [done|]. destruct c as [s cd il]. simpl in *. subst il.
    unfold bme680_core_probe, mbind, M_bind, mutex_lock_i2c. rewrite Hl1. cbn. unfold finally.
    destruct (bme680_probe env _) as [s1 [[]|e|]]; cbn; by split_and!.
  - unfold bme680_i2c_probe. intros [->|He] same; [done|]. destruct kzalloc_ok; [|done]. by destruct regmap_err.
Qed.

(** What suspend waits for is the lock of the data that the glue allocated
    itself, which nobody else uses: it returns at once while the driver holds
    its own lock over a measurement, and leaves everything as it was.  And
    remove never returns: no code starts the thread it stops. *)
Theorem i2c_suspend_remove `{LinuxLib} `{Bme680Macros} {B : Type} `{Regmap B} kzalloc_ok regmap_err env (c c' : i2c_client B)
    (Hfree : i2c_locked (core c) = false /\ i2c_lock c = false)
    (Hp : bme680_i2c_probe false kzalloc_ok regmap_err env c = (c', Ok tt)) :
  (forall s : i2c_client B, client_data s = client_data c' -> i2c_lock s = false ->
     bme680_i2c_suspend false s = (s, Ok tt)) /\
  (forall same, (bme680_i2c_remove same false c').2 = Stuck).
Proof.
  destruct Hfree as [Hl1 Hl2]. unfold bme680_i2c_probe in Hp. destruct kzalloc_ok, regmap_err; try done. cbn [negb] in Hp.
  unfold mbind, M_bind, glue_lock, glue_locked, set_clientdata, modify, probe_and_unlock, on_core, glue_unlock, set_glue_lock in Hp.
  rewrite Hl2 in Hp. cbn in Hp. unfold bme680_core_probe, mbind, M_bind, mutex_lock_i2c in Hp. rewrite Hl1 in Hp. cbn in Hp.
  unfold finally in Hp. destruct (bme680_probe env _) as [s1 [[]|e|]]; cbn in Hp; simplify_eq; unfold modify in Hp; simplify_eq. split.
  - intros [s cd il] Hcd Hl. simpl in Hcd, Hl. subst. reflexivity.
  - intros []; done.
Qed.

(** ** Witnesses *)

#[local] Instance sim_smbus : SMBus simbus := {|
  i2c_smbus_read_byte_data r b := (b, if r =? 0x1D then 0x80 else cast U8 (regs b r));
  i2c_smbus_write_byte_data r v b :=
    ({| regs := set_reg r v (regs b); status := status b; faults := faults b |}, 0);
|}.

Definition sim_addr (r : Z) : bool := (0 <=? r) && (r <? 256) && negb (r =? 0x1D).

Lemma sim_smbus_ok : SMBusOk simbus sim_addr sim_reg.
Proof.
  constructor; simpl; unfold sim_addr, sim_reg.
  - intros b b' r ret E. simplify_eq. pose proof (cast_range U8 (regs b' r)) as Hr.
    unfold in_range, tmax in Hr. simpl in Hr. destruct (r =? 29) eqn:E29; split_and!; try done; try lia.
  - intros b b' r v ret Hv E _ Hr r' Hr'. simplify_eq/=. unfold set_reg. destruct (r' =? r); [|done].
    by rewrite cast_idemp, cast_id.
  - intros. apply cast_range.
  - intros r Hr. unfold in_range, tmax. simpl. lia.
Qed.

Definition smbus_regmap : Regmap simbus := {|
  regmap_read := bme680_i2c_reg_read;
  regmap_write := bme680_i2c_reg_write;
  regmap_bulk_read := read_each bme680_i2c_reg_read;
  regmap_update_bits r m v :=
    old ← bme680_i2c_reg_read r;
    let new := Z.lor (Z.land old (Z.lnot m)) (Z.land v m) in
    if new =? old then mret tt else bme680_i2c_reg_write r new;
|}.

Lemma i2c_regmap_ok_witness :
  RegmapVia (R:=smbus_regmap) simbus bme680_i2c_reg_read bme680_i2c_reg_write /\
  RegmapOk (R:=smbus_regmap) simbus sim_addr sim_reg.
Proof.
  assert (RegmapVia (R:=smbus_regmap) simbus bme680_i2c_reg_read bme680_i2c_reg_write) as HV by (by constructor).
  split; [exact HV|]. exact (i2c_regmap_ok (DOk:=sim_smbus_ok) smbus_regmap HV).
Defined.

Lemma i2c_probe_outcome_witness :
  let c := Build_i2c_client (Build_drv data_zero {| regs := fun _ => 0; status := []; faults := [Some 5] |} false) None false in
  let env := Build_probe_env true 0 0 true 0 0 0 in
  (@bme680_i2c_probe linux_ref macros_ref simbus sim_regmap true true None env c).2 = Stuck /\
  (@bme680_i2c_probe linux_ref macros_ref simbus sim_regmap false true None env c).2 = Err (- 6).
Proof.
  intros c env. split; [|vm_compute; reflexivity].
  apply (proj1 (@i2c_probe_outcome linux_ref macros_ref simbus sim_regmap true None env c (conj eq_refl eq_refl)) eq_refl eq_refl).
Defined.
