(* ===== verification/BusSim.v ===== *)
(** * BusSim: the driver on two buses that agree

    When the register maps of two buses answer alike on the registers that the
    driver uses, and keep the two buses related, every function of the driver
    returns the same result on both and leaves the same driver state.
    [agree] is that relation between two computations; it composes, so the
    proof follows the code.  [driver_session] runs probe and a list of calls
    and collects what the callers are answered. *)

From S2P Require Import Prelude CInt LinuxLib Bme680Data Calib Compensate Driver DriverSpec.

(** ** Agreeing computations *)

Section agree.
Context {S1 S2 : Type} (Rel : S1 -> S2 -> Prop).

Definition agree {A} (m1 : M S1 A) (m2 : M S2 A) : Prop :=
  forall s1 s2, Rel s1 s2 ->
    (m1 s1).2 = (m2 s2).2 /\ Rel (m1 s1).1 (m2 s2).1.

Lemma agree_ret {A} (a : A) : agree (mret a) (mret a).
Proof. by intros s1 s2 HR. Qed.

Lemma agree_throw {A} e : agree (throw (A:=A) e) (throw e).
Proof. by intros s1 s2 HR. Qed.

Lemma agree_stuck {A} : agree (stuck (A:=A)) stuck.
Proof. by intros s1 s2 HR. Qed.

Lemma agree_bind {A B} (m1 : M S1 A) m2 (k1 : A -> M S1 B) k2 :
  agree m1 m2 -> (forall a, agree (k1 a) (k2 a)) -> agree (m1 ≫= k1) (m2 ≫= k2).
Proof.
  intros Hm Hk s1 s2 HR. destruct (Hm s1 s2 HR) as [E HR'].
  unfold mbind, M_bind. destruct (m1 s1) as [t1 r1], (m2 s2) as [t2 r2]. simpl in *. subst r2.
  destruct r1 as [a|e|]; [by apply Hk|done..].
Qed.
End agree.

Create HintDb agree.
#[export] Hint Resolve agree_ret agree_throw agree_stuck : agree.

(** ** Two buses *)

Class RegmapSim {B1 B2 : Type} {R1 : Regmap B1} {R2 : Regmap B2}
    (Rel : B1 -> B2 -> Prop) (good : Z -> Prop) : Prop := {
  rs_read r : good r -> agree Rel (regmap_read r) (regmap_read r);
  rs_write r v : good r -> agree Rel (regmap_write r v) (regmap_write r v);
  rs_update r m v : good r -> agree Rel (regmap_update_bits r m v) (regmap_update_bits r m v);
  rs_bulk r n : (forall i, (i < n)%nat -> good (r + Z.of_nat i)) ->
    agree Rel (regmap_bulk_read r n) (regmap_bulk_read r n);
}.

(** The registers of one bulk transfer. *)
Definition span (r : Z) (n : nat) : list Z := map (fun i => r + Z.of_nat i) (seq 0 n).

(** All the registers that the driver reads or writes. *)
Definition driver_regs `{Bme680Macros} : list Z :=
  [BME680_REG_CTRL_MEAS; BME680_REG_CTRL_HUM; BME680_REG_CONFIG; BME680_REG_CTRL_GAS_1;
   BME680_REG_GAS_WAIT_0; BME680_REG_RES_HEAT_0; BME680_REG_SOFT_RESET; BME680_REG_CHIP_ID;
   BME680_REG_MEAS_STATUS_0] ++
  span BME680_REG_MEAS_STATUS_0 15 ++ span BME680_CALIB_ADDR1 23 ++
  span BME680_CALIB_ADDR2 14 ++ span BME680_CALIB_ADDR3 5.

(** ** What a caller of the driver is answered *)

Inductive reply :=
| RVal (r : res iio_val)
| RUnit (r : res unit)
| RCount (r : res Z)
| RPushed (r : res (option Z)).

Section session.
Context `{LinuxLib} `{Bme680Macros} {B : Type} `{Regmap B}.

Definition serve (q : request) (s : drv B) : drv B * reply :=
  match q with
  | ReadRaw type mask => let '(s, r) := bme680_read_raw type mask s in (s, RVal r)
  | WriteRaw type val mask => let '(s, r) := bme680_write_raw type val mask s in (s, RUnit r)
  | HeaterCurrentStore p n => let '(s, r) := bme680_heater_current_store p n s in (s, RCount r)
  | Trigger => let '(s, r) := bme680_trigger_handler s in (s, RPushed r)
  | Suspend => let '(s, r) := bme680_core_suspend s in (s, RUnit r)
  | Resume => let '(s, r) := bme680_core_resume s in (s, RUnit r)
  end.

Definition reply_stuck (a : reply) : bool :=
  match a with RVal Stuck | RUnit Stuck | RCount Stuck | RPushed Stuck => true | _ => false end.

(** The calls in turn, up to one that never returns. *)
Fixpoint serve_all (qs : list request) (s : drv B) : drv B * list reply :=
  match qs with
  | [] => (s, [])
  | q :: qs =>
      let '(s, a) := serve q s in
      if reply_stuck a then (s, [a]) else
      let '(s, l) := serve_all qs s in (s, a :: l)
  end.

(** Probe, and when it succeeds a session. *)
Definition driver_session (env : probe_env) (qs : list request) (s : drv B)
    : drv B * (res unit * list reply) :=
  match bme680_core_probe env s with
  | (s, Ok tt) => let '(s, l) := serve_all qs s in (s, (Ok tt, l))
  | (s, r) => (s, (r, []))
  end.
End session.

(** ** The driver agrees with itself *)

Section driver_agree.
Context {L : LinuxLib} {BM : Bme680Macros} {B1 B2 : Type} {R1 : Regmap B1} {R2 : Regmap B2}.
Context {Rel : B1 -> B2 -> Prop} {good : Z -> Prop} {RS : RegmapSim Rel good}.
Hypothesis regs_good : Forall good driver_regs.

(** The same driver state over related buses. *)
Definition drv_rel (s1 : drv B1) (s2 : drv B2) : Prop :=
  data s1 = data s2 /\ Rel (bus s1) (bus s2) /\ i2c_locked s1 = i2c_locked s2.

Lemma agree_on_bus {A} (m1 : M B1 A) m2 : agree Rel m1 m2 -> agree drv_rel (on_bus m1) (on_bus m2).
Proof.
  intros Hm s1 s2 (Hd & Hb & Hl). destruct (Hm _ _ Hb) as [E HR]. unfold on_bus.
  destruct (m1 (bus s1)), (m2 (bus s2)). simpl in *. by split_and!.
Qed.

Lemma agree_get_data : agree drv_rel get_data get_data.
Proof. intros s1 s2 HR. unfold get_data. simpl. split; [by rewrite (proj1 HR)|done]. Qed.

Lemma agree_set_data f : agree drv_rel (set_data f) (set_data f).
Proof. intros s1 s2 (Hd & Hb & Hl). unfold set_data, drv_rel. simpl. by rewrite Hd. Qed.

Lemma agree_of_option {A} (o : option A) : agree drv_rel (of_option o) (of_option o).
Proof. destruct o; [apply agree_ret|apply agree_stuck]. Qed.

Lemma agree_check ok e : agree drv_rel (check ok e) (check ok e).
Proof. destruct ok; [apply agree_ret|apply agree_throw]. Qed.

Lemma agree_set_i2c_locked b : agree drv_rel (set_i2c_locked b) (set_i2c_locked b).
Proof. by intros s1 s2 (Hd & Hb & Hl). Qed.

Lemma agree_mutex_lock_i2c : agree drv_rel mutex_lock_i2c mutex_lock_i2c.
Proof.
  intros s1 s2 HR. pose proof HR as (Hd & Hb & Hl). unfold mutex_lock_i2c. rewrite Hl.
  destruct (i2c_locked s2); [done|]. by apply agree_set_i2c_locked.
Qed.

Lemma agree_mutex_lock_data : agree drv_rel mutex_lock_data mutex_lock_data.
Proof.
  intros s1 s2 HR. pose proof HR as (Hd & Hb & Hl). unfold mutex_lock_data. rewrite Hd.
  destruct (locked (data s2)); [done|]. by apply agree_set_data.
Qed.

Lemma agree_finally {A} (m1 : M (drv B1) A) m2 u1 u2 :
  agree drv_rel m1 m2 -> agree drv_rel u1 u2 -> agree drv_rel (finally m1 u1) (finally m2 u2).
Proof.
  intros Hm Hu s1 s2 HR. destruct (Hm _ _ HR) as [E HR']. unfold finally.
  destruct (m1 s1) as [t1 r1], (m2 s2) as [t2 r2]. simpl in *. subst r2.
  destruct (Hu _ _ HR') as [Eu HRu].
  destruct r1; [..|done]; destruct (u1 t1) as [v1 x1], (u2 t2) as [v2 x2]; simpl in *; subst x2;
    by destruct x1.
Qed.

Lemma agree_with_lock {A} (m1 : M (drv B1) A) m2 :
  agree drv_rel m1 m2 -> agree drv_rel (with_lock m1) (with_lock m2).
Proof.
  intros Hm. apply agree_bind; [apply agree_mutex_lock_data|intros _].
  apply agree_finally; [done|apply agree_set_data].
Qed.

Lemma agree_do_temperature : agree drv_rel do_temperature do_temperature.
Proof.
  intros s1 s2 (Hd & Hb & Hl). unfold do_temperature, drv_rel. rewrite Hd.
  by destruct (calc_temperature _ _).
Qed.

Lemma good_reg r : In r driver_regs -> good r.
Proof. intros Hr. eapply Forall_forall; [apply regs_good|by apply list_elem_of_In]. Qed.

Lemma good_span r n :
  (forall x, In x (span r n) -> In x driver_regs) -> forall i, (i < n)%nat -> good (r + Z.of_nat i).
Proof.
  intros Hs i Hi. apply good_reg, Hs. unfold span. apply in_map_iff. exists i.
  split; [done|apply in_seq; lia].
Qed.

(** A register of the list, by its place in the list. *)
Ltac reg_good :=
  first [ apply good_reg; unfold driver_regs; rewrite ?in_app_iff; simpl In; tauto
        | apply good_span; intros ? ?; unfold driver_regs; rewrite !in_app_iff; tauto ].

(** The rule for each shape of code. *)
Ltac agree_tac :=
  repeat first
    [ apply agree_with_lock
    | apply agree_bind; [|intros ?; cbv beta]
    | apply agree_on_bus;
      first [ apply rs_read; reg_good | apply rs_write; reg_good
            | apply rs_update; reg_good | apply rs_bulk; reg_good ]
    | apply agree_get_data | apply agree_set_data | apply agree_of_option | apply agree_check
    | apply agree_do_temperature
    | apply agree_ret | apply agree_throw | apply agree_stuck
    | solve [eauto with agree nocore]
    | case_match ].

Lemma agree_set_mode mode : agree drv_rel (bme680_set_mode mode) (bme680_set_mode mode).
Proof. unfold bme680_set_mode. agree_tac. Qed.

Lemma agree_eoc n : agree drv_rel (eoc_loop n) (eoc_loop n).
Proof. induction n as [|n IH]; simpl; agree_tac. Qed.
Hint Resolve agree_set_mode agree_eoc : agree.

Lemma agree_read_raw_data : agree drv_rel bme680_read_raw_data bme680_read_raw_data.
Proof. unfold bme680_read_raw_data, bme680_wait_for_eoc. agree_tac. Qed.

Lemma agree_gas_config : agree drv_rel bme680_set_gas_config bme680_set_gas_config.
Proof. unfold bme680_set_gas_config. agree_tac. Qed.
Hint Resolve agree_read_raw_data agree_gas_config : agree.

Lemma agree_chip_config : agree drv_rel bme680_chip_config bme680_chip_config.
Proof. unfold bme680_chip_config, bme680_set_oversampling. agree_tac. Qed.

Lemma agree_read_calib : agree drv_rel bme680_read_calib bme680_read_calib.
Proof. unfold bme680_read_calib, upd_calib. agree_tac. Qed.

Lemma agree_pressure : agree drv_rel do_pressure do_pressure.
Proof. unfold do_pressure. agree_tac. Qed.

Lemma agree_humidity : agree drv_rel do_humidity do_humidity.
Proof. unfold do_humidity. agree_tac. Qed.

Lemma agree_gas : agree drv_rel do_gas do_gas.
Proof. unfold do_gas. agree_tac. Qed.
Hint Resolve agree_chip_config agree_read_calib agree_pressure agree_humidity agree_gas : agree.

Lemma agree_processed type : agree drv_rel (read_processed type) (read_processed type).
Proof. destruct type; simpl; agree_tac. Qed.

Lemma agree_fetch : agree drv_rel fetch_measurement fetch_measurement.
Proof. unfold fetch_measurement, bme680_get_mode. agree_tac. Qed.
Hint Resolve agree_processed agree_fetch : agree.

Lemma agree_probe env : agree drv_rel (bme680_core_probe env) (bme680_core_probe env).
Proof.
  unfold bme680_core_probe. apply agree_bind; [apply agree_mutex_lock_i2c|intros _].
  apply agree_finally; [|apply agree_set_i2c_locked]. unfold bme680_probe. agree_tac.
Qed.

Lemma agree_serve q s1 s2 :
  drv_rel s1 s2 -> (serve q s1).2 = (serve q s2).2 /\ drv_rel (serve q s1).1 (serve q s2).1.
Proof.
  intros HR.
  assert (forall A (m1 : M (drv B1) A) m2 (f : res A -> reply), agree drv_rel m1 m2 ->
    (let '(s, r) := m1 s1 in (s, f r)).2 = (let '(s, r) := m2 s2 in (s, f r)).2 /\
    drv_rel (let '(s, r) := m1 s1 in (s, f r)).1 (let '(s, r) := m2 s2 in (s, f r)).1) as Hserve.
  { intros A m1 m2 f Hm. destruct (Hm _ _ HR) as [E HR']. destruct (m1 s1), (m2 s2).
    simpl in *. by subst. }
  destruct q as [type mask|type val mask|p n| | |]; apply Hserve.
  - unfold bme680_read_raw, read_raw_body. agree_tac.
  - unfold bme680_write_raw, write_raw_body. agree_tac.
  - unfold bme680_heater_current_store, store_body. agree_tac.
  - clear s1 s2 HR Hserve. intros s1 s2 HR.
    assert (agree drv_rel (with_lock trigger_body) (with_lock trigger_body)) as Ht
      by (unfold trigger_body; agree_tac).
    destruct (Ht _ _ HR) as [E HR']. unfold bme680_trigger_handler.
    destruct (with_lock trigger_body s1) as [t1 r1], (with_lock trigger_body s2) as [t2 r2].
    simpl in *. subst r2. by destruct r1.
  - unfold bme680_core_suspend. agree_tac.
  - unfold bme680_core_resume. agree_tac.
Qed.

Lemma agree_serve_all qs s1 s2 :
  drv_rel s1 s2 ->
  (serve_all qs s1).2 = (serve_all qs s2).2 /\ drv_rel (serve_all qs s1).1 (serve_all qs s2).1.
Proof.
  revert s1 s2. induction qs as [|q qs IH]; intros s1 s2 HR; simpl; [done|].
  destruct (agree_serve q _ _ HR) as [E HR']. destruct (serve q s1) as [t1 a1], (serve q s2) as [t2 a2].
  simpl in *. subst a2. destruct (reply_stuck a1); [done|].
  destruct (IH _ _ HR') as [El HRl].
  destruct (serve_all qs t1), (serve_all qs t2). simpl in *. by subst.
Qed.

(** A whole session: probe, then calls. *)
Lemma driver_session_agree env qs s1 s2 :
  drv_rel s1 s2 ->
  (driver_session env qs s1).2 = (driver_session env qs s2).2 /\
  drv_rel (driver_session env qs s1).1 (driver_session env qs s2).1.
Proof.
  intros HR. unfold driver_session. destruct (agree_probe env _ _ HR) as [E HR'].
  destruct (bme680_core_probe env s1) as [t1 r1], (bme680_core_probe env s2) as [t2 r2].
  simpl in *. subst r2. destruct r1 as [[]|e|]; [|done..].
  destruct (agree_serve_all qs _ _ HR') as [El HRl].
  destruct (serve_all qs t1), (serve_all qs t2). simpl in *. by subst.
Qed.
End driver_agree.
