(* ===== verification/SpiDriver.v ===== *)
(** * SpiDriver: the whole driver over SPI

    Composition of Spi, BusSim and Driver.  [Chip] is a chip as a machine with
    256 registers, whose contents may change by themselves; [SpiChipOk] is
    what it does with the transfers of its SPI interface, with seven address
    bits and a page, when no transfer fails.  The theorem: a session of the
    driver over the paged transport is the session on the chip itself.

    The kernel's register map is given by [RegmapVia] (I2c): one transfer per
    register, as bme680_spi_regmap_config asks for with use_single_read and
    use_single_write.  (bme680_spi_probe passes bme680_regmap_config, which no
    file defines.)  The entry points of bme680_spi.c follow. *)

From S2P Require Import Prelude CInt LinuxLib Bme680Data Calib Driver DriverSpec Spi I2c BusSim.

(** ** A chip, and its registers as a register map *)

Class Chip (C : Type) := {
  chip_read : Z -> C -> C * Z;
  chip_write : Z -> Z -> C -> C;
}.

Definition flat_read {C} `{Chip C} (r : Z) : M C Z := fun c =>
  let '(c', v) := chip_read r c in (c', Ok v).
Definition flat_write {C} `{Chip C} (r v : Z) : M C unit := fun c =>
  (chip_write r (cast U8 v) c, Ok tt).

(** ** The chip behind its SPI interface *)

(** [chip b] is the chip in device state [b], [pg b] the page it has
    selected.  A command byte below 0x80 writes; the status register holds
    only the page bit that matters here; a soft reset selects page 0. *)
Class SpiChipOk (B C : Type) {D : SpiDev B} {K : Chip C} (chip : B -> C) (pg : B -> Z) : Prop := {
  sc_pg b : pg b = 0 \/ pg b = 1;
  sc_read b a : 0 <= a < 0x80 -> a <> BME680_REG_STATUS ->
    exists b', spi_write_then_read [0x80 + a] 1 b =
        (b', Ok [(chip_read (phys (pg b) a) (chip b)).2]) /\
      chip b' = (chip_read (phys (pg b) a) (chip b)).1 /\ pg b' = pg b;
  sc_write b a v : 0 <= a < 0x80 -> a <> BME680_REG_STATUS -> in_range U8 v ->
    exists b', spi_write [a; v] b = (b', Ok tt) /\
      chip b' = chip_write (phys (pg b) a) v (chip b) /\
      pg b' = if phys (pg b) a =? BME680_REG_SOFT_RESET then 0 else pg b;
  sc_page b v : exists b', spi_write [BME680_REG_STATUS; v] b = (b', Ok tt) /\
    chip b' = chip b /\ pg b' = Z.b2z (Z.testbit v 4);
  sc_status b : exists b' x, spi_write_then_read [BME680_REG_STATUS] 1 b = (b', Ok [x]) /\
    chip b' = chip b /\ pg b' = 0;
}.

Section transport.
Context {BM : Bme680Macros} {B C : Type} {D : SpiDev B} {K : Chip C}.
Context {chip : B -> C} {pg : B -> Z} {SOk : SpiChipOk B C chip pg}.
Hypothesis page_bit : BME680_SPI_MEM_PAGE_BIT = 16.

(** The accessors that the register map calls, with its 8-bit addresses and
    values. *)
Definition spi_rd (r : Z) : M (bme680_spi_bus_context B) Z :=
  bs ← bme680_regmap_spi_read (cast U8 r) 1; mret (nth 0 bs 0).
Definition spi_wr (r v : Z) : M (bme680_spi_bus_context B) unit :=
  bme680_regmap_spi_write (cast U8 r) (cast U8 v).

(** The context leads to the chip, and its cached page is right or unknown. *)
Definition spi_rel (ctx : bme680_spi_bus_context B) (c : C) : Prop :=
  chip (spi ctx) = c /\
  (current_page ctx = pg (spi ctx) \/ (current_page ctx <> 0 /\ current_page ctx <> 1)).

(** The registers that the paged interface can reach. *)
Definition reachable_reg (r : Z) : Prop := 0 <= r < 256 /\ r mod 128 <> BME680_REG_STATUS.

Lemma select_page_total reg ctx c :
  spi_rel ctx c -> exists ctx', bme680_regmap_spi_select_page reg ctx = (ctx', Ok tt) /\
    chip (spi ctx') = c /\ current_page ctx' = page_of reg /\ pg (spi ctx') = page_of reg.
Proof.
  intros [Hc Hp]. unfold bme680_regmap_spi_select_page. cbv zeta.
  destruct (Z.eqb_spec (page_of reg) (current_page ctx)) as [E|E].
  { exists ctx. split_and!; [done..|]. destruct Hp as [<-|[? ?]]; [done|].
    destruct (page_of_01 reg); congruence. }
  destruct (sc_status (spi ctx)) as (b1 & x & E1 & Hc1 & Hp1).
  erewrite M_bind_ok by (unfold on_spi; by rewrite E1). cbn [nth].
  edestruct (sc_page b1) as (b2 & E2 & Hc2 & Hp2).
  erewrite M_bind_ok by (unfold on_spi; cbn [spi]; by rewrite E2).
  eexists. split; [reflexivity|]. cbn. split_and!; [congruence|done|].
  rewrite Hp2. apply page_byte; [done|apply page_of_01].
Qed.

Lemma agree_spi_read r : reachable_reg r -> agree spi_rel (spi_rd r) (flat_read r).
Proof.
  intros [Hr Hs] ctx c HR. unfold spi_rd. rewrite cast_id by (unfold in_range, tmax; simpl; lia).
  destruct (select_page_total r ctx c HR) as (ctx1 & E1 & Hc & Hcp & Hp).
  destruct (addr_bits r Hr) as (Ha & _ & Hphys).
  assert (0 <= r mod 128 < 128) as Hb by dlia.
  destruct (sc_read (spi ctx1) (r mod 128) Hb Hs) as (b2 & E2 & Hc2 & Hp2).
  rewrite Hp, Hphys, Hc in *. unfold flat_read.
  destruct (chip_read r c) as [c' v] eqn:Ev. cbn [fst snd] in *.
  erewrite M_bind_ok.
  2:{ unfold bme680_regmap_spi_read. erewrite M_bind_ok by exact E1. rewrite Ha.
      unfold on_spi. by rewrite E2. }
  cbn. split; [done|]. split; [done|left]. cbn. congruence.
Qed.

Lemma agree_spi_write r v : reachable_reg r -> agree spi_rel (spi_wr r v) (flat_write r v).
Proof.
  intros [Hr Hs] ctx c HR. unfold spi_wr. rewrite (cast_id U8 r) by (unfold in_range, tmax; simpl; lia).
  destruct (select_page_total r ctx c HR) as (ctx1 & E1 & Hc & Hcp & Hp).
  destruct (addr_bits r Hr) as (_ & Ha & Hphys).
  assert (0 <= r mod 128 < 128) as Hb by dlia.
  destruct (sc_write (spi ctx1) (r mod 128) (cast U8 v) Hb Hs (cast_range _ _)) as (b2 & E2 & Hc2 & Hp2).
  rewrite Hp, Hphys, Hc in *. unfold bme680_regmap_spi_write, flat_write.
  erewrite M_bind_ok by exact E1. rewrite Ha. unfold on_spi. rewrite E2. cbn.
  split; [done|]. split; [done|left]. cbn. rewrite Hcp, Hp2.
  by destruct (Z.eqb_spec r BME680_REG_SOFT_RESET) as [->|].
Qed.
End transport.
Arguments spi_rel {_ _} _ _ _ _.

(** ** From accessors to register maps *)

Section via.
Context {B1 B2 : Type} {rd1 : Z -> M B1 Z} {wr1 : Z -> Z -> M B1 unit}
  {rd2 : Z -> M B2 Z} {wr2 : Z -> Z -> M B2 unit}.
Context {R1 : Regmap B1} {R2 : Regmap B2} {V1 : RegmapVia B1 rd1 wr1} {V2 : RegmapVia B2 rd2 wr2}.
Context {Rel : B1 -> B2 -> Prop} {good : Z -> Prop}.
Hypothesis rd_agree : forall r, good r -> agree Rel (rd1 r) (rd2 r).
Hypothesis wr_agree : forall r v, good r -> agree Rel (wr1 r v) (wr2 r v).

Lemma agree_ext {A} (m1 m1' : M B1 A) (m2 m2' : M B2 A) :
  (forall b, m1' b = m1 b) -> (forall b, m2' b = m2 b) -> agree Rel m1 m2 -> agree Rel m1' m2'.
Proof. intros E1 E2 Hm s1 s2 HR. rewrite E1, E2. by apply Hm. Qed.

Lemma agree_read_each n r :
  (forall i, (i < n)%nat -> good (r + Z.of_nat i)) ->
  agree Rel (read_each rd1 r n) (read_each rd2 r n).
Proof.
  revert r. induction n as [|n IH]; intros r Hg; simpl; [apply agree_ret|].
  apply agree_bind.
  - apply rd_agree. rewrite <- (Z.add_0_r r). apply (Hg 0%nat). lia.
  - intros v. apply agree_bind; [|intros vs; apply agree_ret]. apply IH. intros i Hi.
    replace (r + 1 + Z.of_nat i) with (r + Z.of_nat (S i)) by lia. apply Hg. lia.
Qed.

(** Two register maps over accessors that agree. *)
Lemma regmap_sim_via : RegmapSim Rel good.
Proof.
  constructor.
  - intros r Hr. eapply agree_ext; [apply via_read|apply via_read|by apply rd_agree].
  - intros r v Hr. eapply agree_ext; [apply via_write|apply via_write|by apply wr_agree].
  - intros r m v Hr. eapply agree_ext; [apply via_update|apply via_update|].
    apply agree_bind; [by apply rd_agree|intros old]. cbv zeta.
    case_match; [apply agree_ret|by apply wr_agree].
  - intros r n Hg. eapply agree_ext; [apply via_bulk|apply via_bulk|by apply agree_read_each].
Qed.
End via.

(** The register map that the kernel builds over a pair of accessors. *)
Definition regmap_over {B} (rd : Z -> M B Z) (wr : Z -> Z -> M B unit) : Regmap B := {|
  regmap_read := rd;
  regmap_write := wr;
  regmap_bulk_read := read_each rd;
  regmap_update_bits r m v :=
    old ← rd r;
    let new := Z.lor (Z.land old (Z.lnot m)) (Z.land v m) in
    if new =? old then mret tt else wr r new;
|}.

Lemma regmap_over_via {B} (rd : Z -> M B Z) wr : RegmapVia (R:=regmap_over rd wr) B rd wr.
Proof. by constructor. Qed.

(** ** The session *)

Section session.
Context {L : LinuxLib} {BM : Bme680Macros} {B C : Type} {D : SpiDev B} {K : Chip C}.
Context {chip : B -> C} {pg : B -> Z} {SOk : SpiChipOk B C chip pg}.

(** C22: The driver over SPI is the driver on the chip.  On a chip of any
    behaviour whose SPI transfers succeed, from the context that
    bme680_spi_probe allocates (page unknown): probe and every following
    session of calls answer their callers exactly what they would answer with
    the chip's 256 registers accessed directly, in whatever order the driver
    crosses the two pages; the driver's state and the chip end up the same,
    and the page cache is right.  With a transfer that fails this is lost
    ([spi_page_error_stale]). *)
Theorem spi_driver_session env qs d dev :
  BME680_SPI_MEM_PAGE_BIT = 16 ->
  Forall reachable_reg driver_regs ->
  let spi_run := driver_session (H1:=regmap_over spi_rd spi_wr) env qs
                   (Build_drv d (spi_probe_context dev) false) in
  let flat_run := driver_session (H1:=regmap_over flat_read flat_write) env qs
                    (Build_drv d (chip dev) false) in
  spi_run.2 = flat_run.2 /\
  data spi_run.1 = data flat_run.1 /\
  spi_rel chip pg (bus spi_run.1) (bus flat_run.1).
Proof.
  intros Hbit Hregs spi_run flat_run.
  assert (RegmapSim (R1:=regmap_over spi_rd spi_wr) (R2:=regmap_over flat_read flat_write)
    (spi_rel chip pg) reachable_reg) as RS.
  { eapply (regmap_sim_via (V1:=regmap_over_via _ _) (V2:=regmap_over_via _ _));
      intros; [by apply agree_spi_read|by apply agree_spi_write]. }
  destruct (driver_session_agree (RS:=RS) Hregs env qs
    (Build_drv d (spi_probe_context dev) false) (Build_drv d (chip dev) false)) as [E (Ed & Eb & _)].
  - split_and!; [done| |done]. split; [done|right]. cbn. lia.
  - split_and!; done.
Qed.
End session.

(** ** The entry points of bme680_spi.c *)

(** The SPI device: the core driver on its transport, what spi_set_drvdata
    stored, and bme680_spi_lock. *)
Record spi_dev (B : Type) := { spi_core : drv B; drvdata : option bme680_data; spi_locked : bool }.
Arguments Build_spi_dev {_} _ _ _.
Arguments spi_core {_} _.
Arguments drvdata {_} _.
Arguments spi_locked {_} _.

Section entry.
Context `{LinuxLib} `{Bme680Macros} {B : Type} `{Regmap B}.

Definition on_spi_core {A} (m : M (drv B) A) : M (spi_dev B) A := fun s =>
  let '(c, r) := m (spi_core s) in (Build_spi_dev c (drvdata s) (spi_locked s), r).

(** [kzalloc_ok] and [regmap_err] are the results of devm_kzalloc and
    devm_regmap_init. *)
Definition bme680_spi_probe (kzalloc_ok : bool) (regmap_err : option Z) (env : probe_env)
    : M (spi_dev B) unit :=
  if negb kzalloc_ok then throw (- ENOMEM) else
  match regmap_err with
  | Some e => throw e
  | None => on_spi_core (bme680_core_probe env)
  end.

Definition bme680_spi_remove (poll_thread : bool) : M (spi_dev B) unit :=
  on_spi_core (bme680_core_remove poll_thread).

Definition spi_mutex_lock : M (spi_dev B) unit := fun s =>
  if spi_locked s then (s, Stuck) else (Build_spi_dev (spi_core s) (drvdata s) true, Ok tt).
Definition spi_mutex_unlock : M (spi_dev B) unit := fun s =>
  (Build_spi_dev (spi_core s) (drvdata s) false, Ok tt).

(** bme680_core_suspend on what spi_get_drvdata returns; a NULL pointer stops
    the caller in the kernel. *)
Definition suspend_drvdata : M (spi_dev B) unit := fun s =>
  match drvdata s with
  | Some d => (s, if locked d then Stuck else Ok tt)
  | None => (s, Stuck)
  end.

Definition bme680_spi_suspend : M (spi_dev B) unit :=
  _ ← spi_mutex_lock; _ ← suspend_drvdata; spi_mutex_unlock.
Definition bme680_spi_resume : M (spi_dev B) unit := bme680_spi_suspend.

(** Nothing stores the driver's data in the device: after any probe, a suspend
    stops in the kernel with bme680_spi_lock held, and so does the resume after
    it; remove does not return, since no code starts the thread that it
    stops. *)
Theorem spi_suspend_stops kzalloc_ok regmap_err env c s r :
  bme680_spi_probe kzalloc_ok regmap_err env (Build_spi_dev c None false) = (s, r) ->
  exists s', bme680_spi_suspend s = (s', Stuck) /\ spi_locked s' = true /\
    spi_core s' = spi_core s /\ (bme680_spi_resume s').2 = Stuck /\
    (bme680_spi_remove false s).2 = Stuck.
Proof.
  intros E. assert (drvdata s = None /\ spi_locked s = false) as [Hd Hl].
  { unfold bme680_spi_probe, throw, on_spi_core in E. cbn in E.
    destruct kzalloc_ok, regmap_err; cbn in E; try by simplify_eq.
    by destruct (bme680_core_probe env c); simplify_eq. }
  destruct s as [c' dd l]. cbn in Hd, Hl. subst. eexists. split; [reflexivity|].
  split_and!; try reflexivity. unfold bme680_spi_remove, on_spi_core. cbn.
  unfold bme680_core_remove, mbind, M_bind, mutex_lock_i2c. by destruct (i2c_locked c').
Qed.
End entry.

(** ** A concrete chip, for the witness *)

(** A register file whose status register announces new data for the first
    [busy] reads; a read of it has this side effect. *)
Record toy_chip := { toy_regs : Z -> Z; busy : nat }.

#[local] Instance toy : Chip toy_chip := {|
  chip_read r c :=
    if r =? 0x1D then
      match busy c with
      | O => (c, 0)
      | S n => ({| toy_regs := toy_regs c; busy := n |}, 0x80)
      end
    else (c, cast U8 (toy_regs c r));
  chip_write r v c := {| toy_regs := set_reg r v (toy_regs c); busy := busy c |};
|}.

(** The same chip behind SPI, with its page. *)
Definition toy_spi : Type := toy_chip * bool.
Definition toy_pg (b : toy_spi) : Z := Z.b2z b.2.

#[local] Instance toy_dev : SpiDev toy_spi := {|
  spi_write_then_read tx n b :=
    let a := hd 0 tx in
    if 0x80 <=? a then
      let '(c, v) := chip_read (phys (toy_pg b) (a - 0x80)) b.1 in ((c, b.2), Ok [v])
    else if a =? BME680_REG_STATUS then ((b.1, false), Ok [0])
    else ((chip_write (phys (toy_pg b) a) 0 b.1, b.2), Ok [0]);
  spi_write bs b :=
    let a := hd 0 bs in let v := nth 1 bs 0 in
    if a =? BME680_REG_STATUS then ((b.1, Z.testbit v 4), Ok tt)
    else ((chip_write (phys (toy_pg b) a) v b.1,
           if phys (toy_pg b) a =? BME680_REG_SOFT_RESET then false else b.2), Ok tt);
|}.

Lemma toy_spi_ok : SpiChipOk toy_spi toy_chip fst toy_pg.
Proof.
  constructor.
  - intros [c []]; [by right|by left].
  - intros b a Ha Hs. unfold spi_write_then_read, toy_dev. cbn [hd].
    replace (0x80 <=? 0x80 + a) with true by lia. replace (0x80 + a - 0x80) with a by lia.
    destruct (chip_read (phys (toy_pg b) a) b.1) as [c v]. by eexists.
  - intros b a v Ha Hs Hv. unfold spi_write, toy_dev. cbn [hd nth].
    rewrite (proj2 (Z.eqb_neq _ _) Hs). eexists. split; [reflexivity|]. split; [done|].
    unfold toy_pg at 1. cbn [snd]. by destruct (_ =? _).
  - intros b v. eexists. by split.
  - intros b. eexists _, 0. by split.
Qed.

#[local] Existing Instance linux_ref.
#[local] Existing Instance macros_ref.
#[local] Existing Instance toy_spi_ok.

Definition toy_ex : toy_spi :=
  ({| toy_regs := fun r => if r =? 0xD0 then 0x61 else regs chip_ex r; busy := 0 |}, true).

Lemma spi_driver_session_witness :
  (driver_session (H1:=regmap_over spi_rd spi_wr) env_ex [ReadRaw IIO_TEMP IIO_CHAN_INFO_PROCESSED; Trigger]
     (Build_drv data_zero (spi_probe_context toy_ex) false)).2 =
    (Ok tt, [RVal (Ok (IIO_VAL_INT_PLUS_MICRO 261 600000)); RPushed (Ok (Some 2616))]).
Proof.
  etrans; [apply (spi_driver_session (L:=linux_ref) (BM:=macros_ref) (chip:=fst) (pg:=toy_pg));
    [reflexivity|repeat constructor; vm_compute; congruence]|].
  vm_compute. reflexivity.
Defined.
