(* ===== verification/CondMonitor.v ===== *)
(** * CondMonitor: threads that share a mutex and condition variables

    The synchronisation objects of the library (rwlock.c, fifo_semaphore.c,
    barrier.c, event_pair.c, monitor.c) are monitors: an operation takes the
    mutex, runs to its end or to a wait on a condition variable, and releases
    the mutex there.  A [Program] gives that code by program points: [code i p
    ret s] is what thread [i] does from point [p], holding the mutex, in shared
    state [s], when the wait that led to [p] (if any) returned [ret].  Since a
    stretch of code runs with the mutex held it is one step.

    [exec_event] is the semantics, executable: a thread calls an operation,
    runs one stretch, or has its wait return by itself (a timeout, an error,
    or a spurious wake-up).  A signal wakes one of the waiting threads, which
    one is chosen by the event; a broadcast wakes all of them.  [hist] records
    the results returned.  [reachable_inv] is the invariant rule, and
    [step_cases] the case analysis that the components' proofs start from. *)

From S2P Require Import Prelude.

(** What a stretch of code asks of the condition variables. *)
Inductive signal := NoSignal | Signal (cv : nat) | Broadcast (cv : nat).

(** How a stretch of code ends: it returns [r]; goes on at point [p], the
    mutex having been free in between; waits on [cv], to go on at [p]; or never
    ends. *)
Inductive outcome (S P : Type) :=
| Return (s : S) (sg : signal) (r : Z)
| Goto (s : S) (sg : signal) (p : P)
| Wait (s : S) (p : P) (cv : nat)
| Hang.
Arguments Return {_ _} _ _ _.
Arguments Goto {_ _} _ _ _.
Arguments Wait {_ _} _ _ _.
Arguments Hang {_ _}.

Inductive status (P : Type) :=
| Idle
| Ready (p : P) (ret : Z)
| Waiting (p : P) (cv : nat)
| Hung.
Arguments Idle {_}.
Arguments Ready {_} _ _.
Arguments Waiting {_} _ _.
Arguments Hung {_}.

(** The code, and the client's protocol: [G] is what the client of a thread
    knows ([on_return] updates it), [may_call] which operations it may then
    call, and [wake_ok p r] whether the wait leading to [p] may return [r] by
    itself. *)
Class Program (S P G : Type) := {
  code : nat -> P -> Z -> S -> outcome S P;
  on_return : P -> Z -> G -> G;
  may_call : G -> P -> bool;
  wake_ok : P -> Z -> bool;
}.

Inductive event (P : Type) :=
| Call (i : nat) (p : P)
| Run (i pick : nat)
| Wake (i : nat) (ret : Z).
Arguments Call {_} _ _.
Arguments Run {_} _ _.
Arguments Wake {_} _ _.

Abbreviation thread P G := (status P * G)%type (only parsing).

Section semantics.
Context {S P G : Type} `{Program S P G}.

Record config := {
  shared : S;
  threads : list (thread P G);
  hist : list (nat * P * Z);
}.

Definition waits_on (cv : nat) (t : thread P G) : bool :=
  match t.1 with Waiting _ cv' => (cv' =? cv)%nat | _ => false end.

Definition wake (t : thread P G) : thread P G :=
  match t with (Waiting p _, g) => (Ready p 0, g) | _ => t end.

Definition deliver (sg : signal) (pick : nat) (ts : list (thread P G)) : option (list (thread P G)) :=
  match sg with
  | NoSignal => Some ts
  | Broadcast cv => Some (map (fun t => if waits_on cv t then wake t else t) ts)
  | Signal cv =>
      match ts !! pick with
      | Some t =>
          if waits_on cv t then Some (<[pick := wake t]> ts)
          else if count_if (waits_on cv) ts =? 0 then Some ts else None
      | None => if count_if (waits_on cv) ts =? 0 then Some ts else None
      end
  end.

Definition exec_event (c : config) (e : event P) : option config :=
  match e with
  | Call i p =>
      match threads c !! i with
      | Some (Idle, g) =>
          if may_call g p
          then Some {| shared := shared c; threads := <[i := (Ready p 0, g)]> (threads c);
                       hist := hist c |}
          else None
      | _ => None
      end
  | Wake i ret =>
      match threads c !! i with
      | Some (Waiting p cv, g) =>
          if wake_ok p ret
          then Some {| shared := shared c; threads := <[i := (Ready p ret, g)]> (threads c);
                       hist := hist c |}
          else None
      | _ => None
      end
  | Run i pick =>
      match threads c !! i with
      | Some (Ready p ret, g) =>
          match code i p ret (shared c) with
          | Return s sg r =>
              ts ← deliver sg pick (<[i := (Idle, on_return p r g)]> (threads c));
              Some {| shared := s; threads := ts; hist := (i, p, r) :: hist c |}
          | Goto s sg p' =>
              ts ← deliver sg pick (<[i := (Ready p' 0, g)]> (threads c));
              Some {| shared := s; threads := ts; hist := hist c |}
          | Wait s p' cv =>
              Some {| shared := s; threads := <[i := (Waiting p' cv, g)]> (threads c);
                      hist := hist c |}
          | Hang =>
              Some {| shared := shared c; threads := <[i := (Hung, g)]> (threads c);
                      hist := hist c |}
          end
      | _ => None
      end
  end.

Fixpoint run (c : config) (es : list (event P)) : option config :=
  match es with
  | [] => Some c
  | e :: es => c' ← exec_event c e; run c' es
  end.

(** The configurations that threads with the given initial knowledge can
    reach from a shared state, through events allowed by [ok]. *)
Definition start (s : S) (gs : list G) : config :=
  {| shared := s; threads := map (fun g => (Idle, g)) gs; hist := [] |}.

Definition reachable (ok : event P -> bool) (c0 c : config) : Prop :=
  exists es, forallb ok es = true /\ run c0 es = Some c.

(** The events of an arbitrary environment, and of one whose waits do not
    return by themselves. *)
Definition any (e : event P) : bool := true.
Definition no_wake (e : event P) : bool :=
  match e with Wake _ _ => false | _ => true end.

(** ** The invariant rule *)

Lemma reachable_inv (I : config -> Prop) ok c0 :
  I c0 ->
  (forall c e c', ok e = true -> I c -> exec_event c e = Some c' -> I c') ->
  forall c, reachable ok c0 c -> I c.
Proof.
  intros H0 Hstep c (es & Hok & Hrun). revert c0 H0 Hrun.
  induction es as [|e es IH]; intros c0 H0 Hrun; simpl in *; [by simplify_eq|].
  apply andb_prop in Hok as [He Hok]. apply bind_Some in Hrun as (c1 & E & Hrun).
  apply (IH Hok c1); [|done]. by eapply Hstep.
Qed.

(** ** Delivery *)

Lemma deliver_length sg pick ts ts' :
  deliver sg pick ts = Some ts' -> length ts' = length ts.
Proof.
  destruct sg as [|cv|cv]; simpl; intros E; simplify_eq; [done| |by rewrite length_map].
  repeat case_match; simplify_eq; rewrite ?length_insert; done.
Qed.

(** Every thread is either as before, or was woken from its wait. *)
Lemma deliver_lookup sg pick ts ts' j t' :
  deliver sg pick ts = Some ts' -> ts' !! j = Some t' ->
  exists t, ts !! j = Some t /\
    (t' = t \/ exists p cv g, t = (Waiting p cv, g) /\ t' = (Ready p 0, g) /\
                              (sg = Signal cv \/ sg = Broadcast cv)).
Proof.
  destruct sg as [|cv|cv]; simpl; intros E Hj; simplify_eq; [by eauto| |].
  - destruct (ts !! pick) as [t|] eqn:Ht; [|by case_match; simplify_eq; eauto].
    destruct (waits_on cv t) eqn:Hw; [|by case_match; simplify_eq; eauto].
    simplify_eq. apply list_lookup_insert_case in Hj as [(-> & -> & _)|(_ & Hj)]; [|by eauto].
    exists t. split; [done|]. destruct t as [[|p r|p cv'|] g]; simplify_eq/=.
    apply Nat.eqb_eq in Hw as ->. right. eauto 10.
  - rewrite list_lookup_fmap in Hj. destruct (ts !! j) as [t|]; simplify_eq/=.
    exists t. split; [done|]. destruct (waits_on cv t) eqn:Hw; [|by left].
    destruct t as [[|p r|p cv'|] g]; simplify_eq/=.
    apply Nat.eqb_eq in Hw as ->. right. eauto 10.
Qed.

(** A test that does not tell a waiting thread from one just woken. *)
Definition wake_stable (f : thread P G -> bool) : Prop := forall t, f (wake t) = f t.

Lemma deliver_count f sg pick ts ts' :
  wake_stable f -> deliver sg pick ts = Some ts' -> count_if f ts' = count_if f ts.
Proof.
  intros Hf E. destruct sg as [|cv|cv]; simpl in E; simplify_eq; [done| |].
  - destruct (ts !! pick) as [t|] eqn:Ht; [|by case_match; simplify_eq].
    destruct (waits_on cv t) eqn:Hw; [|by case_match; simplify_eq].
    simplify_eq. rewrite (count_if_insert _ _ _ _ _ Ht), Hf. lia.
  - apply count_if_map. intros t. by destruct (waits_on cv t); rewrite ?Hf.
Qed.

(** How a test moves when a thread's status goes from [t] to [t']. *)
Definition delta (f : thread P G -> bool) (t t' : thread P G) : Z :=
  Z.b2z (f t') - Z.b2z (f t).

Lemma count_insert_delta f (ts : list (thread P G)) i t t' :
  ts !! i = Some t -> count_if f (<[i := t']> ts) = count_if f ts + delta f t t'.
Proof. intros Hi. rewrite (count_if_insert _ _ _ _ _ Hi). unfold delta. lia. Qed.

(** What the step of one thread does to a wake-stable count. *)
Lemma deliver_delta f sg pick ts ts' i t t' :
  wake_stable f -> ts !! i = Some t ->
  deliver sg pick (<[i := t']> ts) = Some ts' ->
  count_if f ts' = count_if f ts + delta f t t'.
Proof.
  intros Hf Hi Hd. rewrite (deliver_count _ _ _ _ _ Hf Hd). by apply count_insert_delta.
Qed.

(** Delivery only moves threads from waiting to ready. *)
Lemma deliver_mono f sg pick ts ts' :
  (forall p cv g, f (Waiting p cv, g) = true -> f (Ready p 0, g) = true) ->
  deliver sg pick ts = Some ts' -> count_if f ts <= count_if f ts'.
Proof.
  intros Hf E.
  assert (forall t, f t = true -> f (wake t) = true) as Hw by (intros [[| | |] ?]; simpl; eauto).
  destruct sg as [|cv|cv]; simpl in E; simplify_eq; [lia| |].
  - destruct (ts !! pick) as [t|] eqn:Ht; [|by case_match; simplify_eq].
    destruct (waits_on cv t); [|by case_match; simplify_eq].
    simplify_eq. rewrite (count_if_insert _ _ _ _ _ Ht). specialize (Hw t).
    destruct (f t); [rewrite Hw by done|destruct (f (wake t))]; simpl; lia.
  - clear Hf. induction ts as [|t ts IH]; simpl; [lia|]. specialize (Hw t).
    destruct (waits_on cv t), (f t); rewrite ?Hw by done; destruct (f (wake t)); simpl in *; lia.
Qed.

Lemma deliver_anti f sg pick ts ts' :
  (forall p cv g, f (Ready p 0, g) = true -> f (Waiting p cv, g) = true) ->
  deliver sg pick ts = Some ts' -> count_if f ts' <= count_if f ts.
Proof.
  intros Hf E.
  assert (forall t, f (wake t) = true -> f t = true) as Hw by (intros [[| | |] ?]; simpl; eauto).
  destruct sg as [|cv|cv]; simpl in E; simplify_eq; [lia| |].
  - destruct (ts !! pick) as [t|] eqn:Ht; [|by case_match; simplify_eq].
    destruct (waits_on cv t); [|by case_match; simplify_eq].
    simplify_eq. rewrite (count_if_insert _ _ _ _ _ Ht). specialize (Hw t).
    destruct (f (wake t)); [rewrite Hw by done|destruct (f t)]; simpl; lia.
  - clear Hf. induction ts as [|t ts IH]; simpl; [lia|]. specialize (Hw t).
    destruct (waits_on cv t), (f (wake t)); rewrite ?Hw by done; destruct (f t); simpl in *; lia.
Qed.

(** A signal to a condition variable with waiters wakes exactly one of them. *)
Lemma deliver_signal cv pick ts ts' :
  deliver (Signal cv) pick ts = Some ts' ->
  (count_if (waits_on cv) ts = 0 /\ ts' = ts) \/
  exists p g, ts !! pick = Some (Waiting p cv, g) /\ ts' = <[pick := (Ready p 0, g)]> ts.
Proof.
  simpl. intros E. destruct (ts !! pick) as [t|] eqn:Ht; [|case_match; simplify_eq; left; split; [lia|done]].
  destruct (waits_on cv t) eqn:Hw; [|case_match; simplify_eq; left; split; [lia|done]].
  simplify_eq. destruct t as [[|p r|p cv'|] g]; simplify_eq/=.
  apply Nat.eqb_eq in Hw as ->. right. eauto.
Qed.

(** Delivery does not move the thread that sent the signal. *)
Lemma deliver_self sg pick ts ts' i t t' :
  ts !! i = Some t -> (forall p cv, t'.1 <> Waiting p cv) ->
  deliver sg pick (<[i := t']> ts) = Some ts' -> ts' !! i = Some t'.
Proof.
  intros Hi Hw Hd. pose proof (lookup_lt_Some _ _ _ Hi) as Hlt.
  destruct (lookup_lt_is_Some_2 ts' i) as [x Hx].
  { by rewrite (deliver_length _ _ _ _ Hd), length_insert. }
  destruct (deliver_lookup _ _ _ _ _ _ Hd Hx) as (t0 & Ht0 & Hcase).
  rewrite list_lookup_insert_eq in Ht0 by done. injection Ht0 as <-.
  destruct Hcase as [->|(p & cv & g & -> & _)]; [done|]. by destruct (Hw p cv).
Qed.

(** *** Somebody is coming

    [cv]'s sleepers go on at [wp]; [rdy] are the threads that have been woken
    there and will re-examine the condition.  When a step adds no sleeper and
    removes no such thread, or signals [cv], a sleeper still implies one. *)

Definition sleep_at (cv : nat) (wp : P) (t : thread P G) : Prop :=
  match t.1 with Waiting p cv' => cv' = cv -> p = wp | _ => True end.

Lemma coming_deliver cv (rdy : thread P G -> bool) sg pick ts ts' i t t' :
  (forall p cv' g, rdy (Waiting p cv', g) = false) -> ts !! i = Some t ->
  deliver sg pick (<[i := t']> ts) = Some ts' ->
  delta (waits_on cv) t t' <= 0 -> 0 <= delta rdy t t' ->
  (0 < count_if (waits_on cv) ts -> 0 < count_if rdy ts) ->
  0 < count_if (waits_on cv) ts' -> 0 < count_if rdy ts'.
Proof.
  intros Hrdy Hi Hd Hw Hk H0 Hpos.
  apply deliver_anti with (f := waits_on cv) in Hd as Hanti; [|done].
  apply deliver_mono with (f := rdy) in Hd as Hmono; [|intros; by rewrite Hrdy in *].
  rewrite (count_insert_delta _ _ _ _ _ Hi) in Hanti.
  rewrite (count_insert_delta _ _ _ _ _ Hi) in Hmono. lia.
Qed.

Lemma coming_signal cv wp (rdy : thread P G -> bool) pick ts ts' :
  (forall g, rdy (Ready wp 0, g) = true) ->
  Forall (sleep_at cv wp) ts -> deliver (Signal cv) pick ts = Some ts' ->
  0 < count_if (waits_on cv) ts' -> 0 < count_if rdy ts'.
Proof.
  intros Hrdy Hok Hd Hpos. apply deliver_signal in Hd as [[H0 ->]|(p & g & Hp & ->)]; [lia|].
  pose proof (Forall_lookup_1 _ _ _ _ Hok Hp eq_refl) as ->.
  apply Z.lt_le_trans with 1; [done|].
  eapply (count_if_lookup _ _ pick (Ready wp 0, g)); [|done].
  apply list_lookup_insert_eq. by eapply lookup_lt_Some.
Qed.

Lemma deliver_sleep_at cv wp sg pick ts ts' :
  deliver sg pick ts = Some ts' -> Forall (sleep_at cv wp) ts -> Forall (sleep_at cv wp) ts'.
Proof.
  intros Hd Hts. apply Forall_lookup. intros j t' Hj.
  destruct (deliver_lookup _ _ _ _ _ _ Hd Hj) as (t & Ht & [->|(q & cv' & g & -> & -> & _)]); [|done].
  by apply (Forall_lookup_1 _ _ _ _ Hts Ht).
Qed.

(** ** Case analysis of a step *)

(** The thread that moves, the status it gets, and who else is woken. *)
Inductive step (c c' : config) : event P -> Prop :=
| step_call i p g :
    threads c !! i = Some (Idle, g) -> may_call g p = true ->
    shared c' = shared c -> hist c' = hist c ->
    threads c' = <[i := (Ready p 0, g)]> (threads c) ->
    step c c' (Call i p)
| step_wake i p cv ret g :
    threads c !! i = Some (Waiting p cv, g) -> wake_ok p ret = true ->
    shared c' = shared c -> hist c' = hist c ->
    threads c' = <[i := (Ready p ret, g)]> (threads c) ->
    step c c' (Wake i ret)
| step_return i pick p ret g s sg r :
    threads c !! i = Some (Ready p ret, g) ->
    code i p ret (shared c) = Return s sg r ->
    shared c' = s -> hist c' = (i, p, r) :: hist c ->
    deliver sg pick (<[i := (Idle, on_return p r g)]> (threads c)) = Some (threads c') ->
    step c c' (Run i pick)
| step_goto i pick p ret g s sg p' :
    threads c !! i = Some (Ready p ret, g) ->
    code i p ret (shared c) = Goto s sg p' ->
    shared c' = s -> hist c' = hist c ->
    deliver sg pick (<[i := (Ready p' 0, g)]> (threads c)) = Some (threads c') ->
    step c c' (Run i pick)
| step_wait i pick p ret g s p' cv :
    threads c !! i = Some (Ready p ret, g) ->
    code i p ret (shared c) = Wait s p' cv ->
    shared c' = s -> hist c' = hist c ->
    threads c' = <[i := (Waiting p' cv, g)]> (threads c) ->
    step c c' (Run i pick)
| step_hang i pick p ret g :
    threads c !! i = Some (Ready p ret, g) ->
    code i p ret (shared c) = Hang ->
    shared c' = shared c -> hist c' = hist c ->
    threads c' = <[i := (Hung, g)]> (threads c) ->
    step c c' (Run i pick).

Lemma step_cases c e c' : exec_event c e = Some c' -> step c c' e.
Proof.
  destruct e as [i p|i pick|i ret]; simpl; intros E.
  - destruct (threads c !! i) as [[[|q r|q cv|] g]|] eqn:Hi; try done.
    destruct (may_call g p) eqn:Hm; simplify_eq. by econstructor.
  - destruct (threads c !! i) as [[[|q r|q cv|] g]|] eqn:Hi; try done.
    destruct (code i q r (shared c)) as [s sg x|s sg p'|s p' cv|] eqn:Hc.
    + apply bind_Some in E as (ts & Hd & E). simplify_eq. by eapply step_return.
    + apply bind_Some in E as (ts & Hd & E). simplify_eq. by eapply step_goto.
    + simplify_eq. by eapply step_wait.
    + simplify_eq. by eapply step_hang.
  - destruct (threads c !! i) as [[[|q r|q cv|] g]|] eqn:Hi; try done.
    destruct (wake_ok q ret) eqn:Hm; simplify_eq. by econstructor.
Qed.

Lemma step_length c e c' :
  exec_event c e = Some c' -> length (threads c') = length (threads c).
Proof.
  intros E. apply step_cases in E. destruct E as
    [????? ? ? ->|?????? ? ? ? ->|???????????? Hd|???????????? Hd
    |???????????? ->|????????? ->]; rewrite ?length_insert; try done.
  all: apply deliver_length in Hd; by rewrite length_insert in Hd.
Qed.

End semantics.

Lemma start_threads {S P G} (s : S) n (g : G) :
  threads (start (P:=P) s (replicate n g)) = replicate n (Idle, g).
Proof. unfold start; simpl. induction n as [|n IH]; simpl; congruence. Qed.

Arguments config S P G : clear implicits.
Arguments start {S P G} _ _.

