(* ===== verification/Rwlock.v ===== *)
(** * Rwlock: the writer-preferring read-write lock (rwlock.c)

    [struct rwlock] is the record of its four counters; the mutex and the two
    condition variables are those of CondMonitor.  Each operation is the code
    from one program point: [rwlock_rdlock] and [rwlock_wrlock] up to their
    first wait, [rdlock_resume] and [wrlock_resume] from a return of
    pthread_cond_timedwait, and [rwlock_unlock].  Clients take the lock before
    they release it and hold it once ([hold]).  The theorems: the lock excludes
    and its counters are the numbers of threads they stand for; it never
    reports an invalid state; a free lock with a waiting writer always has a
    writer about to run; and a writer that times out can leave readers asleep
    although nothing keeps them out. *)

From S2P Require Import Prelude CondMonitor.

Definition MAX_WAITING_READERS : Z := 10.
Definition MAX_WAITING_WRITERS : Z := 5.

Record rwlock := {
  active_readers : Z;
  active_writers : Z;
  waiting_readers : Z;
  waiting_writers : Z;
}.

(** The condition variables. *)
Definition readers_proceed : nat := 0.
Definition writer_proceed : nat := 1.

Inductive rw_point := RdLock | RdWait | WrLock | WrWait | Unlock.

Definition rwlock_init : rwlock := Build_rwlock 0 0 0 0.

Definition add_waiting_readers (n : Z) (rw : rwlock) : rwlock :=
  Build_rwlock (active_readers rw) (active_writers rw) (waiting_readers rw + n) (waiting_writers rw).
Definition add_waiting_writers (n : Z) (rw : rwlock) : rwlock :=
  Build_rwlock (active_readers rw) (active_writers rw) (waiting_readers rw) (waiting_writers rw + n).
Definition add_active_readers (n : Z) (rw : rwlock) : rwlock :=
  Build_rwlock (active_readers rw + n) (active_writers rw) (waiting_readers rw) (waiting_writers rw).
Definition add_active_writers (n : Z) (rw : rwlock) : rwlock :=
  Build_rwlock (active_readers rw) (active_writers rw + n) (waiting_readers rw) (waiting_writers rw).

Definition invalid_state (rw : rwlock) : bool :=
  (active_readers rw <? 0) || (active_writers rw <? 0).

Definition rw_outcome := outcome rwlock rw_point.

(** The while loop of rwlock_rdlock, and what follows it. *)
Definition rdlock_loop (rw : rwlock) : rw_outcome :=
  if negb (active_writers rw =? 0) || negb (waiting_writers rw =? 0)
  then Wait rw RdWait readers_proceed
  else
    let rw := add_active_readers 1 (add_waiting_readers (-1) rw) in
    if invalid_state rw then Return rw NoSignal (- EINVAL) else Return rw NoSignal 0.

Definition rwlock_rdlock (rw : rwlock) : rw_outcome :=
  if waiting_readers rw >=? MAX_WAITING_READERS then Return rw NoSignal (- EAGAIN)
  else rdlock_loop (add_waiting_readers 1 rw).

Definition rdlock_resume (ret : Z) (rw : rwlock) : rw_outcome :=
  if ret =? ETIMEDOUT then Return (add_waiting_readers (-1) rw) NoSignal (- ETIMEDOUT)
  else if negb (ret =? 0) then Return (add_waiting_readers (-1) rw) NoSignal ret
  else rdlock_loop rw.

Definition wrlock_loop (rw : rwlock) : rw_outcome :=
  if negb (active_readers rw =? 0) || negb (active_writers rw =? 0)
  then Wait rw WrWait writer_proceed
  else
    let rw := add_active_writers 1 (add_waiting_writers (-1) rw) in
    if invalid_state rw then Return rw NoSignal (- EINVAL) else Return rw NoSignal 0.

Definition rwlock_wrlock (rw : rwlock) : rw_outcome :=
  if waiting_writers rw >=? MAX_WAITING_WRITERS then Return rw NoSignal (- EAGAIN)
  else wrlock_loop (add_waiting_writers 1 rw).

Definition wrlock_resume (ret : Z) (rw : rwlock) : rw_outcome :=
  if ret =? ETIMEDOUT then Return (add_waiting_writers (-1) rw) NoSignal (- ETIMEDOUT)
  else if negb (ret =? 0) then Return (add_waiting_writers (-1) rw) NoSignal ret
  else wrlock_loop rw.

Definition rwlock_unlock (rw : rwlock) : rw_outcome :=
  let finish rw sg :=
    if invalid_state rw then Return rw sg (- EINVAL) else Return rw sg 0 in
  if negb (active_writers rw =? 0) then
    let rw := add_active_writers (-1) rw in
    if negb (waiting_writers rw =? 0) then finish rw (Signal writer_proceed)
    else finish rw (Broadcast readers_proceed)
  else if negb (active_readers rw =? 0) then
    let rw := add_active_readers (-1) rw in
    if (active_readers rw =? 0) && negb (waiting_writers rw =? 0)
    then finish rw (Signal writer_proceed)
    else finish rw NoSignal
  else Return rw NoSignal (- EPERM).

Definition rw_code (_ : nat) (p : rw_point) (ret : Z) (rw : rwlock) : rw_outcome :=
  match p with
  | RdLock => rwlock_rdlock rw
  | RdWait => rdlock_resume ret rw
  | WrLock => rwlock_wrlock rw
  | WrWait => wrlock_resume ret rw
  | Unlock => rwlock_unlock rw
  end.

(** ** Clients *)

Inductive hold := NoHold | RdHold | WrHold.

#[export] Instance rw_program : Program rwlock rw_point hold := {|
  code := rw_code;
  on_return p r g :=
    if r =? 0 then
      match p with
      | RdLock | RdWait => RdHold
      | WrLock | WrWait => WrHold
      | Unlock => NoHold
      end
    else g;
  may_call g p :=
    match g, p with
    | NoHold, (RdLock | WrLock) => true
    | (RdHold | WrHold), Unlock => true
    | _, _ => false
    end;
  wake_ok p r := 0 <=? r;
|}.


Definition is_rd (t : thread rw_point hold) : bool := match t.2 with RdHold => true | _ => false end.
Definition is_wr (t : thread rw_point hold) : bool := match t.2 with WrHold => true | _ => false end.
Definition at_point (q : rw_point -> bool) (t : thread rw_point hold) : bool :=
  match t.1 with Ready p _ | Waiting p _ => q p | _ => false end.
Definition at_rd : thread rw_point hold -> bool :=
  at_point (fun p => match p with RdWait => true | _ => false end).
Definition at_wr : thread rw_point hold -> bool :=
  at_point (fun p => match p with WrWait => true | _ => false end).

(** Where a thread can be, given what it holds. *)
Definition thread_ok (t : thread rw_point hold) : Prop :=
  match t with
  | (Idle, _) => True
  | (Ready p ret, g) => 0 <= ret /\ (p = Unlock <-> g <> NoHold)
  | (Waiting p cv, g) =>
      g = NoHold /\ (p = RdWait /\ cv = readers_proceed \/ p = WrWait /\ cv = writer_proceed)
  | (Hung, _) => False
  end.

(** The lock's invariant: every counter is the number of threads it stands
    for, the bounds on waiters, and exclusion. *)
Record rw_inv (c : config rwlock rw_point hold) : Prop := {
  inv_threads : Forall thread_ok (threads c);
  inv_ar : active_readers (shared c) = count_if is_rd (threads c);
  inv_aw : active_writers (shared c) = count_if is_wr (threads c);
  inv_wr : waiting_readers (shared c) = count_if at_rd (threads c);
  inv_ww : waiting_writers (shared c) = count_if at_wr (threads c);
  inv_wr_max : waiting_readers (shared c) <= MAX_WAITING_READERS;
  inv_ww_max : waiting_writers (shared c) <= MAX_WAITING_WRITERS;
  inv_one_writer : active_writers (shared c) <= 1;
  inv_excl : active_writers (shared c) = 0 \/ active_readers (shared c) = 0;
}.

(** ** Lemmas *)

Lemma is_rd_stable : wake_stable is_rd. Proof. by intros [[| | |] ?]. Qed.
Lemma is_wr_stable : wake_stable is_wr. Proof. by intros [[| | |] ?]. Qed.
Lemma at_rd_stable : wake_stable at_rd. Proof. by intros [[| | |] ?]. Qed.
Lemma at_wr_stable : wake_stable at_wr. Proof. by intros [[| | |] ?]. Qed.

Lemma deliver_thread_ok sg pick ts ts' :
  deliver sg pick ts = Some ts' -> Forall thread_ok ts -> Forall thread_ok ts'.
Proof.
  intros Hd Hts. apply Forall_lookup. intros j t' Hj.
  destruct (deliver_lookup _ _ _ _ _ _ Hd Hj) as (t & Ht & Hcase).
  rewrite Forall_lookup in Hts. specialize (Hts _ _ Ht).
  destruct Hcase as [->|(p & cv & g & -> & -> & _)]; [done|].
  destruct Hts as [-> [[-> _]|[-> _]]]; simpl; naive_solver.
Qed.

(** What the step of thread [i] does to the counts, from its old and new
    status. *)
Lemma rw_counts (c : config rwlock rw_point hold) i t t' sg pick ts :
  threads c !! i = Some t ->
  deliver sg pick (<[i := t']> (threads c)) = Some ts ->
  count_if is_rd ts = count_if is_rd (threads c) + delta is_rd t t' /\
  count_if is_wr ts = count_if is_wr (threads c) + delta is_wr t t' /\
  count_if at_rd ts = count_if at_rd (threads c) + delta at_rd t t' /\
  count_if at_wr ts = count_if at_wr (threads c) + delta at_wr t t'.
Proof.
  intros Hi Hd.
  split_and!; eapply deliver_delta; eauto using is_rd_stable, is_wr_stable, at_rd_stable, at_wr_stable.
Qed.

(** Every step replaces one thread and delivers a signal (perhaps none). *)
Lemma rw_inv_update (c c' : config rwlock rw_point hold) i t t' sg pick :
  rw_inv c -> threads c !! i = Some t -> thread_ok t' ->
  deliver sg pick (<[i := t']> (threads c)) = Some (threads c') ->
  active_readers (shared c') = active_readers (shared c) + delta is_rd t t' ->
  active_writers (shared c') = active_writers (shared c) + delta is_wr t t' ->
  waiting_readers (shared c') = waiting_readers (shared c) + delta at_rd t t' ->
  waiting_writers (shared c') = waiting_writers (shared c) + delta at_wr t t' ->
  waiting_readers (shared c') <= MAX_WAITING_READERS ->
  waiting_writers (shared c') <= MAX_WAITING_WRITERS ->
  active_writers (shared c') <= 1 ->
  active_writers (shared c') = 0 \/ active_readers (shared c') = 0 ->
  rw_inv c'.
Proof.
  intros [] Hi Ht' Hd E1 E2 E3 E4 ? ? ? ?.
  destruct (rw_counts _ _ _ _ _ _ _ Hi Hd) as (C1 & C2 & C3 & C4).
  constructor; try assumption.
  2: by rewrite E1, C1, inv_ar0. 2: by rewrite E2, C2, inv_aw0.
  2: by rewrite E3, C3, inv_wr0. 2: by rewrite E4, C4, inv_ww0.
  eapply deliver_thread_ok; [done|]. by apply Forall_insert.
Qed.

(** The invariant's numbers for one thread, as linear facts. *)
Lemma rw_inv_thread (c : config rwlock rw_point hold) i t :
  rw_inv c -> threads c !! i = Some t ->
  thread_ok t /\
  0 <= active_readers (shared c) - Z.b2z (is_rd t) /\
  0 <= active_writers (shared c) - Z.b2z (is_wr t) /\
  0 <= waiting_readers (shared c) - Z.b2z (at_rd t) /\
  0 <= waiting_writers (shared c) - Z.b2z (at_wr t).
Proof.
  intros [] Hi. split; [by eapply (Forall_lookup_1 _ _ _ _ inv_threads0)|].
  rewrite inv_ar0, inv_aw0, inv_wr0, inv_ww0.
  assert (forall f, 0 <= count_if f (threads c) - Z.b2z (f t)) as Hf; [|by auto].
  intros f. destruct (f t) eqn:Hft; simpl.
  - pose proof (count_if_lookup f _ _ _ Hi Hft). lia.
  - pose proof (count_if_nonneg f (threads c)). lia.
Qed.

(** The effect of a stretch of code on the counters, for the status [t'] that
    its outcome gives the thread. *)
Definition next_thread (o : rw_outcome) (p : rw_point) (g : hold) : thread rw_point hold :=
  match o with
  | Return _ _ r => (Idle, on_return p r g)
  | Goto _ _ p' => (Ready p' 0, g)
  | Wait _ p' cv => (Waiting p' cv, g)
  | Hang => (Hung, g)
  end.
Definition next_shared (o : rw_outcome) (rw : rwlock) : rwlock :=
  match o with Return s _ _ | Goto s _ _ | Wait s _ _ => s | Hang => rw end.

(** One stretch of code, from numbers that satisfy the invariant: the
    counters move with the thread, the bounds and exclusion hold again, and a
    result is success, -EAGAIN, -ETIMEDOUT or the error of the wait. *)
Lemma rw_code_ok i p ret g rw :
  let t := (Ready p ret, g) in
  let o := rw_code i p ret rw in
  let t' := next_thread o p g in
  let rw' := next_shared o rw in
  thread_ok t ->
  0 <= active_readers rw - Z.b2z (is_rd t) -> 0 <= active_writers rw - Z.b2z (is_wr t) ->
  0 <= waiting_readers rw - Z.b2z (at_rd t) -> 0 <= waiting_writers rw - Z.b2z (at_wr t) ->
  waiting_readers rw <= MAX_WAITING_READERS -> waiting_writers rw <= MAX_WAITING_WRITERS ->
  active_writers rw <= 1 -> active_writers rw = 0 \/ active_readers rw = 0 ->
  thread_ok t' /\
  active_readers rw' = active_readers rw + delta is_rd t t' /\
  active_writers rw' = active_writers rw + delta is_wr t t' /\
  waiting_readers rw' = waiting_readers rw + delta at_rd t t' /\
  waiting_writers rw' = waiting_writers rw + delta at_wr t t' /\
  waiting_readers rw' <= MAX_WAITING_READERS /\ waiting_writers rw' <= MAX_WAITING_WRITERS /\
  active_writers rw' <= 1 /\ (active_writers rw' = 0 \/ active_readers rw' = 0) /\
  match o with
  | Return _ _ r => r = 0 \/ r = - EAGAIN \/ r = - ETIMEDOUT \/ 0 < r
  | Wait _ _ _ => True
  | _ => False
  end.
Proof.
  destruct rw as [ar aw wr ww].
  unfold MAX_WAITING_READERS, MAX_WAITING_WRITERS.
  cbv zeta. intros [Hret Hok]. unfold delta.
  destruct p, g; destruct Hok as [H1 H2]; try (by discriminate H2);
    try (by destruct (H1 eq_refl)); clear H1 H2;
    cbn [is_rd is_wr at_rd at_wr at_point fst snd Z.b2z active_readers active_writers
         waiting_readers waiting_writers]; intros.
  all: cbn [rw_code]; unfold rwlock_rdlock, rdlock_resume, rwlock_wrlock, wrlock_resume,
         rwlock_unlock, rdlock_loop, wrlock_loop, invalid_state, MAX_WAITING_READERS,
         MAX_WAITING_WRITERS, add_waiting_readers, add_waiting_writers, add_active_readers,
         add_active_writers.
  all: cbn [active_readers active_writers waiting_readers waiting_writers].
  all: repeat match goal with |- context [if ?b then _ else _] => destruct b eqn:? end; try lia.
  all: cbn [next_thread next_shared on_return rw_program]; unfold EAGAIN, ETIMEDOUT; simpl.
  all: repeat match goal with |- context [if ?b then _ else _] => destruct b eqn:? end; simpl.
  all: split_and!; try lia; auto 6.
Qed.

Lemma rw_inv_start n : rw_inv (start rwlock_init (replicate n NoHold)).
Proof.
  constructor; rewrite ?start_threads, ?count_if_replicate; try done.
  - by apply Forall_replicate.
  - by left.
Qed.

(** Every step preserves the invariant, and what it returns is one of the
    documented results. *)
Definition rw_result_ok (x : nat * rw_point * Z) : Prop :=
  x.2 = 0 \/ x.2 = - EAGAIN \/ x.2 = - ETIMEDOUT \/ 0 < x.2.

Lemma rw_inv_step (c c' : config rwlock rw_point hold) e :
  rw_inv c -> Forall rw_result_ok (hist c) -> exec_event c e = Some c' ->
  rw_inv c' /\ Forall rw_result_ok (hist c').
Proof.
  intros Hinv Hh E. apply step_cases in E.
  destruct E as [i p g Hi Hm Hs Hhist Ht|i p cv ret g Hi Hm Hs Hhist Ht
    |i pick p ret g s sg r Hi Hc Hs Hhist Hd|i pick p ret g s sg p' Hi Hc Hs Hhist Hd
    |i pick p ret g s p' cv Hi Hc Hs Hhist Hd|i pick p ret g Hi Hc Hs Hhist Hd].
  all: destruct (rw_inv_thread _ _ _ Hinv Hi) as (Hok & B1 & B2 & B3 & B4).
  all: pose proof (inv_wr_max _ Hinv); pose proof (inv_ww_max _ Hinv).
  all: pose proof (inv_one_writer _ Hinv); pose proof (inv_excl _ Hinv).
  3-6: pose proof (rw_code_ok i p ret g (shared c) Hok B1 B2 B3 B4 ltac:(assumption)
    ltac:(assumption) ltac:(assumption) ltac:(assumption)) as Hcode; cbv zeta in Hcode.
  - split; [|by rewrite Hhist].
    apply (rw_inv_update c c' i _ (Ready p 0, g) NoSignal 0 Hinv Hi); rewrite ?Hs; try assumption.
    { split; [done|]. destruct g, p; simpl in Hm; done. }
    { simpl. by rewrite Ht. }
    all: unfold delta; destruct g, p; simpl in *; done || lia.
  - split; [|by rewrite Hhist].
    apply (rw_inv_update c c' i _ (Ready p ret, g) NoSignal 0 Hinv Hi); rewrite ?Hs; try assumption.
    { split; [by apply Z.leb_le|]. destruct Hok as [-> [[-> _]|[-> _]]]; done. }
    { simpl. by rewrite Ht. }
    all: symmetry; rewrite <- Z.add_0_r; f_equal; apply Z.sub_diag.
  - change (rw_code i p ret (shared c)) with (code i p ret (shared c)) in Hcode.
    rewrite Hc in Hcode. cbn [next_thread next_shared] in Hcode. rewrite <- Hs in Hcode.
    destruct Hcode as (? & D1 & D2 & D3 & D4 & ? & ? & ? & ? & Hr).
    rewrite Hhist. split; [|by constructor].
    by apply (rw_inv_update c c' i _ (Idle, on_return p r g) sg pick Hinv Hi).
  - change (rw_code i p ret (shared c)) with (code i p ret (shared c)) in Hcode.
    rewrite Hc in Hcode. by destruct Hcode as (_ & _ & _ & _ & _ & _ & _ & _ & _ & []).
  - change (rw_code i p ret (shared c)) with (code i p ret (shared c)) in Hcode.
    rewrite Hc in Hcode. cbn [next_thread next_shared] in Hcode. rewrite <- Hs in Hcode.
    destruct Hcode as (? & D1 & D2 & D3 & D4 & ? & ? & ? & ? & Hr).
    rewrite Hhist. split; [|done].
    apply (rw_inv_update c c' i _ (Waiting p' cv, g) NoSignal 0 Hinv Hi); try assumption.
    simpl. by rewrite Hd.
  - change (rw_code i p ret (shared c)) with (code i p ret (shared c)) in Hcode.
    rewrite Hc in Hcode. by destruct Hcode as (_ & _ & _ & _ & _ & _ & _ & _ & _ & []).
Qed.

Lemma rw_reachable n c :
  reachable any (start rwlock_init (replicate n NoHold)) c ->
  rw_inv c /\ Forall rw_result_ok (hist c).
Proof.
  apply (reachable_inv (fun c => rw_inv c /\ Forall rw_result_ok (hist c))).
  - split; [apply rw_inv_start|constructor].
  - intros c0 e c1 _ [Hc Hh] E. by eapply rw_inv_step.
Qed.

(** *** Writers are not forgotten *)

(** A writer about to re-examine the lock. *)
Definition ready_wr (t : thread rw_point hold) : bool :=
  match t.1 with Ready WrWait ret => ret =? 0 | _ => false end.

(** A free lock with a sleeping writer has a writer about to run. *)
Definition writer_coming (c : config rwlock rw_point hold) : Prop :=
  active_readers (shared c) = 0 -> active_writers (shared c) = 0 ->
  0 < count_if (waits_on writer_proceed) (threads c) -> 0 < count_if ready_wr (threads c).

Definition return_signal (o : rw_outcome) : signal :=
  match o with Return _ sg _ => sg | _ => NoSignal end.

(** How the lock can be free after a stretch of code: it was free and this
    was not a writer that could have taken it, or the code has just signalled
    the writers, or there is no writer to signal. *)
Lemma rw_code_free i p ret rw :
  let o := rw_code i p ret rw in
  0 <= active_readers rw -> 0 <= active_writers rw ->
  active_readers (next_shared o rw) = 0 -> active_writers (next_shared o rw) = 0 ->
  return_signal o = Signal writer_proceed \/
  (waiting_writers rw = 0 /\ exists s sg r, o = Return s sg r) \/
  (active_readers rw = 0 /\ active_writers rw = 0 /\ ~ (p = WrWait /\ ret = 0) /\
   match o with Wait _ p' _ => p' = RdWait | Return _ _ _ => True | _ => False end).
Proof.
  destruct rw as [ar aw wr ww]. cbv zeta.
  cbn [active_readers active_writers waiting_writers]. intros Hr Hw.
  destruct p; cbn [rw_code]; unfold rwlock_rdlock, rdlock_resume, rwlock_wrlock, wrlock_resume,
    rwlock_unlock, rdlock_loop, wrlock_loop, invalid_state, add_waiting_readers,
    add_waiting_writers, add_active_readers, add_active_writers;
    cbn [active_readers active_writers waiting_readers waiting_writers].
  all: repeat match goal with |- context [if ?b then _ else _] => destruct b eqn:? end;
    cbn [next_shared active_readers active_writers return_signal]; intros; try lia; auto.
  all: unfold ETIMEDOUT in *.
  all: first [right; left; split; [lia|by eauto]
    |right; right; split_and!; try done; try lia; intros [? ?]; first [discriminate|lia]].
Qed.

Lemma waits_writer_le ts :
  Forall thread_ok ts -> count_if (waits_on writer_proceed) ts <= count_if at_wr ts.
Proof.
  intros Hts. apply count_if_le. eapply Forall_impl; [done|].
  intros [[|p r|p cv|] g] Hok Hw; try done. destruct Hok as [_ [[-> ->]|[-> _]]]; done.
Qed.

(** What one thread's step and the delivery of its signal do to the sleeping
    and the ready writers. *)
Lemma writer_coming_deliver sg pick ts ts' i t t' :
  Forall thread_ok (<[i := t']> ts) -> ts !! i = Some t ->
  deliver sg pick (<[i := t']> ts) = Some ts' ->
  delta (waits_on writer_proceed) t t' <= 0 -> 0 <= delta ready_wr t t' ->
  (0 < count_if (waits_on writer_proceed) ts -> 0 < count_if ready_wr ts) ->
  0 < count_if (waits_on writer_proceed) ts' -> 0 < count_if ready_wr ts'.
Proof. intros _ Hi Hd. eapply coming_deliver; [by intros [] ? ?|done..]. Qed.

Lemma writer_coming_signal pick ts ts' :
  Forall thread_ok ts -> deliver (Signal writer_proceed) pick ts = Some ts' ->
  0 < count_if (waits_on writer_proceed) ts' -> 0 < count_if ready_wr ts'.
Proof.
  intros Hok. apply (coming_signal _ WrWait); [done|]. eapply Forall_impl; [done|].
  intros [[|p r|p cv|] g] Ht; try done. intros ->. by destruct Ht as [_ [[_ ?]|[-> _]]].
Qed.

(** Between calls nobody is forgotten: the statuses of the thread that moves. *)
Lemma writer_coming_step (c c' : config rwlock rw_point hold) e :
  rw_inv c -> rw_inv c' -> writer_coming c -> exec_event c e = Some c' -> writer_coming c'.
Proof.
  intros Hinv Hinv' HC E Har Haw. pose proof (inv_threads _ Hinv) as Hts.
  pose proof (inv_threads _ Hinv') as Hts'.
  apply step_cases in E.
  destruct E as [i p g Hi Hm Hs _ Ht|i p cv ret g Hi Hm Hs _ Ht
    |i pick p ret g s sg r Hi Hc Hs _ Hd|i pick p ret g s sg p' Hi Hc Hs _ Hd
    |i pick p ret g s p' cv Hi Hc Hs _ Ht|i pick p ret g Hi Hc Hs _ Ht].
  all: destruct (rw_inv_thread _ _ _ Hinv Hi) as (Hok & B1 & B2 & _ & B4).
  all: assert (0 <= active_readers (shared c)) by (destruct (is_rd _) in B1; simpl in B1; lia).
  all: assert (0 <= active_writers (shared c)) by (destruct (is_wr _) in B2; simpl in B2; lia).
  3-6: pose proof (rw_code_free i p ret (shared c) ltac:(assumption) ltac:(assumption)) as Hf;
    change (rw_code i p ret (shared c)) with (code i p ret (shared c)) in Hf;
    cbv zeta in Hf; rewrite Hc in Hf; cbn [next_shared return_signal] in Hf; rewrite Hs in Har, Haw.
  - rewrite Hs in Har, Haw.
    eapply (writer_coming_deliver NoSignal 0 _ _ i _ (Ready p 0, g)); [by rewrite <- Ht|done|simpl; by rewrite Ht|..].
    + done.
    + by destruct p, g.
    + by apply HC.
  - rewrite Hs in Har, Haw.
    eapply (writer_coming_deliver NoSignal 0 _ _ i _ (Ready p ret, g)); [by rewrite <- Ht|done|simpl; by rewrite Ht|..].
    + unfold delta, waits_on. simpl. destruct (cv =? _)%nat; done.
    + unfold delta, ready_wr. simpl. by destruct p, (ret =? 0).
    + by apply HC.
  - assert (Forall thread_ok (<[i := (Idle, on_return p r g)]> (threads c))) as Hti
      by by apply Forall_insert.
    destruct Hf as [->|[[Hww _]|(Hr0 & Hw0 & Hp & _)]]; [done..| | |].
    + by eapply writer_coming_signal.
    + pose proof (waits_writer_le _ Hts). rewrite <- (inv_ww _ Hinv), Hww in *.
      apply deliver_anti with (f := waits_on writer_proceed) in Hd; [|done].
      rewrite (count_insert_delta _ _ _ _ _ Hi) in Hd. unfold delta in Hd; simpl in Hd. lia.
    + eapply writer_coming_deliver; try done; [|by apply HC].
      unfold delta, ready_wr; simpl. destruct p; try done.
      destruct (Z.eqb_spec ret 0); [by destruct Hp|done].
  - destruct Hf as [[=]|[(_ & ? & ? & ? & [=])|(_ & _ & _ & [])]]; done.
  - destruct Hf as [[=]|[(_ & ? & ? & ? & [=])|(Hr0 & Hw0 & Hp & ->)]]; [done..|].
    eapply (writer_coming_deliver NoSignal 0 _ _ i _ (Waiting RdWait cv, g));
      [by rewrite <- Ht|done|simpl; by rewrite Ht| | |by apply HC].
    + unfold delta, waits_on; simpl.
      assert (thread_ok (Waiting RdWait cv, g)) as [_ [[_ ->]|[? _]]]; [|done..].
      eapply (Forall_lookup_1 _ _ i); [exact Hts'|]. rewrite Ht.
      apply list_lookup_insert_eq. by eapply lookup_lt_Some.
    + unfold delta, ready_wr; simpl. destruct p; try done.
      destruct (Z.eqb_spec ret 0); [by destruct Hp|done].
  - destruct Hf as [[=]|[(_ & ? & ? & ? & [=])|(_ & _ & _ & [])]]; done.
Qed.

(** ** Properties *)

(** C2: mutual exclusion.  In every configuration that any number of threads
    can reach, whatever the interleaving and however waits end (signalled,
    timed out, failed or spuriously woken): while a thread holds the lock for
    writing, no other thread holds it at all. *)
Theorem rwlock_exclusion n c i j gi gj si sj :
  reachable any (start rwlock_init (replicate n NoHold)) c ->
  threads c !! i = Some (si, gi) -> threads c !! j = Some (sj, gj) ->
  i <> j -> gi = WrHold -> gj = NoHold.
Proof.
  intros Hc Hi Hj Hij ->. apply rw_reachable in Hc as [[] _].
  pose proof (count_if_lookup is_wr _ _ _ Hi eq_refl) as Hw.
  destruct gj; [done|..].
  - pose proof (count_if_lookup is_rd _ _ _ Hj eq_refl). lia.
  - pose proof (count_if_two is_wr _ _ _ _ _ Hij Hi Hj eq_refl eq_refl). lia.
Qed.

(** What rwlock_unlock returns, whoever calls it. *)
Lemma unlock_result c :
  rw_inv c ->
  exists rw sg r, rwlock_unlock (shared c) = Return rw sg r /\ (r = 0 \/ r = - EPERM) /\
    (r = - EPERM <-> forall i t, threads c !! i = Some t -> t.2 = NoHold) /\
    (r = - EPERM -> rw = shared c /\ sg = NoSignal).
Proof.
  intros []. pose proof (count_if_nonneg is_rd (threads c)). pose proof (count_if_nonneg is_wr (threads c)).
  assert ((forall i t, threads c !! i = Some t -> t.2 = NoHold) <->
    active_readers (shared c) = 0 /\ active_writers (shared c) = 0) as Hfree.
  { rewrite inv_ar0, inv_aw0. split.
    - intros Hall. split; apply count_if_zero; intros i t Hi; specialize (Hall i t Hi);
        unfold is_rd, is_wr; by rewrite Hall.
    - intros [Hr Hw] i t Hi. destruct t as [st []]; [done|..]; exfalso.
      + pose proof (count_if_lookup is_rd _ _ _ Hi eq_refl). lia.
      + pose proof (count_if_lookup is_wr _ _ _ Hi eq_refl). lia. }
  setoid_rewrite Hfree. clear Hfree. destruct (shared c) as [ar aw wr ww]. simpl in *.
  unfold rwlock_unlock, invalid_state, add_active_writers, add_active_readers, EPERM. simpl.
  destruct (Z.eqb_spec aw 0), (Z.eqb_spec ar 0); simpl;
    repeat match goal with |- context [if ?b then _ else _] => destruct b eqn:? end; try lia;
    do 3 eexists; (split; [reflexivity|]); split_and!; auto; try lia.
Qed.

(** C11: the counters are exact and bounded, for clients that take the lock
    before they release it and release only what they hold.  In every
    reachable configuration
    [active_readers] and [active_writers] are the numbers of threads that hold
    the lock, [waiting_readers] and [waiting_writers] those that wait for it,
    at most 10 and 5; no operation of these clients ever reports an invalid
    state or a missing owner: every result so far is 0, -EAGAIN, -ETIMEDOUT or
    the (positive) error of a wait.  A further rwlock_unlock in such a
    configuration, by a client that holds nothing, returns -EPERM and changes
    nothing exactly if nobody holds the lock, and 0 otherwise: it then releases
    what another thread holds. *)
Theorem rwlock_counters n c :
  reachable any (start rwlock_init (replicate n NoHold)) c ->
  active_readers (shared c) = count_if is_rd (threads c) /\
  active_writers (shared c) = count_if is_wr (threads c) /\
  waiting_readers (shared c) = count_if at_rd (threads c) /\
  waiting_writers (shared c) = count_if at_wr (threads c) /\
  waiting_readers (shared c) <= 10 /\ waiting_writers (shared c) <= 5 /\
  Forall rw_result_ok (hist c) /\
  exists rw sg r, rwlock_unlock (shared c) = Return rw sg r /\ (r = 0 \/ r = - EPERM) /\
    (r = - EPERM <-> forall i t, threads c !! i = Some t -> t.2 = NoHold) /\
    (r = - EPERM -> rw = shared c /\ sg = NoSignal).
Proof. intros Hc. apply rw_reachable in Hc as [Hi Hh]. pose proof (unlock_result _ Hi). destruct Hi. by split_and!. Qed.

(** C12: no writer is forgotten.  In every reachable configuration in which
    nobody holds the lock and some writer is asleep, a writer has been woken
    and is about to re-examine the lock: the signals of [rwlock_unlock] are
    never lost, although signalled writers may find the lock taken again,
    waiters may time out, and new threads may arrive at any moment. *)
Theorem rwlock_no_lost_writer n c :
  reachable any (start rwlock_init (replicate n NoHold)) c ->
  active_readers (shared c) = 0 -> active_writers (shared c) = 0 ->
  (exists i p g, threads c !! i = Some (Waiting p writer_proceed, g)) ->
  exists j g, threads c !! j = Some (Ready WrWait 0, g).
Proof.
  intros Hc Hr Hw (i & p & g & Hi).
  assert ((rw_inv c /\ Forall rw_result_ok (hist c)) /\ writer_coming c) as [_ Hwc].
  { clear Hr Hw Hi. revert c Hc. apply (reachable_inv (fun c =>
      (rw_inv c /\ Forall rw_result_ok (hist c)) /\ writer_coming c)).
    - split; [split; [apply rw_inv_start|constructor]|]. intros _ _.
      rewrite start_threads, count_if_replicate. simpl. lia.
    - intros c1 e c2 _ [[H1 Hh] H2] E. pose proof (rw_inv_step _ _ _ H1 Hh E) as [H3 H4].
      exact (conj (conj H3 H4) (writer_coming_step _ _ _ H1 H3 H2 E)). }
  pose proof (count_if_lookup (waits_on writer_proceed) _ _ _ Hi eq_refl) as Hpos.
  destruct (count_if_pos ready_wr (threads c)) as (j & [[|q ret|q cv|] g'] & Hj & Hrdy);
    [apply Hwc; lia|done| |done..].
  destruct q; try done. apply Z.eqb_eq in Hrdy as ->. eauto.
Qed.

(** A reader can be left asleep on a lock that is completely free.  Thread
    0 reads, thread 1 waits to write, thread 2 waits to read because a writer
    is waiting; the writer times out and thread 0 unlocks.  Neither wakes the
    readers, so thread 2 sleeps on with no holder, no waiting writer and no
    thread left to wake it, until its own timeout. *)
Theorem rwlock_reader_left_asleep :
  exists c, reachable any (start rwlock_init (replicate 3 NoHold)) c /\
    shared c = Build_rwlock 0 0 1 0 /\
    threads c = [(Idle, NoHold); (Idle, NoHold); (Waiting RdWait readers_proceed, NoHold)] /\
    hist c = [(0%nat, Unlock, 0); (1%nat, WrWait, - ETIMEDOUT); (0%nat, RdLock, 0)].
Proof.
  exists {| shared := Build_rwlock 0 0 1 0;
    threads := [(Idle, NoHold); (Idle, NoHold); (Waiting RdWait readers_proceed, NoHold)];
    hist := [(0%nat, Unlock, 0); (1%nat, WrWait, - ETIMEDOUT); (0%nat, RdLock, 0)] |}.
  split; [|done].
  exists [Call 0 RdLock; Run 0 0; Call 1 WrLock; Run 1 0; Call 2 RdLock; Run 2 0;
          Wake 1 ETIMEDOUT; Run 1 0; Call 0 Unlock; Run 0 0].
  by vm_compute.
Qed.

(** ** Witnesses *)

(** Two readers in, a writer waiting; then one reader out. *)
Definition rw_events : list (event rw_point) :=
  [Call 0 RdLock; Run 0 0; Call 1 RdLock; Run 1 0; Call 2 WrLock; Run 2 0].

Definition rw_run (n : nat) (es : list (event rw_point)) : config rwlock rw_point hold :=
  default (start rwlock_init (replicate n NoHold))
    (run (start rwlock_init (replicate n NoHold)) es).

Lemma rwlock_exclusion_witness :
  let c := rw_run 3 (rw_events ++ [Call 0 Unlock; Run 0 0; Call 1 Unlock; Run 1 2; Run 2 0]) in
  threads c !! 2%nat = Some (Idle, WrHold) /\ threads c !! 0%nat = Some (Idle, NoHold).
Proof.
  intros c. split; [reflexivity|].
  assert (exists g, threads c !! 0%nat = Some (Idle, g)) as [g Hg] by (eexists; reflexivity).
  rewrite Hg. do 2 f_equal.
  apply (rwlock_exclusion 3 c 2 0 WrHold g Idle Idle); [|reflexivity|exact Hg|discriminate|reflexivity].
  exists (rw_events ++ [Call 0 Unlock; Run 0 0; Call 1 Unlock; Run 1 2; Run 2 0]).
  split; reflexivity.
Defined.

Lemma rwlock_counters_witness :
  active_readers (shared (rw_run 3 rw_events)) = 2 /\
  waiting_writers (shared (rw_run 3 rw_events)) = 1.
Proof.
  destruct (rwlock_counters 3 (rw_run 3 rw_events)) as (-> & _ & _ & -> & _).
  - exists rw_events. split; reflexivity.
  - split; reflexivity.
Defined.

Lemma rwlock_no_lost_writer_witness :
  exists j g, threads (rw_run 4 (rw_events ++
    [Call 3 WrLock; Run 3 0; Call 0 Unlock; Run 0 0; Call 1 Unlock; Run 1 2])) !! j =
    Some (Ready WrWait 0, g).
Proof.
  apply (rwlock_no_lost_writer 4).
  - exists (rw_events ++
      [Call 3 WrLock; Run 3 0; Call 0 Unlock; Run 0 0; Call 1 Unlock; Run 1 2]).
    split; reflexivity.
  - reflexivity.
  - reflexivity.
  - exists 3%nat, WrWait, NoHold. reflexivity.
Defined.
