(* ===== verification/Config.v ===== *)
(** * Config: the configuration object and its lock (bme680_config.c)

    Clients of a read-write lock.  What the lock promises is the class
    [RwLock] with its laws [RwLockOk]: requests, steps of its own that may
    complete a request, who holds it, exclusion.  Rwlock discharges it
    ([rwlock_ok]).  The configuration's operations are proved against the
    class: between the completion of a lock request and the call of unlock a
    client makes its accesses to the settings one by one, interleaved with the
    others.  rwlock_timedwrlock, which no file defines, is a request to write.

    The theorems: a set that returns 0 has stored its three values, and a get
    whose rwlock_rdlock succeeded returns three values of one and the same
    set; a get whose rwlock_rdlock failed goes on all the same, can return a
    mixture and then releases the lock of the writer. *)

From S2P Require Import Prelude CondMonitor Rwlock.

(** ** What a read-write lock promises *)

Inductive lock_req := RdReq | WrReq | UnReq.
#[export] Instance lock_req_eq_dec : EqDecision lock_req.
Proof. solve_decision. Defined.

(** [lk_call l i q]: client [i] calls an operation; [None] if it breaks the
    contract (it takes the lock twice, or releases it without holding it).
    [lk_step]: a step of the lock, with the request it completes. *)
Class RwLock (L E : Type) := {
  lk_call : L -> nat -> lock_req -> option L;
  lk_step : L -> E -> option (L * option (nat * lock_req * Z));
  lk_holds : L -> nat -> hold;
}.

(** What a client holds after request [q] has returned [r]. *)
Definition granted (q : lock_req) (r : Z) (h : hold) : hold :=
  if r =? 0 then match q with RdReq => RdHold | WrReq => WrHold | UnReq => NoHold end else h.

Class RwLockOk (L E : Type) {K : RwLock L E} (lk_inv : L -> Prop) : Prop := {
  lk_excl l i j : lk_inv l -> lk_holds l i = WrHold -> i <> j -> lk_holds l j = NoHold;
  lk_call_ok l i q l' : lk_inv l -> lk_call l i q = Some l' ->
    lk_inv l' /\ (forall j, lk_holds l' j = lk_holds l j);
  lk_step_ok l e l' o : lk_inv l -> lk_step l e = Some (l', o) ->
    lk_inv l' /\ forall j, lk_holds l' j =
      match o with
      | Some (i, q, r) => if decide (i = j) then granted q r (lk_holds l j) else lk_holds l j
      | None => lk_holds l j
      end;
}.

(** ** The lock of rwlock.c keeps the promise *)

Definition point_req (p : rw_point) : lock_req :=
  match p with RdLock | RdWait => RdReq | WrLock | WrWait => WrReq | Unlock => UnReq end.
Definition req_point (q : lock_req) : rw_point :=
  match q with RdReq => RdLock | WrReq => WrLock | UnReq => Unlock end.

#[export] Instance rwlock_lock : RwLock (config rwlock rw_point hold) (event rw_point) := {|
  lk_call l i q := exec_event l (Call i (req_point q));
  lk_step l e :=
    match e with
    | Call _ _ => None
    | _ =>
        l' ← exec_event l e;
        Some (l', if (length (hist l) <? length (hist l'))%nat then
                    match hist l' with (i, p, r) :: _ => Some (i, point_req p, r) | [] => None end
                  else None)
    end;
  lk_holds l i := match threads l !! i with Some (_, g) => g | None => NoHold end;
|}.

Lemma deliver_holds sg pick (ts ts' : list (thread rw_point hold)) j :
  deliver sg pick ts = Some ts' ->
  match ts' !! j with Some (_, g) => g | None => NoHold end =
  match ts !! j with Some (_, g) => g | None => NoHold end.
Proof.
  intros Hd. pose proof (deliver_length _ _ _ _ Hd) as Hlen. destruct (ts' !! j) as [t'|] eqn:Hj.
  - destruct (deliver_lookup _ _ _ _ _ _ Hd Hj) as (t & -> & [->|(p & cv & g & -> & -> & _)]); done.
  - apply lookup_ge_None in Hj. rewrite Hlen in Hj. apply lookup_ge_None in Hj. by rewrite Hj.
Qed.

Lemma insert_holds (ts : list (thread rw_point hold)) i s g s' g' j :
  ts !! i = Some (s, g) ->
  match <[i := (s', g')]> ts !! j with Some (_, h) => h | None => NoHold end =
  if decide (i = j) then g' else match ts !! j with Some (_, h) => h | None => NoHold end.
Proof.
  intros Hi. destruct (decide (i = j)) as [->|Hij].
  - rewrite list_lookup_insert_eq; [done|]. by eapply lookup_lt_Some.
  - by rewrite list_lookup_insert_ne.
Qed.

Lemma insert_same_holds (ts : list (thread rw_point hold)) i s g s' j :
  ts !! i = Some (s, g) ->
  match <[i := (s', g)]> ts !! j with Some (_, h) => h | None => NoHold end =
  match ts !! j with Some (_, h) => h | None => NoHold end.
Proof. intros Hi. rewrite (insert_holds _ _ _ _ _ _ _ Hi). case_decide; [subst; by rewrite Hi|done]. Qed.

#[export] Instance rwlock_ok :
  RwLockOk (config rwlock rw_point hold) (event rw_point) (fun l => rw_inv l /\ Forall rw_result_ok (hist l)).
Proof.
  constructor.
  - intros l i j [[] _] Hi Hij. unfold lk_holds, rwlock_lock in *.
    destruct (threads l !! i) as [[si gi]|] eqn:Ei; [|done]. destruct (threads l !! j) as [[sj gj]|] eqn:Ej; [|done].
    subst gi. pose proof (count_if_lookup is_wr _ _ _ Ei eq_refl). destruct gj; [done|..].
    + pose proof (count_if_lookup is_rd _ _ _ Ej eq_refl). lia.
    + pose proof (count_if_two is_wr _ _ _ _ _ Hij Ei Ej eq_refl eq_refl). lia.
  - intros l i q l' [Hl Hh] E. split; [by eapply (rw_inv_step l l' (Call i (req_point q)))|]. intros j.
    cbn [lk_call lk_holds rwlock_lock exec_event] in E |- *.
    destruct (threads l !! i) as [[[|p r|p cv|] g]|] eqn:Hi; try done.
    destruct (may_call g _); simplify_eq/=. by apply insert_same_holds with (s := Idle).
  - intros l e l' o [Hl Hh] E. unfold lk_step, rwlock_lock in E.
    assert (exists l1, exec_event l e = Some l1 /\ l1 = l') as (l1 & E1 & ->).
    { destruct e; [done|..]; apply bind_Some in E as (l1 & E1 & E); by simplify_eq; eauto. }
    split; [by eapply rw_inv_step|]. intros j. cbn [lk_holds rwlock_lock].
    assert (o = if (length (hist l) <? length (hist l'))%nat then
                    match hist l' with (i, p, r) :: _ => Some (i, point_req p, r) | [] => None end
                  else None) as ->.
    { destruct e; [done|..]; rewrite E1 in E; by simplify_eq/=. }
    clear E. apply step_cases in E1.
    destruct E1 as [i p g Hi Hm Hs Hhist Ht|i p cv ret g Hi Hm Hs Hhist Ht
      |i pick p ret g s sg r Hi Hc Hs Hhist Hd|i pick p ret g s sg p' Hi Hc Hs Hhist Hd
      |i pick p ret g s p' cv Hi Hc Hs Hhist Hd|i pick p ret g Hi Hc Hs Hhist Hd]; rewrite Hhist.
    1,2,4,5,6: rewrite Nat.ltb_irrefl.
    + rewrite Ht. by eapply insert_same_holds.
    + rewrite Ht. by eapply insert_same_holds.
    + rewrite (deliver_holds _ _ _ _ _ Hd). by eapply insert_same_holds.
    + rewrite Hd. by eapply insert_same_holds.
    + rewrite Hd. by eapply insert_same_holds.
    + cbn [length]. replace (_ <? _)%nat with true by (symmetry; apply Nat.ltb_lt; lia).
      rewrite (deliver_holds _ _ _ _ _ Hd), (insert_holds _ _ _ _ _ _ _ Hi).
      case_decide; [subst|done]. rewrite Hi. unfold granted. cbn. destruct (r =? 0); [|done]. by destruct p.
Qed.

(** ** The settings and the operations *)

Record oversampling := { os_temp : Z; os_press : Z; os_hum : Z }.

#[export] Instance oversampling_eq_dec : EqDecision oversampling.
Proof. solve_decision. Defined.

(** One of the three assignments. *)
Definition copy_setting (k : nat) (src dst : oversampling) : oversampling :=
  match k with
  | 0%nat => {| os_temp := os_temp src; os_press := os_press dst; os_hum := os_hum dst |}
  | 1%nat => {| os_temp := os_temp dst; os_press := os_press src; os_hum := os_hum dst |}
  | _ => {| os_temp := os_temp dst; os_press := os_press dst; os_hum := os_hum src |}
  end.
Fixpoint settings_copied (k : nat) (src dst : oversampling) : oversampling :=
  match k with O => dst | S k => copy_setting k src (settings_copied k src dst) end.

Lemma settings_copied_all src dst : settings_copied 3 src dst = src.
Proof. by destruct src. Qed.

Definition valid_oversampling (d : oversampling) : bool :=
  negb ((os_temp d <? 0) || (os_temp d >? 16) || (os_press d <? 0) || (os_press d >? 16) ||
        (os_hum d <? 0) || (os_hum d >? 16)).

(** [SetSensor] stands for the three setters that call
    bme680_set_sensor_settings, which no file defines, with [which] setting. *)
Inductive cfg_op :=
| SetOversampling (d : oversampling)
| GetOversampling
| SetSensor (which : nat) (os : Z).

Definition op_req (op : cfg_op) : lock_req := match op with GetOversampling => RdReq | _ => WrReq end.

(** How many accesses an operation makes between the lock and the unlock. *)
Definition accesses (op : cfg_op) : nat :=
  match op with
  | SetOversampling d => if valid_oversampling d then 3 else 0
  | GetOversampling => 3
  | SetSensor _ _ => 1
  end.

(** Where a client is: in the call of the lock; after [k] accesses; in the call
    of unlock.  [buf] is what a get has read, [ret] what the operation will
    return, [locked] whether its lock call returned 0. *)
Inductive cfg_pc :=
| CfgIdle
| CfgLock (op : cfg_op)
| CfgRun (op : cfg_op) (k : nat) (buf : oversampling) (ret : Z) (locked : bool)
| CfgUnlock (op : cfg_op) (buf : oversampling) (ret : Z) (locked : bool).

Record cfg_return := { r_op : cfg_op; r_buf : oversampling; r_ret : Z; r_locked : bool }.

Record bme680_config (L D : Type) := {
  lock : L;
  vals : oversampling;
  dev : D;
  pcs : list cfg_pc;
  accepted : list oversampling;     (* the sets that got the lock with valid values *)
  returns : list cfg_return;
}.
Arguments lock {_ _} _.
Arguments vals {_ _} _.
Arguments dev {_ _} _.
Arguments pcs {_ _} _.
Arguments accepted {_ _} _.
Arguments returns {_ _} _.

Inductive cfg_event (E : Type) :=
| CallOp (i : nat) (op : cfg_op)
| LockStep (e : E)
| Access (i : nat).
Arguments CallOp {_} _ _.
Arguments LockStep {_} _.
Arguments Access {_} _.

Section clients.
Context {L Ev D : Type} {K : RwLock L Ev} (set_sensor_settings : nat -> Z -> D -> D * Z) (uninit : oversampling).
#[local] Abbreviation cfg := (bme680_config L D).

Definition set_lock (l : L) (c : cfg) : cfg :=
  {| lock := l; vals := vals c; dev := dev c; pcs := pcs c; accepted := accepted c; returns := returns c |}.
Definition goto_cfg (i : nat) (p : cfg_pc) (c : cfg) : cfg :=
  {| lock := lock c; vals := vals c; dev := dev c; pcs := <[i := p]> (pcs c); accepted := accepted c;
     returns := returns c |}.
Definition return_cfg (i : nat) (r : cfg_return) (c : cfg) : cfg :=
  {| lock := lock c; vals := vals c; dev := dev c; pcs := <[i := CfgIdle]> (pcs c); accepted := accepted c;
     returns := r :: returns c |}.
Definition accept (d : oversampling) (c : cfg) : cfg :=
  {| lock := lock c; vals := vals c; dev := dev c; pcs := pcs c; accepted := d :: accepted c; returns := returns c |}.
Definition store (v : oversampling) (c : cfg) : cfg :=
  {| lock := lock c; vals := v; dev := dev c; pcs := pcs c; accepted := accepted c; returns := returns c |}.
Definition set_dev (d : D) (c : cfg) : cfg :=
  {| lock := lock c; vals := vals c; dev := d; pcs := pcs c; accepted := accepted c; returns := returns c |}.

(** The lock call of [op] has returned [r]: only bme680_config_set_oversampling
    looks at it. *)
Definition after_lock (i : nat) (op : cfg_op) (r : Z) (c : cfg) : cfg :=
  match op with
  | SetOversampling d =>
      if negb (r =? 0) then return_cfg i {| r_op := op; r_buf := uninit; r_ret := - ETIMEDOUT; r_locked := false |} c
      else if negb (valid_oversampling d) then goto_cfg i (CfgRun op 0 uninit (- EINVAL) true) c
      else goto_cfg i (CfgRun op 0 uninit 0 true) (accept d c)
  | _ => goto_cfg i (CfgRun op 0 uninit 0 (r =? 0)) c
  end.

(** One access. *)
Definition access (i : nat) (op : cfg_op) (k : nat) (buf : oversampling) (ret : Z) (locked : bool) (c : cfg) : cfg :=
  match op with
  | SetOversampling d => goto_cfg i (CfgRun op (S k) buf ret locked) (store (copy_setting k d (vals c)) c)
  | GetOversampling => goto_cfg i (CfgRun op (S k) (copy_setting k (vals c) buf) ret locked) c
  | SetSensor which os =>
      let '(d, r) := set_sensor_settings which os (dev c) in
      goto_cfg i (CfgRun op (S k) buf r locked) (set_dev d c)
  end.

Definition exec_cfg (c : cfg) (e : cfg_event Ev) : option cfg :=
  match e with
  | CallOp i op =>
      p ← pcs c !! i;
      match p with
      | CfgIdle => l ← lk_call (lock c) i (op_req op); Some (goto_cfg i (CfgLock op) (set_lock l c))
      | _ => None
      end
  | LockStep e =>
      '(l, o) ← lk_step (lock c) e;
      match o with
      | None => Some (set_lock l c)
      | Some (i, q, r) =>
          p ← pcs c !! i;
          match p with
          | CfgLock op => if decide (q = op_req op) then Some (after_lock i op r (set_lock l c)) else None
          | CfgUnlock op buf ret locked =>
              if decide (q = UnReq)
              then Some (return_cfg i {| r_op := op; r_buf := buf; r_ret := ret; r_locked := locked |} (set_lock l c))
              else None
          | _ => None
          end
      end
  | Access i =>
      p ← pcs c !! i;
      match p with
      | CfgRun op k buf ret locked =>
          if (k <? accesses op)%nat then Some (access i op k buf ret locked c)
          else l ← lk_call (lock c) i UnReq; Some (goto_cfg i (CfgUnlock op buf ret locked) (set_lock l c))
      | _ => None
      end
  end.

Fixpoint run_cfg (c : cfg) (es : list (cfg_event Ev)) : option cfg :=
  match es with
  | [] => Some c
  | e :: es => c' ← exec_cfg c e; run_cfg c' es
  end.

Definition cfg_start (l : L) (d : D) (v : oversampling) (n : nat) : cfg :=
  {| lock := l; vals := v; dev := d; pcs := replicate n CfgIdle; accepted := []; returns := [] |}.

(** ** The invariant *)

Context {inv : L -> Prop} {KOk : RwLockOk L Ev inv} (v0 : oversampling).

(** What the settings mean: the values of the last accepted set. *)
Definition current (c : cfg) : oversampling := hd v0 (accepted c).

Definition writing (p : cfg_pc) : bool :=
  match p with
  | CfgRun (SetOversampling d) _ _ _ _ => valid_oversampling d
  | _ => false
  end.

(** What the client at [p] knows, holding [h], when the settings are [v]
    and mean [cur]. *)
Definition at_place (h : hold) (v cur : oversampling) (p : cfg_pc) : Prop :=
  match p with
  | CfgRun (SetOversampling d) k _ ret _ =>
      if valid_oversampling d
      then h = WrHold /\ cur = d /\ ret = 0 /\ (k <= 3)%nat /\ exists old, v = settings_copied k d old
      else ret = - EINVAL
  | CfgUnlock (SetOversampling d) _ ret _ =>
      if valid_oversampling d then h = WrHold /\ cur = d /\ ret = 0 else ret = - EINVAL
  | CfgRun GetOversampling k buf ret locked =>
      ret = 0 /\ (locked = true -> h = RdHold /\ (k <= 3)%nat /\ exists old, buf = settings_copied k v old)
  | CfgUnlock GetOversampling buf ret locked =>
      ret = 0 /\ (locked = true -> h = RdHold /\ buf = cur)
  | _ => True
  end.

Record cfg_inv (c : cfg) : Prop := {
  ci_lock : inv (lock c);
  ci_whole : Forall (fun p => writing p = false) (pcs c) -> vals c = current c;
  ci_place i p : pcs c !! i = Some p -> at_place (lk_holds (lock c) i) (vals c) (current c) p;
  ci_accepted : Forall (fun d => valid_oversampling d = true) (accepted c);
}.

Lemma at_place_no_hold v cur v' cur' p : at_place NoHold v cur p -> at_place NoHold v' cur' p.
Proof.
  destruct p as [| | [d| |] k b r l | [d| |] b r l]; simpl; try done.
  1,3: destruct (valid_oversampling d); [intros [? _]|]; done.
  all: intros [? H]; split; [done|]; intros Hl; destruct (H Hl) as [? _]; done.
Qed.

Lemma writing_holds c i p : cfg_inv c -> pcs c !! i = Some p -> writing p = true -> lk_holds (lock c) i = WrHold.
Proof.
  intros Hc Hi Hw. pose proof (ci_place _ Hc _ _ Hi) as H. destruct p as [| |[d| |] k b r l|]; try done.
  simpl in *. rewrite Hw in H. by destruct H.
Qed.

(** While somebody holds the lock to read, nobody writes. *)
Lemma reader_sees_whole c i : cfg_inv c -> lk_holds (lock c) i = RdHold -> vals c = current c.
Proof.
  intros Hc Hr. apply (ci_whole _ Hc). apply Forall_lookup. intros j p Hj.
  destruct (writing p) eqn:Hw; [|done]. exfalso. pose proof (writing_holds _ _ _ Hc Hj Hw) as Hjw.
  destruct (decide (j = i)) as [->|Hij]; [congruence|].
  pose proof (lk_excl _ _ _ (ci_lock _ Hc) Hjw Hij). congruence.
Qed.

(** The step of client [i] from [p] to [p'], with the lock's state and what
    the others hold as before. *)
Lemma cfg_inv_update c c' i p p' :
  cfg_inv c -> pcs c !! i = Some p -> pcs c' = <[i := p']> (pcs c) -> inv (lock c') ->
  (forall j, j <> i -> lk_holds (lock c') j = lk_holds (lock c) j) ->
  (vals c' = vals c /\ current c' = current c \/ lk_holds (lock c') i = WrHold /\ writing p' = true) ->
  (writing p = true -> writing p' = false -> vals c' = current c') ->
  at_place (lk_holds (lock c') i) (vals c') (current c') p' ->
  Forall (fun d => valid_oversampling d = true) (accepted c') ->
  cfg_inv c'.
Proof.
  intros Hc Hi Hp Hinv Hh Hv Hw Hpl Hacc. constructor; try done.
  - rewrite Hp. intros Hall. rewrite Forall_lookup in Hall.
    assert (writing p' = false) as Hw'.
    { apply (Hall i). apply list_lookup_insert_eq. by eapply lookup_lt_Some. }
    destruct Hv as [[Hv Hcur]|[_ Hv]]; [|congruence].
    destruct (writing p) eqn:Hwp; [by apply Hw|]. rewrite Hv, Hcur. apply (ci_whole _ Hc).
    apply Forall_lookup. intros j q Hj. destruct (decide (i = j)) as [->|Hij]; [congruence|].
    apply (Hall j). by rewrite list_lookup_insert_ne.
  - intros j q. rewrite Hp. intros Hj. apply list_lookup_insert_case in Hj as [(-> & -> & _)|(Hij & Hj)]; [done|].
    pose proof (ci_place _ Hc _ _ Hj) as Hq. rewrite <- (Hh j) in Hq by congruence.
    destruct Hv as [[-> ->]|[Hi' _]]; [done|].
    rewrite (lk_excl _ _ _ Hinv Hi' (ltac:(congruence) : i <> j)) in *. by eapply at_place_no_hold.
Qed.

Lemma cfg_inv_start l d n : inv l -> cfg_inv (cfg_start l d v0 n).
Proof.
  intros Hl. constructor; simpl; try done.
  intros i p Hp. apply lookup_replicate in Hp as [-> _]. done.
Qed.

(** The completion of a lock request. *)
Lemma after_lock_inv c i op r l :
  cfg_inv c -> pcs c !! i = Some (CfgLock op) -> inv l ->
  (forall j, lk_holds l j = if decide (i = j) then granted (op_req op) r (lk_holds (lock c) j) else lk_holds (lock c) j) ->
  cfg_inv (after_lock i op r (set_lock l c)).
Proof.
  intros Hc Hi Hl Hh. pose proof (ci_accepted _ Hc).
  assert (forall j, j <> i -> lk_holds l j = lk_holds (lock c) j) as Hoth.
  { intros j Hj. rewrite Hh. by rewrite decide_False by congruence. }
  pose proof (Hh i) as Hhi. rewrite decide_True in Hhi by done. unfold granted in Hhi.
  destruct op as [d| |w os]; simpl in *.
  - destruct (r =? 0) eqn:Hr; simpl; [destruct (valid_oversampling d) eqn:Hd; simpl|].
    + eapply (cfg_inv_update c _ i _ _ Hc Hi); [reflexivity|done|done|by right|done| |].
      * simpl. rewrite Hd. split_and!; [done|done|done|lia|by eexists].
      * by constructor.
    + eapply (cfg_inv_update c _ i _ _ Hc Hi); [reflexivity|done|done|by left|done| |done]. simpl. by rewrite Hd.
    + by eapply (cfg_inv_update c _ i _ _ Hc Hi); [reflexivity|done|done|left|..].
  - eapply (cfg_inv_update c _ i _ _ Hc Hi); [reflexivity|done|done|by left|done| |done].
    simpl. split; [done|]. intros Hr. rewrite Hr in Hhi. split_and!; [done|lia|by eexists].
  - by eapply (cfg_inv_update c _ i _ _ Hc Hi); [reflexivity|done|done|left|..].
Qed.

Lemma access_inv c i op k buf ret locked :
  cfg_inv c -> pcs c !! i = Some (CfgRun op k buf ret locked) -> (k < accesses op)%nat ->
  cfg_inv (access i op k buf ret locked c).
Proof.
  intros Hc Hi Hk. pose proof (ci_accepted _ Hc). pose proof (ci_place _ Hc _ _ Hi) as Hpl.
  destruct op as [d| |w os]; simpl in *.
  - destruct (valid_oversampling d) eqn:Hd; [|lia]. destruct Hpl as (Hw & Hcur & -> & _ & old & Hv).
    eapply (cfg_inv_update c _ i _ _ Hc Hi); [reflexivity|apply Hc|done|by right|simpl; congruence| |done].
    simpl. rewrite Hd. split_and!; [done|done|done|lia|]. exists old. by rewrite Hv.
  - destruct Hpl as [-> Hpl].
    eapply (cfg_inv_update c _ i _ _ Hc Hi); [reflexivity|apply Hc|done|by left|done| |done].
    simpl. split; [done|]. intros Hl. destruct (Hpl Hl) as (? & _ & old & ->). split_and!; [done|lia|by exists old].
  - destruct (set_sensor_settings w os (dev c)) as [dv r].
    by eapply (cfg_inv_update c _ i _ _ Hc Hi); [reflexivity|apply Hc|done|left|..].
Qed.

(** The call of unlock, after the last access. *)
Lemma unlock_call_inv c i op k buf ret locked l :
  cfg_inv c -> pcs c !! i = Some (CfgRun op k buf ret locked) -> (accesses op <= k)%nat -> inv l ->
  (forall j, lk_holds l j = lk_holds (lock c) j) ->
  cfg_inv (goto_cfg i (CfgUnlock op buf ret locked) (set_lock l c)).
Proof.
  intros Hc Hi Hk Hl Hh. pose proof (ci_accepted _ Hc). pose proof (ci_place _ Hc _ _ Hi) as Hpl.
  eapply (cfg_inv_update c _ i _ _ Hc Hi); [reflexivity|done|by intros; apply Hh|by left| | |done]; simpl.
  - intros Hw _. destruct op as [d| |w os]; try done. simpl in *. rewrite Hw in *.
    destruct Hpl as (_ & Hcur & _ & ? & old & Hv). assert (k = 3%nat) as -> by lia.
    rewrite settings_copied_all in Hv. rewrite Hv. symmetry. exact Hcur.
  - rewrite Hh. destruct op as [d| |w os]; simpl in *; [|destruct Hpl as [-> Hpl]; split; [done|]|done].
    + destruct (valid_oversampling d); [|done]. by destruct Hpl as (? & ? & ? & _).
    + intros Hlk. destruct (Hpl Hlk) as (Hr & ? & old & ->). split; [done|]. assert (k = 3%nat) as -> by lia.
      rewrite settings_copied_all. by apply (reader_sees_whole _ _ Hc Hr).
Qed.

Lemma cfg_inv_step c e c' : cfg_inv c -> exec_cfg c e = Some c' -> cfg_inv c'.
Proof.
  intros Hc E. pose proof (ci_accepted _ Hc). pose proof (ci_lock _ Hc) as Hinv.
  destruct e as [i op|e|i]; simpl in E.
  - destruct (pcs c !! i) as [[| | |]|] eqn:Hi; try done. simpl in E. apply bind_Some in E as (l & El & E).
    simplify_eq. destruct (lk_call_ok _ _ _ _ Hinv El) as [Hl Hh].
    by eapply (cfg_inv_update c _ i _ _ Hc Hi); [reflexivity|done|by intros; apply Hh|left|..].
  - apply bind_Some in E as ([l o] & El & E). destruct (lk_step_ok _ _ _ _ Hinv El) as [Hl Hh].
    destruct o as [[[i q] r]|].
    + destruct (pcs c !! i) as [[|op| |op buf ret locked]|] eqn:Hi; try done; simpl in E.
      * destruct (decide (q = op_req op)) as [->|]; [|done]. simplify_eq. by apply after_lock_inv.
      * destruct (decide (q = UnReq)); [|done]. simplify_eq.
        eapply (cfg_inv_update c _ i _ _ Hc Hi); [reflexivity|done| |by left|done|done|done].
        intros j Hj. rewrite Hh. by rewrite decide_False by congruence.
    + simplify_eq. constructor; simpl; [done|by apply Hc| |done]. intros j p Hj. rewrite Hh. by apply (ci_place _ Hc).
  - destruct (pcs c !! i) as [[| |op k buf ret locked|]|] eqn:Hi; try done. simpl in E.
    destruct (Nat.ltb_spec k (accesses op)); [simplify_eq; by apply access_inv|].
    apply bind_Some in E as (l & El & E). simplify_eq. destruct (lk_call_ok _ _ _ _ Hinv El) as [Hl Hh].
    by eapply unlock_call_inv.
Qed.

Lemma cfg_inv_run c es c' : cfg_inv c -> run_cfg c es = Some c' -> cfg_inv c'.
Proof.
  revert c. induction es as [|e es IH]; intros c Hc E; simpl in E; [by simplify_eq|].
  apply bind_Some in E as (c1 & E1 & E). eapply IH; [|done]. by eapply cfg_inv_step.
Qed.

(** ** Properties *)

(** What a return says of the settings at that moment. *)
Definition return_ok (c : cfg) (r : cfg_return) : Prop :=
  match r_op r with
  | SetOversampling d =>
      (r_ret r = 0 /\ valid_oversampling d = true /\ current c = d) \/
      (r_ret r = - EINVAL /\ valid_oversampling d = false) \/
      (r_ret r = - ETIMEDOUT /\ r_locked r = false)
  | GetOversampling => r_ret r = 0 /\ (r_locked r = true -> r_buf r = current c)
  | SetSensor _ _ => True
  end.

(** C28: the settings are an atomic register, against any lock that keeps the
    promise, for every interleaving of the clients' single accesses.  Every
    accepted set has values between 0 and 16.  A set returns 0 while its
    values are the settings, -EINVAL exactly for invalid values, or -ETIMEDOUT
    without the lock.  A get always returns 0; if its rwlock_rdlock succeeded
    it returns the three values of the last set that was accepted, and nothing
    is said of the values otherwise.  Clients keep the lock's contract: the
    rwlock_unlock that the code makes after a failed rwlock_rdlock or
    rwlock_wrlock, without the lock, is no event of these executions, and its
    client stays there ([config_get_after_timeout]: a get that times out has
    read a mixture, and its unlock takes the lock of the writer). *)
Theorem config_register l d n es c e c' r :
  inv l -> run_cfg (cfg_start l d v0 n) es = Some c -> exec_cfg c e = Some c' -> returns c' = r :: returns c ->
  return_ok c r /\ current c' = current c /\ Forall (fun v => valid_oversampling v = true) (accepted c).
Proof.
  intros Hl Hrun E Hr. pose proof (cfg_inv_run _ _ _ (cfg_inv_start l d n Hl) Hrun) as Hc.
  assert (forall (x : cfg_return) xs, xs = x :: xs -> False) as Hno.
  { intros x xs Hx. apply (f_equal length) in Hx. simpl in Hx. lia. }
  destruct e as [i op|e|i]; simpl in E.
  - destruct (pcs c !! i) as [[| | |]|]; try done. simpl in E. apply bind_Some in E as (l1 & _ & E).
    simplify_eq/=. by destruct (Hno r (returns c)).
  - apply bind_Some in E as ([l1 o] & _ & E). destruct o as [[[i q] x]|]; [|simplify_eq/=; by destruct (Hno r (returns c))].
    destruct (pcs c !! i) as [[|op| |op buf ret locked]|] eqn:Hi; try done; simpl in E.
    + destruct (decide _); [|done]. simplify_eq. unfold after_lock in *. destruct op as [v| |w os].
      * destruct (x =? 0); simpl in *; [destruct (valid_oversampling v); simpl in *; by destruct (Hno r (returns c))|].
        simplify_eq/=. split_and!; [|done|apply Hc]. right. right. done.
      * simpl in Hr. by destruct (Hno r (returns c)).
      * simpl in Hr. by destruct (Hno r (returns c)).
    + destruct (decide _); [|done]. simplify_eq/=. split_and!; [|done|apply Hc].
      pose proof (ci_place _ Hc _ _ Hi) as Hpl. unfold return_ok. simpl. destruct op as [v| |w os]; [| |done]; simpl in Hpl.
      * destruct (valid_oversampling v) eqn:Hv; [left|right; left; done]. by destruct Hpl as (? & ? & ?).
      * destruct Hpl as [? Hpl]. split; [done|]. intros Hk. by destruct (Hpl Hk).
  - destruct (pcs c !! i) as [[| |op k buf ret locked|]|]; try done. simpl in E.
    destruct (k <? accesses op)%nat.
    + simplify_eq. unfold access in *. destruct op as [v| |w os]; [simpl in Hr; by destruct (Hno r (returns c))..|].
      destruct (set_sensor_settings w os (dev c)). simpl in Hr. by destruct (Hno r (returns c)).
    + apply bind_Some in E as (l1 & _ & E). simplify_eq/=. by destruct (Hno r (returns c)).
Qed.
End clients.

(** ** Witnesses *)

Definition no_sensor (which : nat) (os : Z) (d : unit) : unit * Z := (d, - EIO).
Definition os_0 : oversampling := {| os_temp := 0; os_press := 0; os_hum := 0 |}.
Definition os_a : oversampling := {| os_temp := 1; os_press := 2; os_hum := 4 |}.
Definition free_lock : config rwlock rw_point hold := start rwlock_init (replicate 2 NoHold).

(** Client 0 sets, client 1 waits to read meanwhile, and then does. *)
Definition set_then_get : list (cfg_event (event rw_point)) :=
  [CallOp 0 (SetOversampling os_a); LockStep (Run 0 0); Access 0; CallOp 1 GetOversampling; LockStep (Run 1 0);
   Access 0; Access 0; Access 0; LockStep (Run 0 0); LockStep (Run 1 0); Access 1; Access 1; Access 1; Access 1].

Lemma config_register_witness :
  exists c c' r, run_cfg no_sensor os_0 (cfg_start free_lock tt os_0 2) set_then_get = Some c /\
    exec_cfg no_sensor os_0 c (LockStep (Run 1 0)) = Some c' /\ returns c' = r :: returns c /\
    r_buf r = os_a /\ return_ok os_0 c r.
Proof.
  eexists _, _, _. split; [vm_compute; reflexivity|]. split; [vm_compute; reflexivity|].
  split; [reflexivity|]. split; [reflexivity|].
  eapply (config_register no_sensor os_0 os_0 free_lock tt 2 set_then_get _ (LockStep (Run 1 0)));
    [|vm_compute; reflexivity|vm_compute; reflexivity|reflexivity].
  split; [apply (rw_inv_start 2)|constructor].
Defined.

(** A get whose rwlock_rdlock timed out reads beside the writer, a mixture
    of two sets, and then calls rwlock_unlock without holding the lock: the
    function returns 0 and takes away the lock of the writer, who is still
    writing. *)
Theorem config_get_after_timeout :
  exists es c buf rw', run_cfg no_sensor os_0 (cfg_start free_lock tt os_0 2) es = Some c /\
    pcs c = [CfgRun (SetOversampling os_a) 1 os_0 0 true; CfgRun GetOversampling 3 buf 0 false] /\
    buf <> os_0 /\ buf <> os_a /\ lk_holds (lock c) 0 = WrHold /\
    exec_cfg no_sensor os_0 c (Access 1) = None /\
    rwlock_unlock (shared (lock c)) = Return rw' (Broadcast readers_proceed) 0 /\ active_writers rw' = 0.
Proof.
  exists [CallOp 0 (SetOversampling os_a); LockStep (Run 0 0); Access 0; CallOp 1 GetOversampling; LockStep (Run 1 0);
    LockStep (Wake 1 ETIMEDOUT); LockStep (Run 1 0); Access 1; Access 1; Access 1].
  eexists _, _, _. split; [vm_compute; reflexivity|]. split; [reflexivity|].
  split; [discriminate|]. split; [discriminate|]. split; [reflexivity|]. split; [reflexivity|].
  split; [vm_compute; reflexivity|]. reflexivity.
Qed.
