(* ===== verification/FifoSemaphore.v ===== *)
(** * FifoSemaphore: the counting semaphore (fifo_semaphore.c)

    The shared state is [sem->count], a C int.  [fifo_semaphore_wait] is the
    code up to the first wait, [wait_resume] the code from a return of
    pthread_cond_timedwait, [fifo_semaphore_post] the whole operation.  The
    theorems: the count is the initial value plus the posts minus the
    successful waits and never negative; no post is lost while a thread
    sleeps; and, despite the name, waiters are not served in order. *)

From S2P Require Import Prelude CInt CondMonitor.

Inductive sem_point := SemWait | SemResume | SemPost.

Definition sem_outcome := outcome Z sem_point.

(** The condition variable. *)
Definition sem_cond : nat := 0.

(** The while loop of fifo_semaphore_wait, and what follows it. *)
Definition wait_loop (count : Z) : sem_outcome :=
  if count <=? 0 then Wait count SemResume sem_cond
  else if count <? 0 then Return count NoSignal (- EINVAL)
  else Return (count -[S32] 1) NoSignal 0.

Definition fifo_semaphore_wait (count : Z) : sem_outcome := wait_loop count.

Definition wait_resume (ret count : Z) : sem_outcome :=
  if ret =? ETIMEDOUT then Return count NoSignal (- ETIMEDOUT)
  else if negb (ret =? 0) then Return count NoSignal ret
  else wait_loop count.

Definition fifo_semaphore_post (count : Z) : sem_outcome :=
  let count := count +[S32] 1 in
  if count <? 0 then Return count NoSignal (- EINVAL)
  else Return count (Signal sem_cond) 0.

Definition sem_code (_ : nat) (p : sem_point) (ret count : Z) : sem_outcome :=
  match p with
  | SemWait => fifo_semaphore_wait count
  | SemResume => wait_resume ret count
  | SemPost => fifo_semaphore_post count
  end.

(** Any thread may wait or post at any time. *)
#[export] Instance sem_program : Program Z sem_point unit := {|
  code := sem_code;
  on_return _ _ g := g;
  may_call _ p := match p with SemResume => false | _ => true end;
  wake_ok _ r := 0 <=? r;
|}.



(** ** Lemmas *)

(** The successful posts and waits of a history. *)
Definition posted (x : nat * sem_point * Z) : bool :=
  match x with (_, SemPost, r) => r =? 0 | _ => false end.
Definition acquired (x : nat * sem_point * Z) : bool :=
  match x with (_, (SemWait | SemResume), r) => r =? 0 | _ => false end.

Definition sem_start (n : nat) (value : Z) : config Z sem_point unit := start value (replicate n tt).

(** The accounts balance as long as the count cannot have overflowed. *)
Definition account (value : Z) (c : config Z sem_point unit) : Prop :=
  value + Z.of_nat (length (hist c)) < 2 ^ 31 ->
  shared c = value + count_if posted (hist c) - count_if acquired (hist c) /\
  0 <= shared c /\ Forall (fun t => match t.1 with Ready _ ret => 0 <= ret | _ => True end) (threads c).

(** One stretch of code on a count without overflow. *)
Lemma sem_code_ok i p ret count :
  0 <= count < 2 ^ 31 - 1 -> 0 <= ret ->
  match sem_code i p ret count with
  | Return count' sg r =>
      count' = count + Z.b2z (posted (i, p, r)) - Z.b2z (acquired (i, p, r)) /\ 0 <= count' /\
      (p = SemPost -> sg = Signal sem_cond) /\ (p <> SemPost -> sg = NoSignal) /\
      (p = SemPost \/ (p = SemResume /\ 0 < ret) \/ r = 0)
  | Wait count' p' cv => count' = count /\ count = 0 /\ p' = SemResume /\ cv = sem_cond /\
      p <> SemPost /\ (p = SemResume -> ret = 0)
  | _ => False
  end.
Proof.
  intros Hc Hr. change (2 ^ 31) with 2147483648 in Hc.
  assert (count +[S32] 1 = count + 1) as E1
    by (apply cast_id; unfold in_range, tmax; simpl; lia).
  unfold sem_code, fifo_semaphore_wait, wait_resume, wait_loop, fifo_semaphore_post.
  destruct p.
  - destruct (Z.leb_spec count 0); [split_and!; by (done || lia)|].
    destruct (Z.ltb_spec count 0); [lia|].
    rewrite cast_id by (unfold in_range, tmax; simpl; lia).
    simpl. split_and!; by (done || lia || auto).
  - destruct (Z.eqb_spec ret ETIMEDOUT) as [->|].
    { simpl. split_and!; try (done || lia). right; left. done. }
    destruct (Z.eqb_spec ret 0) as [->|]; simpl.
    2: { destruct (Z.eqb_spec ret 0); [done|]. simpl. split_and!; try (done || lia). right; left. split; [done|lia]. }
    destruct (Z.leb_spec count 0); [split_and!; by (done || lia)|].
    destruct (Z.ltb_spec count 0); [lia|].
    rewrite cast_id by (unfold in_range, tmax; simpl; lia).
    simpl. split_and!; by (done || lia || auto).
  - rewrite E1. destruct (Z.ltb_spec (count + 1) 0); [lia|].
    simpl. split_and!; by (done || lia || auto).
Qed.

(** The code returns or waits on the one condition variable, for want of a
    count. *)
Lemma sem_code_shape i p ret count :
  (exists count' sg r, sem_code i p ret count = Return count' sg r) \/
  (sem_code i p ret count = Wait count SemResume sem_cond /\ count <= 0 /\ p <> SemPost).
Proof.
  unfold sem_code, fifo_semaphore_wait, wait_resume, wait_loop, fifo_semaphore_post.
  destruct p; repeat match goal with |- context [if ?b then _ else _] => destruct b eqn:? end;
    eauto; right; split_and!; done || lia.
Qed.

Lemma account_start n value : 0 <= value -> account value (sem_start n value).
Proof.
  intros Hv _. unfold sem_start. rewrite start_threads. simpl.
  split_and!; [lia|lia|]. by apply Forall_replicate.
Qed.

(** The threads' wait results stay non-negative. *)
Lemma deliver_rets sg pick (ts ts' : list (thread sem_point unit)) :
  deliver sg pick ts = Some ts' ->
  Forall (fun t => match t.1 with Ready _ ret => 0 <= ret | _ => True end) ts ->
  Forall (fun t => match t.1 with Ready _ ret => 0 <= ret | _ => True end) ts'.
Proof.
  intros Hd Hts. apply Forall_lookup. intros j t' Hj.
  destruct (deliver_lookup _ _ _ _ _ _ Hd Hj) as (t & Ht & [->|(q & cv & g & -> & -> & _)]); [|done].
  by apply (Forall_lookup_1 _ _ _ _ Hts Ht).
Qed.

Lemma account_step value c e c' :
  0 <= value -> account value c -> exec_event c e = Some c' -> account value c'.
Proof.
  intros Hv HC E Hlen. apply step_cases in E.
  destruct E as [i p g Hi Hm Hs Hh Ht|i p cv ret g Hi Hm Hs Hh Ht
    |i pick p ret g s sg r Hi Hc Hs Hh Hd|i pick p ret g s sg p' Hi Hc Hs Hh Hd
    |i pick p ret g s p' cv Hi Hc Hs Hh Ht|i pick p ret g Hi Hc Hs Hh Ht].
  all: rewrite Hh in Hlen |- *; simpl in Hlen; destruct HC as (HA & H0 & Hts); [lia|].
  3-6: assert (0 <= ret) as Hret by apply (Forall_lookup_1 _ _ _ _ Hts Hi).
  1,2: rewrite Hs, Ht; split_and!; [done..|]; apply Forall_insert; [done|].
  - done.
  - by apply Z.leb_le.
  - pose proof (count_if_nonneg acquired (hist c)).
    pose proof (count_if_le_length posted (hist c)).
    pose proof (sem_code_ok i p ret (shared c)) as Hcode.
    change (sem_code i p ret (shared c)) with (code i p ret (shared c)) in Hcode.
    rewrite Hc in Hcode. change (2 ^ 31) with 2147483648 in *.
    destruct Hcode as (-> & Hn & _); [lia|done|]. rewrite Hs. cbn [count_if].
    split_and!; [lia|lia|]. eapply deliver_rets; [done|]. by apply Forall_insert.
  - by destruct (sem_code_shape i p ret (shared c)) as [(? & ? & ? & E)|[E _]];
      change (sem_code i p ret (shared c)) with (code i p ret (shared c)) in E; rewrite Hc in E.
  - destruct (sem_code_shape i p ret (shared c)) as [(? & ? & ? & E)|(E & _)];
      change (sem_code i p ret (shared c)) with (code i p ret (shared c)) in E;
      rewrite Hc in E; [done|injection E as -> -> ->].
    rewrite Hs, Ht. split_and!; [done..|]. by apply Forall_insert.
  - by destruct (sem_code_shape i p ret (shared c)) as [(? & ? & ? & E)|[E _]];
      change (sem_code i p ret (shared c)) with (code i p ret (shared c)) in E; rewrite Hc in E.
Qed.

(** *** No post is lost *)

(** A thread about to take the count, and one asleep. *)
Definition ready_sem (t : thread sem_point unit) : bool :=
  match t.1 with Ready SemResume ret => ret =? 0 | _ => false end.

(** Sleepers only sleep for want of a count, or with enough threads awake to
    take what there is. *)
Definition post_kept (c : config Z sem_point unit) : Prop :=
  Forall (fun t => match t.1 with Waiting p cv => p = SemResume /\ cv = sem_cond | _ => True end)
    (threads c) /\
  (0 < count_if (waits_on sem_cond) (threads c) -> shared c <= count_if ready_sem (threads c)).

Lemma deliver_waiting sg pick (ts ts' : list (thread sem_point unit)) :
  deliver sg pick ts = Some ts' ->
  Forall (fun t => match t.1 with Waiting p cv => p = SemResume /\ cv = sem_cond | _ => True end) ts ->
  Forall (fun t => match t.1 with Waiting p cv => p = SemResume /\ cv = sem_cond | _ => True end) ts'.
Proof.
  intros Hd Hts. apply Forall_lookup. intros j t' Hj.
  destruct (deliver_lookup _ _ _ _ _ _ Hd Hj) as (t & Ht & [->|(q & cv & g & -> & -> & _)]); [|done].
  by apply (Forall_lookup_1 _ _ _ _ Hts Ht).
Qed.

(** A count that does not grow, and a thread that was not about to take it. *)
Lemma kept_quiet (ts ts' : list (thread sem_point unit)) i t t' n n' :
  ts !! i = Some t -> ts' = <[i := t']> ts ->
  waits_on sem_cond t' = false -> 0 <= delta ready_sem t t' + (n - n') ->
  (0 < count_if (waits_on sem_cond) ts -> n <= count_if ready_sem ts) ->
  0 < count_if (waits_on sem_cond) ts' -> n' <= count_if ready_sem ts'.
Proof.
  intros Hi -> Hw Hd H Hpos. rewrite !(count_insert_delta _ _ _ _ _ Hi) in *.
  unfold delta at 1 in Hpos. rewrite Hw in Hpos.
  destruct (waits_on sem_cond t); simpl in Hpos; lia.
Qed.

(** A post wakes a sleeper, if there is one, to take the new count. *)
Lemma kept_post (ts ts' : list (thread sem_point unit)) i pick t g n n' :
  ts !! i = Some t -> ready_sem t = false -> waits_on sem_cond t = false ->
  Forall (fun t => match t.1 with Waiting p cv => p = SemResume /\ cv = sem_cond | _ => True end)
    (<[i := (Idle, g)]> ts) ->
  deliver (Signal sem_cond) pick (<[i := (Idle, g)]> ts) = Some ts' -> n' <= n + 1 ->
  (0 < count_if (waits_on sem_cond) ts -> n <= count_if ready_sem ts) ->
  0 < count_if (waits_on sem_cond) ts' -> n' <= count_if ready_sem ts'.
Proof.
  intros Hi Hr Hw HW Hd Hn H Hpos.
  assert (count_if (waits_on sem_cond) (<[i := (Idle, g)]> ts) = count_if (waits_on sem_cond) ts) as Ew
    by (rewrite (count_if_insert _ _ _ _ _ Hi), Hw; simpl; lia).
  assert (count_if ready_sem (<[i := (Idle, g)]> ts) = count_if ready_sem ts) as Er
    by (rewrite (count_if_insert _ _ _ _ _ Hi), Hr; simpl; lia).
  apply deliver_signal in Hd as [[H0 ->]|(q & g' & Hq & ->)]; [lia|].
  pose proof (Forall_lookup_1 _ _ _ _ HW Hq) as [-> _].
  pose proof (count_if_lookup (waits_on sem_cond) _ _ _ Hq eq_refl).
  rewrite (count_if_insert _ _ _ _ _ Hq). simpl. lia.
Qed.

Lemma post_or_wait p : p = SemPost \/ p <> SemPost.
Proof. destruct p; auto. Qed.

Lemma post_kept_step c e c' :
  (exists value, 0 <= value /\ account value c /\
                 value + Z.of_nat (length (hist c')) < 2 ^ 31) ->
  post_kept c -> exec_event c e = Some c' -> post_kept c'.
Proof.
  intros (value & Hv & HA & Hlen) [HW HK] E. apply step_cases in E.
  destruct E as [i p g Hi Hm Hs Hh Ht|i p cv ret g Hi Hm Hs Hh Ht
    |i pick p ret g s sg r Hi Hc Hs Hh Hd|i pick p ret g s sg p' Hi Hc Hs Hh Hd
    |i pick p ret g s p' cv Hi Hc Hs Hh Ht|i pick p ret g Hi Hc Hs Hh Ht].
  all: rewrite Hh in Hlen; simpl in Hlen; destruct HA as (HA & H0 & Hts); [lia|].
  3-6: assert (0 <= ret) as Hret by apply (Forall_lookup_1 _ _ _ _ Hts Hi);
    pose proof (sem_code_shape i p ret (shared c)) as Hshape;
    change (sem_code i p ret (shared c)) with (code i p ret (shared c)) in Hshape;
    rewrite Hc in Hshape.
  - split; [rewrite Ht; by apply Forall_insert|]. rewrite Hs.
    eapply kept_quiet; [done..| |done]. destruct p; try done; unfold delta; simpl; lia.
  - pose proof (Forall_lookup_1 _ _ _ _ HW Hi) as [-> ->].
    split; [rewrite Ht; by apply Forall_insert|]. rewrite Hs.
    eapply kept_quiet; [done..| |done]. unfold delta, ready_sem; simpl.
    destruct (ret =? 0); simpl; lia.
  - assert (Forall (fun t => match t.1 with Waiting p cv => p = SemResume /\ cv = sem_cond
        | _ => True end) (<[i := (Idle, on_return p r g)]> (threads c))) as HW1
      by by apply Forall_insert.
    split; [by eapply deliver_waiting|].
    pose proof (count_if_nonneg acquired (hist c)).
    pose proof (count_if_le_length posted (hist c)).
    pose proof (sem_code_ok i p ret (shared c)) as Hcode.
    change (sem_code i p ret (shared c)) with (code i p ret (shared c)) in Hcode.
    rewrite Hc in Hcode. change (2 ^ 31) with 2147483648 in *.
    destruct Hcode as (Hn & _ & Hsg & Hno & Hr); [lia|done|]. rewrite Hs, Hn.
    destruct (post_or_wait p) as [Hp|Hp].
    + rewrite (Hsg Hp) in Hd. intros Hpos. subst p. eapply kept_post; try done; lia.
    + rewrite (Hno Hp) in Hd. simpl in Hd. injection Hd as Hd.
      eapply kept_quiet; [exact Hi|symmetry; exact Hd|done| |exact HK].
      unfold delta, ready_sem, posted, acquired.
      destruct p; cbn [fst snd]; [..|done].
      * destruct (r =? 0); simpl; lia.
      * destruct Hr as [|[[_ Hr]|Hr]]; [done|..].
        -- rewrite (proj2 (Z.eqb_neq ret 0)) by lia. destruct (r =? 0); simpl; lia.
        -- subst r. destruct (ret =? 0); simpl; lia.
  - by destruct Hshape as [(? & ? & ? & E)|[E _]].
  - destruct Hshape as [(? & ? & ? & E)|(E & Hle & _)]; [done|injection E as -> -> ->].
    split; [rewrite Ht; by apply Forall_insert|]. intros _. rewrite Hs, Ht.
    pose proof (count_if_nonneg ready_sem (<[i := (Waiting SemResume sem_cond, g)]> (threads c))). lia.
  - by destruct Hshape as [(? & ? & ? & E)|[E _]].
Qed.

Lemma post_kept_start n value : post_kept (sem_start n value).
Proof.
  unfold post_kept, sem_start. rewrite start_threads, !count_if_replicate. simpl.
  split; [by apply Forall_replicate|lia].
Qed.

(** The history only grows. *)
Lemma hist_grows (c c' : config Z sem_point unit) e :
  exec_event c e = Some c' -> (length (hist c) <= length (hist c'))%nat.
Proof.
  intros E. apply step_cases in E. destruct E as
    [????? ? -> ?|?????? ? ? -> ?|?????????? ? -> ?|?????????? ? -> ?|?????????? ? -> ?|??????? ? -> ?];
    simpl; lia.
Qed.

Lemma sem_reachable n value c :
  0 <= value -> reachable any (sem_start n value) c ->
  account value c /\ (value + Z.of_nat (length (hist c)) < 2 ^ 31 -> post_kept c).
Proof.
  intros Hv. revert c. apply (reachable_inv (fun c =>
    account value c /\ (value + Z.of_nat (length (hist c)) < 2 ^ 31 -> post_kept c))).
  - split; [by apply account_start|intros _; apply post_kept_start].
  - intros c e c' _ [HA HK] E. pose proof (hist_grows _ _ _ E).
    split; [by eapply account_step|]. intros Hlen.
    eapply post_kept_step; [|apply HK; lia|exact E]. exists value. split_and!; [done..|lia].
Qed.

(** ** Properties *)

(** C13: the semaphore counts.  For any number of threads that wait and post in
    any interleaving, with waits ending in every possible way, the count is
    the initial value plus the successful posts minus the successful waits,
    and never negative, so there are never more successful waits than the
    value and the posts allow (as long as fewer than 2^31 - value operations
    have returned, which rules out an overflow of the C int). *)
Theorem fifo_semaphore_account n value c :
  0 <= value -> value + Z.of_nat (length (hist c)) < 2 ^ 31 ->
  reachable any (sem_start n value) c ->
  shared c = value + count_if posted (hist c) - count_if acquired (hist c) /\
  count_if acquired (hist c) <= value + count_if posted (hist c).
Proof.
  intros Hv Hlen Hc. apply sem_reachable in Hc as [HA _]; [|done].
  destruct HA as (HA & H0 & _); [done|]. split; lia.
Qed.

(** No post is lost.  In every reachable configuration with a positive
    count and a thread asleep in [fifo_semaphore_wait], at least as many
    threads as the count have been woken and are about to take it. *)
Theorem fifo_semaphore_no_lost_post n value c i g :
  0 <= value -> value + Z.of_nat (length (hist c)) < 2 ^ 31 ->
  reachable any (sem_start n value) c ->
  threads c !! i = Some (Waiting SemResume sem_cond, g) ->
  shared c <= count_if ready_sem (threads c).
Proof.
  intros Hv Hlen Hc Hi. apply sem_reachable in Hc as [_ HK]; [|done].
  apply HK; [done|].
  pose proof (count_if_lookup (waits_on sem_cond) _ _ _ Hi eq_refl). lia.
Qed.

(** The semaphore is not first-in first-out.  There is a run in which
    thread 0 waits first and thread 1 posts, and a thread 2 that arrives after
    the post takes the count while thread 0 goes back to sleep. *)
Theorem fifo_semaphore_not_fifo :
  exists c, reachable no_wake (sem_start 3 0) c /\
    threads c = [(Waiting SemResume sem_cond, tt); (Idle, tt); (Idle, tt)] /\
    hist c = [(2%nat, SemWait, 0); (1%nat, SemPost, 0)].
Proof.
  exists {| shared := 0;
    threads := [(Waiting SemResume sem_cond, tt); (Idle, tt); (Idle, tt)];
    hist := [(2%nat, SemWait, 0); (1%nat, SemPost, 0)] |}.
  split; [|done].
  exists [Call 0 SemWait; Run 0 0; Call 1 SemPost; Run 1 0; Call 2 SemWait; Run 2 0; Run 0 0].
  by vm_compute.
Qed.

(** ** Witnesses *)

(** Two sleepers, then one post, on a semaphore that starts at 0. *)
Definition sem_events : list (event sem_point) :=
  [Call 0 SemWait; Run 0 0; Call 1 SemWait; Run 1 0; Call 2 SemPost; Run 2 1].

Definition sem_run (es : list (event sem_point)) : config Z sem_point unit :=
  default (sem_start 3 0) (run (sem_start 3 0) es).

Lemma fifo_semaphore_account_witness :
  let c := sem_run (sem_events ++ [Run 1 0]) in
  shared c = 0 /\ count_if acquired (hist c) = 1.
Proof.
  intros c. destruct (fifo_semaphore_account 3 0 c) as [E _].
  - lia.
  - reflexivity.
  - exists (sem_events ++ [Run 1 0]). split; reflexivity.
  - rewrite E. split; reflexivity.
Defined.

Lemma fifo_semaphore_no_lost_post_witness :
  1 <= count_if ready_sem (threads (sem_run sem_events)).
Proof.
  apply (fifo_semaphore_no_lost_post 3 0 (sem_run sem_events) 0 tt).
  - lia.
  - reflexivity.
  - exists sem_events. split; reflexivity.
  - reflexivity.
Defined.
