(* ===== verification/Barrier.v ===== *)
(** * Barrier: the cyclic barrier (barrier.c)

    [struct barrier] is its count and total; [barrier_wait] is the code up to
    the wait, [barrier_wait_resume] what follows the return of
    pthread_cond_wait.  A client counts the rounds it has completed.  The
    theorems: without spurious wake-ups the barrier separates the rounds, and
    never lets all its threads sleep; with one spurious wake-up a thread
    leaves a round that others have not entered, because the wait is not in a
    loop. *)

From S2P Require Import Prelude LinuxLib CondMonitor.

Record barrier := { count : Z; total : Z }.

Inductive barrier_point := BarrierWait | BarrierResume.

Definition barrier_cond : nat := 0.

Definition barrier_init (malloc_ok : bool) (n : Z) : res barrier :=
  if n <=? 0 then Err (- EINVAL)
  else if negb malloc_ok then Err (- ENOMEM)
  else Ok {| count := 0; total := n |}.

Definition barrier_wait (b : barrier) : outcome barrier barrier_point :=
  let b := {| count := count b + 1; total := total b |} in
  if count b <? total b then Wait b BarrierResume barrier_cond
  else Return {| count := 0; total := total b |} (Broadcast barrier_cond) 0.

Definition barrier_wait_resume (b : barrier) : outcome barrier barrier_point :=
  Return b NoSignal 0.

Definition barrier_code (_ : nat) (p : barrier_point) (_ : Z) (b : barrier) :=
  match p with
  | BarrierWait => barrier_wait b
  | BarrierResume => barrier_wait_resume b
  end.

(** The client's knowledge: the number of rounds it has completed. *)
#[export] Instance barrier_program : Program barrier barrier_point Z := {|
  code := barrier_code;
  on_return _ _ g := g + 1;
  may_call _ p := match p with BarrierWait => true | _ => false end;
  wake_ok _ r := true;
|}.

(** [n] threads that meet at a barrier for [n]. *)
Definition barrier_start (n : nat) : config barrier barrier_point Z :=
  start {| count := 0; total := Z.of_nat n |} (replicate n 0).

(** The rounds a thread has entered: those it completed, and the one it is in. *)
Definition entered (t : thread barrier_point Z) : Z :=
  match t with
  | (Waiting _ _, g) | (Ready BarrierResume _, g) => g + 1
  | (_, g) => g
  end.

(** ** The invariant *)

Definition sleeping : thread barrier_point Z -> bool := waits_on barrier_cond.

(** The place of a thread when [r] rounds have been released. *)
Definition in_round (r : Z) (t : thread barrier_point Z) : Prop :=
  match t with
  | (Idle, g) | (Ready BarrierWait _, g) => g = r
  | (Waiting p cv, g) => g = r /\ p = BarrierResume /\ cv = barrier_cond
  | (Ready BarrierResume _, g) => g = r - 1
  | (Hung, _) => False
  end.

Record barrier_inv (r : Z) (c : config barrier barrier_point Z) : Prop := {
  bi_rounds : Forall (in_round r) (threads c);
  bi_total : total (shared c) = Z.of_nat (length (threads c));
  bi_count : count (shared c) = count_if sleeping (threads c);
  bi_room : count (shared c) < total (shared c) \/ threads c = [];
}.

Lemma barrier_inv_start n : barrier_inv 0 (barrier_start n).
Proof.
  unfold barrier_start. constructor; rewrite ?start_threads, ?count_if_replicate; simpl.
  - by apply Forall_replicate.
  - by rewrite length_replicate.
  - done.
  - destruct n; [by right|left; lia].
Qed.

(** The release: everybody else was asleep, and is now leaving the round. *)
Lemma release_rounds r ts ts' i pick :
  Forall (in_round r) ts ->
  (forall j y, j <> i -> ts !! j = Some y -> sleeping y = true) ->
  deliver (Broadcast barrier_cond) pick (<[i := (Idle, r + 1)]> ts) = Some ts' ->
  Forall (in_round (r + 1)) ts' /\ count_if sleeping ts' = 0.
Proof.
  intros Hr Hs Hd. simpl in Hd. injection Hd as <-.
  assert (forall j t', map (fun t => if waits_on barrier_cond t then wake t else t)
      (<[i := (Idle, r + 1)]> ts) !! j = Some t' ->
    in_round (r + 1) t' /\ sleeping t' = false) as Hall.
  { intros j t' Hj. rewrite list_lookup_fmap in Hj.
    destruct (<[i := (Idle, r + 1)]> ts !! j) as [t|] eqn:Ht; [|done].
    simpl in Hj. injection Hj as <-.
    apply list_lookup_insert_case in Ht as [(-> & -> & _)|(Hij & Ht)]; [done|].
    pose proof (Hs _ _ (not_eq_sym Hij) Ht) as Hw. unfold sleeping in Hw. rewrite Hw.
    pose proof (Forall_lookup_1 _ _ _ _ Hr Ht) as Hin.
    destruct t as [[|p ret|p cv|] g']; try done.
    destruct Hin as (-> & -> & ->). simpl. split; [lia|done]. }
  split.
  - apply Forall_lookup. intros j t' Hj. by eapply Hall.
  - apply count_if_zero. intros j t' Hj. by eapply Hall.
Qed.

Lemma barrier_inv_step r c e c' :
  no_wake e = true -> barrier_inv r c -> exec_event c e = Some c' ->
  exists r', barrier_inv r' c'.
Proof.
  intros Hok [Hr Ht Hc Hroom] E. pose proof (step_length _ _ _ E) as Hlen.
  apply step_cases in E.
  destruct E as [i p g Hi Hm Hs Hh Hth|i p cv ret g Hi Hm Hs Hh Hth
    |i pick p ret g s sg x Hi Hcode Hs Hh Hd|i pick p ret g s sg p' Hi Hcode Hs Hh Hd
    |i pick p ret g s p' cv Hi Hcode Hs Hh Hth|i pick p ret g Hi Hcode Hs Hh Hth].
  all: pose proof (Forall_lookup_1 _ _ _ _ Hr Hi) as Hin.
  - exists r. destruct p; [|done]. constructor; rewrite ?Hs, ?Hth, ?length_insert; auto.
    + by apply Forall_insert.
    + rewrite (count_insert_delta _ _ _ _ _ Hi). unfold delta. simpl. lia.
    + destruct Hroom as [|E]; [by left|by rewrite E in Hi].
  - done.
  - destruct p; simpl in Hcode.
    + unfold barrier_wait in Hcode. simpl in Hcode. case_match eqn:Hlt; [done|].
      injection Hcode as <- <- <-. apply Z.ltb_ge in Hlt. exists (r + 1). simpl in Hin. subst g.
      destruct (release_rounds r (threads c) (threads c') i pick) as [H1 H2]; [done| |done|].
      { apply (count_if_all_but sleeping _ i _ Hi); [done|].
        destruct Hroom as [|E]; [lia|by rewrite E in Hi]. }
      constructor; rewrite ?Hs; simpl; [done|lia|lia|].
      left. destruct Hroom as [|E]; [|by rewrite E in Hi].
      pose proof (count_if_nonneg sleeping (threads c)). lia.
    + injection Hcode as <- <- <-. simpl in Hd. injection Hd as Hd. exists r.
      simpl in Hin. constructor; rewrite ?Hs, <- ?Hd, ?length_insert; auto.
      * apply Forall_insert; [done|]. simpl. lia.
      * rewrite (count_insert_delta _ _ _ _ _ Hi). unfold delta. simpl. lia.
      * destruct Hroom as [|E]; [by left|by rewrite E in Hi].
  - by destruct p; simpl in Hcode; unfold barrier_wait in Hcode; [case_match|].
  - destruct p; simpl in Hcode; [|done].
    unfold barrier_wait in Hcode. simpl in Hcode. case_match eqn:Hlt; [|done].
    injection Hcode as <- <- <-. apply Z.ltb_lt in Hlt. exists r. simpl in Hin.
    constructor; rewrite ?Hs, ?Hth, ?length_insert; simpl; auto.
    + by apply Forall_insert.
    + rewrite (count_insert_delta _ _ _ _ _ Hi). unfold delta. simpl. lia.
  - by destruct p; simpl in Hcode; unfold barrier_wait in Hcode; [case_match|].
Qed.

Lemma barrier_reachable n c :
  reachable no_wake (barrier_start n) c -> exists r, barrier_inv r c.
Proof.
  revert c. apply (reachable_inv (fun c => exists r, barrier_inv r c)).
  - exists 0. apply barrier_inv_start.
  - intros c e c' Hok [r Hc] E. by eapply barrier_inv_step.
Qed.

(** ** Properties *)

(** C10: the barrier separates the rounds.  As long as no wait returns
    spuriously, in every interleaving of [n] threads at a barrier for [n]: a
    thread has completed a round only if every other thread has entered it. *)
Theorem barrier_no_early_exit n c i j ti tj :
  reachable no_wake (barrier_start n) c ->
  threads c !! i = Some ti -> threads c !! j = Some tj -> ti.2 <= entered tj.
Proof.
  intros Hc Hi Hj. apply barrier_reachable in Hc as [r [Hr _ _ _]].
  pose proof (Forall_lookup_1 _ _ _ _ Hr Hi) as H1.
  pose proof (Forall_lookup_1 _ _ _ _ Hr Hj) as H2.
  destruct ti as [[|[] ?|? ?|] gi], tj as [[|[] ?|? ?|] gj]; simpl in *; destruct_and?; subst; try done; lia.
Qed.

(** Not everybody sleeps. *)
Lemma barrier_awake r c :
  barrier_inv r c -> (0 < length (threads c))%nat -> exists i t, threads c !! i = Some t /\ sleeping t = false.
Proof.
  intros [Hr Ht Hcount Hroom] Hlen. destruct Hroom as [Hroom|E]; [|rewrite E in Hlen; simpl in Hlen; lia].
  destruct (count_if_pos (fun t => negb (sleeping t)) (threads c)) as (i & t & Hi & Hneg).
  - rewrite Ht, Hcount in Hroom. clear - Hroom.
    induction (threads c) as [|t ts IH]; simpl in *; [lia|].
    pose proof (count_if_nonneg (fun t => negb (sleeping t)) ts).
    destruct (sleeping t); simpl in *; lia.
  - exists i, t. split; [done|]. by destruct (sleeping t).
Qed.

(** The barrier never deadlocks.  As long as no wait returns spuriously,
    in every reachable configuration of at least one thread some thread is
    not asleep: the last one to arrive releases the others. *)
Theorem barrier_not_all_asleep n c :
  reachable no_wake (barrier_start (S n)) c ->
  exists i t, threads c !! i = Some t /\ sleeping t = false.
Proof.
  intros Hc. assert (length (threads c) = S n) as Hlen.
  { revert c Hc. apply reachable_inv.
    - unfold barrier_start. rewrite start_threads. by rewrite length_replicate.
    - intros c e c' _ Hc E. by rewrite (step_length _ _ _ E). }
  apply barrier_reachable in Hc as [r Hr]. apply (barrier_awake r); [done|lia].
Qed.

(** One spurious wake-up breaks the barrier.  Two threads, a barrier for
    two: thread 0 arrives and sleeps, its wait returns spuriously, and it
    leaves the round that thread 1 has not entered (the wait is not in a
    loop that re-examines a condition). *)
Theorem barrier_spurious_wakeup :
  exists c ti tj, reachable any (barrier_start 2) c /\
    threads c !! 0%nat = Some ti /\ threads c !! 1%nat = Some tj /\
    ti.2 = 1 /\ entered tj = 0.
Proof.
  exists {| shared := {| count := 1; total := 2 |};
    threads := [(Idle, 1); (Idle, 0)]; hist := [(0%nat, BarrierResume, 0)] |}, (Idle, 1), (Idle, 0).
  split_and!; [|done..].
  exists [Call 0 BarrierWait; Run 0 0; Wake 0 0; Run 0 0]. by vm_compute.
Qed.

(** ** Witnesses *)

(** Three threads through a round, thread 0 already in the next one. *)
Definition barrier_events : list (event barrier_point) :=
  [Call 0 BarrierWait; Call 1 BarrierWait; Run 1 0; Call 2 BarrierWait; Run 0 0; Run 2 0;
   Run 0 0; Call 0 BarrierWait; Run 0 0].

Definition barrier_run : config barrier barrier_point Z :=
  default (barrier_start 3) (run (barrier_start 3) barrier_events).

Lemma barrier_no_early_exit_witness : 1 <= entered (Ready BarrierResume 0, 0).
Proof.
  apply (barrier_no_early_exit 3 barrier_run 2 1 (Idle, 1) (Ready BarrierResume 0, 0)).
  - exists barrier_events. split; reflexivity.
  - reflexivity.
  - reflexivity.
Defined.

Lemma barrier_not_all_asleep_witness :
  exists i t, threads barrier_run !! i = Some t /\ sleeping t = false.
Proof.
  apply (barrier_not_all_asleep 2). exists barrier_events. split; reflexivity.
Defined.
