(* ===== verification/AssemblyLine.v ===== *)
(** * AssemblyLine: stages that share one sample (assembly_line.c)

    Every stage loops: barrier_wait, think, add one to the temperature, eat,
    done.  The addition is a load and a store; it comes before the forks are
    taken and outside the line's mutex, so nothing keeps two stages apart
    there: [exec_al] interleaves them freely.  What the barrier promises
    (Barrier proves it of barrier.c without spurious wake-ups) is the guard of
    [Leave]: a stage leaves a round when all have arrived.  Clients copy
    samples in and out under the mutex, which the stages do not take.

    The application's struct bme680_fifo_data is not in the repository: the
    kernel's has an s32 temperature (bme680.c), and bme680_app.c fills it with
    float values.  The addition is an argument therefore ([TempType]), exact in
    a range; both types are instances of it.

    The theorems: as long as the range is not left, after any number of rounds
    the temperature has grown by at least one and at most the number of stages
    per round, whatever the interleaving, and both bounds are reached, so that
    updates get lost; and a sample given to the line can be lost whole. *)

From S2P Require Import Prelude CInt.

(** ** The type of the temperature *)

(** [plus_one]: what [temp += 1.0] stores.  The temperatures are whole
    degrees. *)
Class TempType := {
  plus_one : Z -> Z;
  temp_lo : Z; temp_hi : Z;
  plus_one_exact v : temp_lo <= v < temp_hi -> plus_one v = v + 1;
}.

(** An s32: the sum is exact as a double, and converted back.  (Out of the
    range of s32 that conversion is undefined; nothing depends on it.) *)
#[export, program] Instance temp_s32 : TempType := {|
  plus_one v := cast S32 (v + 1); temp_lo := tmin S32; temp_hi := tmax S32;
|}.
Next Obligation. intros v H. apply cast_id. unfold in_range. lia. Qed.

(** A float: the sum is rounded to 24 significant bits, ties to even. *)
Definition round_float (v : Z) : Z :=
  let ulp := 2 ^ Z.max 0 (Z.log2 (Z.abs v) - 23) in
  let q := Z.div v ulp in
  let r := Z.modulo v ulp in
  if (2 * r <? ulp) || ((2 * r =? ulp) && Z.even q) then q * ulp else (q + 1) * ulp.

Lemma round_float_exact v : Z.abs v <= 2 ^ 24 -> round_float v = v.
Proof.
  intros Hv. unfold round_float. destruct (Z.eq_dec (Z.abs v) (2 ^ 24)) as [E|E].
  - rewrite E. destruct (Z.abs_spec v) as [[_ Ha]|[_ Ha]]; rewrite Ha in E; [by subst|].
    assert (v = - 2 ^ 24) as -> by lia. done.
  - assert (Z.log2 (Z.abs v) <= 23) as Hl.
    { destruct (Z.eq_dec v 0) as [->|Hn]; [done|]. assert (Z.log2 (Z.abs v) < 24) by (apply Z.log2_lt_pow2; lia). lia. }
    replace (Z.max 0 (Z.log2 (Z.abs v) - 23)) with 0 by lia. cbv zeta. rewrite Z.pow_0_r, Z.div_1_r, Z.mod_1_r. simpl. lia.
Qed.

#[export, program] Instance temp_float : TempType := {|
  plus_one v := round_float (v + 1); temp_lo := - 2 ^ 24; temp_hi := 2 ^ 24;
|}.
Next Obligation. intros v H. apply round_float_exact. lia. Qed.

Section line.
Context {T : TempType}.

(** ** The stages *)

(** [Arrived]: in barrier_wait; [Working]: after it; [Loaded v]: the old value
    has been read; [Stored]: the new one is written, in eat or done. *)
Inductive stage_pc := Between | Arrived | Working | Loaded (v : Z) | Stored.

(** A stage, with the rounds in which it has arrived and has stored. *)
Record stage := { pc : stage_pc; arrivals : nat; stores : nat }.

Record assembly_line := { temp : Z; stages : list stage }.

Definition set_stage (i : nat) (s : stage) (al : assembly_line) : assembly_line :=
  {| temp := temp al; stages := <[i := s]> (stages al) |}.
Definition set_temp (t : Z) (al : assembly_line) : assembly_line :=
  {| temp := t; stages := stages al |}.

Inductive al_event :=
| Arrive (i : nat) | Leave (i : nat) | Load (i : nat) | Store (i : nat) | EatDone (i : nat)
| Process (t : Z).     (* assembly_line_process *)

(** The stage's step in stage_thread, and assembly_line_process. *)
Definition exec_al (al : assembly_line) (e : al_event) : option assembly_line :=
  match e with
  | Arrive i =>
      s ← stages al !! i;
      match pc s with
      | Between => Some (set_stage i {| pc := Arrived; arrivals := S (arrivals s); stores := stores s |} al)
      | _ => None
      end
  | Leave i =>
      s ← stages al !! i;
      match pc s with
      | Arrived =>
          if forallb (fun s' => (arrivals s <=? arrivals s')%nat) (stages al)
          then Some (set_stage i {| pc := Working; arrivals := arrivals s; stores := stores s |} al) else None
      | _ => None
      end
  | Load i =>
      s ← stages al !! i;
      match pc s with
      | Working => Some (set_stage i {| pc := Loaded (temp al); arrivals := arrivals s; stores := stores s |} al)
      | _ => None
      end
  | Store i =>
      s ← stages al !! i;
      match pc s with
      | Loaded v => Some (set_temp (plus_one v) (set_stage i {| pc := Stored; arrivals := arrivals s; stores := S (stores s) |} al))
      | _ => None
      end
  | EatDone i =>
      s ← stages al !! i;
      match pc s with
      | Stored => Some (set_stage i {| pc := Between; arrivals := arrivals s; stores := stores s |} al)
      | _ => None
      end
  | Process t => Some (set_temp t al)
  end.

Fixpoint run_al (al : assembly_line) (es : list al_event) : option assembly_line :=
  match es with
  | [] => Some al
  | e :: es => al' ← exec_al al e; run_al al' es
  end.

Definition assembly_line_get_result (al : assembly_line) : Z := temp al.

Definition assembly_line_init (num_stages : nat) (t : Z) : assembly_line :=
  {| temp := t; stages := replicate num_stages {| pc := Between; arrivals := 0; stores := 0 |} |}.

Definition no_process (e : al_event) : bool := match e with Process _ => false | _ => true end.

(** ** The invariant *)

Definition total_stores (al : assembly_line) : nat := sum_list_with stores (stages al).

(** A stage by itself: what it has stored, and the value it has loaded. *)
Definition stage_ok (t0 : Z) (total : nat) (s : stage) : Prop :=
  match pc s with
  | Between | Stored => stores s = arrivals s
  | Arrived | Working => S (stores s) = arrivals s
  | Loaded v => S (stores s) = arrivals s /\ t0 + Z.of_nat (stores s) <= v <= t0 + Z.of_nat total
  end.

(** The rounds that stage [s] has left: every stage has arrived in them. *)
Definition left (s : stage) : nat := match pc s with Working | Loaded _ => S (stores s) | _ => stores s end.

Record al_inv (t0 : Z) (al : assembly_line) : Prop := {
  ai_stage i s : stages al !! i = Some s -> stage_ok t0 (total_stores al) s;
  ai_barrier i j s s' : stages al !! i = Some s -> stages al !! j = Some s' -> (left s <= arrivals s')%nat;
  ai_low i s : stages al !! i = Some s -> t0 + Z.of_nat (stores s) <= temp al;
  ai_high : t0 <= temp al <= t0 + Z.of_nat (total_stores al);
}.

Lemma al_inv_init n t0 : al_inv t0 (assembly_line_init n t0).
Proof.
  constructor; simpl.
  - intros i s [-> _]%lookup_replicate. done.
  - intros i j s s' [-> _]%lookup_replicate [-> _]%lookup_replicate. done.
  - intros i s [-> _]%lookup_replicate. simpl. lia.
  - unfold total_stores. simpl. lia.
Qed.

Lemma total_set_stage i s s' (l : list stage) :
  l !! i = Some s ->
  (sum_list_with stores (<[i := s']> l) + stores s = sum_list_with stores l + stores s')%nat.
Proof. revert i. induction l as [|x l IH]; intros [|i] Hi; simplify_eq/=; [lia|]. specialize (IH i Hi). lia. Qed.

Lemma stage_ok_mono t0 n n' s : (n <= n')%nat -> stage_ok t0 n s -> stage_ok t0 n' s.
Proof. unfold stage_ok. destruct (pc s); try done. lia. Qed.

(** The step of one stage, whose arrivals do not decrease. *)
Lemma al_inv_update t0 al al' i s s' :
  al_inv t0 al -> stages al !! i = Some s -> stages al' = <[i := s']> (stages al) ->
  (stores s <= stores s')%nat -> (arrivals s <= arrivals s')%nat ->
  stage_ok t0 (total_stores al') s' ->
  (left s' <= left s \/ forall j x, stages al' !! j = Some x -> left s' <= arrivals x)%nat ->
  (forall j x, stages al' !! j = Some x -> t0 + Z.of_nat (stores x) <= temp al') ->
  t0 <= temp al' <= t0 + Z.of_nat (total_stores al') ->
  al_inv t0 al'.
Proof.
  intros Hal Hi Hs Hst Har Hok Hleft Hlow Hhigh.
  pose proof (total_set_stage i s s' (stages al) Hi) as Htot.
  assert (total_stores al <= total_stores al')%nat as Hmono by (unfold total_stores; rewrite Hs; lia).
  constructor; [..|done|done].
  - intros j x. rewrite Hs. intros Hj. apply list_lookup_insert_case in Hj as [(-> & -> & _)|(_ & Hj)]; [done|].
    eapply stage_ok_mono; [exact Hmono|]. by apply (ai_stage _ _ Hal j).
  - intros j k x y Hj Hk. rewrite Hs in Hj, Hk.
    assert (left x <= arrivals y \/ x = s' /\ left s <= arrivals y)%nat as [?|[-> Hy]]; [|done|].
    + apply list_lookup_insert_case in Hj as [(-> & -> & _)|(_ & Hj)], Hk as [(-> & -> & _)|(_ & Hk)].
      * right. split; [done|]. pose proof (ai_barrier _ _ Hal _ _ _ _ Hi Hi). lia.
      * right. split; [done|]. pose proof (ai_barrier _ _ Hal _ _ _ _ Hi Hk). lia.
      * left. pose proof (ai_barrier _ _ Hal _ _ _ _ Hj Hi). lia.
      * left. by apply (ai_barrier _ _ Hal _ _ _ _ Hj Hk).
    + destruct Hleft as [?|Hleft]; [lia|]. apply (Hleft k). by rewrite Hs.
Qed.

(** What the others have stored while a stage is between its load and its
    store. *)
Lemma others_stored t0 al i j s x :
  al_inv t0 al -> stages al !! i = Some s -> stages al !! j = Some x -> (stores x <= arrivals s)%nat.
Proof.
  intros Hal Hi Hj. pose proof (ai_barrier _ _ Hal _ _ _ _ Hj Hi). unfold left in *. destruct (pc x); lia.
Qed.

(** Stores are never taken back. *)
Lemma total_mono al e al' : exec_al al e = Some al' -> (total_stores al <= total_stores al')%nat.
Proof.
  intros E. destruct e as [i|i|i|i|i|t]; simpl in E; [..|by injection E as <-];
    destruct (stages al !! i) as [s|] eqn:Hi; try done; simpl in E; destruct (pc s); try done;
    try (destruct (forallb _ _); [|done]); injection E as <-; unfold total_stores; simpl;
    match goal with |- context [<[i := ?s']> _] => pose proof (total_set_stage i s s' _ Hi) end; simpl in *; lia.
Qed.

(** The start and all the stores lie where the addition is exact. *)
Definition in_temp_range (t0 : Z) (al : assembly_line) : Prop :=
  temp_lo <= t0 /\ t0 + Z.of_nat (total_stores al) <= temp_hi.

Lemma al_inv_step t0 al e al' :
  al_inv t0 al -> no_process e = true -> exec_al al e = Some al' -> in_temp_range t0 al' -> al_inv t0 al'.
Proof.
  intros Hal He E [Hlo Hhi]. destruct e as [i|i|i|i|i|t]; [..|done]; simpl in E;
    destruct (stages al !! i) as [s|] eqn:Hi; try done; simpl in E; destruct (pc s) as [| | |v|] eqn:Hpc; try done.
  2: destruct (forallb _ _) eqn:Hall; [|done].
  all: injection E as <-; pose proof (ai_stage _ _ Hal _ _ Hi) as Hok; unfold stage_ok in Hok; rewrite Hpc in Hok;
    pose proof (ai_low _ _ Hal _ _ Hi) as Hlow; pose proof (ai_high _ _ Hal) as Hhigh.
  (* the steps that neither store nor change the temperature *)
  1,2,3,5: (assert (forall p a, total_stores (set_stage i {| pc := p; arrivals := a; stores := stores s |} al) = total_stores al)
      as Htot by (intros p a; unfold total_stores;
                  pose proof (total_set_stage i s {| pc := p; arrivals := a; stores := stores s |} _ Hi); simpl in *; lia);
    eapply (al_inv_update t0 al _ i s _ Hal Hi); [reflexivity|simpl; lia|simpl; lia| | | |];
    [unfold stage_ok; rewrite Htot; simpl; lia | | |rewrite Htot; exact Hhigh]).
  1,3,5,7: unfold left; rewrite Hpc; simpl; try (left; lia).
  2-5: intros j x Hj; simpl in Hj; apply list_lookup_insert_case in Hj as [(-> & -> & _)|(_ & Hj)]; [done|];
    by apply (ai_low _ _ Hal j).
  - right. intros j x Hj. rewrite forallb_forall in Hall. simpl in Hj.
    apply list_lookup_insert_case in Hj as [(-> & -> & _)|(_ & Hj)]; simpl; [lia|].
    specialize (Hall x ltac:(by apply list_elem_of_In, (list_elem_of_lookup_2 _ j))).
    apply Nat.leb_le in Hall. lia.
  - destruct Hok as [Ha Hv].
    assert (total_stores (set_temp (plus_one v) (set_stage i {| pc := Stored; arrivals := arrivals s; stores := S (stores s) |} al))
      = S (total_stores al)) as Htot.
    { unfold total_stores. pose proof (total_set_stage i s {| pc := Stored; arrivals := arrivals s; stores := S (stores s) |} _ Hi).
      simpl in *. lia. }
    rewrite Htot in Hhi. pose proof (plus_one_exact v ltac:(lia)) as Hone.
    eapply (al_inv_update t0 al _ i s _ Hal Hi); [reflexivity|simpl; lia|simpl; lia|done| | |].
    + left. unfold left. rewrite Hpc. done.
    + intros j x Hj. simpl in Hj |- *. apply list_lookup_insert_case in Hj as [(-> & -> & _)|(_ & Hj)]; simpl; [lia|].
      pose proof (others_stored _ _ _ _ _ _ Hal Hi Hj). lia.
    + rewrite Htot. simpl. lia.
Qed.

Lemma total_mono_run al es al' : run_al al es = Some al' -> (total_stores al <= total_stores al')%nat.
Proof.
  revert al. induction es as [|e es IH]; intros al E; simpl in E; [by simplify_eq|].
  apply bind_Some in E as (al1 & E1 & E). apply total_mono in E1. apply IH in E. lia.
Qed.

Lemma al_inv_run t0 al es al' :
  al_inv t0 al -> forallb no_process es = true -> run_al al es = Some al' -> in_temp_range t0 al' -> al_inv t0 al'.
Proof.
  intros Hal Hok E [Hlo Hhi]. revert al Hal Hok E. induction es as [|e es IH]; intros al Hal Hok E; simpl in *; [by simplify_eq|].
  apply andb_prop in Hok as [He Hok]. apply bind_Some in E as (al1 & E1 & E).
  apply (IH al1); [|done|done]. eapply al_inv_step; [done..|]. split; [done|]. apply total_mono_run in E. lia.
Qed.

Lemma total_all k l : Forall (fun s => stores s = k) l -> sum_list_with stores l = (length l * k)%nat.
Proof. induction 1 as [|x l Hx _ IH]; simpl; [done|]. rewrite IH, Hx. lia. Qed.

(** What the line makes of a sample, in the range where the addition is exact.
    When all of n > 0 stages have completed
    k rounds and no new sample has come in, the temperature has grown by at
    least k and at most n * k, in every interleaving of the loads and stores;
    at any moment it is at least the start plus the rounds of any stage, and
    at most the start plus all the stores. *)
Theorem assembly_line_growth n t0 es al k
    (Hok : forallb no_process es = true) (Hr : run_al (assembly_line_init n t0) es = Some al)
    (Hk : Forall (fun s => stores s = k) (stages al)) (Hn : (0 < length (stages al))%nat)
    (Hlo : temp_lo <= t0) (Hhi : t0 + Z.of_nat (length (stages al)) * Z.of_nat k <= temp_hi) :
  t0 + Z.of_nat k <= assembly_line_get_result al <= t0 + Z.of_nat (length (stages al)) * Z.of_nat k /\
  (forall e al', no_process e = true -> exec_al al e = Some al' -> t0 + Z.of_nat (total_stores al') <= temp_hi ->
     forall i s, stages al' !! i = Some s ->
       t0 + Z.of_nat (stores s) <= assembly_line_get_result al' <= t0 + Z.of_nat (total_stores al')).
Proof.
  assert (in_temp_range t0 al) as Hrange by (split; [done|]; unfold total_stores; rewrite (total_all k) by done; lia).
  pose proof (al_inv_run _ _ _ _ (al_inv_init n t0) Hok Hr Hrange) as Hal. unfold assembly_line_get_result. split.
  - pose proof (ai_high _ _ Hal) as Hh. unfold total_stores in Hh. rewrite (total_all k) in Hh by done.
    destruct (stages al !! 0%nat) as [s|] eqn:H0; [|apply lookup_ge_None in H0; lia].
    pose proof (ai_low _ _ Hal _ _ H0) as Hl. rewrite (Forall_lookup_1 _ _ _ _ Hk H0) in Hl. lia.
  - intros e al' He E Hh i s Hi. pose proof (al_inv_step _ _ _ _ Hal He E (conj Hlo Hh)) as Hal'.
    split; [by eapply ai_low|apply (ai_high _ _ Hal')].
Qed.

(** One round of two stages, one after the other, and interleaved. *)
Definition round_in_turn : list al_event :=
  [Arrive 0; Arrive 1; Leave 0; Load 0; Store 0; Leave 1; Load 1; Store 1; EatDone 0; EatDone 1].
Definition round_at_once : list al_event :=
  [Arrive 0; Arrive 1; Leave 0; Leave 1; Load 0; Load 1; Store 0; Store 1; EatDone 0; EatDone 1].

(** Both bounds are reached: an update can get lost in every round. *)
Theorem assembly_line_lost_update :
  (assembly_line_get_result <$> run_al (assembly_line_init 2 25) round_in_turn) = Some (plus_one (plus_one 25)) /\
  (assembly_line_get_result <$> run_al (assembly_line_init 2 25) round_at_once) = Some (plus_one 25).
Proof. done. Qed.

(** A sample given to the line between the load and the store of a stage is
    overwritten, whatever it is. *)
Theorem assembly_line_process_lost t :
  (assembly_line_get_result <$>
     run_al (assembly_line_init 1 25) [Arrive 0; Leave 0; Load 0; Process t; Store 0]) = Some (plus_one 25).
Proof. done. Qed.
End line.

Lemma assembly_line_growth_witness :
  exists al, run_al (T:=temp_float) (assembly_line_init 2 25) round_at_once = Some al /\ 25 + 1 <= assembly_line_get_result al <= 25 + 2 * 1.
Proof.
  eexists. split; [vm_compute; reflexivity|].
  eapply (proj1 (assembly_line_growth (T:=temp_float) 2 25 round_at_once _ 1 eq_refl eq_refl
    ltac:(repeat constructor) ltac:(simpl; lia) ltac:(discriminate) ltac:(discriminate))).
Defined.
