(* ===== verification/EventPair.v ===== *)
(** * EventPair: two events signalled to each other (event_pair.c)

    The shared state is [ep->state] (0 idle, 1 and 2 the event signalled).
    [event_signal k] and [event_wait k] are event_pair_signal1/2 and
    event_pair_wait1/2, whose texts differ only in the number and the
    condition variable; [event_wait_resume k] is the code from a return of
    pthread_cond_timedwait, which ends the wait on ETIMEDOUT only.  The
    theorems: a wait succeeds only on a signal of its own event, each signal
    at most once; a pending event always has somebody awake to take it; and
    signalling one event wipes out a pending signal of the other. *)

From S2P Require Import Prelude CondMonitor.

Inductive ev := Ev1 | Ev2.
Definition ev_state (k : ev) : Z := match k with Ev1 => 1 | Ev2 => 2 end.

(** cond1 and cond2 *)
Definition ev_cond (k : ev) : nat := match k with Ev1 => 1 | Ev2 => 2 end.

Inductive ep_point := EpSignal (k : ev) | EpWait (k : ev) | EpResume (k : ev).

Definition ep_outcome := outcome Z ep_point.

Definition event_signal (k : ev) (state : Z) : ep_outcome :=
  Return (ev_state k) (Signal (ev_cond k)) 0.

(** The while loop, and what follows it. *)
Definition event_wait_loop (k : ev) (state : Z) : ep_outcome :=
  if negb (state =? ev_state k) then Wait state (EpResume k) (ev_cond k)
  else Return 0 NoSignal 0.

Definition event_wait (k : ev) (state : Z) : ep_outcome := event_wait_loop k state.

Definition event_wait_resume (k : ev) (ret state : Z) : ep_outcome :=
  if ret =? ETIMEDOUT then Return state NoSignal (- ETIMEDOUT)
  else event_wait_loop k state.

Definition event_pair_signal1 := event_signal Ev1.
Definition event_pair_signal2 := event_signal Ev2.
Definition event_pair_wait1 := event_wait Ev1.
Definition event_pair_wait2 := event_wait Ev2.

Definition ep_code (_ : nat) (p : ep_point) (ret state : Z) : ep_outcome :=
  match p with
  | EpSignal Ev1 => event_pair_signal1 state
  | EpSignal Ev2 => event_pair_signal2 state
  | EpWait Ev1 => event_pair_wait1 state
  | EpWait Ev2 => event_pair_wait2 state
  | EpResume k => event_wait_resume k ret state
  end.

#[export] Instance ep_program : Program Z ep_point unit := {|
  code := ep_code;
  on_return _ _ g := g;
  may_call _ p := match p with EpResume _ => false | _ => true end;
  wake_ok _ r := 0 <=? r;
|}.

Definition ep_start (n : nat) : config Z ep_point unit := start 0 (replicate n tt).

(** ** Accounting *)

#[export] Instance ev_eq_dec : EqDecision ev.
Proof. solve_decision. Defined.

(** The signals of event [k] sent, and the waits for it that succeeded. *)
Definition sent (k : ev) (x : nat * ep_point * Z) : bool :=
  match x with (_, EpSignal k', _) => bool_decide (k' = k) | _ => false end.
Definition got (k : ev) (x : nat * ep_point * Z) : bool :=
  match x with
  | (_, (EpWait k' | EpResume k'), r) => bool_decide (k' = k) && (r =? 0)
  | _ => false
  end.

Definition pending (k : ev) (state : Z) : Z := Z.b2z (state =? ev_state k).

(** A thread woken from a wait for [k] that will look at the state again. *)
Definition ready_ev (k : ev) (t : thread ep_point unit) : bool :=
  match t.1 with
  | Ready (EpResume k') ret => bool_decide (k' = k) && negb (ret =? ETIMEDOUT)
  | _ => false
  end.

Record ep_inv (c : config Z ep_point unit) : Prop := {
  ei_state : shared c = 0 \/ shared c = 1 \/ shared c = 2;
  ei_account k : count_if (got k) (hist c) + pending k (shared c) <= count_if (sent k) (hist c);
  ei_sleep k : Forall (sleep_at (ev_cond k) (EpResume k)) (threads c);
  ei_coming k : shared c = ev_state k ->
    0 < count_if (waits_on (ev_cond k)) (threads c) -> 0 < count_if (ready_ev k) (threads c);
}.

Lemma ep_inv_start n : ep_inv (ep_start n).
Proof.
  unfold ep_start. constructor; rewrite ?start_threads.
  - by left.
  - by intros [].
  - intros k. by apply Forall_replicate.
  - intros k _. rewrite count_if_replicate. simpl. lia.
Qed.

(** The outcomes of the code: a signal, a success, a timeout, or a wait. *)
Inductive ep_step (i : nat) : ep_point -> Z -> Z -> ep_outcome -> Prop :=
| ep_sig k ret st : ep_step i (EpSignal k) ret st (Return (ev_state k) (Signal (ev_cond k)) 0)
| ep_take k ret st p :
    p = EpWait k \/ (p = EpResume k /\ ret <> ETIMEDOUT) -> st = ev_state k ->
    ep_step i p ret st (Return 0 NoSignal 0)
| ep_timeout k st : ep_step i (EpResume k) ETIMEDOUT st (Return st NoSignal (- ETIMEDOUT))
| ep_wait k ret st p :
    p = EpWait k \/ p = EpResume k -> st <> ev_state k ->
    ep_step i p ret st (Wait st (EpResume k) (ev_cond k)).

Lemma ep_code_step i p ret st : ep_step i p ret st (ep_code i p ret st).
Proof.
  assert (forall k p, p = EpWait k \/ (p = EpResume k /\ ret <> ETIMEDOUT) ->
    ep_step i p ret st (event_wait_loop k st)) as Hloop.
  { intros k q Hq. unfold event_wait_loop. destruct (Z.eqb_spec st (ev_state k)); simpl.
    - by eapply ep_take.
    - apply (ep_wait _ k); [destruct Hq as [?|[? _]]; auto|done]. }
  destruct p as [[]|[]|k]; simpl; try constructor; try (by apply Hloop; auto).
  unfold event_wait_resume. destruct (Z.eqb_spec ret ETIMEDOUT) as [->|]; [constructor|].
  apply Hloop; auto.
Qed.

(** A step that leaves the state alone and is not a lost wake-up of [k]. *)
Lemma ep_coming_quiet k c i t t' sg pick ts' :
  ep_inv c -> threads c !! i = Some t ->
  deliver sg pick (<[i := t']> (threads c)) = Some ts' -> shared c = ev_state k ->
  delta (waits_on (ev_cond k)) t t' <= 0 -> 0 <= delta (ready_ev k) t t' ->
  0 < count_if (waits_on (ev_cond k)) ts' -> 0 < count_if (ready_ev k) ts'.
Proof.
  intros Hc Hi Hd Hs Hw Hr. eapply coming_deliver; try done. by apply (ei_coming _ Hc).
Qed.

Lemma ep_inv_step c e c' : ep_inv c -> exec_event c e = Some c' -> ep_inv c'.
Proof.
  intros Hc E. apply step_cases in E.
  destruct E as [i p g Hi Hm Hs Hh Hth|i p cv ret g Hi Hm Hs Hh Hth
    |i pick p ret g s sg x Hi Hcode Hs Hh Hd|i pick p ret g s sg p' Hi Hcode Hs Hh Hd
    |i pick p ret g s p' cv Hi Hcode Hs Hh Hth|i pick p ret g Hi Hcode Hs Hh Hth].
  3-6: pose proof (ep_code_step i p ret (shared c)) as Hstep;
    change (ep_code i p ret (shared c)) with (code i p ret (shared c)) in Hstep;
    rewrite Hcode in Hstep.
  - constructor; rewrite ?Hs, ?Hh.
    + apply (ei_state _ Hc).
    + apply (ei_account _ Hc).
    + intros k. rewrite Hth. by apply Forall_insert; [apply (ei_sleep _ Hc)|].
    + intros k Hk. eapply (ep_coming_quiet k c i _ (Ready p 0, g) NoSignal 0);
        [done..|simpl; by rewrite Hth|done|done|].
      destruct p; try done.
  - constructor; rewrite ?Hs, ?Hh.
    + apply (ei_state _ Hc).
    + apply (ei_account _ Hc).
    + intros k. rewrite Hth. by apply Forall_insert; [apply (ei_sleep _ Hc)|].
    + intros k Hk. eapply (ep_coming_quiet k c i _ (Ready p ret, g) NoSignal 0);
        [done..|simpl; by rewrite Hth|done| |].
      * unfold delta. simpl. by destruct (waits_on _ _).
      * unfold delta. change (ready_ev k (Waiting p cv, g)) with false.
        by destruct (ready_ev _ _).
  - inversion Hstep as [k r0 st|k r0 st q Hq Hst|k st|]; simplify_eq.
    + rename select (_ = shared c') into Hs. constructor; rewrite <- ?Hs, ?Hh.
      * destruct k; auto.
      * intros k'. pose proof (ei_account _ Hc k') as Ha. unfold pending in *. simpl.
        destruct (shared c =? ev_state k') in Ha; destruct k, k'; simpl in *; lia.
      * intros k'. eapply deliver_sleep_at; [done|]. by apply Forall_insert; [apply (ei_sleep _ Hc)|].
      * intros k' Hk. assert (k' = k) as -> by (destruct k, k'; simpl in *; congruence).
        eapply (coming_signal (ev_cond k) (EpResume k)); [..|done].
        -- intros ?. unfold ready_ev. simpl. by rewrite bool_decide_true.
        -- by apply Forall_insert; [apply (ei_sleep _ Hc)|].
    + rename select (_ = shared c') into Hs. injection Hd as Hd.
      constructor; rewrite <- ?Hs, ?Hh.
      * auto.
      * intros k'. pose proof (ei_account _ Hc k') as Ha. unfold pending in *. rewrite Hst in Ha.
        destruct Hq as [->|[-> _]]; simpl; destruct k, k'; simpl in *; lia.
      * intros k'. rewrite <- Hd. by apply Forall_insert; [apply (ei_sleep _ Hc)|].
      * intros [] Hk; simpl in *; congruence.
    + rename select (_ = shared c') into Hs. injection Hd as Hd.
      constructor; rewrite <- ?Hs, ?Hh.
      * apply (ei_state _ Hc).
      * intros k'. pose proof (ei_account _ Hc k') as Ha. simpl.
        rewrite andb_false_r. simpl. lia.
      * intros k'. rewrite <- Hd. by apply Forall_insert; [apply (ei_sleep _ Hc)|].
      * intros k' Hk. eapply (ep_coming_quiet k' c i _ (Idle, _) NoSignal 0);
          [done..|simpl; by rewrite Hd|done|done|].
        unfold delta, ready_ev. simpl. by rewrite andb_false_r.
  - inversion Hstep.
  - inversion Hstep as [ | | |k r0 st q Hq Hst]; simplify_eq.
    rename select (_ = shared c') into Hs. constructor; rewrite <- ?Hs, ?Hh.
    + apply (ei_state _ Hc).
    + apply (ei_account _ Hc).
    + intros k'. rewrite Hth. apply Forall_insert; [apply (ei_sleep _ Hc)|].
      unfold sleep_at; simpl. by destruct k, k'.
    + intros k' Hk. assert (k' <> k) as Hne by (intros ->; done).
      eapply (ep_coming_quiet k' c i _ (Waiting (EpResume k) (ev_cond k), g) NoSignal 0);
        [done..|simpl; by rewrite Hth|done| |].
      * by destruct k, k'.
      * unfold delta, ready_ev; simpl. destruct Hq as [-> | ->]; simpl; [done|].
        by rewrite bool_decide_false.
  - inversion Hstep.
Qed.

Lemma ep_reachable n c : reachable any (ep_start n) c -> ep_inv c.
Proof.
  revert c. apply reachable_inv; [apply ep_inv_start|].
  intros c e c' _ Hc E. by eapply ep_inv_step.
Qed.

(** ** Properties *)

(** A wait succeeds only on a signal of its own event, and each signal
    satisfies at most one wait: for each of the two events, in every reachable
    configuration, the successful waits and the pending event together do not
    exceed the signals sent. *)
Theorem event_pair_account n c k :
  reachable any (ep_start n) c ->
  count_if (got k) (hist c) + pending k (shared c) <= count_if (sent k) (hist c).
Proof. intros Hc. apply (ei_account _ (ep_reachable _ _ Hc)). Qed.

(** A pending event is taken.  In every reachable configuration in which
    event [k] is pending and a thread sleeps waiting for it, another thread
    has been woken from a wait for [k] and is about to look at the state. *)
Theorem event_pair_no_sleep n c k i p g :
  reachable any (ep_start n) c -> shared c = ev_state k ->
  threads c !! i = Some (Waiting p (ev_cond k), g) ->
  exists j t, threads c !! j = Some t /\ ready_ev k t = true.
Proof.
  intros Hc Hs Hi. apply count_if_pos. apply (ei_coming _ (ep_reachable _ _ Hc)); [done|].
  assert (waits_on (ev_cond k) (Waiting p (ev_cond k), g) = true) as Hw
    by (unfold waits_on; simpl; apply Nat.eqb_refl).
  pose proof (count_if_lookup _ _ _ _ Hi Hw). lia.
Qed.

(** A pending signal can be wiped out.  Thread 0 signals event 1, thread 1
    signals event 2, and only then thread 2 waits for event 1: it sleeps,
    though event 1 was signalled and nobody consumed it, because the second
    signal overwrote the state. *)
Theorem event_pair_signal_lost :
  exists c, reachable no_wake (ep_start 3) c /\
    threads c !! 2%nat = Some (Waiting (EpResume Ev1) 1, tt) /\
    count_if (sent Ev1) (hist c) = 1 /\ count_if (got Ev1) (hist c) = 0 /\ shared c = 2.
Proof.
  exists {| shared := 2;
    threads := [(Idle, tt); (Idle, tt); (Waiting (EpResume Ev1) 1, tt)];
    hist := [(1%nat, EpSignal Ev2, 0); (0%nat, EpSignal Ev1, 0)] |}.
  split_and!; try done.
  exists [Call 0 (EpSignal Ev1); Run 0 0; Call 1 (EpSignal Ev2); Run 1 0;
          Call 2 (EpWait Ev1); Run 2 0].
  by vm_compute.
Qed.

(** ** Witnesses *)

Definition ep_events : list (event ep_point) :=
  [Call 0 (EpWait Ev1); Run 0 0; Call 1 (EpWait Ev1); Run 1 0; Call 2 (EpSignal Ev1); Run 2 0].
Definition ep_run : config Z ep_point unit := default (ep_start 3) (run (ep_start 3) ep_events).

Lemma event_pair_account_witness : count_if (got Ev1) (hist ep_run) + 1 <= 1.
Proof.
  apply (event_pair_account 3 ep_run Ev1). exists ep_events. split; reflexivity.
Defined.

Lemma event_pair_no_sleep_witness :
  exists j t, threads ep_run !! j = Some t /\ ready_ev Ev1 t = true.
Proof.
  apply (event_pair_no_sleep 3 ep_run Ev1 1 (EpResume Ev1) tt).
  - exists ep_events. split; reflexivity.
  - reflexivity.
  - reflexivity.
Defined.
