(* ===== verification/Dining.v ===== *)
(** * Dining: the dining philosophers (dining_philosophers.c)

    [dp] is the shared object: the forks (mutexes, with their owner) and the
    flag [running].  A philosopher is a thread that thinks, eats and is done
    in turn; its program counter [pc] says which pthread call it is about to
    make.  [act id] is its next step, [None] when that is a lock that blocks.
    The theorems: neighbours never eat at the same time; with at least two
    philosophers somebody can always go on, because even philosophers take
    their own fork first and odd ones the next; a single philosopher blocks
    itself; and once [running] is cleared the forks in use are never given
    back. *)

From S2P Require Import Prelude.

Record dp := {
  num_philosophers : nat;
  forks : list (option nat);
  running : bool;
}.

(** Before a call, before the two locks, before the second lock, eating,
    before the second unlock. *)
Inductive pc := Thinking | Hungry | HasFirst | Eating | Leaving.

#[export] Instance pc_eq_dec : EqDecision pc.
Proof. solve_decision. Defined.

Section dining.

Definition dining_philosophers_init (n : nat) : option dp :=
  if (n <=? 0)%nat then None
  else Some {| num_philosophers := n; forks := replicate n None; running := true |}.

(** The guards that the operations share. *)
Definition dp_check (d : dp) (id : nat) : Z :=
  if (num_philosophers d <=? id)%nat then - EINVAL
  else if negb (running d) then - EAGAIN else 0.

Definition dining_philosophers_think (d : dp) (id : nat) : Z := dp_check d id.

(** The fork beside [id], and the order in which it takes the two. *)
Definition right_fork (d : dp) (id : nat) : nat := (id + 1) mod num_philosophers d.
Definition first_fork (d : dp) (id : nat) : nat :=
  if (id mod 2 =? 0)%nat then id else right_fork d id.
Definition second_fork (d : dp) (id : nat) : nat :=
  if (id mod 2 =? 0)%nat then right_fork d id else id.

(** pthread_mutex_lock: [None] while somebody (the caller included) holds it. *)
Definition lock_fork (d : dp) (f id : nat) : option dp :=
  match forks d !! f with
  | Some None => Some {| num_philosophers := num_philosophers d;
                         forks := <[f := Some id]> (forks d); running := running d |}
  | _ => None
  end.

Definition unlock_fork (d : dp) (f : nat) : dp :=
  {| num_philosophers := num_philosophers d; forks := <[f := None]> (forks d);
     running := running d |}.

(** dining_philosophers_eat up to its first lock; dining_philosophers_done up
    to its second unlock; and what remains of each.  A call that is refused
    leaves the philosopher where it is. *)
Definition act (d : dp) (id : nat) (p : pc) : option (dp * pc) :=
  match p with
  | Thinking =>
      if dining_philosophers_think d id =? 0 then Some (d, Hungry) else Some (d, Thinking)
  | Hungry =>
      if dp_check d id =? 0
      then d' ← lock_fork d (first_fork d id) id; Some (d', HasFirst)
      else Some (d, Thinking)
  | HasFirst => d' ← lock_fork d (second_fork d id) id; Some (d', Eating)
  | Eating =>
      if dp_check d id =? 0 then Some (unlock_fork d id, Leaving) else Some (d, Eating)
  | Leaving => Some (unlock_fork d (right_fork d id), Thinking)
  end.

(** A table: the object and its philosophers.  [Stop] is the destruction's
    [running = 0]. *)
Record table := { obj : dp; phils : list pc }.

Inductive dp_event := Step (id : nat) | Stop.

Definition exec_dp (t : table) (e : dp_event) : option table :=
  match e with
  | Step id =>
      p ← phils t !! id;
      '(d', p') ← act (obj t) id p;
      Some {| obj := d'; phils := <[id := p']> (phils t) |}
  | Stop => Some {| obj := {| num_philosophers := num_philosophers (obj t);
                              forks := forks (obj t); running := false |};
                    phils := phils t |}
  end.

Fixpoint run_dp (t : table) (es : list dp_event) : option table :=
  match es with [] => Some t | e :: es => t' ← exec_dp t e; run_dp t' es end.

Definition table_start (n : nat) : table :=
  {| obj := {| num_philosophers := n; forks := replicate n None; running := true |};
     phils := replicate n Thinking |}.

Definition dp_reachable (n : nat) (t : table) : Prop :=
  exists es, run_dp (table_start n) es = Some t.

End dining.

(** ** The invariant: who holds which fork *)

(** Philosopher [id] at [p] holds fork [f]. *)
Definition holds (d : dp) (id : nat) (p : pc) (f : nat) : Prop :=
  match p with
  | Thinking | Hungry => False
  | HasFirst => f = first_fork d id
  | Eating => f = id \/ f = right_fork d id
  | Leaving => f = right_fork d id
  end.

Record table_inv (n : nat) (t : table) : Prop := {
  ti_num : num_philosophers (obj t) = n;
  ti_forks : length (forks (obj t)) = n;
  ti_phils : length (phils t) = n;
  ti_owner f id : forks (obj t) !! f = Some (Some id) <->
    (f < n)%nat /\ exists p, phils t !! id = Some p /\ holds (obj t) id p f;
}.

Lemma table_inv_start n : table_inv n (table_start n).
Proof.
  constructor; simpl; rewrite ?length_replicate; try done.
  intros f id. split.
  - intros Hf. by apply lookup_replicate in Hf as [? _].
  - intros (_ & p & Hp & Hh). apply lookup_replicate in Hp as [-> _]. done.
Qed.

(** [id]'s two forks, for at least two philosophers. *)
Lemma right_fork_ne d id :
  (2 <= num_philosophers d)%nat -> (id < num_philosophers d)%nat ->
  right_fork d id <> id /\ (right_fork d id < num_philosophers d)%nat.
Proof.
  intros Hn Hid. unfold right_fork. split; [|apply Nat.mod_upper_bound; lia].
  destruct (decide (id + 1 = num_philosophers d)%nat) as [E|].
  - rewrite E, Nat.Div0.mod_same. lia.
  - rewrite Nat.mod_small by lia. lia.
Qed.

Lemma fork_pair d id :
  (2 <= num_philosophers d)%nat -> (id < num_philosophers d)%nat ->
  first_fork d id <> second_fork d id /\
  (first_fork d id < num_philosophers d)%nat /\ (second_fork d id < num_philosophers d)%nat /\
  forall f, (f = id \/ f = right_fork d id) <-> (f = first_fork d id \/ f = second_fork d id).
Proof.
  intros Hn Hid. destruct (right_fork_ne d id Hn Hid).
  unfold first_fork, second_fork. destruct (id mod 2 =? 0)%nat; split_and!; try done; try lia; tauto.
Qed.

Lemma holds_num d d' id p f :
  num_philosophers d' = num_philosophers d -> holds d' id p f <-> holds d id p f.
Proof. intros E. unfold holds, first_fork, right_fork. by rewrite E. Qed.

(** A step of [id] to [p'] whose forks are updated accordingly. *)
Lemma table_inv_update n t id p p' d' :
  table_inv n t -> phils t !! id = Some p ->
  num_philosophers d' = n -> length (forks d') = n ->
  (forall f x, forks d' !! f = Some (Some x) <->
     if decide (x = id) then (f < n)%nat /\ holds (obj t) id p' f
     else forks (obj t) !! f = Some (Some x)) ->
  table_inv n {| obj := d'; phils := <[id := p']> (phils t) |}.
Proof.
  intros [Hn Hf Hp Ho] Hid Hn' Hf' Hnew. constructor; simpl; [done|done|by rewrite length_insert|].
  intros f x. rewrite Hnew. destruct (decide (x = id)) as [->|Hx].
  - rewrite list_lookup_insert_eq by (by eapply lookup_lt_Some).
    split; intros [Hlt H]; (split; [done|]).
    + exists p'. split; [done|]. by apply (holds_num (obj t)); [congruence|].
    + destruct H as (q & [= <-] & H). by apply (holds_num (obj t)) in H; [|congruence].
  - rewrite list_lookup_insert_ne, Ho by done.
    split; intros (Hlt & q & Hq & H); (split; [done|]); exists q; (split; [done|]).
    + by apply (holds_num (obj t)); [congruence|].
    + by apply (holds_num (obj t)) in H; [|congruence].
Qed.

(** The three kinds of step: no fork, one more, one less. *)
Lemma table_inv_same n t id p p' :
  table_inv n t -> phils t !! id = Some p ->
  (forall f, holds (obj t) id p' f <-> holds (obj t) id p f) ->
  table_inv n {| obj := obj t; phils := <[id := p']> (phils t) |}.
Proof.
  intros Ht Hid Hh. eapply table_inv_update; try done; try apply Ht.
  intros f x. destruct (decide (x = id)) as [->|]; [|done].
  rewrite (ti_owner _ _ Ht), Hh. split; intros (Hf & H); (split; [done|]).
  - destruct H as (q & Hq & H). congruence.
  - by exists p.
Qed.

Lemma table_inv_lock n t id p p' f d' :
  table_inv n t -> phils t !! id = Some p -> lock_fork (obj t) f id = Some d' ->
  (forall g, holds (obj t) id p' g <-> (g = f \/ holds (obj t) id p g)) ->
  table_inv n {| obj := d'; phils := <[id := p']> (phils t) |}.
Proof.
  intros Ht Hid Hl Hh. unfold lock_fork in Hl.
  destruct (forks (obj t) !! f) as [[x|]|] eqn:Ef; simplify_eq.
  pose proof (lookup_lt_Some _ _ _ Ef) as Hlt. pose proof (ti_forks _ _ Ht) as Hlen.
  eapply table_inv_update; try done; simpl; [apply Ht|by rewrite length_insert|].
  intros g x. destruct (decide (f = g)) as [->|Hfg].
  - rewrite list_lookup_insert_eq by done. destruct (decide (x = id)) as [->|Hx].
    + rewrite Hh. split; [|done]. intros _. split; [lia|by left].
    + rewrite Ef. split; [congruence|done].
  - rewrite list_lookup_insert_ne by done. destruct (decide (x = id)) as [->|Hx]; [|done].
    rewrite (ti_owner _ _ Ht), Hh. split; intros (Hg & H); (split; [done|]).
    + destruct H as (q & Hq & H). simplify_eq. by right.
    + destruct H as [->|H]; [done|]. by exists p.
Qed.

Lemma table_inv_unlock n t id p p' f :
  table_inv n t -> phils t !! id = Some p -> holds (obj t) id p f ->
  (forall g, holds (obj t) id p' g <-> (g <> f /\ holds (obj t) id p g)) ->
  table_inv n {| obj := unlock_fork (obj t) f; phils := <[id := p']> (phils t) |}.
Proof.
  intros Ht Hid Hp Hh. pose proof (ti_forks _ _ Ht) as Hlen.
  eapply table_inv_update; try done; simpl; [apply Ht|by rewrite length_insert|].
  intros g x. destruct (decide (f = g)) as [->|Hfg].
  - split.
    + intros Hg. destruct (decide (g < length (forks (obj t)))%nat).
      * by rewrite list_lookup_insert_eq in Hg.
      * by rewrite list_insert_ge, lookup_ge_None_2 in Hg by lia.
    + intros H. exfalso. destruct (decide (x = id)) as [->|Hx].
      * destruct H as [_ H]. by apply Hh in H as [? _].
      * assert (g < n)%nat as Hg by (apply lookup_lt_Some in H; lia).
        assert (forks (obj t) !! g = Some (Some id)) as Hid' by (apply (ti_owner _ _ Ht); eauto).
        congruence.
  - rewrite list_lookup_insert_ne by done. destruct (decide (x = id)) as [->|Hx]; [|done].
    rewrite (ti_owner _ _ Ht), Hh. split; intros (Hg & H); (split; [done|]).
    + destruct H as (q & Hq & H). simplify_eq. by split.
    + destruct H as [_ H]. by exists p.
Qed.

Lemma table_inv_step n t e t' :
  (2 <= n)%nat -> table_inv n t -> exec_dp t e = Some t' -> table_inv n t'.
Proof.
  intros Hn Ht E. pose proof (ti_num _ _ Ht) as Hnum. destruct e as [id|]; simpl in E.
  - apply bind_Some in E as (p & Hid & E). apply bind_Some in E as ([d' p'] & Ha & E).
    simpl in E. injection E as <-.
    assert (id < n)%nat as Hlt by (apply lookup_lt_Some in Hid; by rewrite (ti_phils _ _ Ht) in Hid).
    destruct (fork_pair (obj t) id) as (Hne & H1 & H2 & Hpair); [lia..|].
    destruct (right_fork_ne (obj t) id) as (Hr & _); [lia..|].
    destruct p; simpl in Ha.
    + case_match; simplify_eq; by eapply table_inv_same.
    + case_match; [|simplify_eq; by eapply table_inv_same].
      apply bind_Some in Ha as (d1 & Hl & Ha). simplify_eq.
      eapply table_inv_lock; try done. simpl. tauto.
    + apply bind_Some in Ha as (d1 & Hl & Ha). simplify_eq.
      eapply table_inv_lock; try done. simpl. intros g. rewrite Hpair. tauto.
    + case_match; [|simplify_eq; by eapply table_inv_same].
      simplify_eq. eapply table_inv_unlock; try done; simpl; [by left|].
      intros g. split; [intros ->; split; [done|by right]|tauto].
    + simplify_eq. eapply table_inv_unlock; try done; simpl. tauto.
  - injection E as <-. destruct Ht as [? ? ? Ho]. constructor; simpl; try done.
Qed.

Lemma dp_reachable_inv n t : (2 <= n)%nat -> dp_reachable n t -> table_inv n t.
Proof.
  intros Hn (es & Hrun). assert (table_inv n (table_start n)) as H0 by apply table_inv_start.
  revert H0 Hrun. generalize (table_start n) as t0.
  induction es as [|e es IH]; intros t0 H0 Hrun; simpl in Hrun; [by simplify_eq|].
  apply bind_Some in Hrun as (t1 & E & Hrun). eapply IH; [|exact Hrun].
  by eapply table_inv_step.
Qed.

(** ** Properties *)

(** C15: neighbours never eat together.  In every table of at least two
    philosophers that any interleaving of their calls can reach, two
    philosophers who share a fork are not both eating. *)
Theorem dining_neighbours_exclude n t i :
  (2 <= n)%nat -> dp_reachable n t -> (i < n)%nat ->
  phils t !! i = Some Eating -> phils t !! ((i + 1) mod n)%nat <> Some Eating.
Proof.
  intros Hn Hr Hi Ei Ej. pose proof (dp_reachable_inv _ _ Hn Hr) as Ht.
  pose proof (ti_num _ _ Ht) as Hnum.
  destruct (right_fork_ne (obj t) i) as (Hne & Hlt); [lia..|].
  unfold right_fork in Hne, Hlt. rewrite Hnum in Hne, Hlt.
  assert (forks (obj t) !! ((i + 1) mod n)%nat = Some (Some i)) as H1.
  { apply (ti_owner _ _ Ht). split; [done|]. exists Eating. split; [done|].
    right. unfold right_fork. by rewrite Hnum. }
  assert (forks (obj t) !! ((i + 1) mod n)%nat = Some (Some ((i + 1) mod n)%nat)) as H2.
  { apply (ti_owner _ _ Ht). split; [done|]. exists Eating. split; [done|by left]. }
  congruence.
Qed.

(** A philosopher who cannot move waits for a fork that somebody holds. *)
Lemma stuck_waits n t id :
  table_inv n t -> (2 <= n)%nat -> (id < n)%nat -> exec_dp t (Step id) = None ->
  exists f x, forks (obj t) !! f = Some (Some x) /\
    (phils t !! id = Some Hungry /\ f = first_fork (obj t) id \/
     phils t !! id = Some HasFirst /\ f = second_fork (obj t) id).
Proof.
  intros Ht Hn Hid E. pose proof (ti_num _ _ Ht) as Hnum.
  destruct (fork_pair (obj t) id) as (_ & H1 & H2 & _); [lia..|].
  destruct (lookup_lt_is_Some_2 (phils t) id) as [p Hp]; [by rewrite (ti_phils _ _ Ht)|].
  simpl in E. rewrite Hp in E. simpl in E.
  assert (forall f, (f < num_philosophers (obj t))%nat -> lock_fork (obj t) f id = None ->
    exists x, forks (obj t) !! f = Some (Some x)) as Hlock.
  { intros f Hf Hl. destruct (lookup_lt_is_Some_2 (forks (obj t)) f) as [o Ho];
      [by rewrite (ti_forks _ _ Ht), <- Hnum|].
    unfold lock_fork in Hl. rewrite Ho in Hl. destruct o as [x|]; [by exists x|done]. }
  destruct p; simpl in E; try done; try (case_match; simpl in E; done).
  - destruct (dp_check (obj t) id =? 0); [|done].
    destruct (lock_fork (obj t) (first_fork (obj t) id) id) eqn:El; [done|].
    apply Hlock in El as [x Hx]; [|done]. eauto 10.
  - destruct (lock_fork (obj t) (second_fork (obj t) id) id) eqn:El; [done|].
    apply Hlock in El as [x Hx]; [|done]. eauto 10.
Qed.

(** Who can hold a fork when nobody who is not thinking can move: a philosopher
    with its first fork. *)
Lemma all_stuck_owner n t f x :
  table_inv n t -> (2 <= n)%nat ->
  (forall id, (id < n)%nat -> phils t !! id <> Some Thinking -> exec_dp t (Step id) = None) ->
  forks (obj t) !! f = Some (Some x) ->
  (x < n)%nat /\ f = first_fork (obj t) x /\ exists y,
    forks (obj t) !! second_fork (obj t) x = Some (Some y).
Proof.
  intros Ht Hn Hall Hf. apply (ti_owner _ _ Ht) in Hf as (_ & p & Hp & Hh).
  assert (x < n)%nat as Hx by (apply lookup_lt_Some in Hp; by rewrite (ti_phils _ _ Ht) in Hp).
  assert (phils t !! x <> Some Thinking) as Hnt by (intros Hq; rewrite Hp in Hq; injection Hq as ->; done).
  destruct (stuck_waits n t x Ht Hn Hx (Hall x Hx Hnt)) as (g & y & Hg & [[Hq ->]|[Hq ->]]);
    rewrite Hp in Hq; injection Hq as ->; simpl in Hh; [done|].
  split_and!; [done..|by exists y].
Qed.

(** Following the owners: one waits for the first fork of the next only across
    the wrap-around of an odd table. *)
Lemma chain_wraps n x y d :
  num_philosophers d = n -> (2 <= n)%nat -> (x < n)%nat -> (y < n)%nat ->
  second_fork d x = first_fork d y -> x = (n - 1)%nat /\ y = 0%nat.
Proof.
  intros Hnum Hn Hx Hy. unfold first_fork, second_fork, right_fork. rewrite Hnum.
  assert (forall a, (a < n)%nat -> ((a + 1) mod n = if decide (a + 1 = n) then 0 else a + 1)%nat) as Hm.
  { intros a Ha. case_decide as E; [rewrite E; apply Nat.Div0.mod_same|apply Nat.mod_small; lia]. }
  rewrite !Hm by done. pose proof (Nat.mod_upper_bound x 2). pose proof (Nat.mod_upper_bound y 2).
  pose proof (Nat.div_mod_eq x 2). pose proof (Nat.div_mod_eq y 2).
  destruct (Nat.eqb_spec (x mod 2) 0), (Nat.eqb_spec (y mod 2) 0); repeat case_decide; lia.
Qed.

(** Somebody who is not thinking can go on, if there is anybody. *)
Lemma dining_progress n t i :
  (2 <= n)%nat -> table_inv n t -> (i < n)%nat -> phils t !! i <> Some Thinking ->
  exists id, (id < n)%nat /\ phils t !! id <> Some Thinking /\ exec_dp t (Step id) <> None.
Proof.
  intros Hn Ht Hi Hnt. pose proof (ti_num _ _ Ht) as Hnum.
  destruct (decide (Forall (fun id => phils t !! id <> Some Thinking -> exec_dp t (Step id) = None) (seq 0 n)))
    as [Hall|Hno].
  2: { apply not_Forall_Exists in Hno; [|intros ?; apply _]. apply Exists_exists in Hno as (id & Hid & Hno).
       apply elem_of_seq in Hid. exists id. destruct (decide (phils t !! id = Some Thinking)); [|by auto with lia].
       by destruct Hno. }
  exfalso. rewrite Forall_forall in Hall.
  assert (forall id, (id < n)%nat -> phils t !! id <> Some Thinking -> exec_dp t (Step id) = None) as Hst
    by (intros id Hid; apply Hall, elem_of_seq; lia).
  clear Hall. destruct (stuck_waits n t i Ht Hn Hi (Hst i Hi Hnt)) as (f & x & Hf & _).
  (* follow the chain of owners: x waits for its second fork, held by y, whose first fork it is *)
  destruct (all_stuck_owner n t f x Ht Hn Hst Hf) as (Hx & _ & y & Hy).
  destruct (all_stuck_owner n t _ y Ht Hn Hst Hy) as (Hy' & Exy & z & Hz).
  destruct (all_stuck_owner n t _ z Ht Hn Hst Hz) as (Hz' & Eyz & _).
  destruct (chain_wraps n x y (obj t)) as [-> ->]; [done..|].
  destruct (chain_wraps n 0 z (obj t)) as [E _]; [done|done|lia| |done|lia].
  by apply (all_stuck_owner n t _ z Ht Hn Hst) in Hz as [? _].
Qed.

(** C6: no deadlock.  In every reachable table of at least two philosophers
    somebody can make a step: the even philosophers take their own fork
    first, the odd ones their neighbour's, and no circle of waiting can close
    (whether or not [running] has been cleared). *)
Theorem dining_no_deadlock n t :
  (2 <= n)%nat -> dp_reachable n t -> exists id, exec_dp t (Step id) <> None.
Proof.
  intros Hn Hr. pose proof (dp_reachable_inv _ _ Hn Hr) as Ht.
  destruct (lookup_lt_is_Some_2 (phils t) 0) as [p Hp]; [rewrite (ti_phils _ _ Ht); lia|].
  destruct (decide (p = Thinking)) as [->|Hnt].
  - exists 0%nat. simpl. rewrite Hp. simpl. by destruct (_ =? 0).
  - destruct (dining_progress n t 0 Hn Ht) as (id & _ & _ & Hid); [lia|congruence|]. by exists id.
Qed.

(** A single philosopher takes its only fork and then waits for it. *)
Lemma dining_single_blocks :
  exists t, dp_reachable 1 t /\ phils t = [HasFirst] /\ exec_dp t (Step 0) = None.
Proof.
  exists {| obj := {| num_philosophers := 1; forks := [Some 0%nat]; running := true |};
            phils := [HasFirst] |}.
  split; [|done]. exists [Step 0; Step 0]. by vm_compute.
Qed.

(** Once [running] is cleared, dining_philosophers_done refuses and the forks
    of whoever eats stay taken. *)
Lemma dining_stopped_keeps_forks t i :
  running (obj t) = false -> phils t !! i = Some Eating -> exec_dp t (Step i) = Some t.
Proof.
  intros Hr Hi. simpl. rewrite Hi. simpl. unfold dp_check. rewrite Hr. simpl.
  destruct (_ <=? _)%nat; simpl; rewrite list_insert_id by done; by destruct t.
Qed.

(** ** Witnesses *)

(** Philosopher 0 of three eats, philosopher 1 waits. *)
Definition dp_events : list dp_event :=
  [Step 0; Step 0; Step 1; Step 0; Step 1].
Definition dp_table : table := default (table_start 3) (run_dp (table_start 3) dp_events).

Lemma dining_neighbours_exclude_witness : phils dp_table !! 1%nat <> Some Eating.
Proof.
  apply (dining_neighbours_exclude 3 dp_table 0).
  - lia.
  - exists dp_events. reflexivity.
  - lia.
  - reflexivity.
Defined.

Lemma dining_no_deadlock_witness : exists id, exec_dp dp_table (Step id) <> None.
Proof.
  apply (dining_no_deadlock 3); [lia|]. exists dp_events. reflexivity.
Defined.
