(* ===== verification/StageThreads.v ===== *)
(** * StageThreads: the stages over barrier.c and dining_philosophers.c

    AssemblyLine takes the barrier by its promise and passes over the forks.
    Here stage_thread is a loop over the steps of the two objects themselves:
    the barrier's program points (Barrier, over CondMonitor) and the calls on
    the table of forks (Dining).  [exec_line] interleaves the stages; a
    thread of the barrier, a philosopher and a stage with the same number are
    the same thread, and [place] says where in its loop it is.  The line is
    not being destroyed.

    The type of the temperature is AssemblyLine's [TempType].

    The theorems: without spurious wake-ups a run of the stages is a run of
    AssemblyLine's, so what that file proves of the temperature holds of them
    ([stage_threads_refine]); with at least two stages somebody can always go
    on ([stage_threads_progress]), and a line of one stage stops in its first
    round ([single_stage_stops]). *)

From S2P Require Import Prelude LinuxLib CondMonitor Barrier Dining AssemblyLine.

Section stage_threads.
Context {T : TempType}.

(** ** The stages *)

(** About to test running; in barrier_wait; about to think; before the load
    and before the store of the addition; in eat; in done. *)
Inductive place := AtTest | InBarrier | AtThink | AtLoad | AtStore (v : Z) | InEat | InDone.

Record line := {
  bar : config Barrier.barrier barrier_point Z;   (* al->barrier *)
  dpt : table;                                    (* al->dp *)
  places : list place;
  ltemp : Z;                                      (* al->data->temp *)
}.

Inductive line_event :=
| BarrierStep (e : event barrier_point)
| DpStep (i : nat)         (* the next step of think, eat or done *)
| LoadTemp (i : nat) | StoreTemp (i : nat)
| ProcessTemp (t : Z).     (* assembly_line_process *)

Definition event_thread (e : event barrier_point) : nat :=
  match e with Call i _ | Run i _ | Wake i _ => i end.

Definition set_place (i : nat) (p : place) (s : line) : line :=
  {| bar := bar s; dpt := dpt s; places := <[i := p]> (places s); ltemp := ltemp s |}.
Definition set_bar (b : config Barrier.barrier barrier_point Z) (s : line) : line :=
  {| bar := b; dpt := dpt s; places := places s; ltemp := ltemp s |}.
Definition set_dpt (t : table) (s : line) : line :=
  {| bar := bar s; dpt := t; places := places s; ltemp := ltemp s |}.
Definition set_ltemp (t : Z) (s : line) : line :=
  {| bar := bar s; dpt := dpt s; places := places s; ltemp := t |}.

(** Where the stage is after a step of its barrier_wait: at think if the call
    has returned. *)
Definition after_barrier (b : config Barrier.barrier barrier_point Z) (i : nat) : place :=
  match threads b !! i with Some (Idle, _) => AtThink | _ => InBarrier end.

(** Where it is after a step of a call on the table that leaves the
    philosopher at [q]. *)
Definition after_dp (p : place) (q : Dining.pc) : place :=
  match p, q with
  | AtThink, _ => AtLoad
  | InEat, HasFirst => InEat
  | InEat, _ => InDone
  | InDone, Leaving => InDone
  | InDone, _ => AtTest
  | _, _ => p
  end.

(** The stage's step in stage_thread, and assembly_line_process. *)
Definition exec_line (s : line) (e : line_event) : option line :=
  match e with
  | BarrierStep e =>
      let i := event_thread e in
      p ← places s !! i;
      match p, e with
      | AtTest, Call _ BarrierWait | InBarrier, Run _ _ | InBarrier, Wake _ _ =>
          b ← exec_event (bar s) e;
          Some (set_place i (after_barrier b i) (set_bar b s))
      | _, _ => None
      end
  | DpStep i =>
      p ← places s !! i;
      match p with
      | AtThink | InEat | InDone =>
          t ← exec_dp (dpt s) (Step i);
          q ← phils t !! i;
          Some (set_place i (after_dp p q) (set_dpt t s))
      | _ => None
      end
  | LoadTemp i =>
      p ← places s !! i;
      match p with AtLoad => Some (set_place i (AtStore (ltemp s)) s) | _ => None end
  | StoreTemp i =>
      p ← places s !! i;
      match p with AtStore v => Some (set_place i InEat (set_ltemp (plus_one v) s)) | _ => None end
  | ProcessTemp t => Some (set_ltemp t s)
  end.

Fixpoint run_line (s : line) (es : list line_event) : option line :=
  match es with
  | [] => Some s
  | e :: es => s' ← exec_line s e; run_line s' es
  end.

(** A line of [num_stages] stages whose threads have been created. *)
Definition line_start (num_stages : nat) (t : Z) : line :=
  {| bar := barrier_start num_stages; dpt := table_start num_stages;
     places := replicate num_stages AtTest; ltemp := t |}.

(** No wait of the barrier returns by itself. *)
Definition no_spurious (e : line_event) : bool :=
  match e with BarrierStep e => no_wake e | _ => true end.

(** ** The invariant *)

(** The stage, the barrier's thread and the philosopher agree; the thread has
    completed the round that it is working in. *)
Definition agree (p : place) (t : thread barrier_point Z) (q : Dining.pc) : Prop :=
  0 <= t.2 /\
  match p with
  | AtTest => t.1 = Idle /\ q = Thinking
  | InBarrier =>
      ((exists ret, t.1 = Ready BarrierWait ret \/ t.1 = Ready BarrierResume ret) \/
       t.1 = Waiting BarrierResume barrier_cond) /\ q = Thinking
  | AtThink => t.1 = Idle /\ 1 <= t.2 /\ q = Thinking
  | AtLoad | AtStore _ => t.1 = Idle /\ 1 <= t.2 /\ q = Hungry
  | InEat => t.1 = Idle /\ (q = Hungry \/ q = HasFirst)
  | InDone => t.1 = Idle /\ (q = Eating \/ q = Leaving)
  end.

Record line_inv (n : nat) (s : line) : Prop := {
  li_bar : exists r, barrier_inv r (bar s);
  li_dp : table_inv n (dpt s);
  li_run : running (obj (dpt s)) = true;
  li_threads : length (threads (bar s)) = n;
  li_places : length (places s) = n;
  li_agree i p t q : places s !! i = Some p -> threads (bar s) !! i = Some t -> phils (dpt s) !! i = Some q ->
    agree p t q;
}.

Lemma line_inv_start n t : line_inv n (line_start n t).
Proof.
  constructor; cbn [line_start bar dpt places]; try done.
  - exists 0. apply barrier_inv_start.
  - apply table_inv_start.
  - unfold barrier_start. by rewrite start_threads, length_replicate.
  - by rewrite length_replicate.
  - intros i p th q. unfold barrier_start. rewrite start_threads. simpl.
    by intros [-> _]%lookup_replicate [-> _]%lookup_replicate [-> _]%lookup_replicate.
Qed.

(** What a step of thread [i] leaves of the others, up to being woken. *)
Lemma barrier_others c e c' j t' :
  exec_event c e = Some c' -> j <> event_thread e -> threads c' !! j = Some t' ->
  exists t, threads c !! j = Some t /\
    (t' = t \/ exists p cv g, t = (Waiting p cv, g) /\ t' = (Ready p 0, g)).
Proof.
  intros E Hj Ht. apply step_cases in E.
  destruct E as [i p g Hi Hm Hs Hh Hth|i p cv ret g Hi Hm Hs Hh Hth
    |i pick p ret g s sg x Hi Hcode Hs Hh Hd|i pick p ret g s sg p' Hi Hcode Hs Hh Hd
    |i pick p ret g s p' cv Hi Hcode Hs Hh Hth|i pick p ret g Hi Hcode Hs Hh Hth]; simpl in Hj.
  3,4: (destruct (deliver_lookup _ _ _ _ _ _ Hd Ht) as (t & Ht0 & Hc);
        rewrite list_lookup_insert_ne in Ht0 by done; exists t; split; [done|];
        destruct Hc as [->|(q & cv & g' & -> & -> & _)]; eauto 10).
  all: rewrite Hth, list_lookup_insert_ne in Ht by done; eauto.
Qed.

(** The thread that moves: it enters the barrier, goes to sleep there, or
    leaves it, with a round more. *)
Lemma barrier_own r c e c' t p q :
  no_wake e = true -> barrier_inv r c -> exec_event c e = Some c' ->
  threads c !! event_thread e = Some t -> agree p t q ->
  (p = AtTest /\ exists i, e = Call i BarrierWait) \/ (p = InBarrier /\ exists i pick, e = Run i pick) ->
  exists t', threads c' !! event_thread e = Some t' /\ agree (after_barrier c' (event_thread e)) t' q /\
    (p = AtTest -> t'.1 = Ready BarrierWait 0 /\ t'.2 = t.2) /\
    (p = InBarrier -> (t'.1 = Waiting BarrierResume barrier_cond /\ t'.2 = t.2 /\ exists ret, t.1 = Ready BarrierWait ret) \/
                      (t'.1 = Idle /\ t'.2 = t.2 + 1)).
Proof.
  intros Hok Hc E Ht Ha He. apply step_cases in E. unfold after_barrier.
  destruct E as [i x g Hi Hm Hs Hh Hth|i x cv ret g Hi Hm Hs Hh Hth
    |i pick x ret g s sg y Hi Hcode Hs Hh Hd|i pick x ret g s sg p' Hi Hcode Hs Hh Hd
    |i pick x ret g s p' cv Hi Hcode Hs Hh Hth|i pick x ret g Hi Hcode Hs Hh Hth]; simpl in *; simplify_eq.
  - destruct He as [[-> [j Ej]]|[_ (? & ? & ?)]]; [injection Ej as -> ->|done]. pose proof (lookup_lt_Some _ _ _ Hi).
    rewrite Hth, list_lookup_insert_eq by done. destruct Ha as (? & _ & ->).
    eexists. split; [done|]. split_and!; try done. split; [done|]. split; [by eauto|done].
  - destruct He as [[_ [? ?]]|[-> _]]; [done|]. destruct Ha as (Hg & _ & ->).
    assert (threads c' !! i = Some (Idle, g + 1)) as -> by (eapply deliver_self; [exact Hi| |exact Hd]; by intros).
    eexists. split; [done|]. simpl in *. split; [repeat split; simpl; lia|]. split; [done|]. intros _. by right.
  - destruct x; simpl in Hcode; unfold barrier_wait in Hcode; simpl in Hcode; by try case_match.
  - destruct He as [[_ [? ?]]|[-> _]]; [done|]. destruct Ha as (Hg & _ & ->). pose proof (lookup_lt_Some _ _ _ Hi).
    rewrite Hth, list_lookup_insert_eq by done. destruct x; [|done].
    simpl in Hcode. unfold barrier_wait in Hcode. simpl in Hcode. case_match; simplify_eq.
    eexists. split; [done|]. split; [split; [done|]; split; [by right|done]|]. split; [done|]. left. eauto.
  - destruct x; simpl in Hcode; unfold barrier_wait in Hcode; simpl in Hcode; by try case_match.
Qed.

Lemma agree_woken p x cv g q : agree p (Waiting x cv, g) q -> agree p (Ready x 0, g) q.
Proof.
  intros [Hg H]. split; [done|]. destruct p; simpl in *; try (by destruct H).
  destruct H as [[(ret & [?|?])|[= -> _]] ->]; [done..|]. split; [|done]. left. exists 0. by right.
Qed.

Lemma barrier_step_inv n s e s' :
  no_wake e = true -> line_inv n s -> exec_line s (BarrierStep e) = Some s' -> line_inv n s'.
Proof.
  intros Hok Hs E. simpl in E. apply bind_Some in E as (p & Hp & E).
  assert ((p = AtTest /\ exists i, e = Call i BarrierWait) \/ (p = InBarrier /\ exists i pick, e = Run i pick)) as He.
  { destruct p; try done; destruct e as [? []| |]; try done; eauto 10. }
  assert (exists b, exec_event (bar s) e = Some b /\ s' = set_place (event_thread e) (after_barrier b (event_thread e)) (set_bar b s)) as (b & Eb & ->).
  { destruct He as [[-> [? ->]]|[-> (? & ? & ->)]]; apply bind_Some in E as (b & Eb & E); simplify_eq; eauto. }
  clear E. destruct Hs as [[r Hr] Hdp Hrun Hth Hpl Hag].
  destruct (barrier_inv_step _ _ _ _ Hok Hr Eb) as [r' Hr'].
  constructor; cbn [set_place set_bar bar dpt places]; [by eauto|done|done|by rewrite (step_length _ _ _ Eb)|by rewrite length_insert|].
  intros j x t q Hx Ht Hq. apply list_lookup_insert_case in Hx as [(<- & -> & _)|(Hij & Hx)].
  - destruct (lookup_lt_is_Some_2 (threads (bar s)) (event_thread e)) as [t0 Ht0]; [rewrite Hth, <- Hpl; by eapply lookup_lt_Some|].
    destruct (barrier_own _ _ _ _ _ _ _ Hok Hr Eb Ht0 (Hag _ _ _ _ Hp Ht0 Hq) He) as (t' & Ht' & Ha & _).
    congruence.
  - destruct (barrier_others _ _ _ _ _ Eb (not_eq_sym Hij) Ht) as (t0 & Ht0 & [->|(y & cv & g & -> & ->)]).
    + by apply (Hag j).
    + apply (agree_woken _ _ cv). by apply (Hag j).
Qed.

(** The calls on the table. *)
Lemma dp_step_inv n s i s' :
  (2 <= n)%nat -> line_inv n s -> exec_line s (DpStep i) = Some s' -> line_inv n s'.
Proof.
  intros Hn [Hr Hdp Hrun Hth Hpl Hag] E. simpl in E. apply bind_Some in E as (p & Hp & E).
  assert (exists t q, exec_dp (dpt s) (Step i) = Some t /\ phils t !! i = Some q /\
    (p = AtThink \/ p = InEat \/ p = InDone) /\ s' = set_place i (after_dp p q) (set_dpt t s)) as (t & q & Et & Hq & Hpp & ->).
  { destruct p; try done; apply bind_Some in E as (t & Et & E); apply bind_Some in E as (q & Hq & E);
      simplify_eq; eauto 10. }
  clear E. pose proof (table_inv_step _ _ _ _ Hn Hdp Et) as Hdp'.
  simpl in Et. apply bind_Some in Et as (q0 & Hq0 & Et). apply bind_Some in Et as ([d q1] & Ha & Et).
  simpl in Et. injection Et as <-. simpl in Hq.
  rewrite list_lookup_insert_eq in Hq by (by eapply lookup_lt_Some). injection Hq as ->.
  assert (dp_check (obj (dpt s)) i = 0) as Hcheck.
  { unfold dp_check. rewrite Hrun. destruct (Nat.leb_spec (num_philosophers (obj (dpt s))) i); [|done].
    apply lookup_lt_Some in Hq0. rewrite (ti_num _ _ Hdp) in *. rewrite (ti_phils _ _ Hdp) in Hq0. lia. }
  assert (running d = true) as Hrun'.
  { destruct q0; simpl in Ha; unfold dining_philosophers_think in Ha; rewrite ?Hcheck in Ha; simpl in Ha;
      try (apply bind_Some in Ha as (d1 & Hl & Ha); unfold lock_fork in Hl; repeat case_match); by simplify_eq. }
  constructor; cbn [set_place set_dpt bar dpt places obj phils]; [done|done|done|done|by rewrite length_insert|].
  intros j x th y Hx Ht Hy. apply list_lookup_insert_case in Hx as [(<- & -> & _)|(Hij & Hx)].
  2: { rewrite list_lookup_insert_ne in Hy by done. by apply (Hag j). }
  rewrite list_lookup_insert_eq in Hy by (by eapply lookup_lt_Some). injection Hy as ->.
  destruct (Hag _ _ _ _ Hp Ht Hq0) as [Hg H].
  destruct Hpp as [->|[->| ->]]; simpl in H.
  - destruct H as (? & ? & ->). simpl in Ha. unfold dining_philosophers_think in Ha. rewrite Hcheck in Ha. simpl in Ha.
    simplify_eq. split; [done|]. by split_and!.
  - destruct H as (? & [-> | ->]); simpl in Ha; rewrite ?Hcheck in Ha; simpl in Ha;
      apply bind_Some in Ha as (d1 & _ & Ha); simplify_eq; (split; [done|]); simpl; auto.
  - destruct H as (? & [-> | ->]); simpl in Ha; rewrite ?Hcheck in Ha; simpl in Ha;
      simplify_eq; (split; [done|]); simpl; auto.
Qed.

Lemma line_inv_place n s s' i p p' :
  line_inv n s -> places s !! i = Some p -> bar s' = bar s -> dpt s' = dpt s ->
  places s' = <[i := p']> (places s) -> (forall t q, agree p t q -> agree p' t q) -> line_inv n s'.
Proof.
  intros [Hr Hdp Hrun Hth Hpl Hag] Hp Eb Ed Ep Hpp.
  constructor; rewrite ?Eb, ?Ed, ?Ep; [done..|by rewrite length_insert|].
  intros j x t q Hx. apply list_lookup_insert_case in Hx as [(<- & -> & _)|(Hij & Hx)]; [|by apply Hag].
  intros Ht Hq. apply Hpp. by apply (Hag i).
Qed.

Lemma line_inv_step n s e s' :
  (2 <= n)%nat -> no_spurious e = true -> line_inv n s -> exec_line s e = Some s' -> line_inv n s'.
Proof.
  intros Hn Hok Hs E. destruct e as [e|i|i|i|t].
  - by eapply barrier_step_inv.
  - by eapply dp_step_inv.
  - simpl in E. apply bind_Some in E as (p & Hp & E). destruct p; simplify_eq.
    by eapply (line_inv_place n s _ i).
  - simpl in E. apply bind_Some in E as (p & Hp & E). destruct p; simplify_eq.
    eapply (line_inv_place n s _ i); try done. intros t q (Hg & ? & ? & ->). split; [done|]. split; [done|]. by left.
  - injection E as <-. destruct Hs. by constructor.
Qed.

Definition line_reachable (n : nat) (t : Z) (s : line) : Prop :=
  exists es, forallb no_spurious es = true /\ run_line (line_start n t) es = Some s.

Lemma line_reachable_inv n t s : (2 <= n)%nat -> line_reachable n t s -> line_inv n s.
Proof.
  intros Hn (es & Hok & Hrun). pose proof (line_inv_start n t) as H0. revert H0 Hok Hrun.
  generalize (line_start n t) as s0. induction es as [|e es IH]; intros s0 H0 Hok Hrun; simpl in *; [by simplify_eq|].
  apply andb_prop in Hok as [He Hok]. apply bind_Some in Hrun as (s1 & E & Hrun).
  eapply IH; [|done|exact Hrun]. by eapply line_inv_step.
Qed.

(** ** The stages refine the abstract line *)

(** What AssemblyLine knows of a stage: its place, the rounds in which it has
    arrived at the barrier, and the rounds in which it has stored. *)
Definition abs_pc (p : place) (st : status barrier_point) : stage_pc :=
  match p with
  | AtTest => Between
  | InBarrier => match st with Ready BarrierWait _ => Between | _ => Arrived end
  | AtThink | AtLoad => Working
  | AtStore v => Loaded v
  | InEat | InDone => Stored
  end.
Definition abs_stores (p : place) (g : Z) : nat :=
  Z.to_nat (match p with AtThink | AtLoad | AtStore _ => g - 1 | _ => g end).
Definition abs_stage (p : place) (t : thread barrier_point Z) : stage :=
  {| pc := abs_pc p t.1; arrivals := Z.to_nat (entered t); stores := abs_stores p t.2 |}.
Definition abs_line (s : line) : assembly_line :=
  {| temp := ltemp s; stages := zip_with abs_stage (places s) (threads (bar s)) |}.

Lemma abs_lookup n s i :
  line_inv n s -> (i < n)%nat ->
  exists p t q, places s !! i = Some p /\ threads (bar s) !! i = Some t /\ phils (dpt s) !! i = Some q /\
    agree p t q /\ stages (abs_line s) !! i = Some (abs_stage p t).
Proof.
  intros Hs Hi.
  destruct (lookup_lt_is_Some_2 (places s) i) as [p Hp]; [by rewrite (li_places _ _ Hs)|].
  destruct (lookup_lt_is_Some_2 (threads (bar s)) i) as [t Ht]; [by rewrite (li_threads _ _ Hs)|].
  destruct (lookup_lt_is_Some_2 (phils (dpt s)) i) as [q Hq]; [by rewrite (ti_phils _ _ (li_dp _ _ Hs))|].
  exists p, t, q. split_and!; try done; [by apply (li_agree _ _ Hs i)|]. simpl. by rewrite lookup_zip_with, Hp, Ht.
Qed.

(** A step of one stage, which leaves the others as they are or wakes them. *)
Lemma abs_insert i p t' ps (ts ts' : list (thread barrier_point Z)) :
  length ps = length ts -> length ts' = length ts -> ts' !! i = Some t' -> (i < length ts)%nat ->
  (forall j x t, j <> i -> ps !! j = Some x -> ts !! j = Some t -> exists t1, ts' !! j = Some t1 /\ abs_stage x t1 = abs_stage x t) ->
  zip_with abs_stage (<[i := p]> ps) ts' = <[i := abs_stage p t']> (zip_with abs_stage ps ts).
Proof.
  intros Hps Hts Hi Hlt Hoth. apply list_eq. intros j. rewrite lookup_zip_with.
  destruct (decide (j = i)) as [->|Hj].
  - rewrite !list_lookup_insert_eq by (rewrite ?length_zip_with; lia). simpl. by rewrite Hi.
  - rewrite !list_lookup_insert_ne, lookup_zip_with by done.
    destruct (ps !! j) as [x|] eqn:Hx; [|done]. simpl.
    destruct (lookup_lt_is_Some_2 ts j) as [t Ht]; [rewrite <- Hps; by eapply lookup_lt_Some|].
    destruct (Hoth j x t Hj Hx Ht) as (t1 & -> & E). rewrite Ht. simpl. by rewrite E.
Qed.

(** A step outside the barrier. *)
Lemma abs_place s s' i p p' t :
  places s !! i = Some p -> threads (bar s) !! i = Some t -> bar s' = bar s -> places s' = <[i := p']> (places s) ->
  length (places s) = length (threads (bar s)) ->
  abs_line s' = {| temp := ltemp s'; stages := <[i := abs_stage p' t]> (stages (abs_line s)) |}.
Proof.
  intros Hp Ht Eb Ep Hlen. unfold abs_line. rewrite Eb, Ep. f_equal. simpl.
  apply abs_insert; try done; [by eapply lookup_lt_Some|]. intros j x t0 _ _ Ht0. by exists t0.
Qed.

Lemma abs_woken x y cv g q : agree x (Waiting y cv, g) q -> abs_stage x (Ready y 0, g) = abs_stage x (Waiting y cv, g).
Proof.
  intros [_ H]. destruct x; simpl in H; try (by destruct H).
  by destruct H as [[(ret & [?|?])|[= -> _]] _].
Qed.

(** Whoever leaves the barrier leaves a round in which everybody has arrived:
    after the wait, and by arriving last. *)
Lemma leaver_last r c i ret g j t :
  barrier_inv r c -> threads c !! i = Some (Ready BarrierResume ret, g) -> threads c !! j = Some t ->
  g + 1 <= entered t.
Proof.
  intros Hr Hi Hj. pose proof (Forall_lookup_1 _ _ _ _ (bi_rounds _ _ Hr) Hi) as Hgi.
  pose proof (Forall_lookup_1 _ _ _ _ (bi_rounds _ _ Hr) Hj) as Hin. simpl in Hgi.
  destruct t as [[|[] ?|? ?|] g']; simpl in *; try done; lia.
Qed.

Lemma arriver_last r c i ret g j t :
  barrier_inv r c -> threads c !! i = Some (Ready BarrierWait ret, g) ->
  total (shared c) <= Barrier.count (shared c) + 1 -> j <> i -> threads c !! j = Some t -> g + 1 <= entered t.
Proof.
  intros Hr Hi Hfull Hij Hj. pose proof (Forall_lookup_1 _ _ _ _ (bi_rounds _ _ Hr) Hi) as Hgi.
  pose proof (Forall_lookup_1 _ _ _ _ (bi_rounds _ _ Hr) Hj) as Hin. simpl in Hgi.
  assert (sleeping t = true) as Hsl.
  { apply (count_if_all_but sleeping (threads c) i (Ready BarrierWait ret, g) Hi) with (j := j); try done.
    rewrite <- (bi_count _ _ Hr), <- (bi_total _ _ Hr). pose proof (bi_room _ _ Hr) as [Hroom|Hnil];
      [lia|by rewrite Hnil in Hj]. }
  destruct t as [[|? ?|? cv|] g']; try done. simpl in *. lia.
Qed.

(** The steps of the abstract line that a step of the barrier stands for. *)
Definition barrier_means (b b' : config Barrier.barrier barrier_point Z) (e : event barrier_point) : list al_event :=
  match e with
  | Run i _ =>
      match threads b !! i, threads b' !! i with
      | Some (Ready BarrierWait _, _), Some (Idle, _) => [Arrive i; Leave i]
      | Some (Ready BarrierWait _, _), _ => [Arrive i]
      | _, _ => [Leave i]
      end
  | _ => []
  end.

Lemma abs_barrier n s e b :
  no_wake e = true -> line_inv n s -> exec_event (bar s) e = Some b ->
  forall p t', threads b !! event_thread e = Some t' -> (event_thread e < n)%nat ->
  abs_line (set_place (event_thread e) p (set_bar b s)) =
    {| temp := ltemp s; stages := <[event_thread e := abs_stage p t']> (stages (abs_line s)) |}.
Proof.
  intros Hok Hs Eb p t' Ht' Hlt. pose proof (li_threads _ _ Hs). pose proof (li_places _ _ Hs).
  unfold abs_line. simpl. f_equal. apply abs_insert; [lia|by eapply step_length|done|lia|].
  intros j x t Hj Hx Ht.
  destruct (lookup_lt_is_Some_2 (threads b) j) as [t1 Ht1].
  { rewrite (step_length _ _ _ Eb). by eapply lookup_lt_Some. }
  exists t1. split; [done|].
  destruct (barrier_others _ _ _ _ _ Eb Hj Ht1) as (t0 & Ht0 & Hc). simplify_eq.
  destruct Hc as [->|(y & cv & g & -> & ->)]; [done|].
  destruct (abs_lookup _ s j Hs) as (x' & t0 & q & Hx' & Ht0' & _ & Ha & _).
  { apply lookup_lt_Some in Hx. lia. }
  simplify_eq. by eapply abs_woken.
Qed.

(** The abstract steps of one stage. *)
Lemma run_arrive al i s :
  stages al !! i = Some s -> pc s = Between ->
  run_al al [Arrive i] = Some (set_stage i {| pc := Arrived; arrivals := S (arrivals s); stores := stores s |} al).
Proof. intros Hi Hpc. simpl. by rewrite Hi; simpl; rewrite Hpc. Qed.

Lemma run_leave al i s :
  stages al !! i = Some s -> pc s = Arrived -> Forall (fun x => arrivals s <= arrivals x)%nat (stages al) ->
  run_al al [Leave i] = Some (set_stage i {| pc := Working; arrivals := arrivals s; stores := stores s |} al).
Proof.
  intros Hi Hpc Hall. simpl. rewrite Hi. simpl. rewrite Hpc.
  rewrite (proj2 (forallb_forall _ _)); [done|].
  intros x Hx%list_elem_of_In. apply Nat.leb_le. rewrite Forall_forall in Hall. by apply Hall.
Qed.

Lemma run_al_cons al e es al1 : run_al al [e] = Some al1 -> run_al al (e :: es) = run_al al1 es.
Proof. simpl. destruct (exec_al al e) as [al'|]; simpl; by intros [= ->]. Qed.

Lemma set_stage_twice i x y al : set_stage i y (set_stage i x al) = set_stage i y al.
Proof. unfold set_stage. simpl. by rewrite list_insert_insert_eq. Qed.

(** All stages have arrived as often as [k]. *)
Lemma arrived_all n s k :
  line_inv n s -> (forall j t, threads (bar s) !! j = Some t -> k <= entered t) ->
  Forall (fun x => Z.to_nat k <= arrivals x)%nat (stages (abs_line s)).
Proof.
  intros Hs Hall. apply Forall_lookup. intros j x Hj. simpl in Hj. rewrite lookup_zip_with in Hj.
  destruct (places s !! j) as [p|]; [|done]. simpl in Hj.
  destruct (threads (bar s) !! j) as [t|] eqn:Ht; [|done]. simpl in Hj. simplify_eq. simpl.
  specialize (Hall j t Ht). lia.
Qed.

Lemma barrier_refines n s e s' :
  no_wake e = true -> line_inv n s -> exec_line s (BarrierStep e) = Some s' ->
  run_al (abs_line s) (barrier_means (bar s) (bar s') e) = Some (abs_line s').
Proof.
  intros Hok Hs E. simpl in E. apply bind_Some in E as (p & Hp & E).
  assert ((p = AtTest /\ exists i, e = Call i BarrierWait) \/ (p = InBarrier /\ exists i pick, e = Run i pick)) as He.
  { destruct p; try done; destruct e as [? []| |]; try done; eauto 10. }
  assert (exists b, exec_event (bar s) e = Some b /\ s' = set_place (event_thread e) (after_barrier b (event_thread e)) (set_bar b s)) as (b & Eb & ->).
  { destruct He as [[-> [? ->]]|[-> (? & ? & ->)]]; apply bind_Some in E as (b & Eb & E); simplify_eq; eauto. }
  clear E. set (i := event_thread e) in *.
  assert (i < n)%nat as Hi by (rewrite <- (li_places _ _ Hs); by eapply lookup_lt_Some).
  destruct (abs_lookup _ _ _ Hs Hi) as (p0 & t & q & Hp0 & Ht & Hq & Ha & Hst).
  rewrite Hp in Hp0. injection Hp0 as <-. destruct (li_bar _ _ Hs) as [r Hr].
  destruct (barrier_own _ _ _ _ _ _ _ Hok Hr Eb Ht Ha He) as (t' & Ht' & Ha' & Hcall & Hrun).
  rewrite (abs_barrier n s e b Hok Hs Eb _ t' Ht' Hi). fold i.
  change (bar (set_place i (after_barrier b i) (set_bar b s))) with b.
  destruct He as [[-> [j Hj]]|[-> (j & pick & Hj)]]; subst e; simpl in i; subst i; cbn [barrier_means event_thread] in *.
  - destruct Ha as (Hg & Hidle & _). destruct (Hcall eq_refl) as [E1 E2]. destruct t as [st g], t' as [st' g']. simpl in *. subst.
    unfold after_barrier. rewrite Ht'. simpl. f_equal. rewrite list_insert_id; [by destruct s|exact Hst].
  - rewrite Ht, Ht'. destruct t as [st g], t' as [st' g']. simpl in Hrun. destruct Ha as (Hg & Hst0 & _). simpl in Hg, Hst0.
    assert (forall x y, x = y -> Some (set_stage j x (abs_line s)) =
      Some {| temp := ltemp s; stages := <[j := y]> (stages (abs_line s)) |}) as Hset by (by intros ? ? ->).
    destruct (Hrun eq_refl) as [(-> & -> & ret & ->)|(-> & ->)].
    + unfold after_barrier. rewrite Ht', (run_arrive _ _ _ Hst eq_refl). apply Hset.
      unfold abs_stage, abs_stores. simpl. f_equal. lia.
    + unfold after_barrier. rewrite Ht'.
      assert (forall ret, st = Ready BarrierResume ret ->
        run_al (abs_line s) [Leave j] = Some {| temp := ltemp s; stages := <[j := abs_stage AtThink (Idle, g + 1)]> (stages (abs_line s)) |}) as Hleave.
      { intros ret ->. rewrite (run_leave _ _ _ Hst eq_refl).
        - apply Hset. unfold abs_stage, abs_stores. simpl. f_equal. lia.
        - apply (arrived_all n); [done|]. intros k x Hx. by eapply leaver_last. }
      destruct Hst0 as [(ret & [-> | ->])| ->]; [|exact (Hleave _ eq_refl)|].
      2: { exfalso. apply step_cases in Eb. inversion Eb; simpl in *; simplify_eq. }
      rewrite (run_al_cons _ _ _ _ (run_arrive _ _ _ Hst eq_refl)).
      etrans; [eapply (run_leave _ _ {| pc := Arrived; arrivals := _; stores := _ |}); [|reflexivity|]|].
      * simpl. apply list_lookup_insert_eq. by eapply lookup_lt_Some.
      * assert (total (shared (bar s)) <= Barrier.count (shared (bar s)) + 1) as Hfull.
        { apply step_cases in Eb.
          inversion Eb; simplify_eq; rename select (code _ _ _ _ = _) into Hcode; simpl in Hcode;
            unfold barrier_wait in Hcode; simpl in Hcode; case_match; simplify_eq; [lia|].
          rename select (threads b = _) into Hth. rewrite Hth, list_lookup_insert_eq in Ht'; [done|by eapply lookup_lt_Some]. }
        apply Forall_lookup. intros k x Hk. apply list_lookup_insert_case in Hk as [(<- & -> & _)|(Hjk & Hk)]; [done|].
        simpl in Hk. rewrite lookup_zip_with in Hk.
        destruct (places s !! k) as [px|]; [|done]. destruct (threads (bar s) !! k) as [tx|] eqn:Htx; [|done].
        simpl in Hk. simplify_eq. simpl. pose proof (arriver_last _ _ _ _ _ _ _ Hr Ht Hfull (not_eq_sym Hjk) Htx). lia.
      * rewrite set_stage_twice. apply Hset. unfold abs_stage, abs_stores. simpl. f_equal; lia.
Qed.

Definition is_process (e : line_event) : bool := match e with ProcessTemp _ => true | _ => false end.

(** The steps outside the barrier: one abstract step each, or none. *)
Lemma other_refines n s e s' :
  line_inv n s -> exec_line s e = Some s' -> (forall e', e <> BarrierStep e') ->
  exists es, run_al (abs_line s) es = Some (abs_line s') /\ (is_process e = false -> forallb no_process es = true).
Proof.
  intros Hs E Hne. destruct e as [e|i|i|i|t]; [by destruct (Hne e)|..]; simpl in E.
  4: { injection E as <-. by exists [Process t]. }
  all: apply bind_Some in E as (p & Hp & E);
    destruct (abs_lookup _ _ i Hs) as (p0 & th & q & Hp0 & Ht & Hq & Ha & Hst);
      [rewrite <- (li_places _ _ Hs); by eapply lookup_lt_Some|]; rewrite Hp in Hp0; injection Hp0 as <-;
    assert (length (places s) = length (threads (bar s))) as Hlen by (by rewrite (li_places _ _ Hs), (li_threads _ _ Hs)).
  - assert (exists t q', s' = set_place i (after_dp p q') (set_dpt t s) /\ (p = AtThink \/ p = InEat \/ p = InDone)) as (t & q' & -> & Hpp).
    { destruct p; try done; apply bind_Some in E as (t & _ & E); apply bind_Some in E as (q' & _ & E); simplify_eq; eauto 10. }
    rewrite (abs_place s (set_place i (after_dp p q') (set_dpt t s)) i p (after_dp p q') th) by done. simpl ltemp.
    assert (p = InDone /\ after_dp p q' = AtTest \/ abs_stage (after_dp p q') th = abs_stage p th) as [[-> ->]| ->].
    { destruct Hpp as [->|[->| ->]], q'; auto. }
    + exists [EatDone i]. split; [|done]. cbn [run_al exec_al]. rewrite Hst. simpl.
      destruct Ha as (_ & Hidle & _). destruct th as [st g]. simpl in Hidle. by subst.
    + exists []. split; [|done]. simpl. rewrite list_insert_id by done. by destruct s.
  - destruct p; simplify_eq. exists [Load i]. split; [|done]. cbn [run_al exec_al]. rewrite Hst. simpl.
    rewrite (abs_place s (set_place i (AtStore (ltemp s)) s) i AtLoad (AtStore (ltemp s)) th) by done. reflexivity.
  - destruct p; simplify_eq. exists [Store i]. split; [|done]. cbn [run_al exec_al]. rewrite Hst. simpl.
    rewrite (abs_place s (set_place i InEat (set_ltemp (plus_one v) s)) i (AtStore v) InEat th) by done. unfold set_temp, set_stage. simpl.
    destruct Ha as (_ & Hidle & Hg & _). destruct th as [st g]. simpl in *. subst.
    unfold abs_stage, abs_stores. simpl. do 4 f_equal. lia.
Qed.

Lemma run_al_app al es1 es2 : run_al al (es1 ++ es2) = al' ← run_al al es1; run_al al' es2.
Proof.
  revert al. induction es1 as [|e es1 IH]; intros al; [done|]. simpl.
  destruct (exec_al al e) as [al'|]; [|done]. simpl. apply IH.
Qed.

Lemma abs_line_start n t : abs_line (line_start n t) = assembly_line_init n t.
Proof.
  unfold abs_line, assembly_line_init, line_start, barrier_start. simpl. f_equal.
  change (map _ (replicate n 0)) with (threads (start (P:=barrier_point) {| count := 0; total := Z.of_nat n |} (replicate n 0))).
  rewrite start_threads. by rewrite zip_with_replicate.
Qed.

(** A run of the stages over the two objects, with a barrier that has no
    spurious wake-up, is a run of the abstract line, into which the same
    samples come or none. *)
Theorem stage_threads_refine n t es s :
  (2 <= n)%nat -> forallb no_spurious es = true -> run_line (line_start n t) es = Some s ->
  exists es', run_al (assembly_line_init n t) es' = Some (abs_line s) /\
    (forallb (fun e => negb (is_process e)) es = true -> forallb no_process es' = true).
Proof.
  intros Hn Hok Hrun. pose proof (line_inv_start n t) as H0. rewrite <- abs_line_start. revert H0 Hok Hrun.
  generalize (line_start n t) as s0. induction es as [|e es IH]; intros s0 H0 Hok Hrun; simpl in *.
  { simplify_eq. by exists []. }
  apply andb_prop in Hok as [He Hok]. apply bind_Some in Hrun as (s1 & E & Hrun).
  destruct (IH s1 (line_inv_step _ _ _ _ Hn He H0 E) Hok Hrun) as (es2 & Hr2 & Hp2).
  assert (exists es1, run_al (abs_line s0) es1 = Some (abs_line s1) /\ (is_process e = false -> forallb no_process es1 = true))
    as (es1 & Hr1 & Hp1).
  { destruct e as [e| | | |]; [|by eapply other_refines..]. exists (barrier_means (bar s0) (bar s1) e).
    split; [by eapply barrier_refines|]. intros _. destruct e; simpl; repeat case_match; done. }
  exists (es1 ++ es2). split; [by rewrite run_al_app, Hr1|].
  intros [Hp Hps]%andb_prop. rewrite forallb_app, Hp1, Hp2 by (done || by destruct (is_process e)). done.
Qed.

(** C36: what the stages make of a sample.  In any interleaving of n >= 2 stage
    threads over the steps of their barrier and their forks, without spurious
    wake-ups and with no new sample, once every stage has completed k rounds
    the temperature has grown by at least k and at most n * k, provided that
    the start t and t + n * k lie in the range in which the temperature's type
    adds one exactly: that of s32, or the integers up to 2^24 of a float.
    (Beyond it nothing of the kind holds: see [float_stops_growing].) *)
Theorem stage_threads_temperature n t es s k :
  (2 <= n)%nat -> forallb no_spurious es = true -> forallb (fun e => negb (is_process e)) es = true ->
  run_line (line_start n t) es = Some s ->
  Forall (fun x => stores x = k) (stages (abs_line s)) ->
  temp_lo <= t -> t + Z.of_nat n * Z.of_nat k <= temp_hi ->
  t + Z.of_nat k <= ltemp s <= t + Z.of_nat n * Z.of_nat k.
Proof.
  intros Hn Hok Hp Hrun Hk Hlo Hhi. destruct (stage_threads_refine n t es s Hn Hok Hrun) as (es' & Hr & Hp').
  assert (line_inv n s) as Hs by (apply (line_reachable_inv n t); [done|by exists es]).
  assert (length (stages (abs_line s)) = n) as Hlen.
  { simpl. rewrite length_zip_with, (li_places _ _ Hs), (li_threads _ _ Hs). lia. }
  destruct (assembly_line_growth n t es' _ k (Hp' Hp) Hr Hk) as [H _]; [lia|done|by rewrite Hlen|]. by rewrite Hlen in H.
Qed.

(** ** Progress *)

Lemma find_place (f : place -> bool) (ps : list place) :
  (exists i p, ps !! i = Some p /\ f p = true) \/ forall i p, ps !! i = Some p -> f p = false.
Proof.
  induction ps as [|x ps [(i & p & Hi & Hf)|Hall]]; [by right|by left; exists (S i), p|].
  destruct (f x) eqn:Hx; [left; by exists 0%nat, x|]. right. intros [|i] p Hi; simplify_eq/=; eauto.
Qed.

(** A stage that is not in the barrier, or a dinner that has begun, goes on. *)
Lemma outside_progress n s i p :
  (2 <= n)%nat -> line_inv n s -> places s !! i = Some p -> p <> InBarrier ->
  exists e s', is_process e = false /\ no_spurious e = true /\ exec_line s e = Some s'.
Proof.
  intros Hn Hs Hp Hne. assert (i < n)%nat as Hi by (rewrite <- (li_places _ _ Hs); by eapply lookup_lt_Some).
  destruct (abs_lookup _ _ i Hs Hi) as (p0 & th & q & Hp0 & Ht & Hq & Ha & _).
  rewrite Hp in Hp0. injection Hp0 as <-.
  assert (forall j y r, phils (dpt s) !! j = Some r -> places s !! j = Some y ->
    (y = AtThink \/ y = InEat \/ y = InDone) -> exec_dp (dpt s) (Step j) <> None ->
    exists e s', is_process e = false /\ no_spurious e = true /\ exec_line s e = Some s') as Hdp.
  { intros j y r Hr Hy Hpl Hst. destruct (exec_dp (dpt s) (Step j)) as [u|] eqn:Eu; [|done].
    assert (exists r', phils u !! j = Some r') as [r' Hr'].
    { apply lookup_lt_is_Some. pose proof (table_inv_step _ _ _ _ Hn (li_dp _ _ Hs) Eu) as Hu.
      rewrite (ti_phils _ _ Hu). rewrite <- (li_places _ _ Hs). by eapply lookup_lt_Some. }
    exists (DpStep j). eexists. split_and!; [done..|].
    destruct Hpl as [->|[->| ->]]; cbn [exec_line]; rewrite Hy; cbn [mbind option_bind];
      rewrite Eu; cbn [mbind option_bind]; rewrite Hr'; reflexivity. }
  assert (phils (dpt s) !! i <> Some Thinking ->
    exists e s', is_process e = false /\ no_spurious e = true /\ exec_line s e = Some s') as Hdine.
  { intros Hnt. destruct (dining_progress n (dpt s) i Hn (li_dp _ _ Hs) Hi Hnt) as (j & Hj & Hjt & Hst).
    destruct (abs_lookup _ _ j Hs Hj) as (y & tj & r & Hy & _ & Hr & [_ Hag] & _).
    assert (r <> Thinking) as Hrt by (intros ->; done).
    destruct y as [| | | |v| |]; simpl in Hag; [by destruct Hag|by destruct Hag|by destruct Hag as (_ & _ & ->)|..].
    - exists (LoadTemp j). eexists. split_and!; [done..|]. cbn [exec_line]. by rewrite Hy.
    - exists (StoreTemp j). eexists. split_and!; [done..|]. cbn [exec_line]. by rewrite Hy.
    - by eapply Hdp; eauto.
    - by eapply Hdp; eauto. }
  destruct (decide (q = Thinking)) as [->|Hnt]; [|by apply Hdine; rewrite Hq; intros [= ->]].
  destruct Ha as [_ Ha]. destruct p as [| | | |v| |]; simpl in Ha;
    [|done| |by destruct Ha as (_ & _ & ?)|by destruct Ha as (_ & _ & ?)|by destruct Ha as (_ & [?|?])|by destruct Ha as (_ & [?|?])].
  - destruct Ha as [Hidle _]. destruct th as [st g]. simpl in Hidle. subst st.
    exists (BarrierStep (Call i BarrierWait)). eexists. split_and!; [done..|]. cbn [exec_line event_thread].
    rewrite Hp. cbn [mbind option_bind]. simpl exec_event. rewrite Ht. reflexivity.
  - apply (Hdp i AtThink Thinking); auto. simpl. rewrite Hq. simpl.
    by destruct (dining_philosophers_think _ _ =? 0).
Qed.

(** C5: the stages never get stuck.  In every configuration that n >= 2 stage
    threads can reach over the steps of their barrier and their forks, without
    spurious wake-ups, some stage can make its next step: neither the barrier,
    nor the forks, nor the two together can stop them all. *)
Theorem stage_threads_progress n t s :
  (2 <= n)%nat -> line_reachable n t s ->
  exists e s', is_process e = false /\ no_spurious e = true /\ exec_line s e = Some s'.
Proof.
  intros Hn Hreach. pose proof (line_reachable_inv n t s Hn Hreach) as Hs.
  destruct (find_place (fun p => match p with InBarrier => false | _ => true end) (places s)) as [(i & p & Hp & Hf)|Hall].
  { eapply outside_progress; [done..|]. by intros ->. }
  (* all are in the barrier: not all asleep *)
  destruct (li_bar _ _ Hs) as [r Hr].
  destruct (barrier_awake r (bar s) Hr) as (i & th & Hi & Haw); [rewrite (li_threads _ _ Hs); lia|].
  assert (i < n)%nat as Hlt by (rewrite <- (li_threads _ _ Hs); by eapply lookup_lt_Some).
  destruct (abs_lookup _ _ i Hs Hlt) as (p & th' & q & Hp & Ht & Hq & [_ Ha] & _).
  specialize (Hall _ _ Hp). destruct p; try done. rewrite Hi in Ht. injection Ht as <-.
  assert (exists b, exec_event (bar s) (Run i 0) = Some b) as [b Eb].
  { destruct th as [st g]. simpl in Ha. destruct Ha as [[(ret & [-> | ->])| ->] _]; [..|done];
      unfold exec_event; rewrite Hi; [|by eexists]. cbn [code barrier_program barrier_code]. unfold barrier_wait.
    cbv zeta. destruct (Z.ltb _ _); by eexists. }
  exists (BarrierStep (Run i 0)). eexists. split_and!; [done..|]. cbn [exec_line event_thread].
  rewrite Hp. cbn [mbind option_bind]. rewrite Eb. reflexivity.
Qed.

(** A line of one stage stops in its first round: eat locks the stage's only
    fork twice. *)
Theorem single_stage_stops t :
  exists s, line_reachable 1 t s /\ ltemp s = plus_one t /\ forall e, is_process e = false -> exec_line s e = None.
Proof.
  exists {| bar := {| shared := {| Barrier.count := 0; total := 1 |}; threads := [(Idle, 1)]; hist := [(0%nat, BarrierWait, 0)] |};
            dpt := {| obj := {| num_philosophers := 1; forks := [Some 0%nat]; running := true |}; phils := [HasFirst] |};
            places := [InEat]; ltemp := plus_one t |}.
  split_and!; [|done|].
  - exists [BarrierStep (Call 0 BarrierWait); BarrierStep (Run 0 0); DpStep 0; LoadTemp 0; StoreTemp 0; DpStep 0].
    by split.
  - intros [e|i|i|i|u] He; try done; [destruct e as [i p|i pick|i ret]|..]; by destruct i as [|[|i]].
Qed.

End stage_threads.

(** ** Witnesses *)

(** One round of two stages: the additions interleave. *)
Definition line_ex : list line_event :=
  [BarrierStep (Call 0 BarrierWait); BarrierStep (Run 0 0); BarrierStep (Call 1 BarrierWait); BarrierStep (Run 1 0);
   BarrierStep (Run 0 0); DpStep 0; DpStep 1; LoadTemp 0; LoadTemp 1; StoreTemp 1; StoreTemp 0; DpStep 0].

(** The range is needed: at 2^24 a round of both stages adds nothing to a
    float. *)
Theorem float_stops_growing :
  match run_line (T:=temp_float) (line_start 2 (2 ^ 24)) line_ex with
  | Some s => Forall (fun x => stores x = 1%nat) (stages (abs_line s)) /\ ltemp s = 2 ^ 24
  | None => False
  end.
Proof. vm_compute. by repeat constructor. Qed.

Lemma stage_threads_temperature_witness :
  match run_line (T:=temp_float) (line_start 2 25) line_ex with
  | Some s => ltemp s = 26 /\ 25 + 1 <= ltemp s <= 25 + 2 * 1
  | None => False
  end.
Proof.
  destruct (run_line (T:=temp_float) (line_start 2 25) line_ex) as [s|] eqn:E; [|vm_compute in E; discriminate E].
  split; [vm_compute in E; injection E as <-; reflexivity|].
  apply (stage_threads_temperature (T:=temp_float) 2 25 line_ex s 1); [lia|reflexivity|reflexivity|exact E| |discriminate|discriminate].
  vm_compute in E. injection E as <-. repeat constructor.
Defined.

(** The stage that took its first fork waits for nobody; the other one is
    behind its store. *)
Lemma stage_threads_progress_witness :
  match run_line (T:=temp_float) (line_start 2 25) (line_ex ++ [DpStep 1]) with
  | Some _ => False
  | None => exists s, run_line (T:=temp_float) (line_start 2 25) line_ex = Some s /\
      exists e s', is_process e = false /\ no_spurious e = true /\ exec_line (T:=temp_float) s e = Some s'
  end.
Proof.
  destruct (run_line (T:=temp_float) (line_start 2 25) (line_ex ++ [DpStep 1])) eqn:E0; [vm_compute in E0; discriminate E0|].
  destruct (run_line (T:=temp_float) (line_start 2 25) line_ex) as [s|] eqn:E; [|vm_compute in E; discriminate E].
  exists s. split; [reflexivity|]. apply (stage_threads_progress (T:=temp_float) 2 25 s); [lia|].
  exists line_ex. split; [reflexivity|exact E].
Defined.
