(* ===== verification/DeadlockDetector.v ===== *)
(** * DeadlockDetector: the bookkeeping of deadlock_detector.c

    The detector does not lock anything itself: it records, per mutex number,
    whether it is taken and by which thread, under its own mutex.  Both
    operations are single critical sections, so they are functions on the
    table of [lock_info]; [None] for the owner stands for 0.  The theorems:
    exactly when [deadlock_detector_lock] refuses, what it does otherwise, and
    that it accepts the step that closes a circular wait. *)

From S2P Require Import Prelude.

Record lock_info := { owner : option nat; locked : bool }.

Definition deadlock_detector_init (num_mutexes : nat) : list lock_info :=
  replicate num_mutexes {| owner := None; locked := false |}.

Section detector.
Context (current : nat).   (* pthread_self() *)

Definition held_by_other (l : lock_info) : bool :=
  locked l && bool_decide (owner l <> Some current).
Definition held_by_me (l : lock_info) : bool :=
  locked l && bool_decide (owner l = Some current).

(** The inner loop: some [j > i] is held by the caller. *)
Definition inner_loop (dd : list lock_info) (i : nat) : bool :=
  existsb (fun j => match dd !! j with
                    | Some l => held_by_me l && (i <? j)%nat
                    | None => false end) (seq 0 (length dd)).

(** The outer loop: some [i] held by another thread has such a [j]. *)
Definition outer_loop (dd : list lock_info) : bool :=
  existsb (fun i => match dd !! i with
                    | Some l => held_by_other l && inner_loop dd i
                    | None => false end) (seq 0 (length dd)).

(** [timedlock] is what pthread_mutex_timedlock of the detector's mutex
    returned: 0 when it was acquired. *)
Definition deadlock_detector_lock (timedlock : Z) (dd : list lock_info) (mutex_id : Z) : list lock_info * Z :=
  if (mutex_id <? 0) || (mutex_id >=? Z.of_nat (length dd)) then (dd, - EINVAL)
  else if negb (timedlock =? 0) then (dd, - ETIMEDOUT)
  else if outer_loop dd then (dd, - EDEADLK)
  else (<[Z.to_nat mutex_id := {| owner := Some current; locked := true |}]> dd, 0).

Definition deadlock_detector_unlock (dd : list lock_info) (mutex_id : Z) : list lock_info * Z :=
  if (mutex_id <? 0) || (mutex_id >=? Z.of_nat (length dd)) then (dd, - EINVAL)
  else match dd !! Z.to_nat mutex_id with
  | Some l =>
      if negb (locked l) || bool_decide (owner l <> Some current) then (dd, - EPERM)
      else (<[Z.to_nat mutex_id := {| owner := None; locked := false |}]> dd, 0)
  | None => (dd, - EPERM)
  end.
End detector.

(** ** Lemmas *)

(** Another thread holds a mutex numbered below one that the caller holds. *)
Definition inversion_possible (me : nat) (dd : list lock_info) : Prop :=
  exists i j li lj, (i < j)%nat /\ dd !! i = Some li /\ dd !! j = Some lj /\
    held_by_other me li = true /\ held_by_me me lj = true.

Lemma outer_loop_spec me dd : outer_loop me dd = true <-> inversion_possible me dd.
Proof.
  unfold outer_loop, inner_loop, inversion_possible. rewrite existsb_exists. split.
  - intros (i & _ & Hi). destruct (dd !! i) as [li|] eqn:Ei; [|done].
    apply andb_prop in Hi as [Hi Hj]. apply existsb_exists in Hj as (j & _ & Hj).
    destruct (dd !! j) as [lj|] eqn:Ej; [|done]. apply andb_prop in Hj as [Hj Hij].
    exists i, j, li, lj. split_and!; try done. by apply Nat.ltb_lt.
  - intros (i & j & li & lj & Hij & Ei & Ej & Hi & Hj). exists i.
    apply lookup_lt_Some in Ei as Hilt. apply lookup_lt_Some in Ej as Hjlt.
    split; [apply in_seq; lia|]. rewrite Ei, Hi. simpl. apply existsb_exists. exists j.
    split; [apply in_seq; lia|]. rewrite Ej, Hj. simpl. by apply Nat.ltb_lt.
Qed.

(** ** Properties *)

(** What the detector decides.  An invalid number is -EINVAL and a mutex
    not acquired in time -ETIMEDOUT, the table unchanged; otherwise
    [deadlock_detector_lock] refuses with -EDEADLK, changing nothing, exactly
    if another thread holds a mutex numbered below one that the caller holds;
    the number asked for plays no part.  Otherwise it records the caller as
    the owner of that mutex, even if another thread held it, and changes no
    other entry; the matching unlock then succeeds and frees the entry. *)
Theorem deadlock_detector_lock_spec me timedlock dd id :
  let '(dd', r) := deadlock_detector_lock me timedlock dd id in
  (r = - EINVAL /\ dd' = dd /\ ~ 0 <= id < Z.of_nat (length dd)) \/
  (r = - ETIMEDOUT /\ dd' = dd /\ timedlock <> 0) \/
  (r = - EDEADLK /\ dd' = dd /\ inversion_possible me dd) \/
  (r = 0 /\ 0 <= id < Z.of_nat (length dd) /\ timedlock = 0 /\ ~ inversion_possible me dd /\
   dd' = <[Z.to_nat id := {| owner := Some me; locked := true |}]> dd /\
   deadlock_detector_unlock me dd' id =
     (<[Z.to_nat id := {| owner := None; locked := false |}]> dd, 0)).
Proof.
  unfold deadlock_detector_lock.
  destruct ((id <? 0) || (id >=? Z.of_nat (length dd))) eqn:Hid; [left; split_and!; [done..|lia]|].
  destruct (Z.eqb_spec timedlock 0) as [->|Ht]; simpl; [|by right; left].
  pose proof (outer_loop_spec me dd) as Hspec.
  destruct (outer_loop me dd); right; right; [left|right]; (split; [done|]).
  - split; [done|]. by apply Hspec.
  - split; [lia|]. split; [done|]. split; [intros H; by apply Hspec in H|]. split; [done|].
    unfold deadlock_detector_unlock. rewrite length_insert.
    replace ((id <? 0) || (id >=? Z.of_nat (length dd))) with false by lia.
    rewrite list_lookup_insert_eq by lia. simpl. by rewrite bool_decide_false, list_insert_insert_eq by auto.
Qed.

(** The detector misses the classic deadlock.  Two threads, two mutexes:
    thread 1 takes mutex 0, thread 2 takes mutex 1, then thread 1 asks for
    mutex 1.  The request is accepted, and thread 1 is recorded as its owner
    while thread 2 still uses it; thread 2's unlock is then refused. *)
Theorem deadlock_detector_misses_abba :
  let dd := deadlock_detector_init 2 in
  let '(dd, r1) := deadlock_detector_lock 1 0 dd 0 in
  let '(dd, r2) := deadlock_detector_lock 2 0 dd 1 in
  let '(dd, r3) := deadlock_detector_lock 1 0 dd 1 in
  let '(dd, r4) := deadlock_detector_unlock 2 dd 1 in
  r1 = 0 /\ r2 = 0 /\ r3 = 0 /\ r4 = - EPERM /\ owner <$> dd !! 1%nat = Some (Some 1%nat).
Proof. by vm_compute. Qed.
