(* ===== verification/Monitor.v ===== *)
(** * Monitor: the bounded buffer of samples (monitor.c)

    [monitor] is [struct bme680_monitor]: a ring of [size] samples with its
    head, tail and count, the embedded read-write lock (Rwlock) and the
    deadlock detector (DeadlockDetector).  An operation passes through three
    critical sections, hence three program points: the detector's lock, the
    monitor's mutex (possibly with waits), the detector's unlock.  The
    embedded lock is taken and released inside the second one.  The theorems:
    the ring implements a first-in first-out queue of at most [size] valid
    samples, step by step, for any interleaving of readers and writers; and
    the results of the operations, among which -EDEADLK is only the report of
    a late lock of the detector's mutex ([timedlock] in the first program
    points is what pthread_mutex_timedlock returns) and an invalid count is
    never reported. *)

From S2P Require Import Prelude LinuxLib CondMonitor Rwlock DeadlockDetector Bme680Data.

Record monitor := {
  m_data : list bme680_fifo_data;
  m_head : Z;
  m_tail : Z;
  m_size : Z;
  m_count : Z;
  m_rwlock : rwlock;
  m_dd : list lock_info;
}.

(** The condition variables. *)
Definition not_full : nat := 0.
Definition not_empty : nat := 1.

(** [MWriteUnlock d r] and [MReadUnlock v r]: only the detector's unlock and
    the return of [r] remain ([v] is what a read stored through its
    argument). *)
Inductive mon_point :=
| MWrite (timedlock : Z) (d : bme680_fifo_data)
| MWriteBody (d : bme680_fifo_data)
| MWriteWait (d : bme680_fifo_data)
| MWriteUnlock (d : bme680_fifo_data) (r : Z)
| MRead (timedlock : Z)
| MReadBody
| MReadWait
| MReadUnlock (v : option bme680_fifo_data) (r : Z).

Definition mon_outcome := outcome monitor mon_point.

Definition bme680_monitor_init (alloc : list bme680_fifo_data) (size : Z) : monitor := {|
  m_data := alloc; m_head := 0; m_tail := 0; m_size := size; m_count := 0;
  m_rwlock := rwlock_init; m_dd := deadlock_detector_init 2;
|}.

(** The validation at the start of bme680_monitor_write (the test
    [humidity < 0] of an unsigned field included). *)
Definition valid_sample (d : bme680_fifo_data) : bool :=
  negb ((temp d <? -40) || (temp d >? 85) || (pressure d <? 30000) || (pressure d >? 110000)
        || (humidity d <? 0) || (humidity d >? 100)).

Definition with_dd (m : monitor) (dd : list lock_info) : monitor := {|
  m_data := m_data m; m_head := m_head m; m_tail := m_tail m; m_size := m_size m;
  m_count := m_count m; m_rwlock := m_rwlock m; m_dd := dd;
|}.

(** The assignments of the write, and of the read, between the calls that
    take and release the embedded lock. *)
Definition enqueue (m : monitor) (d : bme680_fifo_data) (rw : rwlock) : monitor := {|
  m_data := <[Z.to_nat (m_tail m) := d]> (m_data m);
  m_head := m_head m; m_tail := Z.rem (m_tail m + 1) (m_size m); m_size := m_size m;
  m_count := m_count m + 1; m_rwlock := rw; m_dd := m_dd m;
|}.
Definition dequeue (m : monitor) (rw : rwlock) : monitor := {|
  m_data := m_data m; m_head := Z.rem (m_head m + 1) (m_size m); m_tail := m_tail m;
  m_size := m_size m; m_count := m_count m - 1; m_rwlock := rw; m_dd := m_dd m;
|}.

Definition invalid_count (m : monitor) : bool :=
  (m_count m <? 0) || (m_count m >? m_size m).

(** Lock and unlock of the embedded lock, by a thread that holds the mutex; a
    wait there would be for ever. *)
Definition locked_by (lock : rwlock -> rw_outcome) (m : monitor) (k : rwlock -> mon_outcome) : mon_outcome :=
  match lock (m_rwlock m) with
  | Return rw _ _ =>
      match rwlock_unlock rw with Return rw _ _ => k rw | _ => Hang end
  | _ => Hang
  end.

(** From the while loop of bme680_monitor_write to the mutex's unlock. *)
Definition write_loop (m : monitor) (d : bme680_fifo_data) : mon_outcome :=
  if m_count m =? m_size m then Wait m (MWriteWait d) not_full
  else if invalid_count m then Goto m NoSignal (MWriteUnlock d (- EINVAL))
  else locked_by rwlock_wrlock m (fun rw =>
    Goto (enqueue m d rw) (Signal not_empty) (MWriteUnlock d 0)).

Definition read_loop (m : monitor) : mon_outcome :=
  if m_count m =? 0 then Wait m MReadWait not_empty
  else if invalid_count m then Goto m NoSignal (MReadUnlock None (- EINVAL))
  else locked_by rwlock_rdlock m (fun rw =>
    Goto (dequeue m rw) (Signal not_full)
      (MReadUnlock (m_data m !! Z.to_nat (m_head m)) 0)).

Definition bme680_monitor_write (i : nat) (timedlock : Z) (p : bme680_fifo_data -> mon_point) (d : bme680_fifo_data)
    (m : monitor) : mon_outcome :=
  if negb (valid_sample d) then Return m NoSignal (- EINVAL)
  else
    let '(dd, r) := deadlock_detector_lock i timedlock (m_dd m) 0 in
    if negb (r =? 0) then Return (with_dd m dd) NoSignal (- EDEADLK)
    else Goto (with_dd m dd) NoSignal (p d).

Definition write_resume (d : bme680_fifo_data) (ret : Z) (m : monitor) : mon_outcome :=
  if ret =? ETIMEDOUT then Goto m NoSignal (MWriteUnlock d (- ETIMEDOUT))
  else if negb (ret =? 0) then Goto m NoSignal (MWriteUnlock d ret)
  else write_loop m d.

Definition bme680_monitor_read (i : nat) (timedlock : Z) (m : monitor) : mon_outcome :=
  let '(dd, r) := deadlock_detector_lock i timedlock (m_dd m) 1 in
  if negb (r =? 0) then Return (with_dd m dd) NoSignal (- EDEADLK)
  else Goto (with_dd m dd) NoSignal MReadBody.

Definition read_resume (ret : Z) (m : monitor) : mon_outcome :=
  if ret =? ETIMEDOUT then Goto m NoSignal (MReadUnlock None (- ETIMEDOUT))
  else if negb (ret =? 0) then Goto m NoSignal (MReadUnlock None ret)
  else read_loop m.

(** The last section: deadlock_detector_unlock, its result ignored. *)
Definition finish (i : nat) (id r : Z) (m : monitor) : mon_outcome :=
  Return (with_dd m (deadlock_detector_unlock i (m_dd m) id).1) NoSignal r.

Definition mon_code (i : nat) (p : mon_point) (ret : Z) (m : monitor) : mon_outcome :=
  match p with
  | MWrite tl d => bme680_monitor_write i tl MWriteBody d m
  | MWriteBody d => write_loop m d
  | MWriteWait d => write_resume d ret m
  | MWriteUnlock _ r => finish i 0 r m
  | MRead tl => bme680_monitor_read i tl m
  | MReadBody => read_loop m
  | MReadWait => read_resume ret m
  | MReadUnlock _ r => finish i 1 r m
  end.

#[export] Instance mon_program : Program monitor mon_point unit := {|
  code := mon_code;
  on_return _ _ g := g;
  may_call _ p := match p with MWrite _ _ | MRead _ => true | _ => false end;
  wake_ok _ r := 0 <=? r;
|}.

Definition sample_zero : bme680_fifo_data := {| temp := 0; pressure := 0; humidity := 0; gas_res := 0 |}.

Definition mon_start (size n : nat) : config monitor mon_point unit :=
  start (bme680_monitor_init (replicate size sample_zero) (Z.of_nat size)) (replicate n tt).

(** ** The queue the ring stands for *)

Record represents (m : monitor) (q : list bme680_fifo_data) : Prop := {
  rp_size : 0 < m_size m;
  rp_len : Z.of_nat (length (m_data m)) = m_size m;
  rp_head : 0 <= m_head m < m_size m;
  rp_tail : m_tail m = (m_head m + m_count m) mod m_size m;
  rp_count : m_count m = Z.of_nat (length q);
  rp_room : m_count m <= m_size m;
  rp_items k d : q !! k = Some d ->
    m_data m !! Z.to_nat ((m_head m + Z.of_nat k) mod m_size m) = Some d;
  rp_valid : Forall (fun d => valid_sample d = true) q;
  rp_rwlock : m_rwlock m = rwlock_init;
}.

Lemma represents_init size :
  (0 < size)%nat ->
  represents (bme680_monitor_init (replicate size sample_zero) (Z.of_nat size)) [].
Proof.
  intros Hs. constructor; simpl; rewrite ?length_replicate; try done; lia.
Qed.

Lemma represents_with_dd m q dd : represents m q -> represents (with_dd m dd) q.
Proof. intros []. by constructor. Qed.

(** Two positions of a ring at a distance below its size differ. *)
Lemma ring_ne h k l n :
  0 < n -> 0 <= k < n -> 0 <= l < n -> k <> l -> (h + k) mod n <> (h + l) mod n.
Proof.
  intros Hn Hk Hl Hkl E.
  assert ((k - l) mod n = 0) as E0.
  { replace (k - l) with ((h + k) - (h + l)) by lia. rewrite Zminus_mod, E, Z.sub_diag. done. }
  apply Z.mod_divide in E0 as [z Hz]; [|lia].
  assert (z < 1) by nia. assert (-1 < z) by nia. assert (z = 0) as -> by lia. lia.
Qed.

Lemma represents_enqueue m q d :
  represents m q -> m_count m < m_size m -> valid_sample d = true ->
  represents (enqueue m d rwlock_init) (q ++ [d]).
Proof.
  intros [] Hroom Hd. constructor; simpl; try done.
  - by rewrite length_insert.
  - rewrite rp_tail0, Z.rem_mod_nonneg by (pose proof (Z.mod_pos_bound (m_head m + m_count m) _ rp_size0); lia).
    rewrite Zplus_mod_idemp_l. f_equal. lia.
  - rewrite length_app. simpl. lia.
  - lia.
  - intros k x Hk. apply lookup_app_Some in Hk as [Hk|[Hlen Hk]].
    + rewrite list_lookup_insert_ne; [by apply rp_items0|].
      apply lookup_lt_Some in Hk. rewrite rp_tail0.
      pose proof (ring_ne (m_head m) (m_count m) (Z.of_nat k) (m_size m)) as Hne.
      pose proof (Z.mod_pos_bound (m_head m + m_count m) _ rp_size0).
      pose proof (Z.mod_pos_bound (m_head m + Z.of_nat k) _ rp_size0). lia.
    + assert (k = length q) as ->
        by (destruct (k - length q)%nat as [|?] eqn:E; simpl in Hk; [lia|done]).
      rewrite Nat.sub_diag in Hk. simpl in Hk. injection Hk as <-.
      rewrite <- rp_count0, <- rp_tail0. apply list_lookup_insert_eq.
      pose proof (Z.mod_pos_bound (m_head m + m_count m) _ rp_size0). lia.
  - apply Forall_app. split; [done|]. by constructor.
Qed.

Lemma represents_dequeue m q :
  represents m q -> 0 < m_count m ->
  exists d q', q = d :: q' /\ m_data m !! Z.to_nat (m_head m) = Some d /\
    represents (dequeue m rwlock_init) q'.
Proof.
  intros [] Hpos. destruct q as [|d q]; [simpl in *; lia|]. exists d, q.
  pose proof (rp_items0 0%nat d eq_refl) as Hd.
  rewrite Z.add_0_r, Z.mod_small in Hd by done. split_and!; [done..|].
  simpl in rp_count0.
  constructor; simpl; try done.
  - rewrite Z.rem_mod_nonneg by lia. apply Z.mod_pos_bound. lia.
  - rewrite rp_tail0, Z.rem_mod_nonneg by lia. rewrite Zplus_mod_idemp_l. f_equal. lia.
  - lia.
  - lia.
  - intros k x Hk. rewrite Z.rem_mod_nonneg, Zplus_mod_idemp_l by lia.
    rewrite <- (rp_items0 (S k) x) by done. do 3 f_equal. lia.
  - by inversion rp_valid0.
Qed.

(** ** The invariant *)

(** A result an operation may end with, once past its validation. *)
Definition mon_result (r : Z) : Prop := r = 0 \/ r = - ETIMEDOUT \/ 0 < r.

Definition point_ok (p : mon_point) : Prop :=
  match p with
  | MWrite _ _ | MRead _ | MReadBody | MReadWait => True
  | MWriteBody d | MWriteWait d => valid_sample d = true
  | MWriteUnlock d r => valid_sample d = true /\ mon_result r
  | MReadUnlock v r => mon_result r /\ (r = 0 <-> v <> None)
  end.

Definition mon_thread_ok (t : thread mon_point unit) : Prop :=
  match t.1 with
  | Idle => True
  | Ready p ret => point_ok p /\ 0 <= ret
  | Waiting p _ => point_ok p
  | Hung => False
  end.

(** A returned result: -EINVAL only for an invalid sample, -EDEADLK only when
    the detector's mutex was not acquired in time, and otherwise what the
    operation's last section was given. *)
Definition mon_hist_ok (x : nat * mon_point * Z) : Prop :=
  match x with
  | (_, MWrite tl d, r) =>
      (r = - EINVAL /\ valid_sample d = false) \/ (r = - EDEADLK /\ valid_sample d = true /\ tl <> 0)
  | (_, MRead tl, r) => r = - EDEADLK /\ tl <> 0
  | (_, MWriteUnlock d r', r) => r = r' /\ valid_sample d = true /\ mon_result r
  | (_, MReadUnlock v r', r) => r = r' /\ mon_result r /\ (r = 0 <-> v <> None)
  | _ => False
  end.

(** The thread is between the detector's lock and unlock of mutex [j]. *)
Definition inside (j : nat) (t : thread mon_point unit) : bool :=
  match t.1 with
  | Ready p _ | Waiting p _ =>
      match p with
      | MWriteBody _ | MWriteWait _ | MWriteUnlock _ _ => (j =? 0)%nat
      | MReadBody | MReadWait | MReadUnlock _ _ => (j =? 1)%nat
      | _ => false
      end
  | _ => false
  end.

Definition dd_ok (dd : list lock_info) (ts : list (thread mon_point unit)) : Prop :=
  length dd = 2%nat /\
  forall j l, dd !! j = Some l -> DeadlockDetector.locked l = true ->
    exists i t, owner l = Some i /\ ts !! i = Some t /\ inside j t = true.

Record mon_inv (c : config monitor mon_point unit) : Prop := {
  mi_queue : exists q, represents (shared c) q;
  mi_dd : dd_ok (m_dd (shared c)) (threads c);
  mi_threads : Forall mon_thread_ok (threads c);
  mi_hist : Forall mon_hist_ok (hist c);
}.

Lemma mon_inv_start size n : (0 < size)%nat -> mon_inv (mon_start size n).
Proof.
  intros Hs. constructor; unfold mon_start; rewrite ?start_threads; simpl.
  - exists []. by apply represents_init.
  - split; [done|]. intros [|[|j]] l Hj Hl; simpl in Hj; simplify_eq/=.
  - by apply Forall_replicate.
  - constructor.
Qed.

Lemma inside_wake j t : inside j (wake t) = inside j t.
Proof. by destruct t as [[| | |] ?]. Qed.

Lemma deliver_dd_ok dd sg pick ts ts' :
  deliver sg pick ts = Some ts' -> dd_ok dd ts -> dd_ok dd ts'.
Proof.
  intros Hd [Hlen Hdd]. split; [done|]. intros j l Hj Hl.
  destruct (Hdd j l Hj Hl) as (i & t & Ho & Ht & Hin).
  destruct (lookup_lt_is_Some_2 ts' i) as [t' Ht'].
  { rewrite (deliver_length _ _ _ _ Hd). by eapply lookup_lt_Some. }
  exists i, t'. split_and!; [done..|].
  destruct (deliver_lookup _ _ _ _ _ _ Hd Ht') as (t0 & Ht0 & Hcase). simplify_eq.
  destruct Hcase as [->|(p & cv & g & -> & -> & _)]; done.
Qed.

Lemma deliver_mon_threads sg pick ts ts' :
  deliver sg pick ts = Some ts' -> Forall mon_thread_ok ts -> Forall mon_thread_ok ts'.
Proof.
  intros Hd Hts. apply Forall_lookup. intros j t' Hj.
  destruct (deliver_lookup _ _ _ _ _ _ Hd Hj) as (t & Ht & Hcase).
  pose proof (Forall_lookup_1 _ _ _ _ Hts Ht) as Hok.
  destruct Hcase as [->|(p & cv & g & -> & -> & _)]; [done|]. simpl in *. done.
Qed.

(** The detector's table after a step of thread [i] from [t] to [t']: entries
    are the thread's own new one, or old ones it does not abandon. *)
Lemma dd_ok_update dd dd' ts i t t' :
  dd_ok dd ts -> ts !! i = Some t -> length dd' = 2%nat ->
  (forall j l, dd' !! j = Some l -> DeadlockDetector.locked l = true ->
     (owner l = Some i /\ inside j t' = true) \/
     (dd !! j = Some l /\ (owner l = Some i -> inside j t = true -> inside j t' = true))) ->
  dd_ok dd' (<[i := t']> ts).
Proof.
  intros [Hlen Hdd] Hi Hlen' Hnew. split; [done|]. intros j l Hj Hl.
  pose proof (lookup_lt_Some _ _ _ Hi).
  destruct (Hnew j l Hj Hl) as [[Ho Hin]|[Hj' Hkeep]].
  - exists i, t'. split_and!; [done|by apply list_lookup_insert_eq|done].
  - destruct (Hdd j l Hj' Hl) as (k & tk & Ho & Hk & Hin).
    destruct (decide (k = i)) as [->|Hne].
    + simplify_eq. exists i, t'. split_and!; [done|by apply list_lookup_insert_eq|auto].
    + exists k, tk. split_and!; [done|by rewrite list_lookup_insert_ne|done].
Qed.

(** A thread that is outside can always record its lock. *)
Lemma dd_lock_granted dd ts i t id :
  dd_ok dd ts -> ts !! i = Some t -> (forall j, inside j t = false) -> (id < 2)%nat ->
  deadlock_detector_lock i 0 dd (Z.of_nat id) =
    (<[id := {| owner := Some i; DeadlockDetector.locked := true |}]> dd, 0).
Proof.
  intros [Hlen Hdd] Hi Hout Hid. unfold deadlock_detector_lock.
  replace ((Z.of_nat id <? 0) || (Z.of_nat id >=? Z.of_nat (length dd))) with false by lia.
  rewrite Nat2Z.id. destruct (outer_loop i dd) eqn:Eo; [|done].
  apply outer_loop_spec in Eo as (k & j & lk & lj & _ & _ & Hj & _ & Hme).
  unfold held_by_me in Hme. apply andb_prop in Hme as [Hl Ho].
  apply bool_decide_eq_true in Ho. destruct (Hdd j lj Hj Hl) as (x & tx & Ho' & Hx & Hin).
  simplify_eq. by rewrite Hout in Hin.
Qed.

(** Not acquired in time: nothing changes. *)
Lemma dd_lock_late dd ts i tl id :
  dd_ok dd ts -> tl <> 0 -> 0 <= id < 2 -> deadlock_detector_lock i tl dd id = (dd, - ETIMEDOUT).
Proof.
  intros [Hlen _] Htl Hid. unfold deadlock_detector_lock. rewrite Hlen.
  replace ((id <? 0) || (id >=? Z.of_nat 2)) with false by lia.
  by replace (tl =? 0) with false by lia.
Qed.

(** What unlocking leaves in the table. *)
Lemma dd_unlock_entries i dd id j l :
  (deadlock_detector_unlock i dd id).1 !! j = Some l -> DeadlockDetector.locked l = true ->
  0 <= id < Z.of_nat (length dd) ->
  dd !! j = Some l /\ (Z.of_nat j = id -> owner l <> Some i).
Proof.
  intros Hj Hl Hid. unfold deadlock_detector_unlock in Hj.
  replace ((id <? 0) || (id >=? Z.of_nat (length dd))) with false in Hj by lia.
  destruct (dd !! Z.to_nat id) as [l0|] eqn:E0; [|apply lookup_ge_None in E0; lia].
  destruct (negb (DeadlockDetector.locked l0) || bool_decide (owner l0 <> Some i)) eqn:Eb; simpl in Hj.
  - split; [done|]. intros <-. rewrite Nat2Z.id in E0. simplify_eq. rewrite Hl in Eb. simpl in Eb.
    by apply bool_decide_eq_true in Eb.
  - apply list_lookup_insert_case in Hj as [(_ & -> & _)|(Hne & Hj)]; [done|].
    split; [done|]. intros <-. by rewrite Nat2Z.id in Hne.
Qed.

Lemma dd_unlock_length i dd id : length (deadlock_detector_unlock i dd id).1 = length dd.
Proof.
  unfold deadlock_detector_unlock.
  repeat (case_match; simpl; rewrite ?length_insert); done.
Qed.

(** ** One step *)

(** What a step of thread [i] does to the queue: nothing, one sample appended
    by a writer that is about to return 0, or the oldest one removed by a
    reader that is about to return 0 with it. *)
Definition queue_step (ts ts' : list (thread mon_point unit)) (room : Z)
    (q q' : list bme680_fifo_data) : Prop :=
  q' = q \/
  (exists i d ret, (ts !! i = Some (Ready (MWriteBody d) ret, tt) \/
                    ts !! i = Some (Ready (MWriteWait d) ret, tt)) /\
     q' = q ++ [d] /\ Z.of_nat (length q) < room /\
     ts' !! i = Some (Ready (MWriteUnlock d 0) 0, tt)) \/
  (exists i d ret, (ts !! i = Some (Ready MReadBody ret, tt) \/
                    ts !! i = Some (Ready MReadWait ret, tt)) /\
     q = d :: q' /\ ts' !! i = Some (Ready (MReadUnlock (Some d) 0) 0, tt)).

(** The two loops on a ring that represents a queue. *)
Lemma write_loop_cases m q d :
  represents m q -> valid_sample d = true ->
  write_loop m d = Wait m (MWriteWait d) not_full \/
  exists m', write_loop m d = Goto m' (Signal not_empty) (MWriteUnlock d 0) /\
    represents m' (q ++ [d]) /\ m_dd m' = m_dd m /\ m_size m' = m_size m /\
    Z.of_nat (length q) < m_size m.
Proof.
  intros Hm Hd. unfold write_loop.
  destruct (Z.eqb_spec (m_count m) (m_size m)) as [|Hne]; [by left|right].
  pose proof (rp_count _ _ Hm). pose proof (rp_room _ _ Hm).
  unfold invalid_count. replace ((m_count m <? 0) || (m_count m >? m_size m)) with false by lia.
  unfold locked_by. rewrite (rp_rwlock _ _ Hm). simpl.
  eexists. split; [reflexivity|]. split_and!; try done; [|lia].
  apply represents_enqueue; [done|lia|done].
Qed.

Lemma read_loop_cases m q :
  represents m q ->
  read_loop m = Wait m MReadWait not_empty \/
  exists m' d q', read_loop m = Goto m' (Signal not_full) (MReadUnlock (Some d) 0) /\
    q = d :: q' /\ represents m' q' /\ m_dd m' = m_dd m /\ m_size m' = m_size m.
Proof.
  intros Hm. unfold read_loop.
  destruct (Z.eqb_spec (m_count m) 0) as [|Hne]; [by left|right].
  pose proof (rp_count _ _ Hm). pose proof (rp_room _ _ Hm).
  unfold invalid_count. replace ((m_count m <? 0) || (m_count m >? m_size m)) with false by lia.
  unfold locked_by. rewrite (rp_rwlock _ _ Hm). simpl.
  destruct (represents_dequeue m q Hm) as (d & q' & -> & Hd & Hq'); [lia|].
  rewrite Hd. exists (dequeue m rwlock_init), d, q'. done.
Qed.

(** All outcomes of the code. *)
Inductive mon_step (i : nat) (m : monitor) (q : list bme680_fifo_data) : mon_point -> Z -> mon_outcome -> Prop :=
| ms_refuse tl d ret : valid_sample d = false ->
    mon_step i m q (MWrite tl d) ret (Return m NoSignal (- EINVAL))
| ms_busy p ret tl :
    tl <> 0 -> (exists d, p = MWrite tl d /\ valid_sample d = true) \/ p = MRead tl ->
    mon_step i m q p ret (Return (with_dd m (m_dd m)) NoSignal (- EDEADLK))
| ms_enter p ret id p' :
    (id = 0%nat /\ exists tl d, p = MWrite tl d /\ p' = MWriteBody d /\ valid_sample d = true) \/
    (id = 1%nat /\ (exists tl, p = MRead tl) /\ p' = MReadBody) ->
    mon_step i m q p ret
      (Goto (with_dd m (<[id := {| owner := Some i; DeadlockDetector.locked := true |}]> (m_dd m)))
        NoSignal p')
| ms_wait p ret p' cv :
    (exists d, (p = MWriteBody d \/ p = MWriteWait d) /\ p' = MWriteWait d) \/
    ((p = MReadBody \/ p = MReadWait) /\ p' = MReadWait) ->
    mon_step i m q p ret (Wait m p' cv)
| ms_enqueue p ret d m' :
    p = MWriteBody d \/ p = MWriteWait d -> represents m' (q ++ [d]) -> m_dd m' = m_dd m ->
    Z.of_nat (length q) < m_size m ->
    mon_step i m q p ret (Goto m' (Signal not_empty) (MWriteUnlock d 0))
| ms_dequeue p ret d q' m' :
    p = MReadBody \/ p = MReadWait -> q = d :: q' -> represents m' q' -> m_dd m' = m_dd m ->
    mon_step i m q p ret (Goto m' (Signal not_full) (MReadUnlock (Some d) 0))
| ms_fail p ret p' r :
    (exists d, p = MWriteWait d /\ p' = MWriteUnlock d r) \/
    (p = MReadWait /\ p' = MReadUnlock None r) ->
    r = - ETIMEDOUT \/ 0 < r ->
    mon_step i m q p ret (Goto m NoSignal p')
| ms_finish p ret id r :
    (id = 0 /\ exists d, p = MWriteUnlock d r) \/ (id = 1 /\ exists v, p = MReadUnlock v r) ->
    mon_step i m q p ret
      (Return (with_dd m (deadlock_detector_unlock i (m_dd m) id).1) NoSignal r).

Lemma mon_code_step i p ret g m q ts :
  represents m q -> dd_ok (m_dd m) ts -> ts !! i = Some (Ready p ret, g) ->
  point_ok p -> 0 <= ret -> mon_step i m q p ret (mon_code i p ret m).
Proof.
  intros Hm Hdd Hi Hp Hret.
  assert (forall d, p = MWriteBody d \/ p = MWriteWait d -> valid_sample d = true ->
    mon_step i m q p ret (write_loop m d)) as HW.
  { intros d Hpd Hd. destruct (write_loop_cases m q d Hm Hd) as [->|(m' & -> & ? & ? & _ & ?)].
    - apply ms_wait. left. by exists d.
    - by apply ms_enqueue. }
  assert (p = MReadBody \/ p = MReadWait -> mon_step i m q p ret (read_loop m)) as HR.
  { intros Hpd. destruct (read_loop_cases m q Hm) as [->|(m' & d & q' & -> & ? & ? & ? & _)].
    - apply ms_wait. by right.
    - by eapply ms_dequeue. }
  destruct p as [tl d|d|d|d r|tl| | |v r]; simpl in Hp |- *.
  - unfold bme680_monitor_write. destruct (valid_sample d) eqn:Hd; simpl; [|by apply ms_refuse].
    destruct (Z.eq_dec tl 0) as [->|Htl].
    + pose proof (dd_lock_granted _ _ _ _ 0 Hdd Hi ltac:(done) ltac:(lia)) as E.
      change (Z.of_nat 0) with 0 in E. rewrite E. simpl.
      apply ms_enter. left. eauto 10.
    + rewrite (dd_lock_late _ _ _ _ 0 Hdd Htl) by lia. simpl.
      eapply ms_busy; eauto.
  - by apply HW; [left|].
  - unfold write_resume. destruct (Z.eqb_spec ret ETIMEDOUT); [eapply ms_fail; eauto|].
    destruct (Z.eqb_spec ret 0); simpl; [by apply HW; [right|]|].
    eapply ms_fail; [eauto|right; lia].
  - apply ms_finish. eauto.
  - unfold bme680_monitor_read.
    destruct (Z.eq_dec tl 0) as [->|Htl].
    + pose proof (dd_lock_granted _ _ _ _ 1 Hdd Hi ltac:(done) ltac:(lia)) as E.
      change (Z.of_nat 1) with 1 in E. rewrite E. simpl.
      apply ms_enter. right. eauto.
    + rewrite (dd_lock_late _ _ _ _ 1 Hdd Htl) by lia. simpl.
      eapply ms_busy; eauto.
  - apply HR. by left.
  - unfold read_resume. destruct (Z.eqb_spec ret ETIMEDOUT); [eapply ms_fail; eauto|].
    destruct (Z.eqb_spec ret 0); simpl; [apply HR; by right|].
    eapply ms_fail; [eauto|right; lia].
  - apply ms_finish. eauto.
Qed.

(** The statuses around a step, for the other threads' sake. *)
Lemma mon_step_ok i m q p ret o :
  mon_step i m q p ret o -> point_ok p -> 0 <= ret ->
  match o with
  | Return _ _ r => mon_hist_ok (i, p, r)
  | Goto _ _ p' => point_ok p'
  | Wait _ p' _ => point_ok p'
  | Hang => False
  end.
Proof.
  intros H Hp Hret. unfold mon_result in *. destruct H; simpl in *; unfold mon_result in *; try done.
  all: destruct_or?; destruct_and?; repeat match goal with H : exists _, _ |- _ => destruct H end;
    destruct_and?; destruct_or?; destruct_and?; subst; simpl in *; unfold mon_result in *;
    destruct_and?; split_and?; auto; try done; try (split; [lia|done]).
Qed.

(** A step that leaves the queue alone. *)
Lemma mon_inv_quiet (c c' : config monitor mon_point unit) i t t' sg pick q :
  mon_inv c -> threads c !! i = Some t ->
  deliver sg pick (<[i := t']> (threads c)) = Some (threads c') ->
  represents (shared c') q -> mon_thread_ok t' ->
  dd_ok (m_dd (shared c')) (<[i := t']> (threads c)) ->
  Forall mon_hist_ok (hist c') -> mon_inv c'.
Proof.
  intros Hc Hi Hd Hq Ht' Hdd Hh. constructor; [by exists q| | |done].
  - by eapply deliver_dd_ok.
  - eapply deliver_mon_threads; [done|]. apply Forall_insert; [apply (mi_threads _ Hc)|done].
Qed.

(** The table of a thread that moves within, or outside, its two calls to the
    detector. *)
Lemma dd_ok_same dd ts i t t' :
  dd_ok dd ts -> ts !! i = Some t -> (forall j, inside j t = true -> inside j t' = true) ->
  dd_ok dd (<[i := t']> ts).
Proof.
  intros Hdd Hi Hin. eapply dd_ok_update; [done|done|apply Hdd|].
  intros j l Hj Hl. right. auto.
Qed.

Ltac mon_cases :=
  repeat match goal with
  | H : exists _, _ |- _ => destruct H
  | H : _ /\ _ |- _ => destruct H
  | H : _ \/ _ |- _ => destruct H
  end; subst; simpl in *.

(** What a step does to the queue and to the detector's table. *)
Record sound_step (c c' : config monitor mon_point unit) (i : nat) (t' : thread mon_point unit)
    (q : list bme680_fifo_data) : Prop := {
  ss_thread : mon_thread_ok t';
  ss_dd : dd_ok (m_dd (shared c')) (<[i := t']> (threads c));
  ss_hist : Forall mon_hist_ok (hist c');
  ss_queue : exists q', represents (shared c') q' /\
    queue_step (threads c) (threads c') (m_size (shared c)) q q';
}.

Lemma mon_step_sound (c c' : config monitor mon_point unit) i p ret g q sg pick o t' :
  mon_inv c -> represents (shared c) q -> threads c !! i = Some (Ready p ret, g) ->
  mon_step i (shared c) q p ret o -> point_ok p -> 0 <= ret ->
  match o with
  | Return s sg' r => t' = (Idle, g) /\ shared c' = s /\ hist c' = (i, p, r) :: hist c /\ sg' = sg
  | Goto s sg' p' => t' = (Ready p' 0, g) /\ shared c' = s /\ hist c' = hist c /\ sg' = sg
  | Wait s p' cv => t' = (Waiting p' cv, g) /\ shared c' = s /\ hist c' = hist c /\ sg = NoSignal
  | Hang => True
  end ->
  deliver sg pick (<[i := t']> (threads c)) = Some (threads c') ->
  sound_step c c' i t' q.
Proof.
  intros Hc Hq Hi Hstep Hp Hret Ho Hd. pose proof (mi_dd _ Hc) as Hdd. destruct g.
  pose proof (mi_hist _ Hc) as Hhc. pose proof (mon_step_ok _ _ _ _ _ _ Hstep Hp Hret) as Hok.
  destruct Hstep; destruct Ho as (-> & Es & Eh & Esg); subst sg; simpl in Hok;
    constructor; rewrite ?Es, ?Eh; try done; try (by constructor);
    try (exists q; split; [by try apply represents_with_dd|by left]).
  - by eapply dd_ok_same.
  - eapply dd_ok_same; [done|done|]. unfold inside; simpl; by mon_cases.
  - eapply dd_ok_update; [done|done|simpl; by rewrite length_insert, (proj1 Hdd)|].
    intros j l Hj Hl. apply list_lookup_insert_case in Hj as [(-> & -> & _)|(_ & Hj)].
    + left. split; [done|]. unfold inside; simpl; by mon_cases.
    + right. split; [done|]. intros _. unfold inside; simpl; by mon_cases.
  - eapply dd_ok_same; [done|done|]. intros j. unfold inside; simpl; by mon_cases.
  - match goal with H : m_dd _ = _ |- _ => rewrite H end.
    eapply dd_ok_same; [done|done|]. intros j. unfold inside; simpl; by mon_cases.
  - eexists. split; [done|]. right; left. exists i, d, ret. split_and!; [by mon_cases; auto|done..|].
    eapply deliver_self; eauto; done.
  - match goal with H : m_dd _ = _ |- _ => rewrite H end.
    eapply dd_ok_same; [done|done|]. intros j. unfold inside; simpl; by mon_cases.
  - eexists. split; [done|]. right; right. exists i, d, ret. split_and!; [by mon_cases; auto|done|].
    eapply deliver_self; eauto; done.
  - eapply dd_ok_same; [done|done|]. intros j. unfold inside; simpl; by mon_cases.
  - eapply dd_ok_update; [done|done|simpl; by rewrite dd_unlock_length, (proj1 Hdd)|].
    intros j l Hj Hl. simpl in Hj. apply dd_unlock_entries in Hj as [Hj Hne]; [|done|rewrite (proj1 Hdd); mon_cases; lia].
    right. split; [done|]. intros Ho Hin. exfalso. revert Hne Hin. unfold inside; simpl.
    mon_cases; intros Hne Hin; apply Nat.eqb_eq in Hin as ->; by apply Hne.
Qed.

Lemma mon_inv_step (c c' : config monitor mon_point unit) e :
  mon_inv c -> exec_event c e = Some c' ->
  mon_inv c' /\ forall q, represents (shared c) q -> exists q',
    represents (shared c') q' /\
    queue_step (threads c) (threads c') (m_size (shared c)) q q'.
Proof.
  intros Hc E. pose proof (mi_dd _ Hc) as Hdd. pose proof (mi_hist _ Hc) as Hhc.
  assert (exists i t' sg pick, is_Some (threads c !! i) /\
    deliver sg pick (<[i := t']> (threads c)) = Some (threads c') /\
    forall q, represents (shared c) q -> sound_step c c' i t' q) as (i & t' & sg & pick & [t Hi] & Hd & HS).
  { apply step_cases in E.
    destruct E as [i p g Hi Hm Hs Hh Hth|i p cv ret g Hi Hm Hs Hh Hth
      |i pick p ret g s sg x Hi Hcode Hs Hh Hd|i pick p ret g s sg p' Hi Hcode Hs Hh Hd
      |i pick p ret g s p' cv Hi Hcode Hs Hh Hth|i pick p ret g Hi Hcode Hs Hh Hth].
    all: pose proof (Forall_lookup_1 _ _ _ _ (mi_threads _ Hc) Hi) as Hok; simpl in Hok.
    1: exists i, (Ready p 0, g), NoSignal, 0%nat. 2: exists i, (Ready p ret, g), NoSignal, 0%nat.
    1,2: split; [by eexists|split; [by simpl; rewrite Hth|]]; intros q Hq;
      constructor; rewrite ?Hs, ?Hh; try done;
      [|by eapply dd_ok_same|exists q; split; [done|by left]].
    { by destruct p. }
    { split; [done|]. by apply Z.leb_le. }
    all: destruct Hok as [Hp Hret];
      assert (forall q, represents (shared c) q ->
        mon_step i (shared c) q p ret (mon_code i p ret (shared c))) as HM
        by (intros; by eapply mon_code_step);
      change (mon_code i p ret (shared c)) with (code i p ret (shared c)) in HM;
      rewrite Hcode in HM.
    - exists i, (Idle, g), sg, pick. split; [by eexists|split; [by destruct g|]]. intros q Hq.
      eapply mon_step_sound; eauto; simpl; auto.
    - exists i, (Ready p' 0, g), sg, pick. split; [by eexists|split; [done|]]. intros q Hq.
      eapply mon_step_sound; eauto; simpl; auto.
    - exists i, (Waiting p' cv, g), NoSignal, 0%nat.
      split; [by eexists|split; [by simpl; rewrite Hth|]]. intros q Hq.
      eapply mon_step_sound with (pick := 0%nat); eauto; simpl; auto. by rewrite Hth.
    - destruct (mi_queue _ Hc) as [q Hq]. specialize (HM q Hq). by inversion HM. }
  split; [|intros q Hq; by apply (HS q Hq)].
  destruct (mi_queue _ Hc) as [q Hq]. destruct (HS q Hq) as [Ht Hdd' Hh (q' & Hq' & _)].
  by eapply mon_inv_quiet.
Qed.

Lemma mon_reachable size n c :
  (0 < size)%nat -> reachable any (mon_start size n) c -> mon_inv c.
Proof.
  intros Hs. apply reachable_inv; [by apply mon_inv_start|].
  intros c0 e c' _ Hc E. by apply (mon_inv_step _ _ _ Hc E).
Qed.

(** ** Properties *)


(** The results of the monitor's operations, in every reachable
    configuration: a write returns -EINVAL exactly for an invalid sample, an
    operation returns -EDEADLK only if the detector's own mutex was not
    acquired in time (never because the detector sees a deadlock), and
    otherwise 0, -ETIMEDOUT or the error of the wait; a read returns 0 exactly
    when it delivers a sample.  The report of an invalid count never occurs,
    and no thread hangs on the embedded lock. *)
Theorem monitor_results size n c :
  (0 < size)%nat -> reachable any (mon_start size n) c ->
  Forall mon_hist_ok (hist c) /\ Forall (fun t => t.1 <> Hung) (threads c).
Proof.
  intros Hs Hr. apply mon_reachable in Hr as Hc; [|done]. split; [apply (mi_hist _ Hc)|].
  eapply Forall_impl; [apply (mi_threads _ Hc)|]. intros [[] ?] Hok E; by simplify_eq/=.
Qed.

(** ** Witnesses *)

Definition warm : bme680_fifo_data := {| temp := 21; pressure := 101325; humidity := 40; gas_res := 5 |}.

(** A reader waits, a writer fills the ring of one, a second writer waits; the
    reader is woken. *)
Definition mon_trace : list (event mon_point) :=
  [Call 0 (MRead 0); Run 0 0; Run 0 0; Call 1 (MWrite 0 warm); Run 1 0;
   Call 2 (MWrite 0 warm); Run 2 0; Run 1 0; Run 1 0; Run 2 0].

Lemma mon_trace_run :
  exists c c', run (mon_start 1 3) mon_trace = Some c /\ exec_event c (Run 0 2) = Some c' /\
    m_count (shared c) = 1 /\ m_count (shared c') = 0.
Proof. eexists _, _. split_and!; vm_compute; reflexivity. Qed.


Lemma monitor_results_witness :
  exists c, run (mon_start 1 2)
    [Call 0 (MRead 7); Run 0 0; Call 0 (MRead 0); Run 0 0; Run 0 0; Wake 0 ETIMEDOUT; Run 0 0; Run 0 0;
     Call 1 (MWrite 0 sample_zero); Run 1 0] = Some c /\
    map snd (hist c) = [- EINVAL; - ETIMEDOUT; - EDEADLK] /\ Forall mon_hist_ok (hist c).
Proof.
  eexists. split; [vm_compute; reflexivity|split; [reflexivity|]].
  apply (monitor_results 1 2); [lia|].
  eexists [Call 0 (MRead 7); Run 0 0; Call 0 (MRead 0); Run 0 0; Run 0 0; Wake 0 ETIMEDOUT; Run 0 0;
           Run 0 0; Call 1 (MWrite 0 sample_zero); Run 1 0].
  split; vm_compute; reflexivity.
Defined.
