(* ===== verification/SharedObject.v ===== *)
(** * SharedObject: objects that several threads call

    The interface between the synchronisation objects and the programs that
    use them.  An object is specified by a relation [decides rq a a' an]: the
    request [rq] may take the contents from [a] to [a'], with answer [an], in
    one atomic step.  [abs_object] adds to the contents the phase of each
    client's call: idle, asked, or decided, with the answer it is about to
    get; [ao_step] are its steps.

    [SharedObject] is a class of implementations, with calls and steps of
    their own; [SharedObjectOk] says, for a number of clients, that an idle
    client can call, that the object simulates the specification, and that a
    call can always be brought to its end by steps of the object alone.
    A program is proved against the class.  [cond_object_ok] discharges it for
    the monitors of CondMonitor, from laws about one stretch of code
    ([CondObjectOk]). *)

From S2P Require Import Prelude CondMonitor.

(** ** The specification *)

Inductive phase (Rq An : Type) := QIdle | QAsked (rq : Rq) | QDecided (rq : Rq) (an : An).
Arguments QIdle {_ _}.
Arguments QAsked {_ _} _.
Arguments QDecided {_ _} _ _.

Record abs_object (A Rq An : Type) := AO { contents : A; phases : nat -> phase Rq An }.
Arguments AO {_ _ _} _ _.
Arguments contents {_ _ _} _.
Arguments phases {_ _ _} _ _.

Definition set_phase {Rq An} (i : nat) (ph : phase Rq An) (f : nat -> phase Rq An) : nat -> phase Rq An :=
  fun j => if decide (i = j) then ph else f j.

Lemma set_phase_eq {Rq An} i (ph : phase Rq An) f : set_phase i ph f i = ph.
Proof. unfold set_phase. by rewrite decide_True. Qed.
Lemma set_phase_ne {Rq An} i j (ph : phase Rq An) f : i <> j -> set_phase i ph f j = f j.
Proof. intros. unfold set_phase. by rewrite decide_False. Qed.

Section specification.
Context {A Rq An : Type} (decides : Rq -> A -> A -> An -> Prop).
Implicit Types (a : abs_object A Rq An).

(** Nothing, or a call is decided. *)
Inductive decide_step a : abs_object A Rq An -> Prop :=
| ds_none : decide_step a a
| ds_decide i rq x an :
    phases a i = QAsked rq -> decides rq (contents a) x an ->
    decide_step a (AO x (set_phase i (QDecided rq an) (phases a))).

(** Nothing, or a decided call returns. *)
Inductive answer_step a : abs_object A Rq An -> option (nat * An) -> Prop :=
| as_none : answer_step a a None
| as_answer i rq an :
    phases a i = QDecided rq an ->
    answer_step a (AO (contents a) (set_phase i QIdle (phases a))) (Some (i, an)).

Definition ao_step a a' (o : option (nat * An)) : Prop :=
  exists a1, decide_step a a1 /\ answer_step a1 a' o.
End specification.

(** ** The interface *)

(** [ob_call q i rq x]: client [i] calls, [x] being what the environment
    answers to a call that the operation makes at its start.  [ob_step]: a
    step of the object, with the call that returns. *)
Class SharedObject (Q E Rq An : Type) := {
  ob_call : Q -> nat -> Rq -> Z -> option Q;
  ob_step : Q -> E -> option (Q * option (nat * An));
}.

(** Steps during which no call returns. *)
Fixpoint ob_quiet {Q E Rq An} `{SharedObject Q E Rq An} (q : Q) (es : list E) : option Q :=
  match es with
  | [] => Some q
  | e :: es => match ob_step q e with Some (q', None) => ob_quiet q' es | _ => None end
  end.

Class SharedObjectOk {Q E Rq An : Type} (K : SharedObject Q E Rq An) {A : Type}
    (decides : Rq -> A -> A -> An -> Prop) (clients : nat) (abs : Q -> abs_object A Rq An -> Prop) : Prop := {
  ob_enter q a i rq x : abs q a -> (i < clients)%nat -> phases a i = QIdle -> is_Some (ob_call q i rq x);
  ob_call_ok q a i rq x q' : abs q a -> ob_call q i rq x = Some q' ->
    phases a i = QIdle /\ abs q' (AO (contents a) (set_phase i (QAsked rq) (phases a)));
  ob_step_ok q a e q' o : abs q a -> ob_step q e = Some (q', o) ->
    exists a', abs q' a' /\ ao_step decides a a' o;
  ob_progress q a i : abs q a -> phases a i <> QIdle ->
    exists es q1 e q2 an, ob_quiet q es = Some q1 /\ ob_step q1 e = Some (q2, Some (i, an));
}.

(** ** Monitors as objects *)

(** [req_point]: where the operation of a request begins; [point_phase]: what
    a thread at a program point has asked, or been given; [answer_at p r]: the
    answer of an operation whose last stretch, from [p], returns [r]. *)
Class CondObject (S P G Rq An : Type) {Pr : Program S P G} := {
  req_point : Rq -> Z -> P;
  point_phase : P -> phase Rq An;
  answer_at : P -> Z -> An;
}.

Section monitors.
Context {S P G Rq An : Type} {Pr : Program S P G} {CO : CondObject S P G Rq An}.
Implicit Types (c : config S P G) (ts : list (thread P G)).

Definition last_answer (h : list (nat * P * Z)) : option (nat * An) :=
  match h with (i, p, r) :: _ => Some (i, answer_at p r) | [] => None end.

#[export] Instance cond_object : SharedObject (config S P G) (event P) Rq An := {|
  ob_call c i rq x := exec_event c (Call i (req_point rq x));
  ob_step c e :=
    match e with
    | Call _ _ => None
    | _ =>
        c' ← exec_event c e;
        Some (c', if (length (hist c) <? length (hist c'))%nat then last_answer (hist c') else None)
    end;
|}.

Definition status_phase (s : status P) : phase Rq An :=
  match s with Ready p _ | Waiting p _ => point_phase p | Idle | Hung => QIdle end.

Definition phase_at ts (i : nat) : phase Rq An :=
  match ts !! i with Some t => status_phase t.1 | None => QIdle end.

Lemma deliver_phase sg pick ts ts' i :
  deliver sg pick ts = Some ts' -> phase_at ts' i = phase_at ts i.
Proof.
  intros Hd. unfold phase_at. pose proof (deliver_length _ _ _ _ Hd) as Hlen.
  destruct (ts' !! i) as [t'|] eqn:Hi.
  - by destruct (deliver_lookup _ _ _ _ _ _ Hd Hi) as (t & -> & [->|(p & cv & g & -> & -> & _)]).
  - apply lookup_ge_None in Hi. rewrite Hlen in Hi. apply lookup_ge_None in Hi. by rewrite Hi.
Qed.

Lemma insert_phase ts i t t' j :
  ts !! i = Some t -> phase_at (<[i := t']> ts) j = set_phase i (status_phase t'.1) (phase_at ts) j.
Proof.
  intros Hi. unfold phase_at, set_phase. case_decide as Hij; [subst|by rewrite list_lookup_insert_ne].
  rewrite list_lookup_insert_eq; [done|]. by eapply lookup_lt_Some.
Qed.

(** Some waiting thread can always be chosen for a signal. *)
Lemma deliver_total sg ts : exists pick ts', deliver sg pick ts = Some ts'.
Proof.
  destruct sg as [|cv|cv]; [by exists 0%nat, ts| |by eexists 0%nat, _].
  destruct (Z.eqb_spec (count_if (waits_on cv) ts) 0) as [E|E].
  - exists (length ts), ts. simpl. rewrite lookup_ge_None_2 by lia. by rewrite E.
  - destruct (count_if_pos (waits_on cv) ts) as (i & t & Hi & Hw);
      [pose proof (count_if_nonneg (waits_on cv) ts); lia|].
    exists i. simpl. rewrite Hi, Hw. by eexists.
Qed.
End monitors.

(** *** The laws of one stretch of code *)

Section laws.
Context {S P G Rq An A : Type} {Pr : Program S P G} {CO : CondObject S P G Rq An}.
Context (decides : Rq -> A -> A -> An -> Prop).

(** What a thread's phase and the contents do in a stretch that goes on, and
    in one that returns. *)
Inductive moves : phase Rq An -> A -> phase Rq An -> A -> Prop :=
| mv_same ph x : moves ph x ph x
| mv_decide rq x x' an : decides rq x x' an -> moves (QAsked rq) x (QDecided rq an) x'.

Inductive returns : phase Rq An -> A -> An -> A -> Prop :=
| rt_decided rq an x : returns (QDecided rq an) x an x
| rt_decide rq x x' an : decides rq x x' an -> returns (QAsked rq) x an x'.

Definition code_ok (repr : S -> A -> Prop) (p : P) (x : A) (o : outcome S P) : Prop :=
  match o with
  | Return s _ r => exists x', repr s x' /\ returns (point_phase p) x (answer_at p r) x'
  | Goto s _ p' | Wait s p' _ => exists x', repr s x' /\ moves (point_phase p) x (point_phase p') x'
  | Hang => False
  end.

(** A rank that bounds the stretches to the end when waits time out. *)
Definition rank_ok (rank : P -> Z -> nat) (n : nat) (o : outcome S P) : Prop :=
  match o with
  | Return _ _ _ => True
  | Goto _ _ p' => (rank p' 0%Z < n)%nat
  | Wait _ p' _ => (rank p' ETIMEDOUT < n)%nat
  | Hang => True
  end.

Class CondObjectOk (inv : config S P G -> Prop) (repr : S -> A -> Prop) (rank : P -> Z -> nat) : Prop := {
  co_inv c e c' : inv c -> exec_event c e = Some c' -> inv c';
  co_entry rq x : point_phase (req_point rq x) = QAsked rq;
  co_code c i p ret g x : inv c -> repr (shared c) x -> threads c !! i = Some (Ready p ret, g) ->
    code_ok repr p x (code i p ret (shared c));
  co_rank i p ret s : rank_ok rank (rank p ret) (code i p ret s);
  co_timeout p : wake_ok p ETIMEDOUT = true;
  co_may g rq x : may_call g (req_point rq x) = true;
  co_busy p : point_phase p <> QIdle;
}.

Definition alive (t : thread P G) : Prop := t.1 <> Hung.

Record cond_abs (inv : config S P G -> Prop) (repr : S -> A -> Prop) (clients : nat) (c : config S P G)
    (a : abs_object A Rq An) : Prop := {
  ca_inv : inv c;
  ca_repr : repr (shared c) (contents a);
  ca_phase i : phases a i = phase_at (threads c) i;
  ca_clients : length (threads c) = clients;
  ca_alive : Forall alive (threads c);
}.

Context {inv : config S P G -> Prop} {repr : S -> A -> Prop} {rank : P -> Z -> nat}.
Context {Ok : CondObjectOk inv repr rank} {clients : nat}.

Lemma cond_enter c a i rq x :
  cond_abs inv repr clients c a -> (i < clients)%nat -> phases a i = QIdle -> is_Some (ob_call c i rq x).
Proof.
  intros [Hc Hr Hph Hn Hal] Hi Hidle. rewrite Hph in Hidle. unfold phase_at in Hidle.
  destruct (lookup_lt_is_Some_2 (threads c) i) as [[st g] Ht]; [by rewrite Hn|]. rewrite Ht in Hidle. simpl in Hidle.
  cbn [ob_call cond_object]. unfold exec_event. rewrite Ht.
  destruct st as [|p ret|p cv|]; simpl in Hidle; [|by destruct (co_busy p)..|by destruct (Forall_lookup_1 _ _ _ _ Hal Ht)].
  rewrite co_may. by eexists.
Qed.

Lemma deliver_alive sg pick (ts ts' : list (thread P G)) :
  deliver sg pick ts = Some ts' -> Forall alive ts -> Forall alive ts'.
Proof.
  intros Hd Hts. apply Forall_lookup. intros j t' Hj.
  destruct (deliver_lookup _ _ _ _ _ _ Hd Hj) as (t & Ht & [->|(q & cv & g & -> & -> & _)]); [|done].
  by apply (Forall_lookup_1 _ _ _ _ Hts Ht).
Qed.

(** No thread is lost or hangs. *)
Lemma cond_alive c e c' x :
  inv c -> repr (shared c) x -> Forall alive (threads c) -> exec_event c e = Some c' -> Forall alive (threads c').
Proof.
  intros Hc Hr Hal E. apply step_cases in E.
  destruct E as [i p g Hi _ Hs Hh Hth|i p cv ret g Hi _ Hs Hh Hth
    |i pick p ret g m sg r Hi Hcode Hs Hh Hd|i pick p ret g m sg p' Hi Hcode Hs Hh Hd
    |i pick p ret g m p' cv Hi Hcode Hs Hh Hth|i pick p ret g Hi Hcode Hs Hh Hth].
  1,2,5: rewrite Hth; by apply Forall_insert.
  1,2: eapply deliver_alive; [exact Hd|]; by apply Forall_insert.
  pose proof (co_code _ _ _ _ _ _ Hc Hr Hi) as HM. by rewrite Hcode in HM.
Qed.

Lemma cond_call_ok c a i rq x c' :
  cond_abs inv repr clients c a -> ob_call c i rq x = Some c' ->
  phases a i = QIdle /\ cond_abs inv repr clients c' (AO (contents a) (set_phase i (QAsked rq) (phases a))).
Proof.
  intros [Hc Hr Hph Hn Hal] E. cbn [ob_call cond_object] in E.
  pose proof (co_inv _ _ _ Hc E) as Hc'. pose proof (step_length _ _ _ E) as Hlen.
  pose proof (cond_alive _ _ _ _ Hc Hr Hal E) as Hal'. apply step_cases in E.
  inversion E as [j p g Hi Hm Hsh Hh Hth| | | | |]; subst. split.
  { rewrite Hph. unfold phase_at. by rewrite Hi. }
  split; [done|by rewrite Hsh| |by rewrite Hlen|done]. intros j. cbn [phases].
  rewrite Hth, (insert_phase _ _ _ _ _ Hi). unfold set_phase. case_decide; [simpl; by rewrite co_entry|apply Hph].
Qed.

(** A stretch that goes on, as a step of the specification. *)
Lemma moves_step a i p ph x' :
  phases a i = point_phase p -> moves (point_phase p) (contents a) ph x' ->
  exists a', ao_step decides a a' None /\ contents a' = x' /\
    forall j, phases a' j = set_phase i ph (phases a) j.
Proof.
  intros Hi Hm. inversion Hm as [ph0 x0 E1 E2|rq x0 x1 an Hd E1 E2]; simplify_eq.
  - exists a. split; [exists a; split; constructor|]. split; [done|].
    intros j. unfold set_phase. case_decide; [by subst|done].
  - eexists. split; [eexists; split; [eapply (ds_decide _ _ i); [by rewrite Hi|exact Hd]|constructor]|]. by split.
Qed.

Lemma returns_step a i p an x' :
  phases a i = point_phase p -> returns (point_phase p) (contents a) an x' ->
  exists a', ao_step decides a a' (Some (i, an)) /\ contents a' = x' /\
    forall j, phases a' j = set_phase i QIdle (phases a) j.
Proof.
  intros Hi Hm. inversion Hm as [rq an0 x0 E1 E2|rq x0 x1 an0 Hd E1 E2]; simplify_eq.
  - eexists. split; [exists a; split; [constructor|eapply (as_answer _ i); by rewrite Hi]|]. by split.
  - eexists. split.
    { eexists. split; [eapply (ds_decide _ _ i); [by rewrite Hi|exact Hd]|].
      eapply (as_answer _ i). simpl. by rewrite set_phase_eq. }
    split; [done|]. intros j. simpl. unfold set_phase. by case_decide.
Qed.

Lemma cond_step_ok c a e c' o :
  cond_abs inv repr clients c a -> ob_step c e = Some (c', o) ->
  exists a', cond_abs inv repr clients c' a' /\ ao_step decides a a' o.
Proof.
  intros [Hc Hr Hph Hn Hal] E.
  assert (exec_event c e = Some c' /\ (forall i p, e <> Call i p) /\
    o = if (length (hist c) <? length (hist c'))%nat then last_answer (hist c') else None) as (E1 & Hne & ->).
  { destruct e; [done|..]; apply bind_Some in E as (c1 & E1 & E); injection E as <- <-; eauto 10. }
  clear E. pose proof (co_inv _ _ _ Hc E1) as Hc'. pose proof (step_length _ _ _ E1) as Hlen.
  pose proof (cond_alive _ _ _ _ Hc Hr Hal E1) as Hal'. apply step_cases in E1.
  destruct E1 as [i p g Hi _ Hs Hh Hth|i p cv ret g Hi _ Hs Hh Hth
    |i pick p ret g m sg r Hi Hcode Hs Hh Hd|i pick p ret g m sg p' Hi Hcode Hs Hh Hd
    |i pick p ret g m p' cv Hi Hcode Hs Hh Hth|i pick p ret g Hi Hcode Hs Hh Hth]; [by destruct (Hne i p)|..].
  { exists a. rewrite Hh, Nat.ltb_irrefl. split; [|exists a; split; constructor].
    split; [done|by rewrite Hs| |by rewrite Hlen|done]. intros j. rewrite Hph, Hth, (insert_phase _ _ _ _ _ Hi). unfold set_phase.
    case_decide; [subst|done]. unfold phase_at. by rewrite Hi. }
  all: pose proof (co_code _ _ _ _ _ _ Hc Hr Hi) as HM; rewrite Hcode in HM;
    assert (phases a i = point_phase p) as Hpi by (rewrite Hph; unfold phase_at; by rewrite Hi).
  4: done.
  all: destruct HM as (x' & Hr' & Hm); first
    [destruct (returns_step a i p _ x' Hpi Hm) as (a' & Ha & Hx & Hph')
    |destruct (moves_step a i p _ x' Hpi Hm) as (a' & Ha & Hx & Hph')]; exists a'; rewrite Hh; cbn [length].
  1: rewrite (proj2 (Nat.ltb_lt _ _)) by lia. 2,3: rewrite Nat.ltb_irrefl.
  all: (split; [|exact Ha]); split; [done|by rewrite Hs, Hx| |by rewrite Hlen|done].
  all: intros j; rewrite Hph'; unfold set_phase at 1; rewrite ?Hth, ?(deliver_phase _ _ _ _ _ Hd), (insert_phase _ _ _ _ _ Hi);
    unfold set_phase; case_decide; [done|apply Hph].
Qed.

(** *** Progress *)

Definition ends (c : config S P G) (i : nat) : Prop :=
  exists es c1 e c2 an, ob_quiet c es = Some c1 /\ ob_step c1 e = Some (c2, Some (i, an)).

Lemma ends_step c e c' i :
  (forall j p, e <> Call j p) -> exec_event c e = Some c' -> hist c' = hist c -> ends c' i -> ends c i.
Proof.
  intros Hne E Hh (es & c1 & e1 & c2 & an & Hq & Hs). exists (e :: es), c1, e1, c2, an. split; [|done].
  assert (ob_step c e = Some (c', None)) as Es.
  { destruct e; [by edestruct Hne|..]; cbn [ob_step cond_object]; rewrite E; cbn [mbind option_bind];
      by rewrite Hh, Nat.ltb_irrefl. }
  cbn [ob_quiet]. by rewrite Es.
Qed.

(** A thread in a call ends it by its own stretches, if its waits time out. *)
Lemma ready_ends k c i p ret g x :
  (rank p ret < k)%nat -> inv c -> repr (shared c) x -> threads c !! i = Some (Ready p ret, g) -> ends c i.
Proof.
  revert c p ret x. induction k as [|k IH]; intros c p ret x Hk Hc Hr Hi; [lia|].
  pose proof (co_code _ _ _ _ _ _ Hc Hr Hi) as HM. pose proof (co_rank i p ret (shared c)) as HR.
  assert (forall q, code i p ret (shared c) = q -> (match q with
    | Return s sg r => exists pick ts, deliver sg pick (<[i := (Idle, on_return p r g)]> (threads c)) = Some ts
    | Goto s sg p' => exists pick ts, deliver sg pick (<[i := (Ready p' 0, g)]> (threads c)) = Some ts
    | _ => True end)) as Hdel by (intros q _; destruct q; try done; apply deliver_total).
  destruct (code i p ret (shared c)) as [s sg r|s sg p'|s p' cv|] eqn:Hcode; [| | |done].
  - destruct (Hdel _ eq_refl) as (pick & ts & Hd).
    assert (exec_event c (Run i pick) = Some {| shared := s; threads := ts; hist := (i, p, r) :: hist c |}) as E
      by (simpl; by rewrite Hi, Hcode, Hd).
    exists [], c, (Run i pick), {| shared := s; threads := ts; hist := (i, p, r) :: hist c |}, (answer_at p r). split; [done|].
    cbn [ob_step cond_object]. rewrite E. cbn [mbind option_bind hist length].
    by rewrite (proj2 (Nat.ltb_lt _ _)) by lia.
  - destruct (Hdel _ eq_refl) as (pick & ts & Hd). destruct HM as (x' & Hr' & _).
    assert (exec_event c (Run i pick) = Some {| shared := s; threads := ts; hist := hist c |}) as E
      by (simpl; by rewrite Hi, Hcode, Hd).
    eapply ends_step; [|exact E|done|]; [done|].
    apply (IH _ p' 0 x'); [simpl in HR; lia|by eapply co_inv|done|].
    simpl. eapply deliver_self; [exact Hi| |exact Hd]. by intros.
  - destruct HM as (x' & Hr' & _).
    set (c1 := {| shared := s; threads := <[i := (Waiting p' cv, g)]> (threads c); hist := hist c |}).
    assert (exec_event c (Run i 0) = Some c1) as E by (simpl; by rewrite Hi, Hcode).
    pose proof (lookup_lt_Some _ _ _ Hi) as Hlt.
    assert (exec_event c1 (Wake i ETIMEDOUT) =
      Some {| shared := s; threads := <[i := (Ready p' ETIMEDOUT, g)]> (threads c1); hist := hist c |}) as E1.
    { simpl. rewrite list_lookup_insert_eq by done. by rewrite co_timeout. }
    eapply ends_step; [|exact E|done|]; [done|]. eapply ends_step; [|exact E1|done|]; [done|].
    apply (IH _ p' ETIMEDOUT x'); [simpl in HR; lia|by eapply co_inv; [eapply co_inv|]|done|].
    simpl. by rewrite list_insert_insert_eq, list_lookup_insert_eq.
Qed.

Lemma cond_progress c a i : cond_abs inv repr clients c a -> phases a i <> QIdle -> ends c i.
Proof.
  intros [Hc Hr Hph _ _] Hi. rewrite Hph in Hi. unfold phase_at in Hi.
  destruct (threads c !! i) as [[[|p ret|p cv|] g]|] eqn:Ht; try done.
  - eapply ready_ends; [apply Nat.lt_succ_diag_r|done..].
  - assert (exec_event c (Wake i ETIMEDOUT) =
      Some {| shared := shared c; threads := <[i := (Ready p ETIMEDOUT, g)]> (threads c); hist := hist c |}) as E
      by (simpl; by rewrite Ht, co_timeout).
    eapply ends_step; [|exact E|done|]; [done|].
    eapply ready_ends; [apply Nat.lt_succ_diag_r|by eapply co_inv|done|].
    simpl. apply list_lookup_insert_eq. by eapply lookup_lt_Some.
Qed.

#[export] Instance cond_object_ok : SharedObjectOk cond_object decides clients (cond_abs inv repr clients).
Proof.
  constructor; [apply cond_enter|apply cond_call_ok|apply cond_step_ok|]. intros. by eapply cond_progress.
Qed.
End laws.

(** Before the first call. *)
Definition ao_start {A Rq An} (x : A) : abs_object A Rq An := AO x (fun _ => QIdle).

Lemma cond_abs_start {S P G Rq An A} {Pr : Program S P G} {CO : CondObject S P G Rq An}
    (inv : config S P G -> Prop) (repr : S -> A -> Prop) s n g x :
  inv (start s (replicate n g)) -> repr s x ->
  cond_abs inv repr n (start s (replicate n g)) (ao_start (Rq:=Rq) (An:=An) x).
Proof.
  intros Hi Hr. split; rewrite ?start_threads; [done|done| |by rewrite length_replicate|by apply Forall_replicate].
  intros i. unfold phase_at.
  destruct (replicate n _ !! i) as [t|] eqn:Ht; [|done]. by apply lookup_replicate in Ht as [-> _].
Qed.
