(* ===== verification/SampleQueue.v ===== *)
(** * SampleQueue: what the monitor promises to the programs that use it

    The specification of a bounded queue of samples, as an object of
    SharedObject: what a write and a read may do to it, and answer.  Monitor
    discharges it, as an object over CondMonitor. *)

From S2P Require Import Prelude LinuxLib Bme680Data CondMonitor DeadlockDetector Monitor SharedObject.

(** ** The specification *)

Inductive q_req := PutReq (d : bme680_fifo_data) | GetReq.

(** The result of a call, and the sample of a read. *)
Definition q_answer : Type := Z * option bme680_fifo_data.

(** Any call may fail, which changes nothing. *)
Inductive q_decides (size : Z) : q_req -> list bme680_fifo_data -> list bme680_fifo_data -> q_answer -> Prop :=
| dc_put d q : valid_sample d = true -> Z.of_nat (length q) < size ->
    q_decides size (PutReq d) q (q ++ [d]) (0, None)
| dc_get d q : q_decides size GetReq (d :: q) q (0, Some d)
| dc_fail rq q r : r <> 0 -> q_decides size rq q q (r, None).

(** ** The monitor keeps the promise *)

#[export] Instance monitor_object : CondObject monitor mon_point unit q_req q_answer := {|
  req_point rq timedlock := match rq with PutReq d => MWrite timedlock d | GetReq => MRead timedlock end;
  point_phase p :=
    match p with
    | MWrite _ d | MWriteBody d | MWriteWait d => QAsked (PutReq d)
    | MWriteUnlock d r => QDecided (PutReq d) (r, None)
    | MRead _ | MReadBody | MReadWait => QAsked GetReq
    | MReadUnlock v r => QDecided GetReq (r, v)
    end;
  answer_at p r := (r, match p with MReadUnlock v _ => v | _ => None end);
|}.

Definition ring_of (size : Z) (m : monitor) (q : list bme680_fifo_data) : Prop :=
  represents m q /\ m_size m = size.

Definition mon_rank (p : mon_point) (ret : Z) : nat :=
  match p with
  | MWrite _ _ | MRead _ => 4
  | MWriteBody _ | MReadBody => 3
  | MWriteWait _ | MReadWait => if ret =? ETIMEDOUT then 2 else 3
  | MWriteUnlock _ _ | MReadUnlock _ _ => 1
  end.

(** The size of the ring is fixed. *)
Definition outcome_shared (o : mon_outcome) (m : monitor) : monitor :=
  match o with Return m _ _ | Goto m _ _ | Wait m _ _ => m | Hang => m end.

Lemma locked_by_size lock m k o :
  locked_by lock m k = o -> (forall rw, m_size (outcome_shared (k rw) m) = m_size m) ->
  m_size (outcome_shared o m) = m_size m.
Proof. intros <- Hk. unfold locked_by. repeat case_match; by rewrite ?Hk. Qed.

Lemma write_loop_size m d : m_size (outcome_shared (write_loop m d) m) = m_size m.
Proof. unfold write_loop. csplit; [done..|]. by eapply locked_by_size. Qed.

Lemma read_loop_size m : m_size (outcome_shared (read_loop m) m) = m_size m.
Proof. unfold read_loop. csplit; [done..|]. by eapply locked_by_size. Qed.

Lemma mon_code_size i p ret m : m_size (outcome_shared (mon_code i p ret m) m) = m_size m.
Proof.
  destruct p as [tl d|d|d|d r|tl| | |v r]; simpl;
    [unfold bme680_monitor_write|..|unfold bme680_monitor_read| | |];
    unfold write_resume, read_resume, finish; repeat case_match; auto using write_loop_size, read_loop_size.
Qed.

(** Every stretch shortens the way to the end. *)
Lemma locked_by_rank lock m k n :
  (forall rw, rank_ok mon_rank n (k rw)) -> rank_ok mon_rank n (locked_by lock m k).
Proof. intros Hk. unfold locked_by. repeat case_match; simpl; auto. Qed.

Lemma mon_code_rank i p ret m : rank_ok mon_rank (mon_rank p ret) (mon_code i p ret m).
Proof.
  assert (forall d n, (3 <= n)%nat -> rank_ok mon_rank n (write_loop m d)) as HW.
  { intros d n Hn. unfold write_loop. csplit; simpl; [lia..|]. apply locked_by_rank. simpl. lia. }
  assert (forall n, (3 <= n)%nat -> rank_ok mon_rank n (read_loop m)) as HR.
  { intros n Hn. unfold read_loop. csplit; simpl; [lia..|]. apply locked_by_rank. simpl. lia. }
  destruct p as [tl d|d|d|d r|tl| | |v r]; simpl; auto;
    [unfold bme680_monitor_write|unfold write_resume|unfold bme680_monitor_read|unfold read_resume];
    repeat case_match; simpl; auto with lia.
Qed.

(** A stretch does what a request may do. *)
Lemma mon_code_ok size i m q p ret o :
  ring_of size m q -> mon_step i m q p ret o -> point_ok p -> m_size (outcome_shared o m) = m_size m ->
  code_ok (q_decides size) (ring_of size) p q o.
Proof.
  intros [Hm <-] Hs Hp Hsz.
  destruct Hs as [tl d ret Hd|p ret tl Htl Hpp|p ret id p' Hpp|p ret p' cv Hpp|p ret d m' Hpp Hq' Hdd Hl
    |p ret d q' m' Hpp -> Hq' Hdd|p ret p' r Hpp Hr|p ret id r Hpp]; cbn [code_ok outcome_shared] in *.
  - exists q. split; [done|]. apply rt_decide. by apply dc_fail.
  - exists q. split; [split; [by apply represents_with_dd|done]|].
    destruct Hpp as [(d & -> & _)| ->]; apply rt_decide; by apply dc_fail.
  - exists q. split; [split; [by apply represents_with_dd|done]|].
    destruct Hpp as [(_ & tl & d & -> & -> & _)|(_ & (tl & ->) & ->)]; apply mv_same.
  - exists q. split; [done|]. destruct Hpp as [(d & [-> | ->] & ->)|([-> | ->] & ->)]; apply mv_same.
  - exists (q ++ [d]). split; [done|]. destruct Hpp as [-> | ->]; apply mv_decide; by apply dc_put.
  - exists q'. split; [done|]. destruct Hpp as [-> | ->]; apply mv_decide; by apply dc_get.
  - exists q. split; [done|].
    destruct Hpp as [(d & -> & ->)|(-> & ->)]; apply mv_decide, dc_fail; unfold ETIMEDOUT in *; lia.
  - exists q. split; [split; [by apply represents_with_dd|done]|].
    destruct Hpp as [(_ & d & ->)|(_ & v & ->)]; apply rt_decided.
Qed.

#[export] Instance monitor_object_ok size :
  CondObjectOk (q_decides size) mon_inv (ring_of size) mon_rank.
Proof.
  constructor.
  - intros c e c' Hc E. apply (mon_inv_step _ _ _ Hc E).
  - by intros [].
  - intros c i p ret g q Hc Hq Hi.
    pose proof (Forall_lookup_1 _ _ _ _ (mi_threads _ Hc) Hi) as [Hp Hret].
    pose proof (mon_code_step _ _ _ _ _ _ _ (proj1 Hq) (mi_dd _ Hc) Hi Hp Hret) as HM.
    by eapply mon_code_ok; [..|apply mon_code_size].
  - intros. apply mon_code_rank.
  - done.
  - by intros [] [].
  - by intros [].
Qed.

Lemma monitor_object_start size n :
  (0 < size)%nat ->
  cond_abs mon_inv (ring_of (Z.of_nat size)) n (mon_start size n) (ao_start (A:=list bme680_fifo_data) []).
Proof.
  intros Hs. apply cond_abs_start; [by apply mon_inv_start|]. split; [by apply represents_init|done].
Qed.
