(* ===== verification/SyncObjects.v ===== *)
(** * SyncObjects: the semaphore and the event pair as objects

    What fifo_semaphore.c and event_pair.c promise to the programs that use
    them, as specifications of SharedObject, and the proofs that the code over
    CondMonitor keeps the promises: for any number of threads, every
    interleaving, and waits that end in every possible way. *)

From S2P Require Import Prelude CInt CondMonitor FifoSemaphore EventPair SharedObject.

(** ** The semaphore *)

Inductive sem_req := SemWaitReq | SemPostReq.

(** A wait takes one or fails; a post gives one, wrapped to the C int, and
    reports a negative count. *)
Inductive sem_decides : sem_req -> Z -> Z -> Z -> Prop :=
| sd_wait n : 0 < n -> sem_decides SemWaitReq n (n - 1) 0
| sd_fail n r : r <> 0 -> sem_decides SemWaitReq n n r
| sd_post n : sem_decides SemPostReq n (cast S32 (n + 1)) (if cast S32 (n + 1) <? 0 then - EINVAL else 0).

#[export] Instance sem_object : CondObject Z sem_point unit sem_req Z := {|
  req_point rq _ := match rq with SemWaitReq => SemWait | SemPostReq => SemPost end;
  point_phase p := match p with SemWait | SemResume => QAsked SemWaitReq | SemPost => QAsked SemPostReq end;
  answer_at _ r := r;
|}.

Definition sem_repr (count n : Z) : Prop := count = n /\ in_range S32 n.

Definition sem_rank (p : sem_point) (ret : Z) : nat :=
  match p with SemWait => 3 | SemResume => if ret =? 0 then 3 else 1 | SemPost => 1 end.

Lemma wait_loop_ok p n :
  in_range S32 n -> p <> SemPost -> code_ok sem_decides sem_repr p n (wait_loop n).
Proof.
  intros Hn Hp. unfold wait_loop. destruct (Z.leb_spec n 0) as [H0|H0].
  - exists n. split; [done|]. destruct p; [apply mv_same..|done].
  - destruct (Z.ltb_spec n 0); [lia|].
    assert (in_range S32 (n - 1)) as Hr by (unfold in_range, tmax in *; simpl in *; lia).
    exists (n - 1). split; [split; [by apply cast_id|done]|].
    destruct p; [apply rt_decide; by apply sd_wait..|done].
Qed.

#[export] Instance sem_object_ok : CondObjectOk sem_decides (fun _ => True) sem_repr sem_rank.
Proof.
  constructor; [done|by intros []| | |done|by intros [] []|by intros []].
  - intros c i p ret g n _ [-> Hn] _. cbn [code sem_program]. unfold sem_code, fifo_semaphore_wait, wait_resume.
    destruct p; [by apply wait_loop_ok| |].
    + destruct (Z.eqb_spec ret ETIMEDOUT) as [->|Ht]; [|destruct (Z.eqb_spec ret 0) as [->|H0]]; simpl negb; cbv iota;
        [|by apply wait_loop_ok|]; exists n; (split; [done|]); by apply rt_decide, sd_fail.
    + unfold fifo_semaphore_post. cbv zeta. pose proof (cast_range S32 (n + 1)) as Hr.
      pose proof (sd_post n) as Hd. destruct (cast S32 (n + 1) <? 0);
        (exists (cast S32 (n + 1)); split; [done|]; by apply rt_decide).
  - intros i p ret n. cbn [code sem_program]. unfold sem_code, fifo_semaphore_wait, wait_resume, wait_loop, fifo_semaphore_post.
    destruct p; csplit; simpl; try rewrite (proj2 (Z.eqb_eq ret 0)) by lia; by auto with lia.
Qed.

Lemma sem_object_start n value :
  in_range S32 value -> cond_abs (fun _ => True) sem_repr n (sem_start n value) (ao_start (A:=Z) value).
Proof. intros Hv. by apply cond_abs_start. Qed.

(** ** The event pair *)

Inductive ep_req := EpSignalReq (k : ev) | EpWaitReq (k : ev).

(** A signal overwrites what is there; a wait takes its own event, or times
    out. *)
Inductive ep_decides : ep_req -> Z -> Z -> Z -> Prop :=
| ed_signal k st : ep_decides (EpSignalReq k) st (ev_state k) 0
| ed_take k : ep_decides (EpWaitReq k) (ev_state k) 0 0
| ed_timeout k st : ep_decides (EpWaitReq k) st st (- ETIMEDOUT).

#[export] Instance ep_object : CondObject Z ep_point unit ep_req Z := {|
  req_point rq _ := match rq with EpSignalReq k => EpSignal k | EpWaitReq k => EpWait k end;
  point_phase p :=
    match p with EpSignal k => QAsked (EpSignalReq k) | EpWait k | EpResume k => QAsked (EpWaitReq k) end;
  answer_at _ r := r;
|}.

Definition ep_rank (p : ep_point) (ret : Z) : nat :=
  match p with EpSignal _ => 1 | EpWait _ => 3 | EpResume _ => if ret =? ETIMEDOUT then 1 else 3 end.

#[export] Instance ep_object_ok : CondObjectOk ep_decides (fun _ => True) eq ep_rank.
Proof.
  constructor; [done|by intros []| | |done|by intros [] []|by intros []].
  - intros c i p ret g st _ <- _. pose proof (ep_code_step i p ret (shared c)) as Hs.
    change (code i p ret (shared c)) with (ep_code i p ret (shared c)).
    destruct Hs as [k ret st|k ret st p Hp ->|k st|k ret st p Hp Hst]; cbn [code_ok].
    + eexists. split; [done|]. apply rt_decide, ed_signal.
    + eexists. split; [done|]. destruct Hp as [->|[-> _]]; apply rt_decide, ed_take.
    + eexists. split; [done|]. apply rt_decide, ed_timeout.
    + eexists. split; [done|]. destruct Hp as [-> | ->]; apply mv_same.
  - intros i p ret st. change (code i p ret st) with (ep_code i p ret st).
    destruct p as [[]|[]|k]; simpl; unfold event_pair_wait1, event_pair_wait2, event_wait, event_wait_resume, event_wait_loop; csplit; simpl; rewrite ?Z.eqb_refl; auto with lia.
Qed.

Lemma ep_object_start n : cond_abs (fun _ => True) eq n (ep_start n) (ao_start (A:=Z) 0).
Proof. by apply cond_abs_start. Qed.
