(* ===== verification/IpcSync.v ===== *)
(** * IpcSync: one sample in shared memory (ipc_sync.c)

    Processes share one [struct bme680_fifo_data] under a System V semaphore.
    memcpy is not atomic: it is four steps here, one per field
    ([copy_field]), between which other processes run.  [exec_ipc] interleaves
    the operations; semtimedop and semop may fail at any point, and
    [Reinit] is what ipc_sync_init of a further process does to an existing
    semaphore (SETVAL 1).  [ipc_sync_init] is its acquisition of resources.

    The theorems: without such a further init no read is torn; if the post at
    the end of an operation fails, no later operation ever succeeds; init
    releases on failure all that it acquired. *)

From S2P Require Import Prelude LinuxLib Bme680Data Monitor.

(** ** Copying *)

Definition copy_field (k : nat) (src dst : bme680_fifo_data) : bme680_fifo_data :=
  match k with
  | 0%nat => {| temp := temp src; pressure := pressure dst; humidity := humidity dst; gas_res := gas_res dst |}
  | 1%nat => {| temp := temp dst; pressure := pressure src; humidity := humidity dst; gas_res := gas_res dst |}
  | 2%nat => {| temp := temp dst; pressure := pressure dst; humidity := humidity src; gas_res := gas_res dst |}
  | _ => {| temp := temp dst; pressure := pressure dst; humidity := humidity dst; gas_res := gas_res src |}
  end.

(** [dst] after the first [k] fields have been copied; all of them at 4. *)
Fixpoint copied (k : nat) (src dst : bme680_fifo_data) : bme680_fifo_data :=
  match k with
  | O => dst
  | S k => copy_field k src (copied k src dst)
  end.
Definition fields : nat := 4.

Lemma copied_all src dst : copied fields src dst = src.
Proof. by destruct src. Qed.

(** ** The operations *)

(** Before the wait; copying, with the number of fields copied; and before
    the post (all fields copied). *)
Inductive ipc_pc :=
| IpcIdle
| WriteWait (d : bme680_fifo_data) | WriteCopy (d : bme680_fifo_data) (k : nat)
| ReadWait | ReadCopy (buf : bme680_fifo_data) (k : nat).

(** A returned call: the sample given to a write, or left by a read. *)
Inductive ipc_result :=
| Wrote (d : bme680_fifo_data) (r : Z)
| GotSample (buf : option bme680_fifo_data) (r : Z).

Record ipc_state := {
  semval : Z;
  shm : bme680_fifo_data;
  procs : list ipc_pc;
  started : list bme680_fifo_data;   (* the samples whose copy to [shm] began *)
  results : list ipc_result;
}.

Inductive ipc_event :=
| CallWrite (i : nat) (d : bme680_fifo_data)
| CallRead (i : nat)
| SemWait (i : nat)
| SemWaitFails (i : nat) (errno : Z)
| Copy (i : nat)
| SemPost (i : nat)
| SemPostFails (i : nat) (errno : Z)
| Reinit.

Definition goto_pc (c : ipc_state) (i : nat) (p : ipc_pc) : ipc_state :=
  {| semval := semval c; shm := shm c; procs := <[i := p]> (procs c); started := started c; results := results c |}.
Definition return_ipc (c : ipc_state) (i : nat) (r : ipc_result) : ipc_state :=
  {| semval := semval c; shm := shm c; procs := <[i := IpcIdle]> (procs c); started := started c;
     results := r :: results c |}.
Definition set_sem (c : ipc_state) (v : Z) : ipc_state :=
  {| semval := v; shm := shm c; procs := procs c; started := started c; results := results c |}.
Definition set_shm (c : ipc_state) (s : bme680_fifo_data) : ipc_state :=
  {| semval := semval c; shm := s; procs := procs c; started := started c; results := results c |}.
Definition start_copy (c : ipc_state) (d : bme680_fifo_data) : ipc_state :=
  {| semval := semval c; shm := shm c; procs := procs c; started := d :: started c; results := results c |}.

(** ipc_sync_write up to the wait: the validation. *)
Definition ipc_sync_write (c : ipc_state) (i : nat) (d : bme680_fifo_data) : ipc_state :=
  if valid_sample d then goto_pc c i (WriteWait d) else return_ipc c i (Wrote d (- EINVAL)).
Definition ipc_sync_read (c : ipc_state) (i : nat) : ipc_state :=
  goto_pc c i ReadWait.

(** The end of the two operations: [post] is the result of semop. *)
Definition write_end (c : ipc_state) (i : nat) (d : bme680_fifo_data) (post : Z) : ipc_state :=
  return_ipc c i (Wrote d post).
Definition read_end (c : ipc_state) (i : nat) (buf : bme680_fifo_data) (post : Z) : ipc_state :=
  return_ipc c i (GotSample (Some buf) (if valid_sample buf then post else - EINVAL)).

(** [uninit] is what the buffer of a read holds before the copy. *)
Definition exec_ipc (uninit : bme680_fifo_data) (c : ipc_state) (e : ipc_event) : option ipc_state :=
  match e with
  | Reinit => Some (set_sem c 1)
  | CallWrite i d =>
      p ← procs c !! i; match p with IpcIdle => Some (ipc_sync_write c i d) | _ => None end
  | CallRead i =>
      p ← procs c !! i; match p with IpcIdle => Some (ipc_sync_read c i) | _ => None end
  | SemWait i =>
      p ← procs c !! i;
      if 0 <? semval c then
        match p with
        | WriteWait d => Some (goto_pc (start_copy (set_sem c (semval c - 1)) d) i (WriteCopy d 0))
        | ReadWait => Some (goto_pc (set_sem c (semval c - 1)) i (ReadCopy uninit 0))
        | _ => None
        end
      else None
  | SemWaitFails i errno =>
      p ← procs c !! i;
      if 0 <? errno then
        match p with
        | WriteWait d => Some (return_ipc c i (Wrote d (- errno)))
        | ReadWait => Some (return_ipc c i (GotSample None (- errno)))
        | _ => None
        end
      else None
  | Copy i =>
      p ← procs c !! i;
      match p with
      | WriteCopy d k =>
          if (k <? fields)%nat then Some (goto_pc (set_shm c (copy_field k d (shm c))) i (WriteCopy d (S k)))
          else None
      | ReadCopy buf k =>
          if (k <? fields)%nat then Some (goto_pc c i (ReadCopy (copy_field k (shm c) buf) (S k))) else None
      | _ => None
      end
  | SemPost i =>
      p ← procs c !! i;
      match p with
      | WriteCopy d k => if (k =? fields)%nat then Some (write_end (set_sem c (semval c + 1)) i d 0) else None
      | ReadCopy buf k => if (k =? fields)%nat then Some (read_end (set_sem c (semval c + 1)) i buf 0) else None
      | _ => None
      end
  | SemPostFails i errno =>
      p ← procs c !! i;
      if 0 <? errno then
        match p with
        | WriteCopy d k => if (k =? fields)%nat then Some (write_end c i d (- errno)) else None
        | ReadCopy buf k => if (k =? fields)%nat then Some (read_end c i buf (- errno)) else None
        | _ => None
        end
      else None
  end.

Fixpoint run_ipc (uninit : bme680_fifo_data) (c : ipc_state) (es : list ipc_event) : option ipc_state :=
  match es with
  | [] => Some c
  | e :: es => c' ← exec_ipc uninit c e; run_ipc uninit c' es
  end.

(** [n] processes after the first init: the content of the segment is [s]. *)
Definition ipc_start (n : nat) (s : bme680_fifo_data) : ipc_state :=
  {| semval := 1; shm := s; procs := replicate n IpcIdle; started := []; results := [] |}.

Definition no_reinit (e : ipc_event) : bool := match e with Reinit => false | _ => true end.

(** ** The invariant *)

Definition in_section (p : ipc_pc) : bool :=
  match p with WriteCopy _ _ | ReadCopy _ _ => true | _ => false end.

(** What the segment means: the sample whose copy began last. *)
Definition register (s0 : bme680_fifo_data) (c : ipc_state) : bme680_fifo_data := hd s0 (started c).

Definition place_ok (s0 : bme680_fifo_data) (c : ipc_state) (p : ipc_pc) : Prop :=
  match p with
  | IpcIdle | ReadWait => True
  | WriteWait d => valid_sample d = true
  | WriteCopy d k => (k <= fields)%nat /\ register s0 c = d /\ exists old, shm c = copied k d old
  | ReadCopy buf k => (k <= fields)%nat /\ shm c = register s0 c /\ exists old, buf = copied k (shm c) old
  end.

Record ipc_inv (s0 : bme680_fifo_data) (c : ipc_state) : Prop := {
  ii_sem : 0 <= semval c /\ semval c + count_if in_section (procs c) <= 1;
  ii_shm : count_if in_section (procs c) = 0 -> shm c = register s0 c;
  ii_place : Forall (place_ok s0 c) (procs c);
}.

Lemma ipc_inv_start n s0 : ipc_inv s0 (ipc_start n s0).
Proof.
  constructor; simpl; rewrite ?count_if_replicate; simpl; try done.
  by apply Forall_replicate.
Qed.

Lemma place_outside s0 c c' p :
  in_section p = false -> place_ok s0 c p -> place_ok s0 c' p.
Proof. by destruct p. Qed.

Lemma place_mono s0 c c' p :
  shm c' = shm c -> started c' = started c -> place_ok s0 c p -> place_ok s0 c' p.
Proof. intros Hs H. destruct p; simpl; unfold register; rewrite ?Hs, ?H; done. Qed.

(** The process that moves is the only one that may be in the section, before
    or after: if another is inside, this one is and stays outside, and leaves
    the segment as it is. *)
Lemma ipc_inv_update s0 c c' i p p' :
  ipc_inv s0 c -> procs c !! i = Some p -> procs c' = <[i := p']> (procs c) ->
  0 <= semval c' /\ semval c' + Z.b2z (in_section p') <= semval c + Z.b2z (in_section p) ->
  (in_section p = false -> in_section p' = false -> shm c' = shm c /\ started c' = started c) ->
  (in_section p = true -> in_section p' = false -> shm c' = register s0 c') ->
  place_ok s0 c' p' ->
  ipc_inv s0 c'.
Proof.
  intros Hc Hi Hp Hsem Hsame Hshm Hpl. destruct Hc as [H1 H2 H3].
  pose proof (count_if_insert in_section _ _ _ p' Hi) as Hcnt.
  pose proof (count_if_nonneg in_section (procs c)) as Hnn.
  assert (count_if in_section (procs c') = count_if in_section (procs c)
    - Z.b2z (in_section p) + Z.b2z (in_section p')) as Hcnt' by (by rewrite Hp).
  constructor; [lia| |].
  - rewrite Hcnt'. intros H0. destruct (in_section p) eqn:Ep.
    + pose proof (count_if_lookup in_section _ _ _ Hi Ep).
      destruct (in_section p') eqn:Ep'; simpl in *; [lia|auto].
    + destruct (in_section p') eqn:Ep'; simpl in *; [lia|].
      destruct (Hsame eq_refl eq_refl) as [-> Hst]. unfold register. rewrite Hst. apply H2. lia.
  - rewrite Hp. apply Forall_lookup. intros j q Hj.
    apply list_lookup_insert_case in Hj as [(-> & -> & _)|(Hij & Hj)]; [done|].
    pose proof (Forall_lookup_1 _ _ _ _ H3 Hj) as Hq. destruct (in_section q) eqn:Eq.
    + pose proof (count_if_lookup in_section _ _ _ Hj Eq). destruct (in_section p) eqn:Ep.
      * pose proof (count_if_two in_section _ _ _ _ _ Hij Hi Hj Ep Eq). lia.
      * destruct (in_section p'); simpl in *; [lia|].
        by destruct (Hsame eq_refl eq_refl); eapply place_mono.
    + by eapply place_outside.
Qed.

Lemma copied_S k src old : copy_field k src (copied k src old) = copied (S k) src old.
Proof. done. Qed.

(** With a positive semaphore nobody is in the section. *)
Lemma ipc_inv_free s0 c : ipc_inv s0 c -> 0 < semval c -> shm c = register s0 c.
Proof.
  intros [H1 H2 _] ?. apply H2. pose proof (count_if_nonneg in_section (procs c)). lia.
Qed.

Ltac ipc_step Hc Hp :=
  eapply (ipc_inv_update _ _ _ _ _ _ Hc Hp); [reflexivity|simpl; lia|try done|try done|try done].

Lemma ipc_inv_step s0 uninit c e c' :
  ipc_inv s0 c -> no_reinit e = true -> exec_ipc uninit c e = Some c' -> ipc_inv s0 c'.
Proof.
  intros Hc He H. pose proof (ii_place _ _ Hc) as HP. pose proof (ii_sem _ _ Hc) as [Hs _].
  destruct e as [i d|i|i|i errno|i|i|i errno|]; [..|done]; simpl in H;
    destruct (procs c !! i) as [p|] eqn:Hp; simplify_eq/=;
    pose proof (Forall_lookup_1 _ _ _ _ HP Hp) as Hpl; destruct p as [|d'|d' k| |buf k]; simplify_eq/=;
    csplit.
  - unfold ipc_sync_write. destruct (valid_sample d) eqn:Hv; by ipc_step Hc Hp.
  - by ipc_step Hc Hp.
  - ipc_step Hc Hp. simpl. split_and!; [lia|done|]. by exists (shm c).
  - ipc_step Hc Hp. simpl. pose proof (ipc_inv_free _ _ Hc ltac:(lia)).
    split_and!; [lia|done|by exists uninit].
  - by ipc_step Hc Hp.
  - by ipc_step Hc Hp.
  - ipc_step Hc Hp. destruct Hpl as (? & ? & old & Ho). simpl. split_and!; [lia|done|].
    exists old. by rewrite Ho, copied_S.
  - ipc_step Hc Hp. destruct Hpl as (? & ? & old & Ho). simpl. split_and!; [lia|done|].
    exists old. by rewrite Ho, copied_S.
  - ipc_step Hc Hp. destruct Hpl as (? & Hr & old & Ho). intros _ _. simpl.
    assert (k = fields) as -> by lia. by rewrite Ho, copied_all.
  - ipc_step Hc Hp. by destruct Hpl as (? & ? & _).
  - ipc_step Hc Hp. destruct Hpl as (? & Hr & old & Ho). intros _ _. simpl.
    assert (k = fields) as -> by lia. by rewrite Ho, copied_all.
  - ipc_step Hc Hp. by destruct Hpl as (? & ? & _).
Qed.

Lemma run_ipc_app uninit c es es' :
  run_ipc uninit c (es ++ es') = (c' ← run_ipc uninit c es; run_ipc uninit c' es').
Proof. revert c. induction es as [|e es IH]; intros c; simpl; [done|]. by destruct (exec_ipc uninit c e); simpl. Qed.

Lemma run_ipc_ind (P : ipc_state -> Prop) (ok : ipc_event -> bool) uninit es c c' :
  (forall c e c', P c -> ok e = true -> exec_ipc uninit c e = Some c' -> P c') ->
  P c -> forallb ok es = true -> run_ipc uninit c es = Some c' -> P c'.
Proof.
  intros Hstep. revert c. induction es as [|e es IH]; intros c Hc Hok Hr; simpl in *; [by simplify_eq|].
  apply andb_prop in Hok as [Hok1 Hok2].
  destruct (exec_ipc uninit c e) as [c1|] eqn:He; [|done]. simpl in Hr. eauto.
Qed.

Lemma ipc_inv_run n s0 uninit es c :
  forallb no_reinit es = true -> run_ipc uninit (ipc_start n s0) es = Some c -> ipc_inv s0 c.
Proof.
  intros Hok Hr. eapply (run_ipc_ind (ipc_inv s0) no_reinit); [|apply ipc_inv_start|done|exact Hr].
  intros; by eapply ipc_inv_step.
Qed.

(** ** An atomic register *)

(** The specification: one sample, and the calls that have returned.  A write
    that returns 0 returns while the register still holds what it wrote. *)
Inductive reg_step : bme680_fifo_data * list ipc_result -> bme680_fifo_data * list ipc_result -> Prop :=
| RegSilent v rs : reg_step (v, rs) (v, rs)
| RegWrite v rs d : valid_sample d = true -> reg_step (v, rs) (d, rs)
| RegWriteDone v rs : reg_step (v, rs) (v, Wrote v 0 :: rs)
| RegWriteFails v rs d r : r < 0 -> reg_step (v, rs) (v, Wrote d r :: rs)
| RegReadDone v rs : valid_sample v = true -> reg_step (v, rs) (v, GotSample (Some v) 0 :: rs)
| RegReadError v rs r : r < 0 -> reg_step (v, rs) (v, GotSample (Some v) r :: rs)
| RegReadFails v rs r : r < 0 -> reg_step (v, rs) (v, GotSample None r :: rs).

(** C26: as long as no further process runs ipc_sync_init, the shared sample is
    an atomic register although memcpy is four steps that interleave with the
    other processes: in every reachable configuration, whatever waits and posts
    fail, each step is a step of [reg_step].  In particular every read that
    returns 0 delivers exactly the valid sample that the last write copied. *)
Theorem ipc_sync_refines_register n s0 uninit es c e c'
    (Hes : forallb no_reinit (es ++ [e]) = true)
    (Hr : run_ipc uninit (ipc_start n s0) es = Some c)
    (He : exec_ipc uninit c e = Some c') :
  reg_step (register s0 c, results c) (register s0 c', results c').
Proof.
  rewrite forallb_app in Hes. apply andb_prop in Hes as [Hes Hok]. simpl in Hok.
  pose proof (ipc_inv_run _ _ _ _ _ Hes Hr) as Hc. pose proof (ii_place _ _ Hc) as HP.
  destruct e as [i d|i|i|i errno|i|i|i errno|]; [..|done]; simpl in He;
    destruct (procs c !! i) as [p|] eqn:Hp; simplify_eq/=;
    pose proof (Forall_lookup_1 _ _ _ _ HP Hp) as Hpl; destruct p as [|d'|d' k| |buf k]; simplify_eq/=;
    csplit; try by constructor.
  - unfold ipc_sync_write. csplit; [apply RegSilent|by apply RegWriteFails].
  - apply RegWriteFails. lia.
  - apply RegReadFails. lia.
  - destruct Hpl as (_ & Hd & _). subst d'. apply RegWriteDone.
  - destruct Hpl as (_ & Hs & old & Hb). assert (k = fields) as -> by lia.
    rewrite copied_all, Hs in Hb. subst buf. unfold read_end. csplit; [by apply RegReadDone|by apply RegReadError].
  - apply RegWriteFails. lia.
  - destruct Hpl as (_ & Hs & old & Hb). assert (k = fields) as -> by lia.
    rewrite copied_all, Hs in Hb. subst buf. unfold read_end. csplit; apply RegReadError; unfold EINVAL; lia.
Qed.

Definition sample_a : bme680_fifo_data := {| temp := 20; pressure := 100000; humidity := 40; gas_res := 5000 |}.
Definition sample_b : bme680_fifo_data := {| temp := 30; pressure := 90000; humidity := 60; gas_res := 7000 |}.
Definition sample_0 : bme680_fifo_data := {| temp := 0; pressure := 0; humidity := 0; gas_res := 0 |}.

(** A write by one process and then a read by another. *)
Definition write_then_read : list ipc_event :=
  [CallWrite 0 sample_a; CallRead 1; SemWait 0; Copy 0; Copy 0; Copy 0; Copy 0; SemPost 0;
   SemWait 1; Copy 1; Copy 1; Copy 1; Copy 1].

Lemma ipc_sync_refines_register_witness :
  exists c c', run_ipc sample_0 (ipc_start 2 sample_0) write_then_read = Some c /\
    exec_ipc sample_0 c (SemPost 1) = Some c' /\
    results c' = GotSample (Some sample_a) 0 :: results c /\
    reg_step (register sample_0 c, results c) (register sample_0 c', results c').
Proof.
  eexists _, _. split; [vm_compute; reflexivity|]. split; [vm_compute; reflexivity|]. split; [reflexivity|].
  eapply (ipc_sync_refines_register 2 sample_0 sample_0 write_then_read _ (SemPost 1)); vm_compute; reflexivity.
Defined.

(** ** The semaphore *)

Definition posts_work (e : ipc_event) : bool := match e with SemPostFails _ _ | Reinit => false | _ => true end.

(** As long as posts work the semaphore is 1 exactly when nobody is inside, so
    a waiting process can always go on, or the one inside can. *)
Lemma ipc_sync_account n s0 uninit es c :
  forallb posts_work es = true -> run_ipc uninit (ipc_start n s0) es = Some c ->
  semval c + count_if in_section (procs c) = 1.
Proof.
  intros Hok Hr.
  eapply (run_ipc_ind (fun c => semval c + count_if in_section (procs c) = 1) posts_work); [|..|exact Hok|exact Hr].
  2: { simpl. rewrite count_if_replicate. done. }
  clear. intros c e c' Hc He H.
  destruct e as [i d|i|i|i errno|i|i|i errno|]; try done; simpl in H;
    destruct (procs c !! i) as [p|] eqn:Hp; simplify_eq/=;
    destruct p as [|d'|d' k| |buf k]; simplify_eq/=; try unfold ipc_sync_write in *; csplit;
    rewrite (count_if_insert _ _ _ _ _ Hp); simpl; lia.
Qed.

Definition result_code (r : ipc_result) : Z := match r with Wrote _ r | GotSample _ r => r end.

(** Nobody inside and nobody ever able to enter. *)
Lemma ipc_dead_step uninit rs0 c e c' :
  semval c = 0 /\ count_if in_section (procs c) = 0 /\
    (exists rs, results c = rs ++ rs0 /\ Forall (fun r => result_code r < 0) rs) ->
  no_reinit e = true -> exec_ipc uninit c e = Some c' ->
  semval c' = 0 /\ count_if in_section (procs c') = 0 /\
    (exists rs, results c' = rs ++ rs0 /\ Forall (fun r => result_code r < 0) rs).
Proof.
  intros (Hs & Hn & rs & Hrs & Hneg) He H.
  destruct e as [i d|i|i|i errno|i|i|i errno|]; try done; simpl in H;
    destruct (procs c !! i) as [p|] eqn:Hp; simplify_eq/=;
    destruct p as [|d'|d' k| |buf k]; simplify_eq/=; try unfold ipc_sync_write in *; csplit;
    try (exfalso; pose proof (count_if_lookup in_section _ _ _ Hp eq_refl); lia); try lia;
    (split_and!; [done|rewrite (count_if_insert _ _ _ _ _ Hp); simpl; lia|]);
    first [by exists rs | eexists (_ :: rs); rewrite Hrs; split; [reflexivity|constructor; [simpl; unfold EINVAL; lia|done]]].
Qed.

(** When the post at the end of an operation fails, the semaphore stays at
    0 with nobody inside, and from then on, until somebody runs ipc_sync_init
    again, no read and no write of any process returns 0: each one times out or
    fails. *)
Theorem ipc_sync_post_failure_blocks n s0 uninit es i errno es' c c'
    (Hes : forallb no_reinit (es ++ es') = true)
    (Hr : run_ipc uninit (ipc_start n s0) (es ++ [SemPostFails i errno]) = Some c)
    (Hr' : run_ipc uninit c es' = Some c') :
  semval c' = 0 /\
  exists rs, results c' = rs ++ results c /\ Forall (fun r => result_code r < 0) rs.
Proof.
  rewrite forallb_app in Hes. apply andb_prop in Hes as [Hes Hok]. rewrite run_ipc_app in Hr.
  destruct (run_ipc uninit (ipc_start n s0) es) as [c0|] eqn:H0; [|done].
  cbn [mbind option_bind run_ipc] in Hr. destruct (exec_ipc uninit c0 _) as [c1|] eqn:H1; [|done].
  simpl in Hr. simplify_eq. pose proof (ii_sem _ _ (ipc_inv_run _ _ _ _ _ Hes H0)) as Hs.
  assert (semval c = 0 /\ count_if in_section (procs c) = 0) as [Hs1 Hn1].
  { simpl in H1. destruct (procs c0 !! i) as [p|] eqn:Hp; simplify_eq/=.
    destruct p as [|d|d k| |buf k]; simplify_eq/=; csplit; rewrite (count_if_insert _ _ _ _ _ Hp); simpl;
      pose proof (count_if_lookup in_section _ _ _ Hp eq_refl); lia. }
  destruct (run_ipc_ind _ no_reinit uninit es' c c' (ipc_dead_step uninit (results c))) as (? & _ & ?);
    [|done|done|by split].
  split_and!; [done|done|]. by exists [].
Qed.

Lemma ipc_sync_post_failure_blocks_witness :
  exists c c', run_ipc sample_0 (ipc_start 2 sample_0)
      [CallWrite 0 sample_a; SemWait 0; Copy 0; Copy 0; Copy 0; Copy 0; SemPostFails 0 EINVAL] = Some c /\
    run_ipc sample_0 c [CallRead 1; SemWaitFails 1 EAGAIN] = Some c' /\
    semval c' = 0 /\ exists rs, results c' = rs ++ results c /\ Forall (fun r => result_code r < 0) rs.
Proof.
  eexists _, _. split; [vm_compute; reflexivity|]. split; [vm_compute; reflexivity|].
  eapply (ipc_sync_post_failure_blocks 2 sample_0 sample_0
    [CallWrite 0 sample_a; SemWait 0; Copy 0; Copy 0; Copy 0; Copy 0] 0 EINVAL
    [CallRead 1; SemWaitFails 1 EAGAIN]); vm_compute; reflexivity.
Defined.

(** The init of a further process sets the semaphore of the others to 1
    whatever they are doing: here a reader enters beside a writer and returns
    0 with a temperature and a pressure of one sample, a humidity and a gas
    resistance of another. *)
Theorem ipc_sync_reinit_tears :
  exists es c, run_ipc sample_0 (ipc_start 3 sample_a) es = Some c /\
    count_if (fun e => negb (no_reinit e)) es = 1 /\
    results c = [GotSample (Some {| temp := 30; pressure := 90000; humidity := 40; gas_res := 5000 |}) 0].
Proof.
  exists [CallWrite 0 sample_b; SemWait 0; Copy 0; Copy 0; Reinit; CallRead 1; SemWait 1;
          Copy 1; Copy 1; Copy 1; Copy 1; SemPost 1].
  eexists. split; [vm_compute; reflexivity|]. split; reflexivity.
Qed.

(** ** ipc_sync_init and ipc_sync_destroy *)

(** The System V objects of one key, and what this process holds of them. *)
Record sysv := {
  segment : option bme680_fifo_data;
  semaphore : option Z;
  attached : Z;
  allocated : Z;
}.

(** What malloc and the system calls answer; [ia_errno] is errno when the
    return statement reads it, after the calls that release. *)
Record init_answers := {
  ia_malloc : bool; ia_shmget : bool; ia_shmat : bool; ia_semget : bool; ia_semctl : bool;
  ia_errno : Z;
}.

Definition rmid (s : sysv) : sysv :=
  {| segment := None; semaphore := semaphore s; attached := attached s; allocated := allocated s |}.
Definition sem_rmid (s : sysv) : sysv :=
  {| segment := segment s; semaphore := None; attached := attached s; allocated := allocated s |}.
Definition shmdt (s : sysv) : sysv :=
  {| segment := segment s; semaphore := semaphore s; attached := attached s - 1; allocated := allocated s |}.
Definition free_ipc (s : sysv) : sysv :=
  {| segment := segment s; semaphore := semaphore s; attached := attached s; allocated := allocated s - 1 |}.

Definition ipc_sync_init (zero : bme680_fifo_data) (a : init_answers) (s : sysv) : sysv * Z :=
  if negb (ia_malloc a) then (s, - ENOMEM)
  else
  let s := {| segment := segment s; semaphore := semaphore s; attached := attached s;
              allocated := allocated s + 1 |} in
  if negb (ia_shmget a) then (free_ipc s, - ia_errno a)
  else
  let s := {| segment := Some (default zero (segment s)); semaphore := semaphore s; attached := attached s;
              allocated := allocated s |} in
  if negb (ia_shmat a) then (free_ipc (rmid s), - ia_errno a)
  else
  let s := {| segment := segment s; semaphore := semaphore s; attached := attached s + 1;
              allocated := allocated s |} in
  if negb (ia_semget a) then (free_ipc (rmid (shmdt s)), - ia_errno a)
  else
  let s := {| segment := segment s; semaphore := Some (default 0 (semaphore s)); attached := attached s;
              allocated := allocated s |} in
  if negb (ia_semctl a) then (free_ipc (sem_rmid (rmid (shmdt s))), - ia_errno a)
  else ({| segment := segment s; semaphore := Some 1; attached := attached s; allocated := allocated s |}, 0).

Definition ipc_sync_destroy (s : sysv) : sysv := free_ipc (sem_rmid (rmid (shmdt s))).

(** Ipc_sync_init either succeeds, with one attachment and one block more,
    the semaphore at 1 whatever it was, and the content of an existing segment
    kept; or it returns a negative code and holds nothing.  But a failure after
    shmget removes the segment under everybody who already uses it, and so
    does every ipc_sync_destroy. *)
Theorem ipc_sync_init_resources zero a s s' r
    (He : 0 < ia_errno a) (Hi : ipc_sync_init zero a s = (s', r)) :
  (r = 0 /\ segment s' = Some (default zero (segment s)) /\ semaphore s' = Some 1 /\
     attached s' = attached s + 1 /\ allocated s' = allocated s + 1 /\
     ipc_sync_destroy s' = {| segment := None; semaphore := None; attached := attached s; allocated := allocated s |}) \/
  (r < 0 /\ attached s' = attached s /\ allocated s' = allocated s /\
     segment s' = (if ia_malloc a && ia_shmget a then None else segment s)).
Proof.
  destruct s as [seg sem att al], a as [m g t sg sc e]. unfold ipc_sync_init, ipc_sync_destroy, ENOMEM in *.
  simpl in *.
  destruct m, g, t, sg, sc; simplify_eq/=; first
    [ left; split_and!; try done; unfold free_ipc, sem_rmid, rmid, shmdt; simpl; f_equal; lia
    | right; split_and!; try done; lia ].
Qed.

Lemma ipc_sync_init_resources_witness :
  exists s' r, r = - 12 /\ segment s' = None /\ ((r = 0 /\ segment s' = Some sample_a /\ semaphore s' = Some 1 /\
     attached s' = 1 /\ allocated s' = 1 /\
     ipc_sync_destroy s' = {| segment := None; semaphore := None; attached := 0; allocated := 0 |}) \/
    (r < 0 /\ attached s' = 0 /\ allocated s' = 0 /\ segment s' = None)).
Proof.
  eexists _, (- 12). split; [reflexivity|]. split; cycle 1.
  - eapply (ipc_sync_init_resources sample_0
      {| ia_malloc := true; ia_shmget := true; ia_shmat := false; ia_semget := true; ia_semctl := true;
         ia_errno := 12 |}
      {| segment := Some sample_a; semaphore := Some 1; attached := 0; allocated := 0 |} _ (- 12));
      [reflexivity|vm_compute; reflexivity].
  - reflexivity.
Defined.
