(* ===== verification/Logger.v ===== *)
(** * Logger: the log file and its mutex (logger.c)

    [logger] is the static [struct logger] with what has been written to the
    file and to stderr.  The operations are computations of [M logger];
    [Stuck] is pthread_mutex_lock on the logger's own (default, hence not
    recursive) mutex by the thread that holds it, or a use of a destroyed
    mutex or a closed file.  The clock and the success of a flush come from
    the environment.  The theorems: what logger_log does on every branch; and
    that logger_set_level and logger_destroy, which call logger_log with the
    mutex held, return only if the message is filtered out by the level. *)

From stdpp Require Import pretty.
From S2P Require Import Prelude LinuxLib.

Definition LOG_DEBUG : Z := 0.
Definition LOG_INFO : Z := 1.
Definition LOG_WARNING : Z := 2.
Definition LOG_ERROR : Z := 3.

Definition log_level_str (level : Z) : string :=
  if level =? LOG_DEBUG then "DEBUG" else if level =? LOG_INFO then "INFO"
  else if level =? LOG_WARNING then "WARNING" else "ERROR".

Inductive mutex_state := Free | Held | Destroyed.
Inductive log_stream := NoFile | Opened | Closed.

Record logger := {
  log_file : log_stream;
  log_mutex : mutex_state;
  level : Z;
  lines : list string;       (* written to the file *)
  stderr : list string;
}.

#[export] Instance mutex_state_eq_dec : EqDecision mutex_state.
Proof. solve_decision. Defined.
#[export] Instance log_stream_eq_dec : EqDecision log_stream.
Proof. solve_decision. Defined.

(** The static object before logger_init. *)
Definition logger_zero : logger :=
  {| log_file := NoFile; log_mutex := Free; level := 0; lines := []; stderr := [] |}.

Definition set_mutex (m : mutex_state) (s : logger) : logger :=
  {| log_file := log_file s; log_mutex := m; level := level s; lines := lines s; stderr := stderr s |}.
Definition set_file (f : log_stream) (s : logger) : logger :=
  {| log_file := f; log_mutex := log_mutex s; level := level s; lines := lines s; stderr := stderr s |}.
Definition set_level (l : Z) (s : logger) : logger :=
  {| log_file := log_file s; log_mutex := log_mutex s; level := l; lines := lines s; stderr := stderr s |}.
Definition write_line (x : string) (s : logger) : logger :=
  {| log_file := log_file s; log_mutex := log_mutex s; level := level s; lines := lines s ++ [x];
     stderr := stderr s |}.
Definition write_stderr (x : string) (s : logger) : logger :=
  {| log_file := log_file s; log_mutex := log_mutex s; level := level s; lines := lines s;
     stderr := stderr s ++ [x] |}.

Definition lock_logger : M logger unit := fun s =>
  match log_mutex s with Free => (set_mutex Held s, Ok tt) | _ => (s, Stuck) end.
Definition unlock_logger : M logger unit := modify (set_mutex Free).

Section logger.
(** strftime of the current time, whether the flush of the file succeeds, and
    strerror(errno). *)
Context (timestamp : string) (flush_ok : bool) (strerror : string).

Definition log_line (lvl : Z) (msg : string) : string :=
  ("[" +:+ timestamp +:+ "] [" +:+ log_level_str lvl +:+ "] " +:+ msg)%string.

Definition logger_log (lvl : Z) (msg : string) : M logger unit :=
  s ← get;
  if lvl <? level s then mret tt
  else
    _ ← lock_logger;
    match log_file s with
    | NoFile => _ ← unlock_logger; modify (write_stderr "Log file not initialized")
    | Closed => stuck
    | Opened =>
        _ ← modify (write_line (log_line lvl msg));
        if flush_ok then unlock_logger
        else _ ← unlock_logger;
             modify (write_stderr ("Failed to write to log file: " +:+ strerror))
    end.

Definition logger_set_level (lvl : Z) : M logger unit :=
  if (lvl <? LOG_DEBUG) || (lvl >? LOG_ERROR)
  then logger_log LOG_ERROR ("Invalid log level: " +:+ pretty lvl)
  else
    _ ← lock_logger;
    _ ← modify (set_level lvl);
    _ ← logger_log LOG_INFO ("Log level set to " +:+ log_level_str lvl);
    unlock_logger.

Definition logger_destroy : M logger unit :=
  _ ← lock_logger;
  s ← get;
  _ ← (if bool_decide (log_file s = NoFile) then mret tt
       else _ ← logger_log LOG_INFO "Logger shutting down"; modify (set_file NoFile));
  _ ← unlock_logger;
  modify (set_mutex Destroyed).

(** [fopen_ok] and [fileno] are what the two calls return. *)
Definition logger_init (filename : string) (fopen_ok : bool) (fileno : Z) : M logger unit :=
  _ ← modify (set_mutex Free);
  _ ← modify (set_level LOG_INFO);
  if negb fopen_ok then
    _ ← modify (set_file NoFile);
    _ ← modify (write_stderr ("Failed to open log file " +:+ filename +:+ ": " +:+ strerror));
    _ ← modify (set_mutex Destroyed);
    throw (- 1)
  else
    _ ← modify (set_file Opened);
    if fileno <? 0 then
      _ ← modify (set_file Closed);
      _ ← modify (set_mutex Destroyed);
      _ ← logger_log LOG_ERROR "Invalid file descriptor for log file";
      throw (- EBADF)
    else logger_log LOG_INFO ("Logger initialized with file " +:+ filename).

(** ** Lemmas *)

(** What a call of logger_log adds to the file and to stderr. *)
Definition log_effect (lvl : Z) (msg : string) (s : logger) : logger :=
  if lvl <? level s then s
  else if bool_decide (log_file s = NoFile) then write_stderr "Log file not initialized" s
  else let s := write_line (log_line lvl msg) s in
       if flush_ok then s else write_stderr ("Failed to write to log file: " +:+ strerror) s.

Lemma logger_log_free lvl msg s :
  log_mutex s = Free -> log_file s <> Closed ->
  logger_log lvl msg s = (log_effect lvl msg s, Ok tt).
Proof.
  intros Hm Hf. unfold logger_log, log_effect. destruct s as [f m l ls e]; simpl in *; subst m.
  unfold mbind, M_bind, get. simpl. destruct (lvl <? l); [done|].
  unfold lock_logger; simpl. destruct f; [done| |done]. by destruct flush_ok.
Qed.

Lemma logger_log_held lvl msg s :
  log_mutex s <> Free -> logger_log lvl msg s = (s, if lvl <? level s then Ok tt else Stuck).
Proof.
  intros Hm. unfold logger_log, mbind, M_bind, get. destruct (lvl <? level s); [done|].
  unfold lock_logger. by destruct (log_mutex s).
Qed.

(** ** Properties *)

(** Logger_log on every branch, from a state in which the mutex is free
    and the file not closed: it always returns with the mutex free, the level
    and the file unchanged; a message below the level leaves no trace, any
    other is one more line in the file if there is one (and a complaint on
    stderr if the flush fails), and otherwise a complaint on stderr. *)
Theorem logger_log_exact lvl msg s :
  log_mutex s = Free -> log_file s <> Closed ->
  exists s', logger_log lvl msg s = (s', Ok tt) /\ log_mutex s' = Free /\
    level s' = level s /\ log_file s' = log_file s /\
    lines s' = lines s ++
      (if (level s <=? lvl) && bool_decide (log_file s = Opened) then [log_line lvl msg] else []) /\
    length (stderr s') = (length (stderr s) +
      (if (level s <=? lvl)%Z && negb (bool_decide (log_file s = Opened) && flush_ok) then 1 else 0))%nat.
Proof.
  intros Hm Hf. exists (log_effect lvl msg s). rewrite logger_log_free by done. split; [done|].
  unfold log_effect. destruct (Z.ltb_spec lvl (level s)).
  - replace (level s <=? lvl) with false by lia. simpl. by rewrite app_nil_r, Nat.add_0_r.
  - replace (level s <=? lvl) with true by lia. simpl.
    destruct s as [f m l ls e]; simpl in *; subst m. destruct f; [| |done]; simpl.
    + rewrite app_nil_r, length_app. simpl. split_and!; done.
    + destruct flush_ok; simpl; rewrite ?length_app, ?Nat.add_0_r; done.
Qed.

(** Logger_set_level.  With the mutex free and the file not closed, an
    invalid level changes nothing but the log; the level WARNING or ERROR is
    set and the call returns with the mutex free; the level DEBUG or INFO is
    set and the call never returns: the message that reports it passes the
    filter, and logger_log waits for the mutex that its caller holds. *)
Theorem logger_set_level_outcome lvl s :
  log_mutex s = Free -> log_file s <> Closed ->
  logger_set_level lvl s =
    if (lvl <? LOG_DEBUG) || (lvl >? LOG_ERROR)
    then (log_effect LOG_ERROR ("Invalid log level: " +:+ pretty lvl) s, Ok tt)
    else if lvl <=? LOG_INFO then (set_level lvl (set_mutex Held s), Stuck)
    else (set_level lvl s, Ok tt).
Proof.
  intros Hm Hf. unfold logger_set_level.
  destruct ((lvl <? LOG_DEBUG) || (lvl >? LOG_ERROR)); [by apply logger_log_free|].
  erewrite M_bind_ok; [|unfold lock_logger; by rewrite Hm].
  erewrite M_bind_ok by done. unfold mbind, M_bind. rewrite logger_log_held by done.
  cbn - [Z.ltb Z.leb LOG_INFO]. unfold LOG_INFO.
  destruct (Z.leb_spec lvl 1), (Z.ltb_spec 1 lvl); try lia; [done|].
  by destruct s; simpl in *; subst.
Qed.

(** After a successful logger_init, logger_destroy never returns: the
    level is INFO and the message of the shutdown is logged with the mutex
    held.  It returns, having closed the file, only after the level has been
    raised above INFO. *)
Theorem logger_shutdown filename s s1 :
  logger_init filename true 3 s = (s1, Ok tt) ->
  (logger_destroy s1).2 = Stuck /\
  forall lvl, LOG_INFO < lvl <= LOG_ERROR ->
    exists s2 s3, logger_set_level lvl s1 = (s2, Ok tt) /\ logger_destroy s2 = (s3, Ok tt) /\
      log_file s3 = NoFile /\ log_mutex s3 = Destroyed /\ lines s3 = lines s1.
Proof.
  intros E.
  assert (log_mutex s1 = Free /\ log_file s1 = Opened /\ level s1 = LOG_INFO) as (Hm & Hf & Hl).
  { revert E. unfold logger_init. simpl negb. cbn iota.
    do 3 (erewrite M_bind_ok by (unfold modify; reflexivity)). simpl.
    rewrite logger_log_free by done. intros [= <-].
    unfold log_effect. simpl. by destruct flush_ok. }
  split.
  - unfold logger_destroy. erewrite M_bind_ok; [|unfold lock_logger; by rewrite Hm].
    erewrite M_bind_ok by done. simpl. rewrite Hf. simpl. unfold mbind, M_bind.
    rewrite logger_log_held by done. simpl. by rewrite Hl.
  - intros lvl Hlvl. destruct s1 as [f m l ls e]; simpl in *; subst.
    exists {| log_file := Opened; log_mutex := Free; level := lvl; lines := ls; stderr := e |}.
    eexists. split; [|split].
    + unfold logger_set_level. unfold LOG_DEBUG, LOG_INFO, LOG_ERROR in *.
      replace ((lvl <? 0) || (lvl >? 3)) with false by lia.
      unfold mbind, M_bind; simpl. rewrite logger_log_held by done. simpl.
      by replace (1 <? lvl) with true by lia.
    + unfold logger_destroy, mbind, M_bind; simpl. rewrite logger_log_held by done. simpl.
      unfold LOG_INFO in *. replace (1 <? lvl) with true by lia. reflexivity.
    + done.
Qed.
End logger.

(** ** Witnesses *)

Definition log_opened (l : Z) : logger :=
  {| log_file := Opened; log_mutex := Free; level := l; lines := []; stderr := [] |}.

Lemma logger_log_exact_witness :
  exists s', logger_log "now" true "" LOG_ERROR "disk" (log_opened 1) = (s', Ok tt) /\
    lines s' = ["[now] [ERROR] disk"%string].
Proof.
  destruct (logger_log_exact "now" true "" LOG_ERROR "disk" (log_opened 1) eq_refl ltac:(done))
    as (s' & E & _ & _ & _ & El & _).
  exists s'. split; [assumption|]. rewrite El. reflexivity.
Defined.

Lemma logger_set_level_outcome_witness :
  (logger_set_level "now" true "" LOG_DEBUG (log_opened 1)).2 = Stuck /\
  (logger_set_level "now" true "" LOG_WARNING (log_opened 1)).2 = Ok tt.
Proof.
  split; rewrite (logger_set_level_outcome "now" true "" _ (log_opened 1) eq_refl ltac:(done)); reflexivity.
Defined.

Lemma logger_shutdown_witness :
  exists s1, logger_init "now" true "" "app.log" true 3 logger_zero = (s1, Ok tt) /\
    (logger_destroy "now" true "" s1).2 = Stuck.
Proof.
  eexists. split; [reflexivity|].
  apply (proj1 (logger_shutdown "now" true "" "app.log" logger_zero _ eq_refl)).
Defined.
