(* ===== verification/PubSub.v ===== *)
(** * PubSub: subscriptions and their notification (pubsub.c)

    The list of subscribers and its mutex.  A publication holds the mutex while
    it walks the list: it is a sequence of steps ([PublishStep], [Wait2]),
    between which other threads, or a callback itself, may call the library;
    such a call does not get the mutex and times out.  [exec_ps] interleaves
    the operations; whether a malloc or a pthread_mutex_timedlock succeeds is
    part of the event.

    The theorems: the component implements a bus on which a publication is one
    atomic delivery to all the callbacks of its topic, the newest first; every
    publication ends; the account of the blocks of memory, with the two that a
    timed-out subscription loses, and that the list is all freed by destroy. *)

From S2P Require Import Prelude.

(** ** State *)

Record subscriber := { topic : string; callback : option nat }.

(** A publication in progress: [rest] is the list from the pointer [sub] on;
    [waiting] when the callback of its head has run and the publisher is in
    event_pair_wait2. *)
Record publication := { p_topic : string; p_data : Z; rest : list subscriber; waiting : bool }.

(** [delivered] are the callbacks run and what they got; [signals] counts
    event_pair_signal1; [blocks] the blocks allocated and not freed; [results]
    what pubsub_subscribe returned, the last first. *)
Record pubsub := {
  subscribers : list subscriber;
  publishing : option publication;
  delivered : list (nat * Z);
  signals : Z;
  blocks : Z;
  results : list Z;
  destroyed : bool;
}.

Definition pubsub_init : pubsub :=
  {| subscribers := []; publishing := None; delivered := []; signals := 0; blocks := 0; results := [];
     destroyed := false |}.

Definition set_publishing (p : option publication) (c : pubsub) : pubsub :=
  {| subscribers := subscribers c; publishing := p; delivered := delivered c; signals := signals c;
     blocks := blocks c; results := results c; destroyed := destroyed c |}.

Definition returned (r : Z) (c : pubsub) : pubsub :=
  {| subscribers := subscribers c; publishing := publishing c; delivered := delivered c; signals := signals c;
     blocks := blocks c; results := r :: results c; destroyed := destroyed c |}.

Definition add_blocks (n : Z) (c : pubsub) : pubsub :=
  {| subscribers := subscribers c; publishing := publishing c; delivered := delivered c; signals := signals c;
     blocks := blocks c + n; results := results c; destroyed := destroyed c |}.

(** ** Operations *)

Definition link_subscriber (s : subscriber) (c : pubsub) : pubsub :=
  {| subscribers := s :: subscribers c; publishing := publishing c; delivered := delivered c; signals := signals c;
     blocks := blocks c; results := results c; destroyed := destroyed c |}.

(** [locked] is whether pthread_mutex_timedlock returned 0.  On a timeout
    the function returns without freeing what it allocated. *)
Definition pubsub_subscribe (tp : option string) (cb : option nat) (malloc_ok strdup_ok locked : bool)
    (c : pubsub) : pubsub :=
  match tp, cb with
  | Some tp, Some f =>
      if negb malloc_ok then returned (- ENOMEM) c
      else
      let c := add_blocks 1 c in
      if negb strdup_ok then returned (- ENOMEM) (add_blocks (-1) c)
      else
      let c := add_blocks 1 c in
      if negb locked then returned (- ETIMEDOUT) c
      else returned 0 (link_subscriber {| topic := tp; callback := Some f |} c)
  | _, _ => returned (- EINVAL) c
  end.

(** pubsub_publish up to the loop. *)
Definition pubsub_publish (tp : option string) (data : option Z) (locked : bool) (c : pubsub) : pubsub :=
  match tp, data with
  | Some tp, Some d =>
      if negb locked then c
      else set_publishing (Some {| p_topic := tp; p_data := d; rest := subscribers c; waiting := false |}) c
  | _, _ => c
  end.

Definition advance (p : publication) (l : list subscriber) : option publication :=
  Some {| p_topic := p_topic p; p_data := p_data p; rest := l; waiting := false |}.

(** One turn of the loop up to the end of event_pair_signal1; at the end of
    the list, the unlock. *)
Definition publish_step (p : publication) (c : pubsub) : pubsub :=
  match rest p with
  | [] => set_publishing None c
  | s :: l =>
      if decide (topic s = p_topic p) then
        match callback s with
        | Some f =>
            {| subscribers := subscribers c;
               publishing := Some {| p_topic := p_topic p; p_data := p_data p; rest := rest p; waiting := true |};
               delivered := delivered c ++ [(f, p_data p)]; signals := signals c + 1; blocks := blocks c;
               results := results c; destroyed := destroyed c |}
        | None => set_publishing (advance p l) c
        end
      else set_publishing (advance p l) c
  end.

(** The return of event_pair_wait2; its result is not looked at. *)
Definition publish_wait2 (p : publication) (c : pubsub) : pubsub :=
  set_publishing (advance p (tail (rest p))) c.

(** The list is freed element by element, and the pointer to it kept. *)
Fixpoint free_list (l : list subscriber) (c : pubsub) : pubsub :=
  match l with
  | [] => c
  | _ :: l => free_list l (add_blocks (-1) (add_blocks (-1) c))
  end.

Definition pubsub_destroy (locked : bool) (c : pubsub) : pubsub :=
  if negb locked then c
  else
    let c := free_list (subscribers c) c in
    {| subscribers := subscribers c; publishing := publishing c; delivered := delivered c; signals := signals c;
       blocks := blocks c; results := results c; destroyed := true |}.

(** ** Interleavings *)

Inductive ps_event :=
| Subscribe (tp : option string) (cb : option nat) (malloc_ok strdup_ok locked : bool)
| Publish (tp : option string) (data : option Z) (locked : bool)
| PublishStep
| Wait2 (r : Z)
| Destroy (locked : bool).

(** The mutex is granted only when no publication holds it; after destroy
    there is no mutex any more. *)
Definition grantable (locked : bool) (c : pubsub) : bool :=
  negb (destroyed c) && (negb locked || (if publishing c is Some _ then false else true)).

Definition exec_ps (c : pubsub) (e : ps_event) : option pubsub :=
  match e with
  | Subscribe tp cb m s l => if grantable l c then Some (pubsub_subscribe tp cb m s l c) else None
  | Publish tp d l => if grantable l c then Some (pubsub_publish tp d l c) else None
  | Destroy l => if grantable l c then Some (pubsub_destroy l c) else None
  | PublishStep => p ← publishing c; if waiting p then None else Some (publish_step p c)
  | Wait2 _ => p ← publishing c; if waiting p then Some (publish_wait2 p c) else None
  end.

Fixpoint run_ps (c : pubsub) (es : list ps_event) : option pubsub :=
  match es with
  | [] => Some c
  | e :: es => c' ← exec_ps c e; run_ps c' es
  end.

(** ** The bus that it implements *)

Record bus := { members : list (string * nat); messages : list (nat * Z) }.

Definition on_topic (tp : string) (l : list (string * nat)) : list nat :=
  (filter (fun m => m.1 = tp) l).*2.

(** A publication that gets the mutex is delivered at once, to the members of
    its topic from the newest to the oldest. *)
Definition bus_step (b : bus) (e : ps_event) : bus :=
  match e with
  | Subscribe (Some tp) (Some f) true true true => {| members := (tp, f) :: members b; messages := messages b |}
  | Publish (Some tp) (Some d) true =>
      {| members := members b; messages := messages b ++ map (fun f => (f, d)) (on_topic tp (members b)) |}
  | _ => b
  end.

Definition bus_run (es : list ps_event) : bus := fold_left bus_step es {| members := []; messages := [] |}.

(** What a publication has still to deliver. *)
Definition pending (p : option publication) : list (nat * Z) :=
  match p with
  | None => []
  | Some p =>
      let l := if waiting p then tail (rest p) else rest p in
      omap (fun s => if decide (topic s = p_topic p) then f ← callback s; Some (f, p_data p) else None) l
  end.

Definition member (s : subscriber) : option (string * nat) := f ← callback s; Some (topic s, f).

Record ps_refines (c : pubsub) (b : bus) : Prop := {
  pr_callbacks : Forall (fun s => is_Some (callback s)) (subscribers c);
  pr_members : omap member (subscribers c) = members b;
  pr_messages : delivered c ++ pending (publishing c) = messages b;
  pr_signals : signals c = Z.of_nat (length (delivered c));
}.

Lemma pending_start l tp d :
  pending (Some {| p_topic := tp; p_data := d; rest := l; waiting := false |}) =
  map (fun f => (f, d)) (on_topic tp (omap member l)).
Proof.
  unfold pending, on_topic. cbn [waiting rest p_topic p_data]. induction l as [|[t [f|]] l IH]; [done|..].
  - cbn [omap list_omap member callback topic mbind option_bind]. rewrite filter_cons. cbn [fst].
    destruct (decide (t = tp)); cbn [fmap list_fmap map snd]; rewrite <- IH; done.
  - cbn [omap list_omap member callback topic mbind option_bind]. rewrite <- IH.
    by destruct (decide (t = tp)).
Qed.

Lemma free_list_state l c :
  free_list l c =
  {| subscribers := subscribers c; publishing := publishing c; delivered := delivered c; signals := signals c;
     blocks := blocks c - 2 * Z.of_nat (length l); results := results c; destroyed := destroyed c |}.
Proof.
  revert c. induction l as [|x l IH]; intros c; simpl.
  - rewrite Z.sub_0_r. by destruct c.
  - rewrite IH. unfold add_blocks. simpl. f_equal. lia.
Qed.

Lemma ps_refines_step c b e c' :
  ps_refines c b -> exec_ps c e = Some c' -> ps_refines c' (bus_step b e).
Proof.
  intros [H1 H2 H3 H4] E. destruct e as [[tp|] [f|] m s l|[tp|] [d|] l| |r|l]; simpl in E.
  all: try (unfold grantable in E; destruct (destroyed c); simpl in E; [done|]).
  - destruct l; simpl in E; [destruct (publishing c) eqn:Ep; [done|rewrite <- Ep in H3]|]; simplify_eq;
      destruct m, s; constructor; simpl; try done; try (by f_equal); try (constructor; [by eexists|done]).
  - destruct (_ || _); [|done]; simplify_eq; by constructor.
  - destruct (_ || _); [|done]; simplify_eq; by constructor.
  - destruct (_ || _); [|done]; simplify_eq; by constructor.
  - destruct l; simpl in E; [destruct (publishing c) eqn:Ep; [done|]|]; simplify_eq; constructor; try done.
    cbn [bus_step messages]. rewrite <- H3, <- H2. cbn [pending]. rewrite app_nil_r.
    unfold pubsub_publish, set_publishing. cbn [negb delivered publishing]. f_equal. apply pending_start.
  - destruct (_ || _); [|done]; simplify_eq; by constructor.
  - destruct (_ || _); [|done]; simplify_eq; by constructor.
  - destruct (_ || _); [|done]; simplify_eq; by constructor.
  - destruct (publishing c) as [p|] eqn:Ep; [|done]. simpl in E. destruct (waiting p) eqn:Ew; [done|].
    injection E as <-. unfold publish_step. simpl in H3. rewrite Ew in H3.
    destruct (rest p) as [|[t g] l] eqn:El; simpl in H3; [by constructor|]. simpl. revert H3.
    destruct (decide (t = p_topic p)) as [->|Ht]; [destruct g as [f|]|]; intros H3;
      constructor; simpl; try done; rewrite ?El; simpl.
    + by rewrite <- H3, <- app_assoc.
    + rewrite length_app, H4. simpl. lia.
  - destruct (publishing c) as [p|] eqn:Ep; [|done]. simpl in E. destruct (waiting p) eqn:Ew; [|done].
    injection E as <-. simpl in H3. rewrite Ew in H3. by constructor; simpl.
  - destruct (_ || _); [|done]; simplify_eq. destruct l; [|by constructor].
    unfold pubsub_destroy. cbn [negb]. rewrite free_list_state. by constructor.
Qed.

Lemma ps_refines_run c b es c' :
  ps_refines c b -> run_ps c es = Some c' -> ps_refines c' (fold_left bus_step es b).
Proof.
  revert c b. induction es as [|e es IH]; intros c b Hc E; simpl in E; [by simplify_eq|].
  apply bind_Some in E as (c1 & E1 & E). eapply IH; [|done]. by eapply ps_refines_step.
Qed.

Lemma pubsub_init_refines : ps_refines pubsub_init {| members := []; messages := [] |}.
Proof. by constructor. Qed.

(** C27: publish and subscribe implement the bus, for every interleaving of
    subscriptions, publications and their single steps, whatever allocations
    and locks fail: the list is the bus's members, the newest first; what the
    callbacks have got, followed by what the publication in progress has still
    to deliver, is exactly the bus's messages, in order: each publication
    reaches the subscribers of its topic at its start once each, the newest
    first; and event 1 is signalled once per delivery. *)
Theorem pubsub_refines_bus es c (E : run_ps pubsub_init es = Some c) :
  omap member (subscribers c) = members (bus_run es) /\
  delivered c ++ pending (publishing c) = messages (bus_run es) /\
  signals c = Z.of_nat (length (delivered c)) /\
  (publishing c = None -> delivered c = messages (bus_run es)).
Proof.
  destruct (ps_refines_run _ _ _ _ pubsub_init_refines E) as [_ H2 H3 H4].
  split_and!; [done..|]. intros Hp. rewrite Hp in H3. simpl in H3. by rewrite app_nil_r in H3.
Qed.

(** Two subscribers of a topic and one of another; a publication during which
    the second callback publishes in vain. *)
Definition pubsub_ex : list ps_event :=
  [Subscribe (Some "t"%string) (Some 1%nat) true true true; Subscribe (Some "u"%string) (Some 2%nat) true true true;
   Subscribe (Some "t"%string) (Some 3%nat) true true true; Publish (Some "t"%string) (Some 25) true;
   PublishStep; Publish (Some "u"%string) (Some 26) false; Wait2 (- ETIMEDOUT); PublishStep; PublishStep; Wait2 0; PublishStep].

Lemma pubsub_refines_bus_witness :
  exists c, run_ps pubsub_init pubsub_ex = Some c /\ delivered c = [(3%nat, 25); (1%nat, 25)] /\
    (publishing c = None -> delivered c = messages (bus_run pubsub_ex)).
Proof.
  eexists. split; [vm_compute; reflexivity|]. split; [reflexivity|].
  apply (pubsub_refines_bus pubsub_ex); vm_compute; reflexivity.
Defined.

(** ** The end of a publication *)

(** The steps a publication still makes, whatever wait2 returns. *)
Fixpoint publish_script (r : Z) (tp : string) (l : list subscriber) : list ps_event :=
  match l with
  | [] => [PublishStep]
  | s :: l =>
      if decide (topic s = tp) then
        match callback s with
        | Some _ => PublishStep :: Wait2 r :: publish_script r tp l
        | None => PublishStep :: publish_script r tp l
        end
      else PublishStep :: publish_script r tp l
  end.

Definition script_of (r : Z) (p : publication) : list ps_event :=
  if waiting p then Wait2 r :: publish_script r (p_topic p) (tail (rest p)) else publish_script r (p_topic p) (rest p).

Lemma publish_script_runs r c p :
  publishing c = Some p -> waiting p = false ->
  exists c', run_ps c (publish_script r (p_topic p) (rest p)) = Some c' /\ publishing c' = None /\
    subscribers c' = subscribers c.
Proof.
  intros Hp Hw. remember (rest p) as l eqn:El. revert c p Hp Hw El.
  induction l as [|s l IH]; intros c p Hp Hw El; cbn [publish_script].
  { eexists. simpl. rewrite Hp. simpl. rewrite Hw. simpl. unfold publish_step. by rewrite <- El. }
  assert (forall c1, publishing c1 = advance p l -> subscribers c1 = subscribers c ->
    exists c', run_ps c1 (publish_script r (p_topic p) l) = Some c' /\ publishing c' = None /\
      subscribers c' = subscribers c) as Hnext.
  { intros c1 H1 Hs. destruct (IH c1 _ H1 eq_refl eq_refl) as (c' & ? & ? & ?). exists c'.
    split_and!; [done|done|congruence]. }
  assert (exec_ps c PublishStep = Some (publish_step p c)) as HS by (simpl; rewrite Hp; simpl; by rewrite Hw).
  revert HS. unfold publish_step. rewrite <- El. intros HS.
  destruct (decide (topic s = p_topic p)) as [Ht|Ht]; [destruct (callback s) as [f|] eqn:Ef|];
    cbn [run_ps]; rewrite HS; cbn [mbind option_bind run_ps exec_ps publishing waiting]; by apply Hnext.
Qed.

(** Every publication ends.  From any configuration with one in progress,
    at most two steps per subscriber and one more, whatever event_pair_wait2
    returns, release the mutex with the list unchanged.  Until then no other
    call gets the mutex, not even one from a callback of the publication: a
    publication then does nothing, and a subscription loses its memory. *)
Theorem pubsub_publish_ends c p (r : Z) (Hp : publishing c = Some p) (Hd : destroyed c = false) :
  (exists c', run_ps c (script_of r p) = Some c' /\ publishing c' = None /\ subscribers c' = subscribers c) /\
  (length (script_of r p) <= 2 * length (rest p) + 2)%nat /\
  (forall tp d l c', exec_ps c (Publish tp d l) = Some c' -> c' = c) /\
  (forall tp f l c', exec_ps c (Subscribe (Some tp) (Some f) true true l) = Some c' ->
     results c' = - ETIMEDOUT :: results c /\ blocks c' = blocks c + 2 /\ subscribers c' = subscribers c).
Proof.
  split_and!.
  - unfold script_of. destruct (waiting p) eqn:Hw; [|by apply publish_script_runs].
    cbn [run_ps exec_ps]. rewrite Hp. cbn [mbind option_bind]. rewrite Hw. cbn [mbind option_bind].
    destruct (publish_script_runs r (publish_wait2 p c) _ eq_refl eq_refl) as (c' & ? & ? & ?). by exists c'.
  - unfold script_of.
    assert (forall l, (length (publish_script r (p_topic p) l) <= 2 * length l + 1)%nat) as Hl.
    { induction l as [|s l IH]; simpl; [lia|]. repeat case_match; simpl; lia. }
    destruct (waiting p); [|specialize (Hl (rest p)); lia]. simpl. specialize (Hl (tail (rest p))).
    rewrite length_tl in Hl. lia.
  - intros tp d [] c' E; simpl in E; unfold grantable in E; rewrite Hd, Hp in E; simpl in E; [done|].
    destruct tp, d; by simplify_eq/=.
  - intros tp f [] c' E; simpl in E; unfold grantable in E; rewrite Hd, Hp in E; simpl in E; [done|].
    simplify_eq/=. split_and!; [done|lia|done].
Qed.

Lemma pubsub_publish_ends_witness :
  exists c p, run_ps pubsub_init (take 5 pubsub_ex) = Some c /\ publishing c = Some p /\
    exists c', run_ps c (script_of (- ETIMEDOUT) p) = Some c' /\ publishing c' = None /\ subscribers c' = subscribers c.
Proof.
  eexists _, _. split; [vm_compute; reflexivity|]. split; [reflexivity|].
  refine (proj1 (pubsub_publish_ends _ _ (- ETIMEDOUT) _ _)); reflexivity.
Defined.

(** ** Memory *)

Definition timed_out (c : pubsub) : Z := count_if (fun r => r =? - ETIMEDOUT) (results c).

Lemma publish_step_frame p c :
  blocks (publish_step p c) = blocks c /\ subscribers (publish_step p c) = subscribers c /\
  results (publish_step p c) = results c /\ destroyed (publish_step p c) = destroyed c.
Proof. unfold publish_step. by repeat case_match. Qed.

Lemma blocks_step c e c' :
  exec_ps c e = Some c' ->
  blocks c = 2 * (if destroyed c then 0 else Z.of_nat (length (subscribers c))) + 2 * timed_out c ->
  blocks c' = 2 * (if destroyed c' then 0 else Z.of_nat (length (subscribers c'))) + 2 * timed_out c'.
Proof.
  intros E H. unfold timed_out in *. destruct e as [[tp|] [f|] m s l|[tp|] [d|] l| |r|l]; simpl in E.
  all: try (unfold grantable in E; destruct (destroyed c) eqn:Hd; simpl in E; [done|]; destruct (_ || _); [|done];
            simplify_eq).
  all: try (simpl; rewrite ?Hd; lia).
  - destruct m, s, l; simpl; rewrite Hd in *; cbn [length]; simpl; unfold ETIMEDOUT, ENOMEM in *; simpl; lia.
  - destruct l; simpl; rewrite ?Hd; simpl; lia.
  - destruct (publishing c) as [p|]; [|done]. simpl in E. destruct (waiting p); [done|]. injection E as <-.
    destruct (publish_step_frame p c) as (-> & -> & -> & ->). exact H.
  - destruct (publishing c) as [p|]; [|done]. simpl in E. destruct (waiting p); [|done]. injection E as <-. simpl. lia.
  - destruct l; [|change (pubsub_destroy false c) with c; rewrite Hd; exact H]. unfold pubsub_destroy. cbn [negb]. rewrite free_list_state. simpl. lia.
Qed.

(** The account of memory in every execution.  The blocks allocated and
    not freed are two for each element of the list, a node and its topic, and
    two for each subscription that returned -ETIMEDOUT; pubsub_destroy frees
    the first, and nothing ever frees the second. *)
Theorem pubsub_memory es c (E : run_ps pubsub_init es = Some c) :
  blocks c = 2 * (if destroyed c then 0 else Z.of_nat (length (subscribers c))) +
             2 * count_if (fun r => r =? - ETIMEDOUT) (results c).
Proof.
  revert E. generalize (eq_refl : blocks pubsub_init =
    2 * (if destroyed pubsub_init then 0 else Z.of_nat (length (subscribers pubsub_init))) + 2 * timed_out pubsub_init).
  generalize pubsub_init. induction es as [|e es IH]; intros c0 H0 E; simpl in E; [by simplify_eq|].
  apply bind_Some in E as (c1 & E1 & E). eapply IH; [|done]. by eapply blocks_step.
Qed.

Lemma pubsub_memory_witness :
  exists c, run_ps pubsub_init (pubsub_ex ++ [Subscribe (Some "t"%string) (Some 4%nat) true true false; Destroy true]) = Some c /\
    blocks c = 2 /\
    blocks c = 2 * (if destroyed c then 0 else Z.of_nat (length (subscribers c))) +
               2 * count_if (fun r => r =? - ETIMEDOUT) (results c).
Proof.
  eexists. split; [vm_compute; reflexivity|]. split; [reflexivity|].
  apply (pubsub_memory (pubsub_ex ++ [Subscribe (Some "t"%string) (Some 4%nat) true true false; Destroy true])).
  vm_compute; reflexivity.
Defined.
