(* ===== verification/App.v ===== *)
(** * App: the two user programs (bme680_app.c and 1.c)

    What the programs compute themselves: the command line, the decoding of a
    sensor block, the pointer returned as an int, the objects that the cleanup
    of bme680_app.c destroys against those created; the producer's loop and the
    cleanup of 1.c.  The start of bme680_app.c runs on the model of the logger.
    atoi and the results of the system's calls are arguments.

    The theorems: the options are read back as they were written; the program
    bme680_app never gets past its second call, so it starts nothing; the
    pressure is read from the humidity's registers and a sample is valid only
    for the lowest thousandth of the raw temperatures; failures of the device
    pass the check of main; the number given to the option -i never ends the
    producer's loop; a failed start of 1.c closes file 0 and removes the System
    V objects number 0. *)

From S2P Require Import Prelude CInt LinuxLib Bme680Data DriverSpec Logger.

(** ** The command line of bme680_app *)

Record app_args := { iterations : Z; threads : Z; num_stages : Z; run_tests : bool }.
Definition app_defaults : app_args := {| iterations := 10; threads := 4; num_stages := 5; run_tests := false |}.

Definition set_iterations (n : Z) (a : app_args) : app_args :=
  {| iterations := n; threads := threads a; num_stages := num_stages a; run_tests := run_tests a |}.
Definition set_threads (n : Z) (a : app_args) : app_args :=
  {| iterations := iterations a; threads := n; num_stages := num_stages a; run_tests := run_tests a |}.
Definition set_num_stages (n : Z) (a : app_args) : app_args :=
  {| iterations := iterations a; threads := threads a; num_stages := n; run_tests := run_tests a |}.
Definition set_run_tests (a : app_args) : app_args :=
  {| iterations := iterations a; threads := threads a; num_stages := num_stages a; run_tests := true |}.

Section args.
Context (atoi : string -> Z).

(** The loop over argv from index 1. *)
Fixpoint parse_args (a : app_args) (argv : list string) : app_args :=
  match argv with
  | [] => a
  | x :: rest =>
      match rest with
      | v :: rest' =>
          if (x =? "-i")%string then parse_args (set_iterations (atoi v) a) rest'
          else if (x =? "-t")%string then parse_args (set_threads (atoi v) a) rest'
          else if (x =? "-s")%string then parse_args (set_num_stages (atoi v) a) rest'
          else if (x =? "--test")%string then parse_args (set_run_tests a) rest
          else parse_args a rest
      | [] => if (x =? "--test")%string then set_run_tests a else a
      end
  end.

(** An option as a user means it, and as it is written. *)
Inductive app_option := OptI (v : string) | OptT (v : string) | OptS (v : string) | OptTest | OptOther (x : string).

Definition is_option (x : string) : bool := ((x =? "-i") || (x =? "-t") || (x =? "-s") || (x =? "--test"))%string.

Definition print_option (o : app_option) : list string :=
  match o with
  | OptI v => ["-i"%string; v] | OptT v => ["-t"%string; v] | OptS v => ["-s"%string; v]
  | OptTest => ["--test"%string] | OptOther x => [x]
  end.

Definition apply_option (a : app_args) (o : app_option) : app_args :=
  match o with
  | OptI v => set_iterations (atoi v) a | OptT v => set_threads (atoi v) a | OptS v => set_num_stages (atoi v) a
  | OptTest => set_run_tests a | OptOther _ => a
  end.

Definition option_wf (o : app_option) : bool := match o with OptOther x => negb (is_option x) | _ => true end.

Lemma parse_args_other a x l : is_option x = false -> parse_args a (x :: l) = parse_args a l.
Proof.
  unfold is_option. rewrite !orb_false_iff. intros [[[H1 H2] H3] H4]. simpl.
  rewrite H1, H2, H3, H4. by destruct l.
Qed.

Lemma parse_args_test a l : parse_args a ("--test"%string :: l) = parse_args (set_run_tests a) l.
Proof. by destruct l. Qed.

(** The command line is read back.  Written in any order and number, the
    options -i, -t, -s with their values, --test, and any other words, are
    taken in turn, so that the last of several wins; a value is never taken for
    an option; and an option without its value at the end is ignored. *)
Theorem parse_args_roundtrip a opts (last : string) :
  forallb option_wf opts = true ->
  parse_args a (flat_map print_option opts) = fold_left apply_option opts a /\
  (In last ["-i"; "-t"; "-s"]%string ->
   parse_args a (flat_map print_option opts ++ [last]) = fold_left apply_option opts a).
Proof.
  intros Hwf.
  assert (forall tl, parse_args a (flat_map print_option opts ++ tl) = parse_args (fold_left apply_option opts a) tl) as H.
  { intros tl. revert a Hwf. induction opts as [|o opts IH]; intros a Hwf; [done|].
    simpl in Hwf. apply andb_prop in Hwf as [Ho Hwf]. destruct o as [v|v|v| |x]; simpl flat_map; simpl fold_left.
    1-3: apply (IH _ Hwf).
    - cbn [app]. rewrite parse_args_test. apply (IH _ Hwf).
    - cbn [app]. simpl in Ho. rewrite parse_args_other by by apply negb_true_iff. apply (IH _ Hwf). }
  split.
  - specialize (H []). by rewrite app_nil_r in H.
  - intros Hl. rewrite H. simpl in Hl. by destruct Hl as [<-|[<-|[<-|[]]]].
Qed.
End args.

(** ** The start of bme680_app *)

Section start.
Context (timestamp : string) (flush_ok : bool) (strerror : string).

(** The first calls of main; [rest] is all that follows. *)
Definition app_main (fopen_ok : bool) (fileno : Z) (rest : M logger unit) : M logger unit :=
  _ ← (fun s => match logger_init timestamp flush_ok strerror "bme680.log" fopen_ok fileno s with
                | (s', Stuck) => (s', Stuck)
                | (s', _) => (s', Ok tt)
                end) : M logger unit;
  _ ← logger_set_level timestamp flush_ok strerror LOG_DEBUG;
  rest.

(** Bme680_app starts nothing.  Once its log file is open, main sets the
    level DEBUG and waits for ever for the mutex that it holds: whatever the
    rest of main is, it does not run, and what has been logged is the message
    of logger_init. *)
Theorem app_never_starts fileno rest s (Hf : 0 <= fileno) :
  let '(s', r) := app_main true fileno rest s in
  r = Stuck /\ log_mutex s' = Held /\ level s' = LOG_DEBUG /\
  lines s' = lines s ++ [log_line timestamp LOG_INFO "Logger initialized with file bme680.log"].
Proof.
  unfold app_main.
  assert (exists s1, logger_init timestamp flush_ok strerror "bme680.log" true fileno s = (s1, Ok tt) /\
    log_mutex s1 = Free /\ log_file s1 = Opened /\
    lines s1 = lines s ++ [log_line timestamp LOG_INFO "Logger initialized with file bme680.log"])
    as (s1 & E & Hm & Ho & Hl).
  { unfold logger_init. simpl negb. cbn iota. do 3 (erewrite M_bind_ok by (unfold modify; reflexivity)).
    replace (fileno <? 0) with false by lia. rewrite logger_log_free by done.
    eexists. split; [reflexivity|]. unfold log_effect. simpl. by destruct flush_ok. }
  erewrite M_bind_ok by by rewrite E.
  erewrite M_bind_stuck; [|rewrite logger_set_level_outcome by (rewrite ?Ho; done); reflexivity].
  split_and!; [done|by destruct s1|by destruct s1|by destruct s1].
Qed.
End start.

(** ** The device *)

(** bme680_dev_init returns its pointer (at address [malloc], if any) cast to
    int; main casts it back, with its sign. *)
Definition bme680_dev_init (malloc : option Z) (open_fd ioctl_ret : Z) : Z :=
  match malloc with
  | None => - ENOMEM
  | Some p => if open_fd <? 0 then - ENODEV else if ioctl_ret <? 0 then - EIO else cast S32 p
  end.

(** The test after it: [!app.dev]. *)
Definition app_dev_ok (r : Z) : bool := negb (r =? 0).

Lemma dev_init_failures malloc open_fd ioctl_ret :
  (malloc = None \/ open_fd < 0 \/ ioctl_ret < 0) -> app_dev_ok (bme680_dev_init malloc open_fd ioctl_ret) = true.
Proof.
  unfold bme680_dev_init. destruct malloc as [p|]; [|done]. intros [?|H]; [done|].
  destruct (Z.ltb_spec open_fd 0); [done|]. destruct (Z.ltb_spec ioctl_ret 0); [done|lia].
Qed.

(** Every failure passes the test, and a device at or above 2^31 comes back
    as another address, or fails the test. *)
Theorem dev_init_check malloc open_fd ioctl_ret :
  (malloc = None \/ open_fd < 0 \/ ioctl_ret < 0 ->
   app_dev_ok (bme680_dev_init malloc open_fd ioctl_ret) = true) /\
  (forall p, malloc = Some p -> 0 < p -> 0 <= open_fd -> 0 <= ioctl_ret ->
   (bme680_dev_init malloc open_fd ioctl_ret = p <-> p < 2 ^ 31)).
Proof.
  split; [apply dev_init_failures|]. intros p -> Hp Ho Hi. unfold bme680_dev_init.
  replace (open_fd <? 0) with false by lia. replace (ioctl_ret <? 0) with false by lia. split.
  - intros E. pose proof (cast_range S32 p) as Hr. rewrite E in Hr. unfold in_range, tmax in Hr. simpl in Hr. lia.
  - intros H. apply cast_id. unfold in_range, tmax. simpl. lia.
Qed.

(** A sample of the application; the temperature in sixteenths of a degree,
    exactly the value of its float. *)
Record app_sample := { temp16 : Z; app_pressure : Z; app_humidity : Z; app_gas : Z }.

Definition bme680_read_sensor (read_block : Z -> nat -> option (list Z)) : res app_sample :=
  match read_block BME680_REG_TEMP_MSB 8%nat with
  | None => Err (- EIO)
  | Some buf =>
      let b i := nth i buf 0 in
      Ok {| temp16 := Z.lor (Z.lor (Z.shiftl (b 0%nat) 12) (Z.shiftl (b 1%nat) 4)) (Z.shiftr (b 2%nat) 4);
            app_pressure := Z.lor (Z.lor (Z.shiftl (b 3%nat) 12) (Z.shiftl (b 4%nat) 4)) (Z.shiftr (b 5%nat) 4);
            app_humidity := Z.lor (Z.shiftl (b 6%nat) 8) (b 7%nat);
            app_gas := 0 |}
  end.

(** The validation of bme680_monitor_write on such a sample. *)
Definition app_valid (s : app_sample) : bool :=
  negb ((temp16 s <? -40 * 16) || (temp16 s >? 85 * 16) || (app_pressure s <? 30000) ||
        (app_pressure s >? 110000) || (app_humidity s <? 0) || (app_humidity s >? 100)).

(** What the application reads of the chip.  On a device with memory
    [mem], the temperature is the 20-bit reading in sixteenths, uncompensated;
    the pressure is made of the humidity's two registers and the one after
    them, the humidity of the two bytes after that.  A sample passes the
    monitor's validation only if the raw temperature is at most 1360 of its
    2^20 values, and the failure of the transfer is -EIO. *)
Theorem app_sensor_decode mem (Hmem : forall r, in_range U8 (mem r)) :
  bme680_read_sensor (fun _ _ => None) = Err (- EIO) /\
  exists s, bme680_read_sensor (fun r n => Some (map (fun i => mem (r + Z.of_nat i)) (seq 0 n))) = Ok s /\
    temp16 s = mem BME680_REG_TEMP_MSB * 4096 + mem 0x23 * 16 + mem 0x24 / 16 /\
    app_pressure s = mem BME680_REG_HUM_MSB * 4096 + mem 0x26 * 16 + mem 0x27 / 16 /\
    app_humidity s = mem 0x28 * 256 + mem 0x29 /\ app_gas s = 0 /\
    (app_valid s = true -> 0 <= temp16 s <= 1360 /\ mem BME680_REG_TEMP_MSB = 0 /\ mem 0x28 = 0).
Proof.
  split; [done|]. eexists. split; [reflexivity|]. cbn [temp16 app_pressure app_humidity app_gas].
  cbn [map seq nth]. unfold BME680_REG_TEMP_MSB, BME680_REG_HUM_MSB. simpl Z.add.
  assert (forall r, 0 <= mem r < 256) as Hb.
  { intros r. specialize (Hmem r). unfold in_range, tmax in Hmem. simpl in Hmem. lia. }
  rewrite !adc20_bytes by done. rewrite !adc16_bytes by done.
  split_and!; try done. unfold app_valid. cbn [temp16 app_pressure app_humidity].
  pose proof (Hb 34). pose proof (Hb 35). pose proof (Hb 36). pose proof (Hb 40). pose proof (Hb 41).
  change (34 + Z.of_nat 0) with 34. change (34 + Z.of_nat 1) with 35. change (34 + Z.of_nat 2) with 36.
  change (34 + Z.of_nat 6) with 40. change (34 + Z.of_nat 7) with 41.
  intros Hv. dlia.
Qed.

(** ** The objects of bme680_app *)

Inductive app_obj :=
| Logger_ | Pubsub | Tp | Mon | Sem | Ep | Timer | Al | Fh | Ipc | Rw | Rmutex | Dd | Dp | Ba | Dev | EventThread.
#[export] Instance app_obj_eq_dec : EqDecision app_obj.
Proof. solve_decision. Defined.

(** What main creates, up to the [goto cleanup] that a failure of the
    assembly line, of the device, or of the event thread takes. *)
Definition app_created (al_ok dev_ok thread_ok : bool) : list app_obj :=
  [Logger_; Pubsub; Tp; Mon; Sem; Ep; Timer] ++
  if negb al_ok then []
  else [Al; Fh; Ipc; Rw; Rmutex; Dd; Dp; Ba] ++
    if negb dev_ok then [] else [Dev] ++ if negb thread_ok then [] else [EventThread].

(** The label cleanup: the join, and app_cleanup. *)
Definition app_destroyed : list app_obj :=
  [EventThread; Fh; Ipc; Rw; Rmutex; Dd; Dp; Ba; Al; Timer; Ep; Sem; Mon; Tp; Dev; Pubsub; Logger_].

(** What cleanup uses although main has not created it. *)
Definition app_uninitialised (created : list app_obj) : list app_obj :=
  filter (fun o => o ∉ created) app_destroyed.

(** Without a failure the cleanup destroys every object once; after any of
    the three failures it joins a thread and destroys objects that were never
    created, ten of them when the assembly line fails. *)
Theorem app_cleanup_objects :
  app_created true true true ≡ₚ app_destroyed /\ NoDup app_destroyed /\
  app_uninitialised (app_created true true false) = [EventThread] /\
  app_uninitialised (app_created true false false) = [EventThread; Dev] /\
  app_uninitialised (app_created false false false) = [EventThread; Fh; Ipc; Rw; Rmutex; Dd; Dp; Ba; Al; Dev].
Proof.
  split_and!; try reflexivity; [|apply (bool_decide_unpack _); reflexivity].
  apply NoDup_Permutation; [apply (bool_decide_unpack _); reflexivity..|].
  intros []; split; intros _; apply list_elem_of_In; simpl; tauto.
Qed.

(** read_sensor, the timer's task: the calls it makes for given results. *)
Inductive sensor_call := SemWait | MonitorWrite | Signal1 | SemPost | LogError.
Definition read_sensor (sensor wait write : Z) : list sensor_call :=
  if sensor =? 0 then
    SemWait ::
    if wait =? 0 then [MonitorWrite] ++ (if write =? 0 then [Signal1] else [LogError]) ++ [SemPost]
    else [LogError]
  else [LogError].

(** In any number of runs the semaphore is posted as often as it was obtained,
    whatever the sensor and the monitor answer. *)
Lemma read_sensor_balanced (rs : list (Z * Z * Z)) :
  count_if (fun c => match c with SemPost => true | _ => false end)
    (flat_map (fun '(sensor, wait, write) => read_sensor sensor wait write) rs) =
  count_if (fun '(sensor, wait, write) => (sensor =? 0) && (wait =? 0)) rs.
Proof.
  induction rs as [|[[s w] x] rs IH]; [done|]. cbn [flat_map count_if]. rewrite count_if_app, IH. unfold read_sensor.
  destruct (s =? 0), (w =? 0), (x =? 0); simpl; lia.
Qed.

(** ** The reader of 1.c *)

(** The condition of its two loops, [num_reads == 0 || num_reads-- > 0], with
    the value of num_reads after it. *)
Definition reads_left (num_reads : Z) : bool * Z :=
  if num_reads =? 0 then (true, num_reads) else (num_reads >? 0, num_reads - 1).

(** What a turn of producer_task does, given the result of the ioctl. *)
Inductive producer_call := Ioctl | WriteMonitor | PublishSample | MqSend | MsgSnd | Sleep.
Definition producer_turn (ioctl : Z) : list producer_call :=
  Ioctl :: (if 0 <=? ioctl then [WriteMonitor; PublishSample; MqSend; MsgSnd] else []) ++ [Sleep].

(** The loop while keep_running is set, for as many turns as [ioctls] has
    answers; then a signal clears it. *)
Fixpoint producer_task (ioctls : list Z) (num_reads : Z) : list producer_call :=
  match ioctls with
  | [] => []
  | r :: ioctls =>
      let '(go, num_reads) := reads_left num_reads in
      if go then producer_turn r ++ producer_task ioctls num_reads else []
  end.

(** The loop of the sysfs mode; [opened] says of each turn whether the four
    files could be opened.  The result is the number of samples printed. *)
Fixpoint sysfs_loop (opened : list bool) (num_reads : Z) : nat :=
  match opened with
  | [] => 0
  | ok :: opened =>
      let '(go, num_reads) := reads_left num_reads in
      if go then if ok then S (sysfs_loop opened num_reads) else 0 else 0
  end.

(** The number of reads is no limit.  For every number that is not
    negative the producer goes on until the signal, however long that takes,
    as if no number had been given, since the count stops at 0, which means
    for ever; for a negative one it does not read at all.  The loop of the
    sysfs mode does the same until a file cannot be opened. *)
Theorem producer_never_counts ioctls opened num_reads :
  (0 <= num_reads -> producer_task ioctls num_reads = flat_map producer_turn ioctls /\
     sysfs_loop opened num_reads = sysfs_loop opened 0) /\
  (num_reads < 0 -> producer_task ioctls num_reads = [] /\ sysfs_loop opened num_reads = 0%nat).
Proof.
  split; intros Hn; split.
  - revert num_reads Hn. induction ioctls as [|r l IH]; intros n Hn; [done|]. simpl. unfold reads_left.
    destruct (Z.eqb_spec n 0); [by rewrite IH|]. replace (n >? 0) with true by lia. rewrite IH by lia. done.
  - revert num_reads Hn. induction opened as [|[] l IH]; intros n Hn; [done|..]; simpl; unfold reads_left;
      destruct (Z.eqb_spec n 0); simpl; subst; try done; replace (n >? 0) with true by lia; [|done].
    by rewrite (IH (n - 1)) by lia.
  - destruct ioctls; [done|]. simpl. unfold reads_left. replace (num_reads =? 0) with false by lia.
    by replace (num_reads >? 0) with false by lia.
  - destruct opened; [done|]. simpl. unfold reads_left. replace (num_reads =? 0) with false by lia.
    by replace (num_reads >? 0) with false by lia.
Qed.

(** consumer_task's test is that of a function that returns the number of
    samples: a turn logs when the read has failed. *)
Definition consumer_turn (read : Z) : bool := negb (read =? 0).

(** ** Start and cleanup of 1.c *)

(** The identifiers that cleanup uses: globals, which start as zero, and the
    queue in [targ]. *)
Record reader_ids := { shm_fd : Z; sysv_shmid : Z; sysv_semid : Z; sysv_msgid : Z }.

(** main from the initialiser of [targ] to the first task, for the results of
    the calls: the state at the label cleanup, and whether it got through. *)
Definition reader_start (dev_fd msgget mq sem shm ftruncate mmap shmget semget : Z) : reader_ids * bool :=
  let ids := {| shm_fd := 0; sysv_shmid := 0; sysv_semid := 0; sysv_msgid := msgget |} in
  if (dev_fd <? 0) || (msgget <? 0) || (mq =? -1) || (sem =? 0) then (ids, false)
  else
  let ids := {| shm_fd := shm; sysv_shmid := 0; sysv_semid := 0; sysv_msgid := msgget |} in
  if (shm <? 0) || (ftruncate <? 0) then (ids, false)
  else if mmap =? -1 then (ids, false)
  else
  let ids := {| shm_fd := shm; sysv_shmid := shmget; sysv_semid := semget; sysv_msgid := msgget |} in
  if (shmget <? 0) || (semget <? 0) then (ids, false) else (ids, true).

Inductive reader_release := CloseFd (fd : Z) | RmShm (id : Z) | RmSem (id : Z) | RmMsg (id : Z).
Definition reader_cleanup (ids : reader_ids) : list reader_release :=
  [CloseFd (shm_fd ids); RmShm (sysv_shmid ids); RmSem (sysv_semid ids); RmMsg (sysv_msgid ids)].

(** The cleanup of 1.c releases exactly what it has created when the start
    gets through.  When the device cannot be opened it closes file 0, the
    standard input, and removes the shared memory segment and the semaphore
    set with the identifier 0, which it has not created; when the mapping
    fails it still removes those two. *)
Theorem reader_cleanup_ids dev_fd msgget mq sem shm ftruncate mmap shmget semget :
  let '(ids, ok) := reader_start dev_fd msgget mq sem shm ftruncate mmap shmget semget in
  (ok = true -> reader_cleanup ids = [CloseFd shm; RmShm shmget; RmSem semget; RmMsg msgget] /\
     0 <= shm /\ 0 <= shmget /\ 0 <= semget /\ 0 <= msgget) /\
  (dev_fd < 0 -> ok = false /\ reader_cleanup ids = [CloseFd 0; RmShm 0; RmSem 0; RmMsg msgget]) /\
  (mmap = -1 -> ok = false /\ RmShm 0 ∈ reader_cleanup ids /\ RmSem 0 ∈ reader_cleanup ids).
Proof.
  unfold reader_start, reader_cleanup.
  destruct ((dev_fd <? 0) || (msgget <? 0) || (mq =? -1) || (sem =? 0)) eqn:E1;
    [|destruct ((shm <? 0) || (ftruncate <? 0)) eqn:E2;
      [|destruct (mmap =? -1) eqn:E3; [|destruct ((shmget <? 0) || (semget <? 0)) eqn:E4]]].
  all: split_and!; try done; try lia; intros; split_and!; try done; try lia.
  all: rewrite !elem_of_cons; auto.
Qed.

(** ** Witnesses *)

Definition atoi_1 (s : string) : Z := Z.of_nat (String.length s).

Lemma parse_args_roundtrip_witness :
  parse_args atoi_1 app_defaults ["-i"; "seven.."; "-x"; "--test"; "-i"; "-t"; "-s"]%string =
    {| iterations := 2; threads := 4; num_stages := 5; run_tests := true |}.
Proof.
  apply (proj2 (parse_args_roundtrip atoi_1 app_defaults
    [OptI "seven.."; OptOther "-x"; OptTest; OptI "-t"]%string "-s"%string eq_refl)).
  simpl. auto.
Defined.

Lemma app_never_starts_witness :
  (app_main "now" true "" true 3 (mret tt) logger_zero).2 = Stuck.
Proof.
  pose proof (app_never_starts "now" true "" 3 (mret tt) logger_zero ltac:(lia)) as H.
  destruct (app_main _ _ _ _ _ _ _) as [s' r]. exact (proj1 H).
Defined.

Lemma app_sensor_decode_witness :
  exists s, bme680_read_sensor (fun r n => Some (map (fun i => (fun r => if r =? 0x22 then 0x76 else 0x40) (r + Z.of_nat i)) (seq 0 n))) = Ok s /\
    app_valid s = false /\ temp16 s = 0x76 * 4096 + 0x40 * 16 + 0x40 / 16.
Proof.
  destruct (proj2 (app_sensor_decode (fun r => if r =? 0x22 then 0x76 else 0x40)
    ltac:(intros r; simpl; destruct (r =? 0x22); split; discriminate || reflexivity))) as (s & E & Ht & _).
  exists s. split; [exact E|]. split; [injection E as <-; reflexivity|exact Ht].
Defined.

Lemma producer_never_counts_witness :
  length (producer_task (replicate 50 0) 3) = 300%nat /\ producer_task (replicate 50 0) (-1) = [].
Proof.
  split.
  - rewrite (proj1 (proj1 (producer_never_counts (replicate 50 0) [] 3) ltac:(lia))). reflexivity.
  - apply (proj2 (producer_never_counts (replicate 50 0) [] (-1)) ltac:(lia)).
Defined.

Lemma reader_cleanup_ids_witness :
  reader_cleanup (reader_start (-1) 7 5 1 0 0 0 0 0).1 = [CloseFd 0; RmShm 0; RmSem 0; RmMsg 7].
Proof.
  apply (proj1 (proj2 (reader_cleanup_ids (-1) 7 5 1 0 0 0 0 0)) ltac:(lia)).
Defined.
