(* ===== verification/ReaderTasks.v ===== *)
(** * ReaderTasks: the four tasks of the reader (1.c)

    The producer, the consumer, the netlink and the System V task share the
    descriptors of [struct task_arg], the monitor, a POSIX and a System V
    queue, and the flag that the signal handler clears.  Each task is a
    function from its place in the code ([producer_pc] and so on) and the
    shared state [io] to the next place; one step ends with one call, whose
    result is part of the event, and the tasks interleave between steps.
    Other processes may receive from the POSIX queue; in this program nobody
    does.  The pool that runs the tasks is taken to run them, and the
    monitor to be the queue that Monitor proves it to be.

    The theorems: what reaches each queue, in which order, and what the
    consumer never logs; the bound that the POSIX queue sets to the producer,
    and where it sleeps for good;
    which calls use a descriptor that the other task's handler has closed; and
    that a signal ends every task within a bounded number of steps. *)

From S2P Require Import Prelude Bme680Data App.

(** ** The shared state *)

Inductive task := Producer | Consumer | Netlink | SysvMsg.
Inductive resource := RDev | RNl | RMq | RSem.
#[export] Instance resource_eq_dec : EqDecision resource.
Proof. solve_decision. Defined.

(** What passes through a queue: everything sent, what was received, what is
    in it. *)
Record chan := Chan { sent : list bme680_fifo_data; got : list bme680_fifo_data; queued : list bme680_fifo_data }.

Definition put (d : bme680_fifo_data) (c : chan) : chan := Chan (sent c ++ [d]) (got c) (queued c ++ [d]).
Definition take_head (c : chan) : option (bme680_fifo_data * chan) :=
  match queued c with
  | d :: q => Some (d, Chan (sent c) (got c ++ [d]) q)
  | [] => None
  end.

Record io := Io {
  nl_sock : Z;                          (* targ->nl_sock *)
  closes : list resource;               (* the calls of close, mq_close and sem_close *)
  misuse : list (task * resource);      (* calls on a descriptor that is closed *)
  produced : list bme680_fifo_data;     (* samples that the device delivered *)
  published : list bme680_fifo_data;
  mon : chan; mq : chan; sysvq : chan;
  mq_failed : nat;                      (* failed calls of mq_send *)
  sem : Z; sem_failed : nat;            (* the semaphore, failed calls of sem_wait *)
  logged : list (option bme680_fifo_data);   (* what the consumer logs; [None]: never assigned *)
  messages : list bme680_fifo_data;     (* what sysv_msg_task logs *)
}.

Definition set_nl_sock (z : Z) (s : io) : io :=
  Io z (closes s) (misuse s) (produced s) (published s) (mon s) (mq s) (sysvq s)
     (mq_failed s) (sem s) (sem_failed s) (logged s) (messages s).
Definition add_misuse (t : task) (r : resource) (s : io) : io :=
  Io (nl_sock s) (closes s) ((t, r) :: misuse s) (produced s) (published s) (mon s) (mq s) (sysvq s)
     (mq_failed s) (sem s) (sem_failed s) (logged s) (messages s).
Definition add_close (r : resource) (s : io) : io :=
  Io (nl_sock s) (r :: closes s) (misuse s) (produced s) (published s) (mon s) (mq s) (sysvq s)
     (mq_failed s) (sem s) (sem_failed s) (logged s) (messages s).
Definition add_produced (d : bme680_fifo_data) (s : io) : io :=
  Io (nl_sock s) (closes s) (misuse s) (produced s ++ [d]) (published s) (mon s) (mq s) (sysvq s)
     (mq_failed s) (sem s) (sem_failed s) (logged s) (messages s).
Definition pubsub_publish (d : bme680_fifo_data) (s : io) : io :=
  Io (nl_sock s) (closes s) (misuse s) (produced s) (published s ++ [d]) (mon s) (mq s) (sysvq s)
     (mq_failed s) (sem s) (sem_failed s) (logged s) (messages s).
Definition set_mon (c : chan) (s : io) : io :=
  Io (nl_sock s) (closes s) (misuse s) (produced s) (published s) c (mq s) (sysvq s)
     (mq_failed s) (sem s) (sem_failed s) (logged s) (messages s).
Definition set_mq (c : chan) (s : io) : io :=
  Io (nl_sock s) (closes s) (misuse s) (produced s) (published s) (mon s) c (sysvq s)
     (mq_failed s) (sem s) (sem_failed s) (logged s) (messages s).
Definition set_sysvq (c : chan) (s : io) : io :=
  Io (nl_sock s) (closes s) (misuse s) (produced s) (published s) (mon s) (mq s) c
     (mq_failed s) (sem s) (sem_failed s) (logged s) (messages s).
Definition fail_mq (s : io) : io :=
  Io (nl_sock s) (closes s) (misuse s) (produced s) (published s) (mon s) (mq s) (sysvq s)
     (S (mq_failed s)) (sem s) (sem_failed s) (logged s) (messages s).
Definition set_sem (z : Z) (s : io) : io :=
  Io (nl_sock s) (closes s) (misuse s) (produced s) (published s) (mon s) (mq s) (sysvq s)
     (mq_failed s) z (sem_failed s) (logged s) (messages s).
Definition fail_sem (s : io) : io :=
  Io (nl_sock s) (closes s) (misuse s) (produced s) (published s) (mon s) (mq s) (sysvq s)
     (mq_failed s) (sem s) (S (sem_failed s)) (logged s) (messages s).
Definition add_logged (o : option bme680_fifo_data) (s : io) : io :=
  Io (nl_sock s) (closes s) (misuse s) (produced s) (published s) (mon s) (mq s) (sysvq s)
     (mq_failed s) (sem s) (sem_failed s) (logged s ++ [o]) (messages s).
Definition add_message (d : bme680_fifo_data) (s : io) : io :=
  Io (nl_sock s) (closes s) (misuse s) (produced s) (published s) (mon s) (mq s) (sysvq s)
     (mq_failed s) (sem s) (sem_failed s) (logged s) (messages s ++ [d]).

(** main has opened all but the socket; a descriptor is open until the first
    close. *)
Definition is_open (r : resource) (s : io) : bool := negb (bool_decide (r ∈ closes s)).

(** A call of task [t] on [r] that returns [x]: on a closed descriptor it
    fails. *)
Definition call (t : task) (r : resource) (x : Z) (s : io) : io * Z :=
  if is_open r s then (s, x) else (add_misuse t r s, -1).

Definition close (t : task) (r : resource) (s : io) : io :=
  add_close r (if is_open r s then s else add_misuse t r s).

(** The four lines of cleanup_handler; main has checked that the other three
    descriptors are valid. *)
Definition cleanup_handler (t : task) (line : nat) (s : io) : io :=
  match line with
  | 0%nat => close t RDev s
  | 1%nat => if 0 <=? nl_sock s then close t RNl s else s
  | 2%nat => close t RMq s
  | _ => close t RSem s
  end.

(** ** The tasks *)

Definition mq_maxmsg : nat := 10.

(** The places of producer_task, with its count and its sample; [PMqSend] is
    in front of the call of mq_send, [PInMqSend] inside it, asleep on a full
    queue; [PClose k] is line [k] of the handler. *)
Inductive producer_pc :=
| PTest (num_reads : Z) | PIoctl (num_reads : Z)
| PWrite (num_reads : Z) (fdata : bme680_fifo_data)
| PPublish (num_reads : Z) (fdata : bme680_fifo_data)
| PMqSend (num_reads : Z) (fdata : bme680_fifo_data)
| PInMqSend (num_reads : Z) (fdata : bme680_fifo_data)
| PMsgsnd (num_reads : Z) (fdata : bme680_fifo_data)
| PTestcancel (num_reads : Z)
| PClose (line : nat) | PDone.

Section tasks.
(** The size of the monitor, which its initialisation in 1.c does not give. *)
Context (mon_size : nat).

Definition mq_full (s : io) : bool := negb (length (queued (mq s)) <? mq_maxmsg)%nat.

(** mq_send goes to sleep on a full queue. *)
Definition mq_send_blocks (pc : producer_pc) (s : io) : option producer_pc :=
  match pc with
  | PMqSend n d => if is_open RMq s && mq_full s then Some (PInMqSend n d) else None
  | _ => None
  end.

(** [keep] is keep_running, [x] the result of the call that the step makes,
    [d] the sample that the device delivers; at pthread_testcancel [x] tells
    whether the task was cancelled.  [None]: the call does not return.  A call
    of mq_send fails on a closed descriptor whatever the queue holds; one that
    is asleep keeps its reference to the queue, and goes on when there is room
    (or fails) whether or not the descriptor has been closed meanwhile. *)
Definition producer_step (keep : bool) (x : Z) (d : bme680_fifo_data) (pc : producer_pc) (s : io)
    : option (producer_pc * io) :=
  match pc with
  | PTest n =>
      if keep then let '(go, n) := reads_left n in Some (if go then PIoctl n else PClose 0, s)
      else Some (PClose 0, s)
  | PIoctl n =>
      let '(s, x) := call Producer RDev x s in
      if 0 <=? x then Some (PWrite n d, add_produced d s) else Some (PTestcancel n, s)
  | PWrite n d =>
      if x =? 0 then
        if (length (queued (mon s)) <? mon_size)%nat then Some (PPublish n d, set_mon (put d (mon s)) s) else None
      else Some (PPublish n d, s)
  | PPublish n d => Some (PMqSend n d, pubsub_publish d s)
  | PMqSend n d =>
      let '(s, x) := call Producer RMq x s in
      if 0 <=? x then if mq_full s then None else Some (PMsgsnd n d, set_mq (put d (mq s)) s)
      else Some (PMsgsnd n d, fail_mq s)
  | PInMqSend n d =>
      if 0 <=? x then if mq_full s then None else Some (PMsgsnd n d, set_mq (put d (mq s)) s)
      else Some (PMsgsnd n d, fail_mq s)
  | PMsgsnd n d => Some (PTestcancel n, if 0 <=? x then set_sysvq (put d (sysvq s)) s else s)
  | PTestcancel n => Some (if x =? 0 then PTest n else PClose 0, s)
  | PClose k => Some (if (k <? 3)%nat then PClose (S k) else PDone, cleanup_handler Producer k s)
  | PDone => None
  end.

Inductive consumer_pc :=
| CTest | CRead | CWait (fdata : option bme680_fifo_data) | CLog (fdata : option bme680_fifo_data)
| CPost | CTestcancel | CDone.

(** The branch on the result of bme680_monitor_read is taken when it is not
    zero. *)
Definition consumer_step (keep : bool) (x : Z) (pc : consumer_pc) (s : io) : option (consumer_pc * io) :=
  match pc with
  | CTest => Some (if keep then CRead else CDone, s)
  | CRead =>
      if x =? 0 then
        '(fdata, m) ← take_head (mon s);
        Some (if negb (x =? 0) then CWait (Some fdata) else CTestcancel, set_mon m s)
      else Some (if negb (x =? 0) then CWait None else CTestcancel, s)
  | CWait f =>
      let '(s, x) := call Consumer RSem x s in
      if 0 <=? x then if 0 <? sem s then Some (CLog f, set_sem (sem s - 1) s) else None
      else Some (CLog f, fail_sem s)
  | CLog f => Some (CPost, add_logged f s)
  | CPost =>
      let '(s, x) := call Consumer RSem 0 s in
      Some (CTestcancel, if 0 <=? x then set_sem (sem s + 1) s else s)
  | CTestcancel => Some (if x =? 0 then CTest else CDone, s)
  | CDone => None
  end.

(** [NReturn]: a return between pthread_cleanup_push and pthread_cleanup_pop,
    after which the behaviour of the thread is undefined. *)
Inductive netlink_pc :=
| NSocket | NBind | NCloseSock | NTest | NRecv | NTestcancel | NClose (line : nat) | NDone | NReturn.

Definition netlink_step (keep : bool) (x : Z) (pc : netlink_pc) (s : io) : option (netlink_pc * io) :=
  match pc with
  | NSocket => Some (if x <? 0 then NReturn else NBind, set_nl_sock x s)
  | NBind =>
      let '(s, x) := call Netlink RNl x s in
      Some (if x <? 0 then NCloseSock else NTest, s)
  | NCloseSock => Some (NReturn, close Netlink RNl s)
  | NTest => Some (if keep then NRecv else NClose 0, s)
  | NRecv => let '(s, x) := call Netlink RNl x s in Some (NTestcancel, s)
  | NTestcancel => Some (if x =? 0 then NTest else NClose 0, s)
  | NClose k => Some (if (k <? 3)%nat then NClose (S k) else NDone, cleanup_handler Netlink k s)
  | NDone | NReturn => None
  end.

Inductive sysv_pc := STest | SRcv | STestcancel | SDone.

Definition sysv_msg_step (keep : bool) (x : Z) (pc : sysv_pc) (s : io) : option (sysv_pc * io) :=
  match pc with
  | STest => Some (if keep then SRcv else SDone, s)
  | SRcv =>
      if 0 <=? x then '(d, c) ← take_head (sysvq s); Some (STestcancel, add_message d (set_sysvq c s))
      else Some (STestcancel, s)
  | STestcancel => Some (if x =? 0 then STest else SDone, s)
  | SDone => None
  end.

(** ** The program *)

Definition SIGINT : Z := 2.
Definition SIGTERM : Z := 15.

Definition sig_handler (signo : Z) (keep : bool) : bool :=
  if (signo =? SIGINT) || (signo =? SIGTERM) then false else keep.

Record reader := Reader {
  keep_running : bool; shared : io;
  prod : producer_pc; cons : consumer_pc; nlt : netlink_pc; svt : sysv_pc;
}.

Inductive event :=
| StepP (x : Z) (d : bme680_fifo_data) | StepC (x : Z) | StepN (x : Z) | StepS (x : Z)
| Signal (signo : Z)
| Block            (* mq_send goes to sleep *)
| MqReceive.       (* by another process *)

Definition exec (s : reader) (e : event) : option reader :=
  let '(Reader keep m p c n v) := s in
  match e with
  | StepP x d => '(p, m) ← producer_step keep x d p m; Some (Reader keep m p c n v)
  | StepC x => '(c, m) ← consumer_step keep x c m; Some (Reader keep m p c n v)
  | StepN x => '(n, m) ← netlink_step keep x n m; Some (Reader keep m p c n v)
  | StepS x => '(v, m) ← sysv_msg_step keep x v m; Some (Reader keep m p c n v)
  | Signal signo => Some (Reader (sig_handler signo keep) m p c n v)
  | Block => p ← mq_send_blocks p m; Some (Reader keep m p c n v)
  | MqReceive => '(_, q) ← take_head (mq m); Some (Reader keep (set_mq q m) p c n v)
  end.

Fixpoint exec_all (s : reader) (es : list event) : option reader :=
  match es with
  | [] => Some s
  | e :: es => s ← exec s e; exec_all s es
  end.
End tasks.

(** The option loop of main, over what getopt returns; [None] is exit(1). *)
Inductive getopt_result := OptI (optarg : string) | OptS | OptUnknown.

Fixpoint reader_args (atoi : string -> Z) (opts : list getopt_result) (num_reads : Z) (use_sysfs : bool)
    : option (Z * bool) :=
  match opts with
  | [] => Some (num_reads, use_sysfs)
  | OptI optarg :: opts => reader_args atoi opts (atoi optarg) use_sysfs
  | OptS :: opts => reader_args atoi opts num_reads true
  | OptUnknown :: opts => None
  end.

Definition chan_empty : chan := Chan [] [] [].

(** After main has enqueued the four tasks. *)
Definition reader_init (num_reads : Z) : reader :=
  Reader true
    (Io (-1) [] [] [] [] chan_empty chan_empty chan_empty 0 1 0 [] [])
    (PTest num_reads) CTest NSocket STest.

(** * Theorems *)

Section theorems.
Context (mon_size : nat).
Implicit Types (s : reader) (m : io) (es : list event).

(** What holds at first and is kept by every step holds throughout. *)
Lemma exec_all_inv (Inv : reader -> Prop) s es s' :
  (forall s e s', Inv s -> exec mon_size s e = Some s' -> Inv s') ->
  Inv s -> exec_all mon_size s es = Some s' -> Inv s'.
Proof.
  intros Hstep. revert s. induction es as [|e es IH]; intros s Hs E; simpl in E; [by simplify_eq|].
  apply bind_Some in E as (s1 & E1 & E). eapply IH; [by eapply Hstep|done].
Qed.

(** ** What reaches the queues *)

(** The sample on its way at a place of the producer, before each call. *)
Definition before_write (p : producer_pc) : list bme680_fifo_data :=
  match p with PWrite _ d => [d] | _ => [] end.
Definition before_publish (p : producer_pc) : list bme680_fifo_data :=
  match p with PWrite _ d | PPublish _ d => [d] | _ => [] end.
Definition before_mq_send (p : producer_pc) : list bme680_fifo_data :=
  match p with PWrite _ d | PPublish _ d | PMqSend _ d | PInMqSend _ d => [d] | _ => [] end.
Definition before_msgsnd (p : producer_pc) : list bme680_fifo_data :=
  match p with PWrite _ d | PPublish _ d | PMqSend _ d | PInMqSend _ d | PMsgsnd _ d => [d] | _ => [] end.

Definition in_critical (c : consumer_pc) : Z := match c with CLog _ | CPost => 1 | _ => 0 end.
Definition to_log (c : consumer_pc) : list (option bme680_fifo_data) :=
  match c with CWait f | CLog f => [f] | _ => [] end.

(** First in, first out, and no more than the capacity. *)
Definition chan_ok (size : nat) (c : chan) : Prop :=
  sent c = got c ++ queued c /\ (length (queued c) <= size)%nat.

Record flow (p : producer_pc) (c : consumer_pc) (m : io) : Prop := {
  fl_published : produced m = published m ++ before_publish p;
  fl_mon : sent (mon m) ++ before_write p `sublist_of` produced m;
  fl_mq : sent (mq m) ++ before_mq_send p `sublist_of` produced m;
  fl_sysv : sent (sysvq m) ++ before_msgsnd p `sublist_of` produced m;
  fl_count : length (produced m) = (length (sent (mq m)) + mq_failed m + length (before_mq_send p))%nat;
  fl_mon_ok : chan_ok mon_size (mon m);
  fl_mq_ok : chan_ok mq_maxmsg (mq m);
  fl_sysv_ok : sent (sysvq m) = got (sysvq m) ++ queued (sysvq m);
  fl_messages : messages m = got (sysvq m);
  fl_logged : Forall (eq None) (logged m ++ to_log c);
  fl_sem : 0 <= sem m /\ sem m + in_critical c <= 1 + Z.of_nat (sem_failed m);
}.

Lemma sublist_drop_last {A} (l k p : list A) : l ++ k `sublist_of` p -> l ++ [] `sublist_of` p.
Proof. intros H. etrans; [|exact H]. rewrite app_nil_r. by apply sublist_inserts_r. Qed.

Lemma sublist_grow {A} (l p : list A) d : l ++ [] `sublist_of` p -> l ++ [d] `sublist_of` p ++ [d].
Proof. rewrite app_nil_r. intros H. by apply sublist_app. Qed.

Lemma chan_ok_put size c d :
  chan_ok size c -> (length (queued c) < size)%nat -> chan_ok size (put d c).
Proof.
  intros [E _] Hl. split; simpl; [by rewrite E, app_assoc|]. rewrite length_app. simpl. lia.
Qed.

Lemma chan_ok_take size c d c' : chan_ok size c -> take_head c = Some (d, c') -> chan_ok size c'.
Proof.
  unfold take_head. intros [E Hl] H. destruct (queued c) as [|x q] eqn:Hq; simplify_eq/=.
  split; simpl in *; [by rewrite E, <- app_assoc|lia].
Qed.

Lemma take_head_sent c d c' : take_head c = Some (d, c') -> sent c' = sent c /\ got c' = got c ++ [d].
Proof. unfold take_head. destruct (queued c); by intros; simplify_eq. Qed.

(** A call changes at most the record of misuses. *)
Lemma call_flow p c t r x m : flow p c m -> flow p c (call t r x m).1.
Proof. unfold call. destruct (is_open r m); [done|]. intros []. by constructor. Qed.

Lemma close_flow p c t r m : flow p c m -> flow p c (close t r m).
Proof. unfold close. destruct (is_open r m); intros []; by constructor. Qed.

Lemma cleanup_flow p c t k m : flow p c m -> flow p c (cleanup_handler t k m).
Proof.
  intros H. destruct k as [|[|[|k]]]; simpl; try by apply close_flow.
  destruct (0 <=? nl_sock m); [by apply close_flow|done].
Qed.

(** The places between which no sample is on its way. *)
Lemma flow_idle p p' c m :
  flow p c m -> before_msgsnd p = [] -> before_msgsnd p' = [] -> flow p' c m.
Proof. intros [] Hp Hp'. destruct p, p'; try done; by constructor. Qed.

(** The program goes on exactly when every option is known; then the last -i
    counts, and -s anywhere. *)
Lemma reader_args_spec atoi opts n b :
  match reader_args atoi opts n b with
  | Some (n', b') => ~ OptUnknown ∈ opts /\ (b' = true <-> b = true \/ OptS ∈ opts) /\
      n' = fold_left (fun n o => match o with OptI v => atoi v | _ => n end) opts n
  | None => OptUnknown ∈ opts
  end.
Proof.
  revert n b. induction opts as [|[v| |] opts IH]; intros n b; simpl.
  - split; [by intros ?%not_elem_of_nil|]. split; [|done]. split; [by left|].
    intros [?|?%not_elem_of_nil]; done.
  - specialize (IH (atoi v) b). destruct (reader_args _ _ _ _) as [[n' b']|]; rewrite ?elem_of_cons; [|by right].
    destruct IH as (H1 & H2 & H3). split; [by intros [?|?]|]. split; [|done].
    rewrite H2. split; [intros [?|?]; [by left|by right; right]|intros [?|[?|?]]; [by left|done|by right]].
  - specialize (IH n true). destruct (reader_args _ _ _ _) as [[n' b']|]; rewrite ?elem_of_cons; [|by right].
    destruct IH as (H1 & H2 & H3). split; [by intros [?|?]|]. split; [|done].
    split; intros _; [right; by left|apply H2; by left].
  - apply list_elem_of_here.
Qed.

(** Everything but what the step changes is taken over. *)
Ltac keep_flow :=
  constructor; cbn [produced published mon mq sysvq mq_failed sem sem_failed logged messages
    set_mon set_mq set_sysvq pubsub_publish fail_mq add_produced set_sem fail_sem add_logged
    add_message put sent got queued before_write before_publish before_mq_send before_msgsnd
    in_critical to_log length]; eauto using sublist_drop_last.

(** mq_send sends the sample or fails. *)
Lemma mq_send_flow n d p c m (ok : bool) p' m' :
  flow p c m -> p = PMqSend n d \/ p = PInMqSend n d ->
  (if ok then if mq_full m then None else Some (PMsgsnd n d, set_mq (put d (mq m)) m)
   else Some (PMsgsnd n d, fail_mq m)) = Some (p', m') ->
  flow p' c m'.
Proof.
  intros [] Hp E. assert (before_publish p = [] /\ before_write p = [] /\ before_mq_send p = [d] /\ before_msgsnd p = [d])
    as (E1 & E2 & E3 & E4) by (by destruct Hp as [-> | ->]).
  rewrite ?E1, ?E2, ?E3, ?E4 in *. destruct ok; [destruct (mq_full m) eqn:Hf; [done|]|]; simplify_eq; keep_flow.
  - by rewrite app_nil_r.
  - rewrite length_app. simpl in *. lia.
  - apply chan_ok_put; [done|]. unfold mq_full in Hf. lia.
  - simpl in *. lia.
Qed.

Lemma producer_flow keep x d p c m p' m' :
  flow p c m -> producer_step mon_size keep x d p m = Some (p', m') -> flow p' c m'.
Proof.
  intros H E. destruct p as [n|n|n f|n f|n f|n f|n f|n|k|]; unfold producer_step in E.
  - destruct keep; [destruct (reads_left n) as [[] n']|]; simplify_eq; by eapply flow_idle.
  - pose proof (call_flow _ _ Producer RDev x _ H) as Hc.
    destruct (call Producer RDev x m) as [m1 x1]. cbn [fst] in Hc.
    destruct (0 <=? x1); simplify_eq; [|by eapply flow_idle]. destruct Hc. keep_flow.
    + by rewrite fl_published0, app_nil_r.
    + by apply sublist_grow.
    + by apply sublist_grow.
    + by apply sublist_grow.
    + rewrite length_app, fl_count0. simpl. lia.
  - csplit; destruct H; keep_flow.
    + by rewrite app_nil_r.
    + apply chan_ok_put; [done|]. by apply Nat.ltb_lt.
  - simplify_eq. destruct H. keep_flow. by rewrite app_nil_r.
  - pose proof (call_flow _ _ Producer RMq x _ H) as Hc.
    destruct (call Producer RMq x m) as [m1 x1]. cbn [fst] in Hc. eapply mq_send_flow; [exact Hc|by left|exact E].
  - eapply mq_send_flow; [exact H|by right|exact E].
  - csplit; destruct H; keep_flow; [by rewrite app_nil_r|]. by rewrite fl_sysv_ok0, app_assoc.
  - simplify_eq. eapply flow_idle; [done..|by destruct (x =? 0)].
  - simplify_eq. eapply flow_idle; [by apply cleanup_flow|done|by destruct (k <? 3)%nat].
  - done.
Qed.

(** The consumer never has a sample to log. *)
Lemma to_log_None f l : Forall (eq None) (l ++ [f]) -> f = @None bme680_fifo_data.
Proof. rewrite Forall_app. intros [_ H]. by inversion H. Qed.

Lemma consumer_flow keep x p c m c' m' :
  flow p c m -> consumer_step keep x c m = Some (c', m') -> flow p c' m'.
Proof.
  intros H E. destruct c as [| |f|f| | |]; unfold consumer_step in E.
  - simplify_eq. destruct H, keep; keep_flow.
  - destruct (x =? 0) eqn:Hx; cbn [negb] in E.
    + apply bind_Some in E as ([d q] & Eq & E). simplify_eq.
      pose proof (take_head_sent _ _ _ Eq) as [Hs _]. destruct H.
      keep_flow; [by rewrite Hs|by eapply chan_ok_take].
    + simplify_eq. destruct H. rewrite app_nil_r in *. keep_flow. apply Forall_app. by repeat constructor.
  - pose proof (call_flow _ _ Consumer RSem x _ H) as Hc.
    destruct (call Consumer RSem x m) as [m1 x1]. cbn [fst] in Hc.
    destruct (0 <=? x1); [destruct (Z.ltb_spec 0 (sem m1)) as [Hs|Hs]|]; simplify_eq; destruct Hc; keep_flow;
      simpl in *; lia.
  - simplify_eq. destruct H. keep_flow. by rewrite app_nil_r.
  - pose proof (call_flow _ _ Consumer RSem 0 _ H) as Hc.
    destruct (call Consumer RSem 0 m) as [m1 x1]. cbn [fst] in Hc.
    csplit; destruct Hc; keep_flow; simpl in *; lia.
  - simplify_eq. destruct H, (x =? 0); keep_flow.
  - done.
Qed.

Lemma netlink_flow keep x p c n m n' m' :
  flow p c m -> netlink_step keep x n m = Some (n', m') -> flow p c m'.
Proof.
  intros H E. destruct n; simpl in E; simplify_eq; try done.
  - destruct H. keep_flow.
  - pose proof (call_flow _ _ Netlink RNl x _ H). destruct (call _ _ _ _). by simplify_eq.
  - by apply close_flow.
  - pose proof (call_flow _ _ Netlink RNl x _ H). destruct (call _ _ _ _). by simplify_eq.
  - by apply cleanup_flow.
Qed.

Lemma sysv_flow keep x p c v m v' m' :
  flow p c m -> sysv_msg_step keep x v m = Some (v', m') -> flow p c m'.
Proof.
  intros H E. destruct v; unfold sysv_msg_step in E; simplify_eq; try done.
  destruct (0 <=? x); [|by simplify_eq]. apply bind_Some in E as ([d q] & Eq & E). simplify_eq.
  unfold take_head in Eq. destruct (queued (sysvq m)) as [|y l] eqn:Hq; simplify_eq.
  destruct H. keep_flow; [by rewrite fl_sysv_ok0, Hq, <- app_assoc|by rewrite fl_messages0].
Qed.

Definition reader_flow_inv (s : reader) : Prop := flow (prod s) (cons s) (shared s).

Lemma flow_step s e s' : reader_flow_inv s -> exec mon_size s e = Some s' -> reader_flow_inv s'.
Proof.
  unfold reader_flow_inv. destruct s as [keep m p c n v]. intros H E.
  destruct e as [x d|x|x|x|signo| |]; simpl in E; try (apply bind_Some in E as ([q m1] & E1 & E)); simplify_eq/=.
  - by eapply producer_flow.
  - by eapply consumer_flow.
  - by eapply netlink_flow.
  - by eapply sysv_flow.
  - done.
  - apply bind_Some in E as (q & E1 & E). destruct p; simpl in E1; csplit. destruct H. by constructor.
  - pose proof (take_head_sent _ _ _ E1) as [Hs Hg]. destruct H. keep_flow; try by rewrite Hs.
    by eapply chan_ok_take.
Qed.

Lemma flow_init n : reader_flow_inv (reader_init n).
Proof. constructor; simpl; auto; try done; split; simpl; lia || done. Qed.

Lemma reachable_flow n es s : exec_all mon_size (reader_init n) es = Some s -> reader_flow_inv s.
Proof. apply exec_all_inv; [apply flow_step|apply flow_init]. Qed.

(** C33: what the reader does with its samples, whatever the interleaving, the
    results of the calls, signals and other receivers.  Every sample the device
    delivers is published, in order; the monitor, the POSIX queue and the
    System V queue get a part of them each, in the order of the device (what a
    failed call loses), never more than their capacity, and what is received
    is the oldest; the System V task logs exactly what it receives.  The
    consumer removes samples from the monitor but never logs one: what it logs
    was never assigned.  The semaphore exceeds 1 only by failed waits, after
    which the consumer posts all the same. *)
Theorem reader_flow n es s :
  exec_all mon_size (reader_init n) es = Some s ->
  let m := shared s in
  (exists rest, produced m = published m ++ rest /\ (length rest <= 1)%nat) /\
  sent (mon m) `sublist_of` produced m /\ chan_ok mon_size (mon m) /\
  sent (mq m) `sublist_of` produced m /\ chan_ok mq_maxmsg (mq m) /\
  sent (sysvq m) `sublist_of` produced m /\ messages m ++ queued (sysvq m) = sent (sysvq m) /\
  Forall (eq None) (logged m) /\
  0 <= sem m <= 1 + Z.of_nat (sem_failed m).
Proof.
  intros E. cbv zeta. destruct (reachable_flow _ _ _ E). set (m := shared s) in *.
  assert (forall l k : list bme680_fifo_data, l ++ k `sublist_of` produced m -> l `sublist_of` produced m) as Hdrop.
  { intros l k H. rewrite <- (app_nil_r l). by eapply sublist_drop_last. }
  split_and!; eauto; try lia.
  - exists (before_publish (prod s)). split; [done|]. destruct (prod s); simpl; lia.
  - by rewrite fl_sysv_ok0, fl_messages0.
  - by apply Forall_app in fl_logged0 as [? _].
  - assert (0 <= in_critical (cons s)) by (destruct (cons s); done). lia.
Qed.

(** ** The bound that the POSIX queue sets to the producer *)

(** Nothing is received from the queue and no call of the producer fails. *)
Definition undisturbed (e : event) : Prop :=
  match e with MqReceive => False | StepP x _ => 0 <= x | _ => True end.

(** The queue is full and the producer has a sample to send. *)
Definition stopped (l : list bme680_fifo_data) (s : reader) : Prop :=
  length (before_mq_send (prod s)) = 1%nat /\ mq_full (shared s) = true /\ produced (shared s) = l.

(** The producer is asleep in mq_send. *)
Definition asleep (p : producer_pc) (l : list bme680_fifo_data) (s : reader) : Prop :=
  prod s = p /\ mq_full (shared s) = true /\ produced (shared s) = l.

(** The other tasks leave the POSIX queue and the device alone. *)
Definition same_mq (m m' : io) : Prop := mq m' = mq m /\ produced m' = produced m.

Lemma call_mq t r x m : same_mq m (call t r x m).1.
Proof. unfold call. by destruct (is_open r m). Qed.

Lemma close_mq t r m : same_mq m (close t r m).
Proof. unfold close. by destruct (is_open r m). Qed.

Lemma cleanup_mq t k m : same_mq m (cleanup_handler t k m).
Proof.
  destruct k as [|[|[|k]]]; simpl; try apply close_mq.
  destruct (0 <=? nl_sock m); [apply close_mq|done].
Qed.

Lemma consumer_mq keep x c m c' m' : consumer_step keep x c m = Some (c', m') -> same_mq m m'.
Proof.
  intros E. destruct c; unfold consumer_step in E; try by csplit.
  - destruct (x =? 0); [|by simplify_eq]. apply bind_Some in E as ([d q] & _ & E). simplify_eq. done.
  - pose proof (call_mq Consumer RSem x m).
    destruct (call _ _ _ _) as [m1 x1]. by csplit.
  - pose proof (call_mq Consumer RSem 0 m). destruct (call _ _ _ _) as [m1 x1]. by csplit.
Qed.

Lemma netlink_mq keep x n m n' m' : netlink_step keep x n m = Some (n', m') -> same_mq m m'.
Proof.
  intros E. destruct n; simpl in E; simplify_eq; try done.
  1,3: pose proof (call_mq Netlink RNl x m); destruct (call _ _ _ _); by simplify_eq.
  - apply close_mq.
  - apply cleanup_mq.
Qed.

Lemma sysv_mq keep x v m v' m' : sysv_msg_step keep x v m = Some (v', m') -> same_mq m m'.
Proof.
  intros E. destruct v; unfold sysv_msg_step in E; simplify_eq; try done.
  destruct (0 <=? x); [|by simplify_eq]. apply bind_Some in E as ([d q] & _ & E). simplify_eq. done.
Qed.

Lemma mq_full_same m m' : same_mq m m' -> mq_full m' = mq_full m /\ produced m' = produced m.
Proof. unfold mq_full. by intros [-> ->]. Qed.

(** What is closed stays closed. *)
Lemma call_closes t r x m : closes (call t r x m).1 = closes m.
Proof. unfold call. by destruct (is_open r m). Qed.

Lemma close_closes t r m : closes (close t r m) = r :: closes m.
Proof. unfold close. by destruct (is_open r m). Qed.

Lemma cleanup_closes t k m : exists l, closes (cleanup_handler t k m) = l ++ closes m.
Proof.
  assert (forall r, exists l, closes (close t r m) = l ++ closes m) as H
    by (intros r; exists [r]; apply close_closes).
  destruct k as [|[|[|k]]]; simpl; try apply H. destruct (0 <=? nl_sock m); [apply H|by exists []].
Qed.

(** The steps that close nothing. *)
Ltac same_closes :=
  repeat match goal with
  | H : context [call ?t ?r ?x ?m] |- _ =>
      let Hc := fresh in pose proof (call_closes t r x m) as Hc; destruct (call t r x m); cbn [fst] in Hc
  end;
  try csplit;
  repeat match goal with H : mbind _ _ = Some _ |- _ => apply bind_Some in H as (? & ? & H) end;
  repeat case_match; simplify_eq; exists []; simpl; congruence.

Lemma exec_closes s e s' :
  exec mon_size s e = Some s' -> exists l, closes (shared s') = l ++ closes (shared s).
Proof.
  destruct s as [keep m p c n v]. intros E.
  destruct e as [x d|x|x|x|signo| |]; simpl in E; try (apply bind_Some in E as ([q m1] & E1 & E)); simplify_eq/=.
  - destruct p; unfold producer_step in E1; try same_closes. injection E1 as <- <-. apply cleanup_closes.
  - destruct c; unfold consumer_step in E1; same_closes.
  - destruct n; unfold netlink_step in E1; try same_closes; injection E1 as <- <-.
    + exists [RNl]. apply close_closes.
    + apply cleanup_closes.
  - destruct v; unfold sysv_msg_step in E1; same_closes.
  - by exists [].
  - apply bind_Some in E as (q & E1 & E). simplify_eq. by exists [].
  - by exists [].
Qed.

Lemma exec_open r s e s' :
  exec mon_size s e = Some s' -> is_open r (shared s') = true -> is_open r (shared s) = true.
Proof.
  intros E. destruct (exec_closes _ _ _ E) as [l El]. unfold is_open.
  rewrite El, !negb_true_iff, !bool_decide_eq_false, elem_of_app. tauto.
Qed.

Lemma stopped_step l s e s' :
  undisturbed e -> stopped l s -> is_open RMq (shared s) = true -> exec mon_size s e = Some s' -> stopped l s'.
Proof.
  unfold stopped. destruct s as [keep m p c n v]. intros Hq (Hp & Hm & Hk) Ho E. cbn in Hp, Hm, Hk, Ho.
  destruct e as [x d|x|x|x|signo| |]; simpl in E; try (apply bind_Some in E as ([q m1] & E1 & E)); simplify_eq/=;
    try (first [apply consumer_mq in E1|apply netlink_mq in E1|apply sysv_mq in E1];
         apply mq_full_same in E1 as [-> ->]; done);
    try done.
  - destruct p as [| |i f|i f|i f|i f| | | |]; simplify_eq/=; [by csplit|done| |]; unfold call in E1;
      rewrite ?Ho, ?Hm in E1; by replace (0 <=? x) with true in E1 by lia.
  - apply bind_Some in E as (q & E1 & E). destruct p; simpl in E1; by csplit.
Qed.

Lemma stopped_run l s es s' :
  Forall undisturbed es -> stopped l s -> exec_all mon_size s es = Some s' ->
  is_open RMq (shared s') = true -> is_open RMq (shared s) = true /\ stopped l s'.
Proof.
  intros Hq. revert s. induction Hq as [|e es He _ IH]; intros s Hs E Ho; simpl in E; [by simplify_eq|].
  apply bind_Some in E as (s1 & E1 & E).
  assert (is_open RMq (shared s1) = true) as Ho1.
  { clear -E Ho. revert s1 E. induction es as [|e es IH]; intros s1 E; simpl in E; [by simplify_eq|].
    apply bind_Some in E as (s2 & E2 & E). eapply exec_open; [exact E2|]. by apply IH. }
  assert (is_open RMq (shared s) = true) as Ho0 by (by eapply exec_open).
  split; [done|]. apply (IH s1); [by eapply stopped_step|done..].
Qed.

Lemma asleep_step i d l s e s' :
  undisturbed e -> asleep (PInMqSend i d) l s -> exec mon_size s e = Some s' -> asleep (PInMqSend i d) l s'.
Proof.
  unfold asleep. destruct s as [keep m p c n v]. intros Hq (Hp & Hm & Hk) E. cbn in Hp, Hm, Hk. subst p.
  destruct e as [x d'|x|x|x|signo| |]; simpl in E; try (apply bind_Some in E as ([q m1] & E1 & E)); simplify_eq/=;
    try (first [apply consumer_mq in E1|apply netlink_mq in E1|apply sysv_mq in E1];
         apply mq_full_same in E1 as [-> ->]; done);
    try done.
  rewrite Hm in E1. by replace (0 <=? x) with true in E1 by lia.
Qed.

Lemma asleep_run i d l s es s' :
  Forall undisturbed es -> asleep (PInMqSend i d) l s -> exec_all mon_size s es = Some s' ->
  asleep (PInMqSend i d) l s'.
Proof.
  intros Hq. revert s. induction Hq as [|e es He _ IH]; intros s Hs E; simpl in E; [by simplify_eq|].
  apply bind_Some in E as (s1 & E1 & E). eapply IH; [by eapply asleep_step|done].
Qed.

(** C34: the POSIX queue, from which this program never receives, stops the
    producer.  At any time the device has delivered at most 11 samples more
    than other processes have received from the queue and mq_send has failed
    to send.  Once it is 11 more, and as long as no process receives and no
    call of the producer is made to fail:
    - while the queue is open the producer reads no other sample and does not
      get past the mq_send of the last one, whatever the other tasks do; in
      front of that call, the only step it has is to fall asleep in it;
    - once asleep in it, it never moves again, whatever the other tasks do,
      also after the signal that clears keep_running and when the netlink
      task's handler has closed the queue.
    (A producer that is still in front of the call when that handler closes the
    queue gets an error from it, and ends.) *)
Theorem producer_stopped n es s :
  exec_all mon_size (reader_init n) es = Some s ->
  let m := shared s in
  (length (produced m) <= mq_maxmsg + 1 + length (got (mq m)) + mq_failed m)%nat /\
  (length (produced m) = (mq_maxmsg + 1 + length (got (mq m)) + mq_failed m)%nat ->
   (forall es' s', Forall undisturbed es' -> exec_all mon_size s es' = Some s' ->
      is_open RMq (shared s') = true ->
      produced (shared s') = produced m /\ length (before_mq_send (prod s')) = 1%nat) /\
   (forall i d, prod s = PMqSend i d -> is_open RMq m = true ->
      (exists s1, exec mon_size s Block = Some s1 /\ prod s1 = PInMqSend i d) /\
      forall x d', 0 <= x -> exec mon_size s (StepP x d') = None) /\
   (forall i d, prod s = PInMqSend i d ->
      forall es' s', Forall undisturbed es' -> exec_all mon_size s es' = Some s' ->
      prod s' = PInMqSend i d /\ produced (shared s') = produced m)).
Proof.
  intros E. cbv zeta. destruct (reachable_flow _ _ _ E). set (m := shared s) in *. destruct fl_mq_ok0 as [Es Hl].
  rewrite Es, length_app in fl_count0.
  assert (length (before_mq_send (prod s)) <= 1)%nat by (destruct (prod s); simpl; lia).
  split; [lia|]. intros Hk.
  assert (mq_full m = true) as Hm by (unfold mq_full; clearbody m; lia).
  split_and!.
  - intros es' s' Hq E' Ho. eapply (stopped_run (produced m)) in E' as (_ & H1 & _ & H2); [done|done| |done].
    unfold stopped. fold m. split_and!; [clearbody m; lia|done|done].
  - intros i d Hp Ho. destruct s as [k m0 p c nl v]. cbn in m, Hp. subst p m. simpl. unfold call.
    rewrite Ho, Hm. split; [by eexists|]. intros x d' Hx. by replace (0 <=? x) with true by lia.
  - intros i d Hp es' s' Hq E'. by destruct (asleep_run i d (produced m) s es' s' Hq) as (? & _ & ?).
Qed.

(** ** The descriptors *)

Definition line_of (r : resource) : nat :=
  match r with RDev => 0 | RNl => 1 | RMq => 2 | RSem => 3 end.

(** Has the task's handler passed the line of [r]? *)
Definition closed_by_p (p : producer_pc) (r : resource) : bool :=
  match p with PClose k => (line_of r <? k)%nat | PDone => true | _ => false end.
Definition closed_by_n (n : netlink_pc) (r : resource) : bool :=
  match n with NClose k => (line_of r <? k)%nat | NDone => true | _ => false end.

Definition p_handler (p : producer_pc) : bool := match p with PClose _ | PDone => true | _ => false end.
Definition n_handler (n : netlink_pc) : bool := match n with NClose _ | NDone => true | _ => false end.

Fixpoint times (r : resource) (l : list resource) : nat :=
  match l with [] => 0 | x :: l => Nat.b2n (bool_decide (x = r)) + times r l end.

Record fds (p : producer_pc) (n : netlink_pc) (m : io) : Prop := {
  fd_lines : match p with PClose k => (k <= 3)%nat | _ => True end /\
             match n with NClose k => (k <= 3)%nat | _ => True end;
  fd_closes r : r <> RNl ->
    times r (closes m) = (Nat.b2n (closed_by_p p r) + Nat.b2n (closed_by_n n r))%nat;
  fd_twice r : (2 <= times r (closes m))%nat -> exists t, (t, r) ∈ misuse m;
  fd_clean : p_handler p = false -> n_handler n = false ->
    misuse m = [] /\ (RNl ∈ closes m -> n = NReturn);
}.

Lemma times_elem r l : r ∈ l <-> (0 < times r l)%nat.
Proof.
  induction l as [|x l IH]; simpl; [split; [by intros ?%not_elem_of_nil|lia]|].
  rewrite elem_of_cons, IH. case_bool_decide as Hx; simpl; [split; [lia|by left]|].
  split; [intros [->|?]; done|by right].
Qed.

Lemma is_open_times r m : is_open r m = true <-> times r (closes m) = 0%nat.
Proof.
  unfold is_open. rewrite negb_true_iff, bool_decide_eq_false, times_elem. lia.
Qed.

(** A step that closes nothing, between places with the same handlers. *)
Lemma fds_move p n p' n' m m' :
  fds p n m -> closes m' = closes m -> misuse m' = misuse m ->
  match p' with PClose k => (k <= 3)%nat | _ => True end ->
  match n' with NClose k => (k <= 3)%nat | _ => True end ->
  (forall r, r <> RNl -> closed_by_p p' r = closed_by_p p r /\ closed_by_n n' r = closed_by_n n r) ->
  (p_handler p' = false -> p_handler p = false) -> (n_handler n' = false -> n_handler n = false) ->
  (n = NReturn -> n' = NReturn) ->
  fds p' n' m'.
Proof.
  intros [Hl Hc Ht Hf] E1 E2 Hp Hn Hr Hhp Hhn Hret. constructor; rewrite ?E1, ?E2; auto.
  - intros r Hne. rewrite Hc by done. by destruct (Hr r Hne) as [-> ->].
  - intros H1 H2. destruct Hf as [Hm Hnl]; auto.
Qed.

(** Without a handler, only a netlink socket that was given up is closed. *)
Lemma fds_open p n m r :
  fds p n m -> p_handler p = false -> n_handler n = false -> (r = RNl -> n <> NReturn) ->
  is_open r m = true.
Proof.
  intros [_ Hc _ Hf] Hp Hn Hr. destruct (decide (r = RNl)) as [->|Hne].
  - destruct (Hf Hp Hn) as [_ H]. unfold is_open. rewrite negb_true_iff, bool_decide_eq_false.
    intros Hin. by apply Hr, H.
  - apply is_open_times. rewrite Hc by done. by destruct p, n.
Qed.

Lemma call_fds p n t r x m :
  fds p n m -> (r = RNl -> n <> NReturn) -> fds p n (call t r x m).1.
Proof.
  intros H Hr. unfold call. destruct (is_open r m) eqn:Ho; [done|].
  pose proof (fds_open _ _ _ r H) as Hopen. destruct H as [Hl Hc Ht Hf]. constructor; auto.
  - intros r' H2. destruct (Ht r' H2) as [t' Ht']. exists t'. by apply list_elem_of_further.
  - intros H1 H2. by rewrite Hopen in Ho.
Qed.

Lemma close_fds p n p' n' t r m :
  fds p n m ->
  match p' with PClose k => (k <= 3)%nat | _ => True end ->
  match n' with NClose k => (k <= 3)%nat | _ => True end ->
  (forall r', r' <> RNl ->
    Nat.b2n (closed_by_p p' r') + Nat.b2n (closed_by_n n' r') =
    Nat.b2n (bool_decide (r = r')) + (Nat.b2n (closed_by_p p r') + Nat.b2n (closed_by_n n r')))%nat ->
  (p_handler p' = false -> n_handler n' = false ->
    p_handler p = false /\ n_handler n = false /\ n <> NReturn /\ n' = NReturn) ->
  fds p' n' (close t r m).
Proof.
  intros H Hp Hn Hr Hh. pose proof (fds_open _ _ _ r H) as Hopen. destruct H as [Hl Hc Ht Hf].
  unfold close. constructor; auto.
  - intros r' Hne. rewrite Hr by done. destruct (is_open r m); cbn [closes add_close add_misuse times];
      by rewrite Hc.
  - intros r' H2. destruct (is_open r m) eqn:Ho; cbn [closes misuse add_close add_misuse times] in *.
    + apply is_open_times in Ho. case_bool_decide; [subst; simpl in H2; lia|]. apply Ht. simpl in H2. lia.
    + destruct (decide (r = r')) as [->|]; [exists t; apply list_elem_of_here|].
      rewrite bool_decide_eq_false_2 in H2 by done. destruct (Ht r' H2) as [t' Ht'].
      exists t'. by apply list_elem_of_further.
  - intros H1 H2. destruct (Hh H1 H2) as (Hp0 & Hn0 & Hne & ->). rewrite Hopen by done.
    split; [by apply Hf|done].
Qed.

(** One line of the handler, in either task. *)
Lemma producer_handler_fds k n m :
  fds (PClose k) n m ->
  fds (if (k <? 3)%nat then PClose (S k) else PDone) n (cleanup_handler Producer k m).
Proof.
  intros H. pose proof (fd_lines _ _ _ H) as [Hk Hn].
  destruct k as [|[|[|[|k]]]]; [..|lia]; cbn [cleanup_handler Nat.ltb Nat.leb].
  2: destruct (0 <=? nl_sock m).
  all: first [ eapply close_fds; [exact H|simpl; lia|done| |done]; by intros []
             | eapply fds_move; [exact H|done|done|simpl; lia|done| |done|done|done]; by intros [] ].
Qed.

Lemma netlink_handler_fds k p m :
  fds p (NClose k) m ->
  fds p (if (k <? 3)%nat then NClose (S k) else NDone) (cleanup_handler Netlink k m).
Proof.
  intros H. pose proof (fd_lines _ _ _ H) as [Hp Hk].
  destruct k as [|[|[|[|k]]]]; [..|lia]; cbn [cleanup_handler Nat.ltb Nat.leb].
  2: destruct (0 <=? nl_sock m).
  all: first [ eapply close_fds; [exact H|done|simpl; lia| |done]; intros [] ?; simpl; done || lia
             | eapply fds_move; [exact H|done|done|done|simpl; lia| |done|done|done]; by intros [] ].
Qed.

(** The steps outside the handlers. *)
Ltac quiet H := eapply fds_move; [exact H|first [done|simpl; lia]..].

Lemma producer_fds keep x d p n m p' m' :
  fds p n m -> producer_step mon_size keep x d p m = Some (p', m') -> fds p' n m'.
Proof.
  intros H E. pose proof (fd_lines _ _ _ H) as [_ Hn].
  destruct p as [i|i|i f|i f|i f|i f|i f|i|k|]; unfold producer_step in E.
  - destruct keep; [destruct (reads_left i) as [[] i']|]; simplify_eq; quiet H.
  - pose proof (call_fds _ _ Producer RDev x _ H ltac:(done)) as Hc.
    destruct (call Producer RDev x m) as [m1 x1]. cbn [fst] in Hc. csplit; quiet Hc.
  - csplit; quiet H.
  - simplify_eq. quiet H.
  - pose proof (call_fds _ _ Producer RMq x _ H ltac:(done)) as Hc.
    destruct (call Producer RMq x m) as [m1 x1]. cbn [fst] in Hc. csplit; quiet Hc.
  - csplit; quiet H.
  - csplit; quiet H.
  - csplit; quiet H.
  - simplify_eq. by apply producer_handler_fds.
  - done.
Qed.

Lemma consumer_fds keep x c p n m c' m' :
  fds p n m -> consumer_step keep x c m = Some (c', m') -> fds p n m'.
Proof.
  intros H E. pose proof (fd_lines _ _ _ H) as [Hp Hn].
  destruct c as [| |f|f| | |]; unfold consumer_step in E; try by simplify_eq.
  - destruct (x =? 0); [|by simplify_eq].
    apply bind_Some in E as ([d q] & _ & E). simplify_eq. quiet H.
  - pose proof (call_fds _ _ Consumer RSem x _ H ltac:(done)) as Hc.
    destruct (call Consumer RSem x m) as [m1 x1]. cbn [fst] in Hc. csplit; quiet Hc.
  - simplify_eq. quiet H.
  - pose proof (call_fds _ _ Consumer RSem 0 _ H ltac:(done)) as Hc.
    destruct (call Consumer RSem 0 m) as [m1 x1]. cbn [fst] in Hc. csplit; quiet Hc.
Qed.

Lemma netlink_fds keep x p n m n' m' :
  fds p n m -> netlink_step keep x n m = Some (n', m') -> fds p n' m'.
Proof.
  intros H E. pose proof (fd_lines _ _ _ H) as [Hp Hn].
  destruct n as [| | | | | |k| |]; unfold netlink_step in E; simplify_eq; try done.
  - destruct (x <? 0); quiet H.
  - pose proof (call_fds _ _ Netlink RNl x _ H ltac:(done)) as Hc.
    destruct (call Netlink RNl x m) as [m1 x1]. cbn [fst] in Hc. csplit; quiet Hc.
  - eapply close_fds; [exact H|done|done| |done]. by intros [].
  - csplit; quiet H.
  - pose proof (call_fds _ _ Netlink RNl x _ H ltac:(done)) as Hc.
    destruct (call Netlink RNl x m) as [m1 x1]. cbn [fst] in Hc. simplify_eq. quiet Hc.
  - csplit; quiet H.
  - by apply netlink_handler_fds.
Qed.

Lemma sysv_fds keep x v p n m v' m' :
  fds p n m -> sysv_msg_step keep x v m = Some (v', m') -> fds p n m'.
Proof.
  intros H E. pose proof (fd_lines _ _ _ H) as [Hp Hn].
  destruct v; unfold sysv_msg_step in E; try by simplify_eq.
  destruct (0 <=? x); [|by simplify_eq]. apply bind_Some in E as ([d q] & _ & E).
  simplify_eq. quiet H.
Qed.

Lemma fds_step s e s' :
  fds (prod s) (nlt s) (shared s) -> exec mon_size s e = Some s' ->
  fds (prod s') (nlt s') (shared s').
Proof.
  destruct s as [keep m p c n v]. intros H E. cbn in H. pose proof (fd_lines _ _ _ H) as [Hp Hn].
  destruct e as [x d|x|x|x|signo| |]; simpl in E; try (apply bind_Some in E as ([q m1] & E1 & E)); simplify_eq/=.
  - by eapply producer_fds.
  - by eapply consumer_fds.
  - by eapply netlink_fds.
  - by eapply sysv_fds.
  - done.
  - apply bind_Some in E as (q & E1 & E). destruct p; simpl in E1; csplit; quiet H.
  - quiet H.
Qed.

Lemma reachable_fds n es s :
  exec_all mon_size (reader_init n) es = Some s -> fds (prod s) (nlt s) (shared s).
Proof.
  apply (exec_all_inv (fun s => fds (prod s) (nlt s) (shared s))); [apply fds_step|].
  constructor; simpl; try done; [intros r; lia|].
  intros _ _. split; [done|]. by intros ?%not_elem_of_nil.
Qed.

(** The descriptors of the tasks.  As long as neither the producer nor
    the netlink task is in its cleanup handler, no task makes a call on a
    descriptor that is closed.  But both tasks run the same handler on the same
    structure: when both have ended, the device, the queue and the semaphore
    have been closed twice, in every execution. *)
Theorem reader_descriptors n es s :
  exec_all mon_size (reader_init n) es = Some s ->
  (p_handler (prod s) = false -> n_handler (nlt s) = false -> misuse (shared s) = []) /\
  (prod s = PDone -> nlt s = NDone ->
   forall r, r <> RNl -> times r (closes (shared s)) = 2%nat /\ exists t, (t, r) ∈ misuse (shared s)).
Proof.
  intros E. destruct (reachable_fds _ _ _ E) as [_ Hc Ht Hf]. split.
  - intros Hp Hn. by apply Hf.
  - intros Hp Hn r Hr. specialize (Hc r Hr). rewrite Hp, Hn in Hc. split; [done|]. apply Ht. by rewrite Hc.
Qed.

(** ** A signal ends the tasks *)

(** The longest way to the end at a place, once keep_running is cleared. *)
Definition producer_rank (p : producer_pc) : nat :=
  match p with
  | PDone => 0 | PClose k => S (3 - k) | PTest _ => 5 | PTestcancel _ => 6 | PMsgsnd _ _ => 7
  | PMqSend _ _ | PInMqSend _ _ => 8 | PPublish _ _ => 9 | PWrite _ _ => 10 | PIoctl _ => 11
  end.
Definition consumer_rank (c : consumer_pc) : nat :=
  match c with
  | CDone => 0 | CTest => 1 | CTestcancel => 2 | CPost => 3 | CLog _ => 4 | CWait _ => 5 | CRead => 6
  end.
Definition netlink_rank (n : netlink_pc) : nat :=
  match n with
  | NDone | NReturn => 0 | NClose k => S (3 - k) | NTest => 5 | NTestcancel => 6 | NRecv => 7
  | NCloseSock => 1 | NBind => 8 | NSocket => 9
  end.
Definition sysv_rank (v : sysv_pc) : nat :=
  match v with SDone => 0 | STest => 1 | STestcancel => 2 | SRcv => 3 end.

Definition rank (s : reader) : nat :=
  producer_rank (prod s) + consumer_rank (cons s) + netlink_rank (nlt s) + sysv_rank (svt s).

(** The task that an event is a step of; falling asleep in mq_send is part of
    the step of that call. *)
Definition task_of (e : event) : option task :=
  match e with
  | StepP _ _ => Some Producer | StepC _ => Some Consumer | StepN _ => Some Netlink
  | StepS _ => Some SysvMsg | Signal _ | Block | MqReceive => None
  end.
Definition steps_of (es : list event) : nat :=
  length (filter (fun e => is_Some (task_of e)) es).
Definition task_rank (t : task) (s : reader) : nat :=
  match t with
  | Producer => producer_rank (prod s) | Consumer => consumer_rank (cons s)
  | Netlink => netlink_rank (nlt s) | SysvMsg => sysv_rank (svt s)
  end.

Lemma rank_step s e s' :
  keep_running s = false -> exec mon_size s e = Some s' ->
  keep_running s' = false /\
  (rank s' + (if task_of e is Some _ then 1 else 0) <= rank s)%nat.
Proof.
  destruct s as [keep m p c n v]. cbn. intros -> E. unfold rank. cbn.
  destruct e as [x d|x|x|x|signo| |]; simpl in E; try (apply bind_Some in E as ([q m1] & E1 & E)); simplify_eq/=.
  - split; [done|]. destruct p as [i|i|i f|i f|i f|i f|i f|i|k|]; simpl in E1; try destruct (call _ _ _ _);
      csplit; lia || done.
  - split; [done|]. destruct c; simpl in E1; try destruct (call _ _ _ _); try (by csplit; lia).
    destruct (x =? 0); [apply bind_Some in E1 as ([d q'] & _ & E1)|]; simplify_eq/=; lia.
  - split; [done|]. destruct n; simpl in E1; try destruct (call _ _ _ _); csplit; lia || done.
  - split; [done|]. destruct v; simpl in E1; try (by csplit; lia).
    destruct (0 <=? x); [apply bind_Some in E1 as ([d q'] & _ & E1)|]; simplify_eq/=; lia.
  - unfold sig_handler. split; [by csplit|lia].
  - apply bind_Some in E as (q & E1 & E). destruct p; simpl in E1; csplit; split; done || lia.
  - split; [done|lia].
Qed.

Lemma rank_run s es s' :
  keep_running s = false -> exec_all mon_size s es = Some s' ->
  (rank s' + steps_of es <= rank s)%nat.
Proof.
  revert s. induction es as [|e es IH]; intros s Hk E; simpl in E; [simplify_eq; unfold steps_of; simpl; lia|].
  apply bind_Some in E as (s1 & E1 & E). apply rank_step in E1 as [Hk1 H1]; [|done].
  specialize (IH s1 Hk1 E). unfold steps_of in *. rewrite filter_cons.
  case_decide as Hd; destruct (task_of e); simpl; try lia. by destruct Hd.
Qed.

(** A task that has not ended can always make a step, its call failing if
    need be. *)
Lemma task_progress t s :
  task_rank t s <> 0%nat -> exists e, task_of e = Some t /\ is_Some (exec mon_size s e).
Proof.
  destruct s as [keep m p c n v]. destruct t; cbn; intros H.
  - exists (StepP (-1) {| temp := 0; pressure := 0; humidity := 0; gas_res := 0 |}). split; [done|].
    destruct p as [i|i|i f|i f|i f|i f|i f|i|k|]; simpl; unfold call; try done;
      try destruct (reads_left i); csplit; try done; by eexists.
  - exists (StepC (-1)). split; [done|]. destruct c; simpl; unfold call; csplit; try done; by eexists.
  - exists (StepN (-1)). split; [done|]. destruct n; simpl; unfold call; csplit; try done; by eexists.
  - exists (StepS (-1)). split; [done|]. destruct v; simpl; csplit; try done; by eexists.
Qed.

(** C35: SIGINT or SIGTERM ends the tasks.  From any state, after the signal
    the four tasks together make at most 29 more steps, however they
    interleave and whatever their calls return; and a task that has not ended
    is never stuck for good: some result of the call it is in lets it go on.
    Hence if every call returns, all four end. *)
Theorem signal_ends_tasks s signo es s' :
  signo = SIGINT \/ signo = SIGTERM ->
  exec_all mon_size s (Signal signo :: es) = Some s' ->
  (steps_of es <= 29)%nat /\
  forall t, task_rank t s' <> 0%nat -> exists e, task_of e = Some t /\ is_Some (exec mon_size s' e).
Proof.
  intros Hs E. simpl in E. apply bind_Some in E as (s1 & E1 & E).
  assert (keep_running s1 = false) as Hk.
  { destruct s, Hs as [-> | ->]; simpl in E1; by simplify_eq. }
  split; [|intros t; apply task_progress].
  apply rank_run in E; [|done]. enough (rank s1 <= 29)%nat by lia.
  unfold rank. destruct s1 as [k m p c n v]. cbn.
  assert (producer_rank p <= 11 /\ consumer_rank c <= 6 /\ netlink_rank n <= 9 /\ sysv_rank v <= 3)%nat; [|lia].
  split_and!; [destruct p|destruct c|destruct n|destruct v]; simpl; lia.
Qed.
End theorems.

(** ** Witnesses *)

Definition sample_ex : bme680_fifo_data := {| temp := 2510; pressure := 100800; humidity := 41000; gas_res := 9 |}.

(** One turn of the producer in which every call succeeds. *)
Definition turn : list event := replicate 7 (StepP 0 sample_ex).

(** A turn; the consumer and the System V task receive the sample; the
    consumer fails to read another, and logs. *)
Definition flow_ex : list event :=
  turn ++ [StepC 0; StepC 0; StepC 0; StepS 0; StepS 0; StepC 0; StepC (-11); StepC 0; StepC 0].

Lemma reader_flow_witness :
  match exec_all 100 (reader_init 0) flow_ex with
  | Some s => messages (shared s) = [sample_ex] /\ logged (shared s) = [None] /\
      Forall (eq None) (logged (shared s)) /\ sent (sysvq (shared s)) `sublist_of` produced (shared s)
  | None => False
  end.
Proof.
  destruct (exec_all 100 (reader_init 0) flow_ex) as [s|] eqn:E; [|vm_compute in E; discriminate E].
  destruct (reader_flow 100 0 flow_ex s E) as (_ & _ & _ & _ & _ & Hv & _ & Hl & _).
  split; [|split; [|by split]]; vm_compute in E; injection E as <-; reflexivity.
Defined.

(** Eleven samples, the producer asleep; then a signal, and the netlink task
    ends with its handler. *)
Definition full_ex : list event := concat (replicate 10 turn) ++ replicate 4 (StepP 0 sample_ex) ++ [Block].
Definition signal_ex : list event := [StepC 0; Signal SIGINT] ++ replicate 7 (StepN 3).

Lemma producer_stopped_witness :
  match exec_all 100 (reader_init 0) full_ex with
  | Some s => length (produced (shared s)) = 11%nat /\
      match exec_all 100 s signal_ex with
      | Some s' => is_open RMq (shared s') = false /\ length (produced (shared s')) = 11%nat /\
          prod s' = PInMqSend 0 sample_ex
      | None => False
      end
  | None => False
  end.
Proof.
  destruct (exec_all 100 (reader_init 0) full_ex) as [s|] eqn:E; [|vm_compute in E; discriminate E].
  destruct (exec_all 100 s signal_ex) as [s'|] eqn:E'.
  - assert (length (produced (shared s)) = 11%nat /\ got (mq (shared s)) = [] /\ mq_failed (shared s) = 0%nat /\
      prod s = PInMqSend 0 sample_ex) as (Hp & Hg & Hf & Hpc)
      by (vm_compute in E; injection E as <-; split; [|split; [|split]]; reflexivity).
    destruct (proj2 (producer_stopped 100 0 full_ex s E)) as (_ & _ & Hs).
    + rewrite Hp, Hg, Hf. reflexivity.
    + destruct (Hs 0 sample_ex Hpc signal_ex s') as [H1 H2].
      * repeat constructor; simpl; lia.
      * exact E'.
      * split; [exact Hp|]. split; [|split; [rewrite H2; exact Hp|exact H1]].
        clear - E E'. vm_compute in E. injection E as <-. vm_compute in E'. injection E' as <-. reflexivity.
  - exfalso. vm_compute in E. injection E as <-. vm_compute in E'. discriminate E'.
Defined.

(** A producer that reads nothing and ends, and a netlink task that ends
    after it. *)
Definition ends_ex : list event :=
  [Signal SIGTERM] ++ replicate 5 (StepP 0 sample_ex) ++ [StepN 7] ++ replicate 6 (StepN 0).

Lemma reader_descriptors_witness :
  match exec_all 100 (reader_init 0) ends_ex with
  | Some s => prod s = PDone /\ nlt s = NDone /\ times RMq (closes (shared s)) = 2%nat /\
      misuse (shared s) = [(Netlink, RSem); (Netlink, RMq); (Netlink, RDev)]
  | None => False
  end.
Proof.
  destruct (exec_all 100 (reader_init 0) ends_ex) as [s|] eqn:E; [|vm_compute in E; discriminate E].
  assert (prod s = PDone /\ nlt s = NDone) as [Hp Hn]
    by (vm_compute in E; injection E as <-; split; reflexivity).
  pose proof (proj1 (proj2 (reader_descriptors 100 0 ends_ex s E) Hp Hn RMq ltac:(discriminate))) as Hm.
  split; [exact Hp|split; [exact Hn|split; [exact Hm|]]].
  vm_compute in E. injection E as <-. reflexivity.
Defined.

Lemma signal_ends_tasks_witness :
  match exec_all 100 (reader_init 0) ends_ex with
  | Some s => steps_of (tail ends_ex) = 12%nat /\ (12 <= 29)%nat /\ task_rank Consumer s <> 0%nat /\
      exists e, task_of e = Some Consumer /\ is_Some (exec 100 s e)
  | None => False
  end.
Proof.
  destruct (exec_all 100 (reader_init 0) ends_ex) as [s|] eqn:E; [|vm_compute in E; discriminate E].
  destruct (signal_ends_tasks 100 (reader_init 0) SIGTERM (tail ends_ex) s (or_intror eq_refl) E) as [Hn Hp].
  assert (task_rank Consumer s <> 0%nat) as Hc by (vm_compute in E; injection E as <-; discriminate).
  split; [reflexivity|split; [exact Hn|split; [exact Hc|exact (Hp Consumer Hc)]]].
Defined.
