(* ===== verification/CMem.v ===== *)
(** * CMem: blocks of memory, and the C library's objects in them

    The functions that create and destroy the objects of the library are
    about pointers: which block a pointer names, who holds the pointer, and
    which cells of it have been written.  Memory is a finite map from block
    numbers to blocks, a block a finite map from access paths (fields and
    array elements) to values; a cell that nothing wrote is absent, and
    reading it is undefined.  Mutexes, condition variables and thread handles
    are values of cells, which their init functions write and their destroy
    functions remove.

    What the system answers (does an allocation succeed, is a thread created,
    how does a thread that is joined end) is read from lists in the memory;
    an exhausted list answers yes.  Block numbers are never used twice, so a
    pointer to a freed block stays invalid. *)

From S2P Require Import Prelude.

(** ** Pointers, values, blocks *)

Definition path := list (string + Z).

Inductive ptr := Null | At (l : nat) (q : path).

Inductive val :=
| VInt (z : Z)
| VPtr (p : ptr)
| VMutex (locked : bool)
| VCond
| VThread (t : nat).

#[export] Instance ptr_eq_dec : EqDecision ptr.
Proof. solve_decision. Defined.

#[export] Instance val_eq_dec : EqDecision val.
Proof. solve_decision. Defined.

(** The bound is the number of elements the block was allocated for. *)
Record block := Block { bound : Z; cells : gmap path val }.

Definition set_cell (q : path) (v : val) (b : block) : block :=
  Block (bound b) (<[q := v]> (cells b)).

Definition del_cell (q : path) (b : block) : block :=
  Block (bound b) (delete q (cells b)).

(** An array element is accessible below the bound. *)
Definition in_bounds (b : block) (q : path) : bool :=
  match q with
  | inr i :: _ => (0 <=? i) && (i <? bound b)
  | _ => true
  end.

(** How a thread that is joined ends: by itself, by acting on a cancellation
    (its cleanup handler then runs), or never. *)
Inductive ending := Returns | Cancelled | Never.

Record mem := Mem {
  heap : gmap nat block;
  next : nat;                 (* the number of the next block *)
  mallocs : list bool;        (* answers of malloc *)
  minits : list bool;         (* answers of pthread_mutex_init *)
  creates : list bool;        (* answers of pthread_create *)
  endings : list ending;      (* of the threads joined *)
  errno : Z;
  live : gmap nat (ptr * bool);   (* the threads not yet joined: argument, cancelled *)
}.

Definition set_heap (h : gmap nat block) (m : mem) : mem :=
  Mem h (next m) (mallocs m) (minits m) (creates m) (endings m) (errno m) (live m).

(** ** Computations *)

Inductive out (A : Type) := Done (a : A) (m : mem) | Undefined | Hangs.
Arguments Done {_} _ _.
Arguments Undefined {_}.
Arguments Hangs {_}.

Definition C (A : Type) : Type := mem -> out A.

#[export] Instance C_ret : MRet C := fun A a m => Done a m.
#[export] Instance C_bind : MBind C := fun A B k f m =>
  match f m with
  | Done a m' => k a m'
  | Undefined => Undefined
  | Hangs => Hangs
  end.

Definition undefined {A} : C A := fun _ => Undefined.
Definition hangs {A} : C A := fun _ => Hangs.

Lemma C_bind_done {A B} (f : C A) (k : A -> C B) m a m' :
  f m = Done a m' -> (f ≫= k) m = k a m'.
Proof. unfold mbind, C_bind. by intros ->. Qed.

Lemma C_bind_undefined {A B} (f : C A) (k : A -> C B) m :
  f m = Undefined -> (f ≫= k) m = Undefined.
Proof. unfold mbind, C_bind. by intros ->. Qed.

(** [for (i = i0; i < i0 + k; i++)] whose body may return from the function
    with a value. *)
Fixpoint for_loop {A} (k : nat) (i : Z) (body : Z -> C (option A)) : C (option A) :=
  match k with
  | O => mret None
  | S k => r ← body i;
    match r with Some a => mret (Some a) | None => for_loop k (i + 1) body end
  end.

(** The loop [for (i = 0; i < n; i++)] without a return in it. *)
Definition for_each (n : Z) (body : Z -> C unit) : C unit :=
  _ ← for_loop (A:=unit) (Z.to_nat n) 0 (fun i => _ ← body i; mret None);
  mret tt.

(** ** Access *)

Definition field (p : ptr) (f : string) : ptr :=
  match p with At l q => At l (q ++ [inl f]) | Null => Null end.

Definition elem (p : ptr) (i : Z) : ptr :=
  match p with At l q => At l (q ++ [inr i]) | Null => Null end.

Declare Scope cmem_scope.
Delimit Scope cmem_scope with cmem.
Notation "p ~> f" := (field p f) (at level 18, left associativity) : cmem_scope.
Notation "p ~[ i ]" := (elem p i) (at level 1, left associativity) : cmem_scope.
Open Scope cmem_scope.

(** The block a pointer leads into, when the access is within it. *)
Definition block_at (m : mem) (p : ptr) : option (nat * path * block) :=
  match p with
  | Null => None
  | At l q => match heap m !! l with
    | Some b => if in_bounds b q then Some (l, q, b) else None
    | None => None
    end
  end.

Definition load (p : ptr) : C val := fun m =>
  match block_at m p with
  | Some (l, q, b) => match cells b !! q with
    | Some v => Done v m
    | None => Undefined
    end
  | None => Undefined
  end.

Definition store (p : ptr) (v : val) : C unit := fun m =>
  match block_at m p with
  | Some (l, q, b) => Done tt (set_heap (<[l := set_cell q v b]> (heap m)) m)
  | None => Undefined
  end.

(** A cell that holds a number, or a pointer. *)
Definition load_int (p : ptr) : C Z :=
  v ← load p; match v with VInt z => mret z | _ => undefined end.

Definition load_ptr (p : ptr) : C ptr :=
  v ← load p; match v with VPtr p => mret p | _ => undefined end.

(** A variable that was assigned. *)
Lemma load_var m l q p b :
  heap m !! l = Some (set_cell q (VPtr p) b) -> in_bounds b q = true ->
  load_ptr (At l q) m = Done p m.
Proof.
  intros H Hb. unfold load_ptr, load, block_at, mbind, C_bind. rewrite H.
  replace (in_bounds (set_cell q (VPtr p) b) q) with true by (by destruct q).
  cbn [cells set_cell]. by rewrite lookup_insert_eq.
Qed.

(** ** malloc and free *)

Definition malloc (n : Z) : C ptr := fun m =>
  let m' := fun h nx =>
    Mem h nx (tail (mallocs m)) (minits m) (creates m) (endings m) (errno m) (live m) in
  if default true (head (mallocs m))
  then Done (At (next m) []) (m' (<[next m := Block n ∅]> (heap m)) (S (next m)))
  else Done Null (m' (heap m) (next m)).

(** Only what malloc returned may be freed, and once; the first element of
    an array has the address of the array. *)
Definition free (p : ptr) : C unit := fun m =>
  match p with
  | Null => Done tt m
  | At l [] | At l [inr 0] => match heap m !! l with
    | Some _ => Done tt (set_heap (delete l (heap m)) m)
    | None => Undefined
    end
  | At _ _ => Undefined
  end.

Definition is_null (p : ptr) : bool := match p with Null => true | At _ _ => false end.

(** ** Mutexes and condition variables *)

(** 0, or an error number, which pthread functions return without setting
    errno; a mutex that is not initialised is not written. *)
Definition pthread_mutex_init (p : ptr) : C Z := fun m =>
  let m' := Mem (heap m) (next m) (mallocs m) (tail (minits m)) (creates m)
                (endings m) (errno m) (live m) in
  if default true (head (minits m)) then (_ ← store p (VMutex false); mret 0) m'
  else Done EAGAIN m'.

Definition pthread_cond_init (p : ptr) : C unit := store p VCond.

Definition remove_cell (p : ptr) : C unit := fun m =>
  match block_at m p with
  | Some (l, q, b) => Done tt (set_heap (<[l := del_cell q b]> (heap m)) m)
  | None => Undefined
  end.

(** A mutex is destroyed initialised and unlocked. *)
Definition pthread_mutex_destroy (p : ptr) : C unit :=
  v ← load p;
  match v with VMutex false => remove_cell p | _ => undefined end.

Definition pthread_cond_destroy (p : ptr) : C unit :=
  v ← load p;
  match v with VCond => remove_cell p | _ => undefined end.

(** A lock that is taken when the mutex is free; nobody else is there to
    release it when it is not. *)
Definition pthread_mutex_lock (p : ptr) : C unit :=
  v ← load p;
  match v with
  | VMutex false => store p (VMutex true)
  | VMutex true => hangs
  | _ => undefined
  end.

Definition pthread_mutex_timedlock (p : ptr) : C Z :=
  v ← load p;
  match v with
  | VMutex false => _ ← store p (VMutex true); mret 0
  | VMutex true => mret ETIMEDOUT
  | _ => undefined
  end.

Definition pthread_mutex_unlock (p : ptr) : C unit :=
  v ← load p;
  match v with VMutex true => store p (VMutex false) | _ => undefined end.

(** A broadcast when nobody waits. *)
Definition pthread_cond_broadcast (p : ptr) : C unit :=
  v ← load p; match v with VCond => mret tt | _ => undefined end.

(** ** Threads *)

(** The handle is written when the thread is created.  Threads are numbered
    with the blocks, so no two have the same number. *)
Definition pthread_create (p arg : ptr) : C Z := fun m =>
  let ans := default true (head (creates m)) in
  let t := next m in
  let m' := Mem (heap m) (if ans then S t else t) (mallocs m) (minits m)
                (tail (creates m)) (endings m) (errno m)
                (if ans then <[t := (arg, false)]> (live m) else live m) in
  if ans then (_ ← store p (VThread t); mret 0) m' else Done EAGAIN m'.

Definition pthread_cancel (p : ptr) : C unit :=
  v ← load p;
  match v with
  | VThread t => fun m =>
    match live m !! t with
    | Some (arg, _) =>
      Done tt (Mem (heap m) (next m) (mallocs m) (minits m) (creates m)
                   (endings m) (errno m) (<[t := (arg, true)]> (live m)))
    | None => Undefined
    end
  | _ => undefined
  end.

(** A thread is joined once. *)
Definition end_thread (t : nat) : C (ptr * bool * ending) := fun m =>
  match live m !! t with
  | Some th =>
    Done (th, default Returns (head (endings m)))
         (Mem (heap m) (next m) (mallocs m) (minits m) (creates m)
              (tail (endings m)) (errno m) (delete t (live m)))
  | None => Undefined
  end.

(** When the thread acted on a cancellation, its cleanup handler has run on
    its argument. *)
Definition pthread_join (cleanup : ptr -> C unit) (p : ptr) : C unit :=
  v ← load p;
  match v with
  | VThread t =>
    e ← end_thread t;
    match e with
    | (arg, true, Cancelled) => cleanup arg
    | (_, _, Never) => hangs
    | _ => mret tt
    end
  | _ => undefined
  end.

(** ** Reasoning about a run

    [runs U c m Q]: [c] from [m] ends in [Q], or has no defined behaviour and
    [U] holds; it does not hang.  With [U := False] it is a total-correctness
    triple; with [Q := fun _ _ => False] and [U := True] it says that [c] is
    undefined. *)

Definition runs {A} (U : Prop) (c : C A) (m : mem) (Q : A -> mem -> Prop) : Prop :=
  match c m with Done a m' => Q a m' | Undefined => U | Hangs => False end.

Lemma runs_mono {A} U (c : C A) m (Q R : A -> mem -> Prop) :
  runs U c m Q -> (forall a m', Q a m' -> R a m') -> runs U c m R.
Proof. unfold runs. destruct (c m); auto. Qed.

(** A run that is defined is a run whatever [U] is. *)
Lemma runs_total {A} U (c : C A) m (Q R : A -> mem -> Prop) :
  runs False c m Q -> (forall a m', Q a m' -> R a m') -> runs U c m R.
Proof. unfold runs. destruct (c m); auto; done. Qed.

Lemma runs_ret {A} U (a : A) m (Q : A -> mem -> Prop) : Q a m -> runs U (mret a) m Q.
Proof. done. Qed.

Lemma runs_bind {A B} U (f : C A) (k : A -> C B) m Q :
  runs U f m (fun a m' => runs U (k a) m' Q) -> runs U (f ≫= k) m Q.
Proof. unfold runs, mbind, C_bind. by destruct (f m). Qed.

Lemma runs_done {A} (c : C A) m (Q : A -> mem -> Prop) :
  runs False c m Q -> exists a m', c m = Done a m' /\ Q a m'.
Proof. unfold runs. destruct (c m) as [a m'| |]; [eauto|done..]. Qed.

Lemma runs_undefined {A} (c : C A) m :
  runs True c m (fun _ _ => False) -> c m = Undefined.
Proof. unfold runs. by destruct (c m). Qed.

Lemma runs_undef {A} (m : mem) (Q : A -> mem -> Prop) : runs True undefined m Q.
Proof. done. Qed.

(** The loops, by an invariant of the index and the memory. *)
Lemma runs_for_loop {A} U (Inv : Z -> mem -> Prop) k i body m
    (Q : option A -> mem -> Prop) :
  Inv i m ->
  (forall j m, i <= j < i + Z.of_nat k -> Inv j m ->
     runs U (body j) m (fun r m' =>
       match r with Some a => Q (Some a) m' | None => Inv (j + 1) m' end)) ->
  (forall m', Inv (i + Z.of_nat k) m' -> Q None m') ->
  runs U (for_loop k i body) m Q.
Proof.
  revert i m. induction k as [|k IH]; intros i m Hi Hb Hq; cbn [for_loop].
  { apply runs_ret, Hq. by replace (i + Z.of_nat 0) with i by lia. }
  apply runs_bind. eapply runs_mono; [apply Hb; [lia|done]|].
  intros [a|] m' H; [by apply runs_ret|].
  apply IH; [done|intros j m'' Hj; apply Hb; lia|].
  intros m''. replace (i + 1 + Z.of_nat k) with (i + Z.of_nat (S k)) by lia. apply Hq.
Qed.

Lemma runs_for_each U (Inv : Z -> mem -> Prop) n body m (Q : unit -> mem -> Prop) :
  Inv 0 m ->
  (forall j m, 0 <= j < n -> Inv j m -> runs U (body j) m (fun _ m' => Inv (j + 1) m')) ->
  (forall m', Inv (Z.max 0 n) m' -> Q tt m') ->
  runs U (for_each n body) m Q.
Proof.
  intros H0 Hb Hq. apply runs_bind.
  eapply (runs_for_loop _ Inv); [done| |].
  - intros j m' Hj H. apply runs_bind. eapply runs_mono; [apply Hb; [lia|done]|].
    intros [] m'' H'. by apply runs_ret.
  - intros m' H. apply runs_ret, Hq. by replace (Z.max 0 n) with (0 + Z.of_nat (Z.to_nat n)) by lia.
Qed.

(** ** The rules of the operations, on a memory in constructor form *)

Section rules.
Context {h : gmap nat block} {nx : nat} {ma mi cr : list bool} {en : list ending}
  {er : Z} {lv : gmap nat (ptr * bool)}.
Abbreviation here := (Mem h nx ma mi cr en er lv).
Context {l : nat} {q : path} {b : block} {U : Prop}.

Lemma runs_malloc n (Q : ptr -> mem -> Prop) :
  (default true (head ma) = true ->
   Q (At nx []) (Mem (<[nx := Block n ∅]> h) (S nx) (tail ma) mi cr en er lv)) ->
  (default true (head ma) = false -> Q Null (Mem h nx (tail ma) mi cr en er lv)) ->
  runs U (malloc n) here Q.
Proof. unfold runs, malloc. simpl. destruct (default true (head ma)); auto. Qed.

Lemma runs_free (Q : unit -> mem -> Prop) :
  h !! l = Some b -> Q tt (Mem (delete l h) nx ma mi cr en er lv) ->
  runs U (free (At l [])) here Q.
Proof. intros H HQ. unfold runs, free. simpl. by rewrite H. Qed.

(** A block that is gone cannot be freed, read or written; nor can a cell
    that was never written be read. *)
Lemma runs_free_gone (Q : unit -> mem -> Prop) :
  U -> h !! l = None -> runs U (free (At l [])) here Q.
Proof. intros HU H. unfold runs, free. cbn [heap]. by rewrite H. Qed.

Lemma runs_store_gone v (Q : unit -> mem -> Prop) :
  U -> h !! l = None -> runs U (store (At l q) v) here Q.
Proof. intros HU H. unfold runs, store, block_at. cbn [heap]. by rewrite H. Qed.

Lemma runs_load_gone (Q : val -> mem -> Prop) :
  U -> h !! l = None -> runs U (load (At l q)) here Q.
Proof. intros HU H. unfold runs, load, block_at. cbn [heap]. by rewrite H. Qed.

Lemma runs_load_absent (Q : val -> mem -> Prop) :
  U -> h !! l = Some b -> cells b !! q = None -> runs U (load (At l q)) here Q.
Proof.
  intros HU H Hc. unfold runs, load, block_at. cbn [heap]. rewrite H.
  destruct (in_bounds b q); [by rewrite Hc|done].
Qed.

Lemma runs_store v (Q : unit -> mem -> Prop) :
  h !! l = Some b -> in_bounds b q = true ->
  Q tt (Mem (<[l := set_cell q v b]> h) nx ma mi cr en er lv) ->
  runs U (store (At l q) v) here Q.
Proof.
  intros H Hb HQ. unfold runs, store, block_at. cbn [heap]. rewrite H, Hb. done.
Qed.

Lemma runs_load v (Q : val -> mem -> Prop) :
  h !! l = Some b -> in_bounds b q = true -> cells b !! q = Some v ->
  Q v here -> runs U (load (At l q)) here Q.
Proof.
  intros H Hb Hc HQ. unfold runs, load, block_at. cbn [heap]. by rewrite H, Hb, Hc.
Qed.

Lemma runs_load_int z (Q : Z -> mem -> Prop) :
  h !! l = Some b -> in_bounds b q = true -> cells b !! q = Some (VInt z) ->
  Q z here -> runs U (load_int (At l q)) here Q.
Proof. intros H Hb Hc HQ. apply runs_bind. by eapply runs_load. Qed.

Lemma runs_load_ptr p (Q : ptr -> mem -> Prop) :
  h !! l = Some b -> in_bounds b q = true -> cells b !! q = Some (VPtr p) ->
  Q p here -> runs U (load_ptr (At l q)) here Q.
Proof. intros H Hb Hc HQ. apply runs_bind. by eapply runs_load. Qed.

Lemma runs_mutex_init (Q : Z -> mem -> Prop) :
  h !! l = Some b -> in_bounds b q = true ->
  (default true (head mi) = true ->
   Q 0 (Mem (<[l := set_cell q (VMutex false) b]> h) nx ma (tail mi) cr en er lv)) ->
  (default true (head mi) = false -> Q EAGAIN (Mem h nx ma (tail mi) cr en er lv)) ->
  runs U (pthread_mutex_init (At l q)) here Q.
Proof.
  intros H Hb H0 H1. unfold runs, pthread_mutex_init. cbn [minits].
  destruct (default true (head mi)); [|by apply H1].
  unfold mbind, C_bind, store, block_at. cbn [heap]. rewrite H, Hb. by apply H0.
Qed.

Lemma runs_cond_init (Q : unit -> mem -> Prop) :
  h !! l = Some b -> in_bounds b q = true ->
  Q tt (Mem (<[l := set_cell q VCond b]> h) nx ma mi cr en er lv) ->
  runs U (pthread_cond_init (At l q)) here Q.
Proof. apply runs_store. Qed.

Lemma runs_remove_cell (Q : unit -> mem -> Prop) :
  h !! l = Some b -> in_bounds b q = true ->
  Q tt (Mem (<[l := del_cell q b]> h) nx ma mi cr en er lv) ->
  runs U (remove_cell (At l q)) here Q.
Proof. intros H Hb HQ. unfold runs, remove_cell, block_at. cbn [heap]. by rewrite H, Hb. Qed.

Lemma runs_mutex_destroy (Q : unit -> mem -> Prop) :
  h !! l = Some b -> in_bounds b q = true -> cells b !! q = Some (VMutex false) ->
  Q tt (Mem (<[l := del_cell q b]> h) nx ma mi cr en er lv) ->
  runs U (pthread_mutex_destroy (At l q)) here Q.
Proof.
  intros H Hb Hc HQ. apply runs_bind. eapply runs_load; [done..|].
  by apply runs_remove_cell.
Qed.

Lemma runs_cond_destroy (Q : unit -> mem -> Prop) :
  h !! l = Some b -> in_bounds b q = true -> cells b !! q = Some VCond ->
  Q tt (Mem (<[l := del_cell q b]> h) nx ma mi cr en er lv) ->
  runs U (pthread_cond_destroy (At l q)) here Q.
Proof.
  intros H Hb Hc HQ. apply runs_bind. eapply runs_load; [done..|].
  by apply runs_remove_cell.
Qed.

Lemma runs_mutex_lock (Q : unit -> mem -> Prop) :
  h !! l = Some b -> in_bounds b q = true -> cells b !! q = Some (VMutex false) ->
  Q tt (Mem (<[l := set_cell q (VMutex true) b]> h) nx ma mi cr en er lv) ->
  runs U (pthread_mutex_lock (At l q)) here Q.
Proof.
  intros H Hb Hc HQ. apply runs_bind. eapply runs_load; [done..|]. by apply runs_store.
Qed.

Lemma runs_mutex_timedlock (Q : Z -> mem -> Prop) :
  h !! l = Some b -> in_bounds b q = true -> cells b !! q = Some (VMutex false) ->
  Q 0 (Mem (<[l := set_cell q (VMutex true) b]> h) nx ma mi cr en er lv) ->
  runs U (pthread_mutex_timedlock (At l q)) here Q.
Proof.
  intros H Hb Hc HQ. apply runs_bind. eapply runs_load; [done..|].
  apply runs_bind. by apply runs_store.
Qed.

Lemma runs_mutex_unlock (Q : unit -> mem -> Prop) :
  h !! l = Some b -> in_bounds b q = true -> cells b !! q = Some (VMutex true) ->
  Q tt (Mem (<[l := set_cell q (VMutex false) b]> h) nx ma mi cr en er lv) ->
  runs U (pthread_mutex_unlock (At l q)) here Q.
Proof.
  intros H Hb Hc HQ. apply runs_bind. eapply runs_load; [done..|]. by apply runs_store.
Qed.

Lemma runs_cond_broadcast (Q : unit -> mem -> Prop) :
  h !! l = Some b -> in_bounds b q = true -> cells b !! q = Some VCond ->
  Q tt here -> runs U (pthread_cond_broadcast (At l q)) here Q.
Proof. intros H Hb Hc HQ. apply runs_bind. by eapply runs_load. Qed.

Lemma runs_create arg (Q : Z -> mem -> Prop) :
  h !! l = Some b -> in_bounds b q = true ->
  (default true (head cr) = true ->
   Q 0 (Mem (<[l := set_cell q (VThread nx) b]> h) (S nx) ma mi (tail cr) en er
            (<[nx := (arg, false)]> lv))) ->
  (default true (head cr) = false -> Q EAGAIN (Mem h nx ma mi (tail cr) en er lv)) ->
  runs U (pthread_create (At l q) arg) here Q.
Proof.
  intros H Hb H0 H1. unfold runs, pthread_create. cbn [creates next live].
  destruct (default true (head cr)); [|by apply H1].
  unfold mbind, C_bind, store, block_at. cbn [heap]. rewrite H, Hb. by apply H0.
Qed.

Lemma runs_cancel t arg c (Q : unit -> mem -> Prop) :
  h !! l = Some b -> in_bounds b q = true -> cells b !! q = Some (VThread t) ->
  lv !! t = Some (arg, c) ->
  Q tt (Mem h nx ma mi cr en er (<[t := (arg, true)]> lv)) ->
  runs U (pthread_cancel (At l q)) here Q.
Proof.
  intros H Hb Hc Ht HQ. apply runs_bind. eapply runs_load; [done..|].
  unfold runs. cbn [live]. by rewrite Ht.
Qed.

(** Joining a thread that ends by itself. *)
Lemma runs_join f t th (Q : unit -> mem -> Prop) :
  h !! l = Some b -> in_bounds b q = true -> cells b !! q = Some (VThread t) ->
  lv !! t = Some th -> default Returns (head en) = Returns ->
  Q tt (Mem h nx ma mi cr (tail en) er (delete t lv)) ->
  runs U (pthread_join f (At l q)) here Q.
Proof.
  intros H Hb Hc Ht He HQ. apply runs_bind. eapply runs_load; [done..|].
  apply runs_bind. unfold runs at 1, end_thread. cbn [live endings].
  rewrite Ht, He. by destruct th as [arg []].
Qed.

(** Joining a thread that acted on its cancellation. *)
Lemma runs_join_cancelled f t arg (Q : unit -> mem -> Prop) :
  h !! l = Some b -> in_bounds b q = true -> cells b !! q = Some (VThread t) ->
  lv !! t = Some (arg, true) -> default Returns (head en) = Cancelled ->
  runs U (f arg) (Mem h nx ma mi cr (tail en) er (delete t lv)) Q ->
  runs U (pthread_join f (At l q)) here Q.
Proof.
  intros H Hb Hc Ht He HQ. apply runs_bind. eapply runs_load; [done..|].
  apply runs_bind. unfold runs at 1, end_thread. cbn [live endings].
  by rewrite Ht, He.
Qed.

End rules.

Lemma runs_free_null U m (Q : unit -> mem -> Prop) : Q tt m -> runs U (free Null) m Q.
Proof. done. Qed.

(** ** Lists of answers *)

Lemma tail_drop {A} k (l : list A) : tail (drop k l) = drop (S k) l.
Proof.
  revert l. induction k as [|k IH]; intros [|x l]; [done..|]. apply IH.
Qed.

Lemma head_drop {A} k (l : list A) : head (drop k l) = l !! k.
Proof. rewrite head_lookup, lookup_drop. f_equal. lia. Qed.

(** The answer after [k] others: yes, or the list says no. *)
Lemma answer_yes k l :
  default true (head (drop k l)) = true -> Forall (eq true) (take k l) ->
  Forall (eq true) (take (S k) l).
Proof.
  rewrite head_drop. intros Hd Hall. destruct (l !! k) as [a|] eqn:Ha.
  - rewrite (take_S_r _ _ _ Ha). apply Forall_app. split; [done|].
    simpl in Hd. subst. by repeat constructor.
  - apply lookup_ge_None in Ha. by rewrite take_ge in * by lia.
Qed.

Lemma answer_no k l : default true (head (drop k l)) = false -> l !! k = Some false.
Proof. rewrite head_drop. by destruct (l !! k) as [[]|]. Qed.

(** ** Automation *)

(** Blocks are numbered below [nx]. *)
Definition scoped (h : gmap nat block) (nx : nat) : Prop :=
  forall l, (nx <= l)%nat -> h !! l = None.

(** Block numbers that differ, most often by construction. *)
Ltac apart := first [clear; lia | lia].

(** No block has this number: because of [scoped], or by hypothesis. *)
Ltac no_block :=
  repeat first [rewrite lookup_insert_ne by apart | rewrite lookup_delete_ne by apart];
  first [ eassumption
        | match goal with H : scoped ?h _ |- ?h !! _ = None => apply H; simpl; lia end
        | apply lookup_delete_eq ].

(** Two heaps that differ by updates of blocks freed since. *)
Ltac heap_eq :=
  repeat first [rewrite insert_insert_eq | rewrite delete_insert_eq
               | rewrite delete_insert_ne by apart];
  rewrite ?delete_id by no_block; first [reflexivity | idtac].

(** The block at a number, under the updates of a run. *)
Ltac find_block :=
  repeat first [rewrite lookup_insert_eq | rewrite lookup_insert_ne by apart
               | rewrite lookup_delete_ne by apart];
  first [eassumption | reflexivity].

(** A cell that a hypothesis knows, under updates of others. *)
Ltac find_cell :=
  cbn [cells set_cell del_cell];
  repeat first [rewrite lookup_insert_ne by discriminate | rewrite lookup_delete_ne by discriminate];
  first [eassumption | apply lookup_insert_eq].

(** The side conditions of a rule. *)
Ltac mem_side := first [ find_block | reflexivity | eassumption | find_cell ].

(** Simplify the memory and the program after a step. *)
Ltac mem_simpl :=
  cbn [set_heap field elem app is_null negb tail EAGAIN Z.eqb Pos.eqb]; rewrite ?insert_insert_eq.

(** One operation of a straight-line program; the answers of the system split
    the goal. *)
Ltac mem_step :=
  mem_simpl;
  lazymatch goal with
  | |- runs _ (_ ≫= _) _ _ => apply runs_bind
  | |- runs _ (mret _) _ _ => apply runs_ret
  | |- runs _ (malloc _) _ _ => apply runs_malloc; intros ?
  | |- runs _ (free Null) _ _ => apply runs_free_null
  | |- runs _ (free _) _ _ => eapply runs_free; [mem_side|]
  | |- runs _ (store _ _) _ _ => eapply runs_store; [mem_side|mem_side|]
  | |- runs _ (load_int _) _ _ => eapply runs_load_int; [mem_side..|]
  | |- runs _ (load_ptr _) _ _ => eapply runs_load_ptr; [mem_side..|]
  | |- runs _ (pthread_mutex_init _) _ _ =>
    eapply runs_mutex_init; [mem_side|mem_side|intros ?|intros ?]
  | |- runs _ (pthread_cond_init _) _ _ => eapply runs_cond_init; [mem_side|mem_side|]
  | |- runs _ (pthread_mutex_destroy _) _ _ => eapply runs_mutex_destroy; [mem_side..|]
  | |- runs _ (pthread_cond_destroy _) _ _ => eapply runs_cond_destroy; [mem_side..|]
  | |- runs _ (pthread_mutex_lock _) _ _ => eapply runs_mutex_lock; [mem_side..|]
  | |- runs _ (pthread_mutex_timedlock _) _ _ => eapply runs_mutex_timedlock; [mem_side..|]
  | |- runs _ (pthread_mutex_unlock _) _ _ => eapply runs_mutex_unlock; [mem_side..|]
  | |- runs _ (pthread_cond_broadcast _) _ _ => eapply runs_cond_broadcast; [mem_side..|]
  | |- runs _ (pthread_create _ _) _ _ =>
    eapply runs_create; [mem_side|mem_side|intros ?|intros ?]
  end.
