(* ===== verification/AppLoop.v ===== *)
(** * AppLoop: the path of a sample through bme680_app.c

    The timer's task read_sensor writes the samples of the chip to the
    monitor; event_loop takes them out, passes them through the assembly line
    and hands them to the thread pool.  The two run as interleaving steps over
    three objects behind the interface of SharedObject: a queue of samples
    (SampleQueue), a semaphore and an event pair (SyncObjects).  A call of one
    of them is entered, goes on in steps of the object, and is answered.  The
    rest of the state is the line's cell, which the stages change, and the
    tasks handed to the pool.  test_assembly_line is a further client of the
    line.

    The theorems: without the tests of main, what is handed to the pool is what
    the sensor delivered and the monitor accepted, in order, each once, up to
    the temperature that the stages change; once main has cleared running the
    event loop ends, whatever the others do; the
    address in every task but the last one is that of a variable which is gone,
    and process_data has no defined behaviour on any of them; a test that runs
    beside the event loop makes it hand over the test's sample. *)

From S2P Require Import Prelude Bme680Data CInt CMem CondMonitor Monitor FifoSemaphore EventPair SharedObject SampleQueue SyncObjects.

(** ** The two tasks *)

(** [TIn]: in bme680_monitor_write; [TInWait], [TInSignal1], [TInPost]: in the
    call of that name. *)
Inductive timer_pc :=
| TRead | TWait (data : bme680_fifo_data) | TInWait (data : bme680_fifo_data)
| TCall (data : bme680_fifo_data) | TIn (data : bme680_fifo_data)
| TSignal1 | TInSignal1 | TPost | TInPost.

(** [LIn]: in bme680_monitor_read. *)
Inductive loop_pc :=
| LTest | LCall | LIn | LWait1 | LInWait1 | LProcess | LGet | LEnqueue | LSignal2 | LInSignal2 | LSleep | LDone.

Record bme680_app (Q S V : Type) := App {
  running : bool;
  queue : Q;                                 (* app->monitor *)
  sem : S; ep : V;                           (* app->sem, app->ep *)
  line : option bme680_fifo_data;            (* al->data; [None]: not written yet *)
  turn : nat;                                (* the turns of event_loop so far *)
  local : option bme680_fifo_data;           (* the variable data of this turn *)
  tasks : list nat;                          (* the arguments of the tasks: &data of which turn *)
  timer : timer_pc; loop : loop_pc;
  stored : list bme680_fifo_data;            (* writes to the monitor that returned 0 *)
  taken : list bme680_fifo_data;             (* samples read from it *)
  results : list (option bme680_fifo_data);  (* what assembly_line_get_result returned *)
  handed : list (option bme680_fifo_data);   (* the variable when its address was enqueued *)
}.
Arguments App {_ _ _} _ _ _ _ _ _ _ _ _ _ _ _ _ _.
Arguments running {_ _ _} _. Arguments queue {_ _ _} _. Arguments sem {_ _ _} _. Arguments ep {_ _ _} _.
Arguments line {_ _ _} _. Arguments turn {_ _ _} _. Arguments local {_ _ _} _. Arguments tasks {_ _ _} _.
Arguments timer {_ _ _} _. Arguments loop {_ _ _} _. Arguments stored {_ _ _} _. Arguments taken {_ _ _} _.
Arguments results {_ _ _} _. Arguments handed {_ _ _} _.

(** The stages write the temperature only. *)
Definition with_temp (v : Z) (d : bme680_fifo_data) : bme680_fifo_data :=
  {| temp := v; pressure := pressure d; humidity := humidity d; gas_res := gas_res d |}.

Section steps.
Context {Q E S ES V EV : Type}.
Context {KQ : SharedObject Q E q_req q_answer} {KS : SharedObject S ES sem_req Z} {KV : SharedObject V EV ep_req Z}.
Implicit Types (s : bme680_app Q S V).

(** read_sensor, again at every period.  [x] is the result of the call of the
    step, [d] what bme680_read_sensor delivers. *)
Definition read_sensor_step (x : Z) (d : bme680_fifo_data) s : option (bme680_app Q S V) :=
  let '(App run q sm e al k v ts t l st tk rs hd) := s in
  match t with
  | TRead => Some (App run q sm e al k v ts (if x =? 0 then TWait d else TRead) l st tk rs hd)
  | TWait data => sm ← ob_call sm 0 SemWaitReq x; Some (App run q sm e al k v ts (TInWait data) l st tk rs hd)
  | TCall data => q ← ob_call q 0 (PutReq data) x; Some (App run q sm e al k v ts (TIn data) l st tk rs hd)
  | TSignal1 => e ← ob_call e 0 (EpSignalReq Ev1) x; Some (App run q sm e al k v ts TInSignal1 l st tk rs hd)
  | TPost => sm ← ob_call sm 0 SemPostReq x; Some (App run q sm e al k v ts TInPost l st tk rs hd)
  | TInWait _ | TIn _ | TInSignal1 | TInPost => None
  end.

Definition event_loop_step (x : Z) s : option (bme680_app Q S V) :=
  let '(App run q sm e al k v ts t l st tk rs hd) := s in
  match l with
  | LTest =>
      if run then Some (App run q sm e al (Datatypes.S k) None ts t LCall st tk rs hd)
      else Some (App run q sm e al k v ts t LDone st tk rs hd)
  | LCall => q ← ob_call q 1 GetReq x; Some (App run q sm e al k v ts t LIn st tk rs hd)
  | LWait1 => e ← ob_call e 1 (EpWaitReq Ev1) x; Some (App run q sm e al k v ts t LInWait1 st tk rs hd)
  | LProcess => Some (App run q sm e v k v ts t LGet st tk rs hd)
  | LGet => Some (App run q sm e al k al ts t LEnqueue st tk (rs ++ [al]) hd)
  | LEnqueue =>
      Some (if x =? 0 then App run q sm e al k v (ts ++ [k]) t LSignal2 st tk rs (hd ++ [v])
            else App run q sm e al k v ts t LSignal2 st tk rs hd)
  | LSignal2 => e ← ob_call e 1 (EpSignalReq Ev2) x; Some (App run q sm e al k v ts t LInSignal2 st tk rs hd)
  | LSleep => Some (App run q sm e al k v ts t LTest st tk rs hd)
  | LIn | LInWait1 | LInSignal2 | LDone => None
  end.

(** A call of the monitor, of the semaphore, of the event pair returns. *)
Definition queue_answered (a : nat * q_answer) s : bme680_app Q S V :=
  let '(App run q sm e al k v ts t l st tk rs hd) := s in
  let '(i, (r, o)) := a in
  match i, t, l with
  | 0%nat, TIn data, _ =>
      if r =? 0 then App run q sm e al k v ts TSignal1 l (st ++ [data]) tk rs hd
      else App run q sm e al k v ts TPost l st tk rs hd
  | 1%nat, _, LIn =>
      if r =? 0 then
        App run q sm e al k o ts t LWait1 st (tk ++ match o with Some d => [d] | None => [] end) rs hd
      else App run q sm e al k v ts t LSleep st tk rs hd
  | _, _, _ => s
  end.

Definition sem_answered (a : nat * Z) s : bme680_app Q S V :=
  let '(App run q sm e al k v ts t l st tk rs hd) := s in
  match a.1, t with
  | 0%nat, TInWait data => App run q sm e al k v ts (if a.2 =? 0 then TCall data else TRead) l st tk rs hd
  | 0%nat, TInPost => App run q sm e al k v ts TRead l st tk rs hd
  | _, _ => s
  end.

Definition ep_answered (a : nat * Z) s : bme680_app Q S V :=
  let '(App run q sm e al k v ts t l st tk rs hd) := s in
  match a.1, t, l with
  | 0%nat, TInSignal1, _ => App run q sm e al k v ts TPost l st tk rs hd
  | 1%nat, _, LInWait1 => App run q sm e al k v ts t LProcess st tk rs hd
  | 1%nat, _, LInSignal2 => App run q sm e al k v ts t LSleep st tk rs hd
  | _, _, _ => s
  end.

Definition set_objects (q : Q) (sm : S) (e : V) s : bme680_app Q S V :=
  App (running s) q sm e (line s) (turn s) (local s) (tasks s) (timer s) (loop s)
      (stored s) (taken s) (results s) (handed s).
Definition set_line (o : option bme680_fifo_data) s : bme680_app Q S V :=
  App (running s) (queue s) (sem s) (ep s) o (turn s) (local s) (tasks s) (timer s) (loop s)
      (stored s) (taken s) (results s) (handed s).
Definition set_running (b : bool) s : bme680_app Q S V :=
  App b (queue s) (sem s) (ep s) (line s) (turn s) (local s) (tasks s) (timer s) (loop s)
      (stored s) (taken s) (results s) (handed s).
Definition set_tasks (l : list nat) s : bme680_app Q S V :=
  App (running s) (queue s) (sem s) (ep s) (line s) (turn s) (local s) l (timer s) (loop s)
      (stored s) (taken s) (results s) (handed s).

Inductive app_event :=
| SensorStep (x : Z) (d : bme680_fifo_data)
| LoopStep (x : Z)
| QueueStep (e : E) | SemStep (e : ES) | EpStep (e : EV)
| StageStore (v : Z)                 (* a stage *)
| TestProcess (d : bme680_fifo_data) (* assembly_line_process in test_assembly_line *)
| TakeTask                           (* a worker of the pool *)
| Stop.                              (* main clears app->running *)

Definition answer {An} (f : nat * An -> bme680_app Q S V -> bme680_app Q S V) (o : option (nat * An)) s :=
  match o with Some a => f a s | None => s end.

Definition exec_app s (e : app_event) : option (bme680_app Q S V) :=
  match e with
  | SensorStep x d => read_sensor_step x d s
  | LoopStep x => event_loop_step x s
  | QueueStep e =>
      '(q, o) ← ob_step (queue s) e; Some (answer queue_answered o (set_objects q (sem s) (ep s) s))
  | SemStep e =>
      '(sm, o) ← ob_step (sem s) e; Some (answer sem_answered o (set_objects (queue s) sm (ep s) s))
  | EpStep e =>
      '(v, o) ← ob_step (ep s) e; Some (answer ep_answered o (set_objects (queue s) (sem s) v s))
  | StageStore v => Some (set_line (with_temp v <$> line s) s)
  | TestProcess d => Some (set_line (Some d) s)
  | TakeTask => match tasks s with [] => None | _ :: l => Some (set_tasks l s) end
  | Stop => Some (set_running false s)
  end.

Fixpoint run_app s (es : list app_event) : option (bme680_app Q S V) :=
  match es with
  | [] => Some s
  | e :: es => s ← exec_app s e; run_app s es
  end.

(** What bme680_read_sensor delivers in a step; the sample that read_sensor is
    working on; and the sample that it gives up in a step, because
    fifo_semaphore_wait or bme680_monitor_write did not return 0. *)
Definition delivers s (e : app_event) : list bme680_fifo_data :=
  match e, timer s with SensorStep x d, TRead => if x =? 0 then [d] else [] | _, _ => [] end.
Definition in_flight (t : timer_pc) : list bme680_fifo_data :=
  match t with TWait d | TInWait d | TCall d | TIn d => [d] | _ => [] end.
Definition gives_up (t t' : timer_pc) : list bme680_fifo_data :=
  match t, t' with TInWait d, TRead | TIn d, TPost => [d] | _, _ => [] end.

(** All of them, in a run. *)
Fixpoint delivered s (es : list app_event) : list bme680_fifo_data :=
  match es with
  | [] => []
  | e :: es => delivers s e ++ match exec_app s e with Some s' => delivered s' es | None => [] end
  end.
Fixpoint given_up s (es : list app_event) : list bme680_fifo_data :=
  match es with
  | [] => []
  | e :: es => match exec_app s e with Some s' => gives_up (timer s) (timer s') ++ given_up s' es | None => [] end
  end.

(** The samples that test_assembly_line passes through the line, one in each
    iteration. *)
Definition test_data (i : Z) (invalid : bool) : bme680_fifo_data :=
  {| temp := if invalid then -100 else 25 + i; pressure := 101325 + i; humidity := 50 + i;
     gas_res := 100000 + i |}.
Definition test_assembly_line (iterations : nat) (invalid : bool) : list app_event :=
  map (fun i => TestProcess (test_data (Z.of_nat i) invalid)) (seq 0 iterations).

(** The threads are created; [q], [sm] and [e] are as init leaves them. *)
Definition app_start (q : Q) (sm : S) (e : V) : bme680_app Q S V :=
  App true q sm e None 0 None [] TRead LTest [] [] [] [].

(** The variable of turn [k], while its block is being executed. *)
Definition variable (k : nat) s : option (option bme680_fifo_data) :=
  if (k =? turn s)%nat then match loop s with LTest | LDone => None | _ => Some (local s) end else None.
End steps.

(** ** process_data *)

(** The fields are formatted, the message is published, and the argument is
    freed. *)
Definition process_data (data : ptr) : C unit :=
  _ ← load (data ~> "temp");
  _ ← load (data ~> "pressure");
  _ ← load (data ~> "humidity");
  _ ← load (data ~> "gas_resistance");
  free data.

(** On the address of a local variable it has no defined behaviour: the
    variable's block may be gone, the variable may be unwritten, and if it is
    there it cannot be freed. *)
Theorem process_data_undefined frame m :
  process_data (At frame [inl "data"]) m = Undefined.
Proof.
  apply runs_undefined. unfold process_data.
  assert (forall q, runs True (load (At frame q)) m (fun _ m' => m' = m)) as Hl.
  { intros q. unfold runs, load. destruct (block_at m (At frame q)) as [[[l' q'] b]|]; [|done].
    by destruct (cells b !! q'). }
  do 4 (apply runs_bind; cbn [field app]; eapply runs_mono; [apply Hl|]; intros _ ? ->).
  done.
Qed.

(** * Theorems *)

(** Which test samples the monitor would accept; the line, which checks
    nothing, takes them all. *)
Lemma test_data_valid i invalid :
  0 <= i -> valid_sample (test_data i invalid) = true <-> invalid = false /\ i <= 50.
Proof. intros Hi. unfold valid_sample. destruct invalid; cbn; split; [lia|by intros [? _]|lia..]. Qed.

Section theorems.
Context {Q E S ES V EV : Type}.
Context {KQ : SharedObject Q E q_req q_answer} {KS : SharedObject S ES sem_req Z} {KV : SharedObject V EV ep_req Z}.
Implicit Types (s : bme680_app Q S V).

Abbreviation queue_spec := (abs_object (list bme680_fifo_data) q_req q_answer).
Abbreviation sem_spec := (abs_object Z sem_req Z).
Abbreviation ep_spec := (abs_object Z ep_req Z).

(** ** The path of a sample *)

(** The request that a task is in, of each object. *)
Definition timer_q (t : timer_pc) : option q_req := match t with TIn d => Some (PutReq d) | _ => None end.
Definition timer_s (t : timer_pc) : option sem_req :=
  match t with TInWait _ => Some SemWaitReq | TInPost => Some SemPostReq | _ => None end.
Definition timer_v (t : timer_pc) : option ep_req :=
  match t with TInSignal1 => Some (EpSignalReq Ev1) | _ => None end.
Definition loop_q (l : loop_pc) : option q_req := match l with LIn => Some GetReq | _ => None end.
Definition loop_v (l : loop_pc) : option ep_req :=
  match l with LInWait1 => Some (EpWaitReq Ev1) | LInSignal2 => Some (EpSignalReq Ev2) | _ => None end.

Definition in_phase {Rq An} (o : option Rq) (ph : phase Rq An) : Prop :=
  match o with Some rq => ph = QAsked rq \/ exists an, ph = QDecided rq an | None => ph = QIdle end.

(** A decided call whose result is 0: its sample is in the queue before the
    writer knows, and out of it before the reader does. *)
Definition deciding (ph : phase q_req q_answer) : list bme680_fifo_data :=
  match ph with
  | QDecided (PutReq d) (r, _) => if r =? 0 then [d] else []
  | QDecided GetReq (r, Some d) => if r =? 0 then [d] else []
  | _ => []
  end.

(** The stages change the temperature at most. *)
Definition processed (o : option bme680_fifo_data) (d : bme680_fifo_data) : Prop :=
  exists v, o = Some (with_temp v d).

(** The samples of the turns before this one are [l]; where that of this turn
    is. *)
Definition turn_at s (l : list bme680_fifo_data) : Prop :=
  match loop s with
  | LWait1 | LInWait1 | LProcess => exists d, local s = Some d /\ taken s = l ++ [d]
  | LGet => exists d, processed (line s) d /\ taken s = l ++ [d]
  | _ => taken s = l
  end.

Definition before_enqueue s : list (option bme680_fifo_data) :=
  match loop s with LEnqueue => [local s] | _ => [] end.

(** The unit of the semaphore that read_sensor has. *)
Definition inside_sem (t : timer_pc) (ph : phase sem_req Z) : Z :=
  match t with
  | TRead | TWait _ => 0
  | TInWait _ => match ph with QDecided _ r => Z.b2z (r =? 0) | _ => 0 end
  | TCall _ | TIn _ | TSignal1 | TInSignal1 | TPost => 1
  | TInPost => match ph with QDecided _ _ => 0 | _ => 1 end
  end.

Record pipeline (size : Z) s (aq : queue_spec) (am : sem_spec) (av : ep_spec) : Prop := {
  pl_tq : in_phase (timer_q (timer s)) (phases aq 0);
  pl_lq : in_phase (loop_q (loop s)) (phases aq 1);
  pl_ts : in_phase (timer_s (timer s)) (phases am 0);
  pl_tv : in_phase (timer_v (timer s)) (phases av 0);
  pl_lv : in_phase (loop_v (loop s)) (phases av 1);
  pl_oq i : (2 <= i)%nat -> phases aq i = QIdle;
  pl_os i : (1 <= i)%nat -> phases am i = QIdle;
  pl_ov i : (2 <= i)%nat -> phases av i = QIdle;
  pl_got r o : phases aq 1 = QDecided GetReq (r, o) -> r = 0 -> is_Some o;
  pl_room : Z.of_nat (length (contents aq)) <= size;
  pl_flow : stored s ++ deciding (phases aq 0) = taken s ++ deciding (phases aq 1) ++ contents aq;
  pl_valid : Forall (fun d => valid_sample d = true) (stored s ++ deciding (phases aq 0));
  pl_results : exists l, turn_at s l /\ Forall2 processed (results s) l;
  pl_handed : handed s ++ before_enqueue s `sublist_of` results s;
  pl_sem : 0 <= contents am /\ contents am + inside_sem (timer s) (phases am 0) = 1;
}.

(** Everything that a step does not touch. *)
Ltac keep := constructor; cbn [running queue sem ep line turn local tasks timer loop stored taken results
  handed contents phases set_objects set_line set_running set_tasks inside_sem timer_q timer_s timer_v loop_q
  loop_v in_phase]; rewrite ?set_phase_eq, ?set_phase_ne by lia; auto;
  try (intros ? ?; rewrite set_phase_ne by lia; auto).

(** The objects' own parts of the state do not matter. *)
Lemma pipeline_objects size s q sm e aq am av :
  pipeline size s aq am av -> pipeline size (set_objects q sm e s) aq am av.
Proof. intros []. by constructor. Qed.

Section objects.
Context {absQ : Q -> queue_spec -> Prop} {absS : S -> sem_spec -> Prop} {absV : V -> ep_spec -> Prop} {size : Z}.
Context {clients : nat}.
Context {OkQ : SharedObjectOk KQ (q_decides size) clients absQ}.
Context {OkS : SharedObjectOk KS sem_decides clients absS}.
Context {OkV : SharedObjectOk KV ep_decides clients absV}.

Definition app_inv s : Prop :=
  exists aq am av, absQ (queue s) aq /\ absS (sem s) am /\ absV (ep s) av /\ pipeline size s aq am av.

Lemma sensor_inv x d s s' : app_inv s -> read_sensor_step x d s = Some s' -> app_inv s'.
Proof.
  destruct s as [run q sm e al k v ts t l st tk rs hd]. intros (aq & am & av & Hq & Hm & Hv & H) HE.
  unfold read_sensor_step in HE. destruct t as [|data|data|data|data| | | |]; try done; destruct H; cbn in *.
  - simplify_eq. exists aq, am, av. split_and!; [done..|]. destruct (x =? 0); keep.
  - apply bind_Some in HE as (sm' & Es & HE). simplify_eq.
    destruct (ob_call_ok _ _ _ _ _ _ Hm Es) as [Hi Ha]. eexists aq, _, av. split_and!; [done..|]. keep.
  - apply bind_Some in HE as (q' & Eq & HE). simplify_eq.
    destruct (ob_call_ok _ _ _ _ _ _ Hq Eq) as [Hi Ha]. eexists _, am, av. split_and!; [done..|].
    rewrite Hi in *. keep.
  - apply bind_Some in HE as (e' & Ee & HE). simplify_eq.
    destruct (ob_call_ok _ _ _ _ _ _ Hv Ee) as [Hi Ha]. eexists aq, am, _. split_and!; [done..|]. keep.
  - apply bind_Some in HE as (sm' & Es & HE). simplify_eq.
    destruct (ob_call_ok _ _ _ _ _ _ Hm Es) as [Hi Ha]. eexists aq, _, av. split_and!; [done..|]. keep.
Qed.

Lemma loop_inv x s s' : app_inv s -> event_loop_step x s = Some s' -> app_inv s'.
Proof.
  destruct s as [run q sm e al k v ts t l st tk rs hd]. intros (aq & am & av & Hq & Hm & Hv & H) HE.
  unfold event_loop_step in HE. destruct l; try done; destruct H; cbn in *.
  - exists aq, am, av. destruct run; simplify_eq; split_and!; try done; keep.
  - apply bind_Some in HE as (q' & Eq & HE). simplify_eq.
    destruct (ob_call_ok _ _ _ _ _ _ Hq Eq) as [Hi Ha]. eexists _, am, av. split_and!; [done..|].
    rewrite Hi in *. keep. done.
  - apply bind_Some in HE as (e' & Ee & HE). simplify_eq.
    destruct (ob_call_ok _ _ _ _ _ _ Hv Ee) as [Hi Ha]. eexists aq, am, _. split_and!; [done..|]. keep.
  - simplify_eq. exists aq, am, av. split_and!; [done..|]. destruct pl_results0 as (l & (d & -> & ->) & Hr). keep.
    exists l. split; [|done]. exists d. split; [|done]. exists (temp d). by destruct d.
  - simplify_eq. exists aq, am, av. split_and!; [done..|]. destruct pl_results0 as (l & (d & Hd & ->) & Hr). keep.
    + exists (l ++ [d]). split; [done|]. apply Forall2_app; [done|]. by constructor.
    + rewrite app_nil_r in pl_handed0. by apply sublist_app.
  - exists aq, am, av. destruct (x =? 0); simplify_eq; split_and!; try done; keep; cbn; rewrite app_nil_r; [done|].
    etrans; [|done]. by apply sublist_inserts_r.
  - apply bind_Some in HE as (e' & Ee & HE). simplify_eq.
    destruct (ob_call_ok _ _ _ _ _ _ Hv Ee) as [Hi Ha]. eexists aq, am, _. split_and!; [done..|]. keep.
  - simplify_eq. exists aq, am, av. split_and!; [done..|]. keep.
Qed.

(** A call of an object is decided, and returns. *)
Lemma in_phase_decided {Rq An} (o : option Rq) (rq : Rq) (an : An) :
  in_phase (An:=An) o (QAsked rq) -> in_phase o (QDecided rq an).
Proof. destruct o; simpl; [|done]. intros [[= ->]|[? ?]]; [|done]. eauto. Qed.

Lemma decides_room rq c x an :
  q_decides size rq c x an -> Z.of_nat (length c) <= size -> Z.of_nat (length x) <= size.
Proof. intros []; rewrite ?length_app; simpl; lia. Qed.

Lemma decides_put d c x an :
  q_decides size (PutReq d) c x an -> x = c ++ deciding (QDecided (PutReq d) an) /\
    Forall (fun d => valid_sample d = true) (deciding (QDecided (PutReq d) an)).
Proof.
  inversion 1 as [? ? Hv| |? ? ? Hr]; subst; simpl; [by repeat constructor|].
  rewrite (proj2 (Z.eqb_neq r 0)) by done. by rewrite app_nil_r.
Qed.

Lemma decides_get c x an :
  q_decides size GetReq c x an -> c = deciding (QDecided GetReq an) ++ x /\
    forall r o, an = (r, o) -> r = 0 -> is_Some o.
Proof. inversion 1; subst; (split; [done|]); intros ? ? [= <- <-]; [by eexists|done]. Qed.

Lemma queue_decided s aq am av aq1 :
  pipeline size s aq am av -> decide_step (q_decides size) aq aq1 -> pipeline size s aq1 am av.
Proof.
  intros H Hd. destruct Hd as [|i rq x an Hi Hd]; [done|].
  destruct i as [|[|i]]; [| |destruct H; by rewrite pl_oq0 in Hi by lia]; destruct H; rewrite Hi in *; keep;
    rewrite ?Hi; eauto using in_phase_decided, decides_room.
  - destruct (timer_q (timer s)) as [rq'|] eqn:Et; [|done]. destruct pl_tq0 as [[= <-]|[? ?]]; [|done].
    destruct (timer s); simplify_eq/=. destruct (decides_put _ _ _ _ Hd) as [-> _].
    simpl in *. rewrite app_nil_r in pl_flow0. by rewrite pl_flow0, <- !app_assoc.
  - destruct (timer_q (timer s)) as [rq'|] eqn:Et; [|done]. destruct pl_tq0 as [[= <-]|[? ?]]; [|done].
    destruct (timer s); simplify_eq/=. destruct (decides_put _ _ _ _ Hd) as [_ Hf]. rewrite app_nil_r in *.
    by apply Forall_app.
  - destruct (loop s); simplify_eq/=; destruct pl_lq0 as [[= ->]|[? ?]]; try done.
    destruct (decides_get _ _ _ Hd) as [_ Hg]. intros r o [= ->]. by apply (Hg r o).
  - destruct (loop s); simplify_eq/=; destruct pl_lq0 as [[= ->]|[? ?]]; try done.
    destruct (decides_get _ _ _ Hd) as [Hc _]. by rewrite Hc in pl_flow0.
Qed.

Lemma queue_returned s aq am av aq1 o :
  pipeline size s aq am av -> answer_step aq aq1 o -> pipeline size (answer queue_answered o s) aq1 am av.
Proof.
  intros H Ha. destruct Ha as [|i rq [r v] Hi]; [done|]. cbn [answer].
  destruct s as [run q sm e al k lv ts t l st tk rs hd].
  destruct i as [|[|i]]; [| |destruct H; by rewrite pl_oq0 in Hi by lia]; destruct H; cbn in *.
  - destruct t; try congruence. destruct pl_tq0 as [Hp|[an Hp]]; rewrite Hi in Hp; simplify_eq.
    rewrite Hi in *. simpl in *. destruct (r =? 0); keep; simpl; by rewrite ?app_nil_r in *.
  - destruct l; try congruence. destruct pl_lq0 as [Hp|[an Hp]]; rewrite Hi in Hp; simplify_eq.
    specialize (pl_got0 r v Hi). rewrite Hi in *. simpl in *. destruct (Z.eqb_spec r 0) as [->|Hr].
    + destruct (pl_got0 eq_refl) as [d ->]. destruct pl_results0 as (l0 & <- & Hf). keep; simpl; try done.
      * by rewrite pl_flow0, <- app_assoc.
      * exists tk. split; [by exists d|done].
    + keep; simpl; try done. by destruct v.
Qed.

Lemma sem_decided s aq am av am1 :
  pipeline size s aq am av -> decide_step sem_decides am am1 -> pipeline size s aq am1 av.
Proof.
  intros H Hd. destruct Hd as [|i rq x an Hi Hd]; [done|].
  destruct i as [|i]; [|destruct H; by rewrite pl_os0 in Hi by lia]; destruct H; rewrite Hi in *; keep;
    rewrite ?Hi; eauto using in_phase_decided.
  destruct (timer s); simplify_eq/=; destruct pl_ts0 as [[= ->]|[? ?]]; try done; inversion Hd; subst; simpl in *; try lia.
  assert (contents am = 0) as -> by lia. done.
Qed.

Lemma sem_returned s aq am av am1 o :
  pipeline size s aq am av -> answer_step am am1 o -> pipeline size (answer sem_answered o s) aq am1 av.
Proof.
  intros H Ha. destruct Ha as [|i rq r Hi]; [done|]. cbn [answer].
  destruct s as [run q sm e al k lv ts t l st tk rs hd].
  destruct i as [|i]; [|destruct H; by rewrite pl_os0 in Hi by lia]; destruct H; cbn in *.
  destruct t; try congruence; destruct pl_ts0 as [Hp|[an Hp]]; rewrite Hi in Hp; simplify_eq; rewrite Hi in *.
  - simpl in *. destruct (an =? 0); keep; done.
  - simpl in *. keep; done.
Qed.

Lemma ep_decided s aq am av av1 :
  pipeline size s aq am av -> decide_step ep_decides av av1 -> pipeline size s aq am av1.
Proof.
  intros H Hd. destruct Hd as [|i rq x an Hi Hd]; [done|].
  destruct i as [|[|i]]; [| |destruct H; by rewrite pl_ov0 in Hi by lia]; destruct H; rewrite Hi in *; keep;
    eauto using in_phase_decided.
Qed.

Lemma ep_returned s aq am av av1 o :
  pipeline size s aq am av -> answer_step av av1 o -> pipeline size (answer ep_answered o s) aq am av1.
Proof.
  intros H Ha. destruct Ha as [|i rq r Hi]; [done|]. cbn [answer].
  destruct s as [run q sm e al k lv ts t l st tk rs hd].
  destruct i as [|[|i]]; [| |destruct H; by rewrite pl_ov0 in Hi by lia]; destruct H; cbn in *.
  - destruct t; try congruence. keep.
  - destruct l; try congruence; keep.
Qed.

(** The objects are what the steps of the objects make them. *)
Definition objects s : Q * S * V := (queue s, sem s, ep s).

Lemma answered_objects s :
  (forall o, objects (answer queue_answered o s) = objects s) /\
  (forall o, objects (answer sem_answered o s) = objects s) /\
  (forall o, objects (answer ep_answered o s) = objects s).
Proof.
  destruct s as [run q sm e al k lv ts t l st tk rs hd].
  split_and!; intros [[[|[|i]] x]|]; try done; simpl; repeat case_match; done.
Qed.

Lemma app_inv_objects s q sm v aq am av :
  objects s = (q, sm, v) -> absQ q aq -> absS sm am -> absV v av -> pipeline size s aq am av -> app_inv s.
Proof. intros [= <- <- <-] Hq Hm Hv H. by exists aq, am, av. Qed.

(** The tests of main do not run beside the event loop. *)
Definition no_test (e : app_event (E:=E) (ES:=ES) (EV:=EV)) : bool :=
  match e with TestProcess _ => false | _ => true end.

Lemma app_step_inv s e s' : app_inv s -> no_test e = true -> exec_app s e = Some s' -> app_inv s'.
Proof.
  intros H Ht He. destruct e as [x d|x|e|e|e|v|d| |]; simpl in He; try done.
  1: by eapply sensor_inv. 1: by eapply loop_inv.
  all: destruct H as (aq & am & av & Hq & Hm & Hv & H).
  1-3: (apply bind_Some in He as ([q o] & Hs & He); simplify_eq).
  - destruct (ob_step_ok _ _ _ _ _ Hq Hs) as (aq' & Hq' & a1 & Hd & Ha).
    eapply app_inv_objects; [rewrite (proj1 (answered_objects _)); reflexivity|done..|].
    eapply queue_returned; [|exact Ha]. eapply queue_decided; [|exact Hd]. by apply pipeline_objects.
  - destruct (ob_step_ok _ _ _ _ _ Hm Hs) as (am' & Hm' & a1 & Hd & Ha).
    eapply app_inv_objects; [rewrite (proj1 (proj2 (answered_objects _))); reflexivity|done..|].
    eapply sem_returned; [|exact Ha]. eapply sem_decided; [|exact Hd]. by apply pipeline_objects.
  - destruct (ob_step_ok _ _ _ _ _ Hv Hs) as (av' & Hv' & a1 & Hd & Ha).
    eapply app_inv_objects; [rewrite (proj2 (proj2 (answered_objects _))); reflexivity|done..|].
    eapply ep_returned; [|exact Ha]. eapply ep_decided; [|exact Hd]. by apply pipeline_objects.
  - simplify_eq. exists aq, am, av. split_and!; [done..|].
    destruct s as [run q sm e al k lv ts t l st tk rs hd]. destruct H; cbn in *. keep.
    destruct pl_results0 as (l0 & Hl & Hr). exists l0. split; [|done]. destruct l; try done.
    destruct Hl as (d & (w & Hw) & Hd). cbn in *. exists d. split; [|done]. exists v. by rewrite Hw.
  - destruct (tasks s); simplify_eq. exists aq, am, av. split_and!; [done..|]. destruct H. by constructor.
  - simplify_eq. exists aq, am, av. split_and!; [done..|]. destruct H. by constructor.
Qed.

Lemma run_app_inv (P : bme680_app Q S V -> Prop) (ok : app_event (E:=E) (ES:=ES) (EV:=EV) -> bool) s es s' :
  (forall s e s', P s -> ok e = true -> exec_app s e = Some s' -> P s') ->
  P s -> forallb ok es = true -> run_app s es = Some s' -> P s'.
Proof.
  intros Hstep. revert s. induction es as [|e es IH]; intros s Hs Hok Hr; simpl in *; [by simplify_eq|].
  apply andb_prop in Hok as [He Hok]. apply bind_Some in Hr as (s1 & He1 & Hr).
  eapply IH; [|done|exact Hr]. by eapply Hstep.
Qed.

(** *** From the sensor to the monitor *)

Inductive sample_step s (e : app_event (E:=E) (ES:=ES) (EV:=EV)) s' : Prop :=
| smp_none :
    stored s' = stored s -> in_flight (timer s') = in_flight (timer s) -> delivers s e = [] ->
    gives_up (timer s) (timer s') = [] -> sample_step s e s'
| smp_read :
    stored s' = stored s -> in_flight (timer s) = [] -> in_flight (timer s') = delivers s e ->
    gives_up (timer s) (timer s') = [] -> sample_step s e s'
| smp_store :
    stored s' = stored s ++ in_flight (timer s) -> in_flight (timer s') = [] -> delivers s e = [] ->
    gives_up (timer s) (timer s') = [] -> sample_step s e s'
| smp_give_up :
    stored s' = stored s -> in_flight (timer s') = [] -> delivers s e = [] ->
    gives_up (timer s) (timer s') = in_flight (timer s) -> sample_step s e s'.

Lemma exec_sample_step s e s' : exec_app s e = Some s' -> sample_step s e s'.
Proof.
  destruct s as [run q sm v al k lv ts t l st tk rs hd]. intros He.
  destruct e as [x d|x|e|e|e|w|d| |]; simpl in He.
  - destruct t; try done; try (apply bind_Some in He as (? & _ & He)); simplify_eq; try (by constructor 1).
    constructor 2; simpl; by destruct (x =? 0).
  - destruct l; try done; try (apply bind_Some in He as (? & _ & He)); simplify_eq; try (by constructor 1; destruct t).
    1: destruct run; simplify_eq; by constructor 1; destruct t.
    destruct (x =? 0); by constructor 1; destruct t.
  - apply bind_Some in He as ([q' [[[|[|i]] [r o]]|]] & _ & He); simplify_eq; simpl; try (by constructor 1; destruct t).
    + destruct t; try (by constructor 1). destruct (r =? 0); [by constructor 3|by constructor 4].
    + destruct l; try (by constructor 1; destruct t). destruct (r =? 0); by constructor 1; destruct t.
  - apply bind_Some in He as ([q' [[[|i] r]|]] & _ & He); simplify_eq; simpl; try (by constructor 1; destruct t).
    destruct t; try (by constructor 1). simpl. destruct (r =? 0) eqn:Hr; [constructor 1|constructor 4]; simpl; by rewrite ?Hr.
  - apply bind_Some in He as ([q' [[[|[|i]] r]|]] & _ & He); simplify_eq; simpl; try (by constructor 1; destruct t).
    destruct l; by constructor 1; destruct t.
  - simplify_eq. by constructor 1; destruct t.
  - simplify_eq. by constructor 1; destruct t.
  - destruct ts; simplify_eq. by constructor 1; destruct t.
  - simplify_eq. by constructor 1; destruct t.
Qed.

(** [D]: delivered so far; [G]: given up. *)
Definition accounted s (D G : list bme680_fifo_data) : Prop :=
  stored s ++ in_flight (timer s) `sublist_of` D /\ D ≡ₚ stored s ++ G ++ in_flight (timer s).

Lemma accounted_step s e s' D G :
  exec_app s e = Some s' -> accounted s D G ->
  accounted s' (D ++ delivers s e) (G ++ gives_up (timer s) (timer s')).
Proof.
  intros He [Hs HP]. unfold accounted. destruct (exec_sample_step _ _ _ He) as [-> -> -> -> | -> E1 -> -> | -> -> -> -> | -> -> -> ->];
    rewrite ?app_nil_r; [done|rewrite ?E1, ?app_nil_r in *..|split|split].
  - split; [by apply sublist_app|]. by rewrite HP, <- app_assoc.
  - done.
  - rewrite HP, <- !app_assoc. f_equiv. apply Permutation_app_comm.
  - etrans; [|exact Hs]. by apply sublist_inserts_r.
  - done.
Qed.

Lemma accounted_run s es s' D G :
  run_app s es = Some s' -> accounted s D G -> accounted s' (D ++ delivered s es) (G ++ given_up s es).
Proof.
  revert s D G. induction es as [|e es IH]; intros s D G Hr Ha; simpl in *; [simplify_eq; by rewrite !app_nil_r|].
  destruct (exec_app s e) as [s1|] eqn:He; simpl in Hr; [|done].
  rewrite !app_assoc. apply IH; [done|]. by apply accounted_step.
Qed.

Lemma app_inv_start q sm e :
  0 <= size -> absQ q (ao_start []) -> absS sm (ao_start 1) -> absV e (ao_start 0) -> app_inv (app_start q sm e).
Proof.
  intros Hs Hq Hm Hv. exists (ao_start []), (ao_start 1), (ao_start 0). split_and!; [done..|].
  constructor; cbn; try done. by exists [].
Qed.

(** C30: the path of a sample, over any queue, semaphore and event pair that
    keep the interface of SharedObject, and any interleaving of the timer's
    task, the event loop, the steps of the objects, the stages and the pool,
    without the tests of main (which mix: [tests_mix]).  What
    bme680_monitor_write accepted is, in order and each once, part of what
    bme680_read_sensor delivered, and the rest of that is what read_sensor gave
    up, because its wait or its write failed, and the one sample it is working
    on.  What the event loop takes out is, in order and each once, what
    bme680_monitor_write accepted, which are valid samples;
    what the assembly line returns is, turn by turn, the sample of that turn,
    but for the temperature, which the stages change; and what is in the
    variable when its address is handed to the pool are results of the line,
    in order (a full memory loses some).  The semaphore is 1 whenever
    read_sensor does not have its unit. *)
Theorem app_pipeline q sm e es s :
  0 <= size -> absQ q (ao_start []) -> absS sm (ao_start 1) -> absV e (ao_start 0) ->
  forallb no_test es = true -> run_app (app_start q sm e) es = Some s ->
  stored s `sublist_of` delivered (app_start q sm e) es /\
  delivered (app_start q sm e) es ≡ₚ stored s ++ given_up (app_start q sm e) es ++ in_flight (timer s) /\
  (exists more rest, stored s ++ more = taken s ++ rest /\ (length more <= 1)%nat /\
     Z.of_nat (length rest) <= size + 1) /\
  Forall (fun d => valid_sample d = true) (taken s) /\
  (exists done rest, taken s = done ++ rest /\ (length rest <= 1)%nat /\ Forall2 processed (results s) done) /\
  handed s `sublist_of` results s /\
  (exists am, absS (sem s) am /\ 0 <= contents am /\ contents am + inside_sem (timer s) (phases am 0) = 1).
Proof.
  intros Hsz Hq Hm Hv Ht Hr.
  destruct (run_app_inv app_inv no_test _ _ _ app_step_inv (app_inv_start q sm e Hsz Hq Hm Hv) Ht Hr)
    as (aq & am & av & _ & Hm' & _ & H).
  assert (forall ph, length (deciding ph) <= 1)%nat as Hlen.
  { intros [|rq|[d|] [r [v|]]]; simpl; try case_match; simpl; lia. }
  destruct (accounted_run _ _ _ [] [] Hr) as [Hd HP]; [by split|].
  destruct H. split_and!.
  - etrans; [|exact Hd]. by apply sublist_inserts_r.
  - exact HP.
  - exists (deciding (phases aq 0)), (deciding (phases aq 1) ++ contents aq).
    split_and!; [done|apply Hlen|]. rewrite length_app. specialize (Hlen (phases aq 1)). lia.
  - rewrite pl_flow0 in pl_valid0. by apply Forall_app in pl_valid0 as [? _].
  - destruct pl_results0 as (l & Hl & Hf). exists l. unfold turn_at in Hl.
    destruct (loop s); try (exists []; rewrite app_nil_r; split_and!; done || simpl; lia).
    all: destruct Hl as (d & _ & ->); exists [d]; split_and!; done || simpl; lia.
  - etrans; [|done]. by apply sublist_inserts_r.
  - by exists am.
Qed.

(** ** The event loop ends *)

(** The longest way of the event loop to its end at a place, once running is
    cleared: its own steps, and those together with the answers it gets. *)
Definition loop_rank (l : loop_pc) : nat :=
  match l with
  | LDone => 0 | LTest => 1 | LSleep | LInSignal2 => 2 | LSignal2 => 3 | LEnqueue => 4 | LGet => 5
  | LProcess | LInWait1 => 6 | LWait1 | LIn => 7 | LCall => 8
  end.
Definition loop_rest (l : loop_pc) : nat :=
  match l with
  | LDone => 0 | LTest => 1 | LSleep => 2 | LInSignal2 => 3 | LSignal2 => 4 | LEnqueue => 5 | LGet => 6
  | LProcess => 7 | LInWait1 => 8 | LWait1 => 9 | LIn => 10 | LCall => 11
  end.

Fixpoint loop_steps (es : list (app_event (E:=E) (ES:=ES) (EV:=EV))) : nat :=
  match es with [] => 0 | LoopStep _ :: es => Datatypes.S (loop_steps es) | _ :: es => loop_steps es end.

Lemma loop_rank_step s e s' :
  running s = false -> exec_app s e = Some s' ->
  running s' = false /\ (loop_rank (loop s') + loop_steps [e] <= loop_rank (loop s))%nat.
Proof.
  destruct s as [run q sm v al k lv ts t l st tk rs hd]. simpl. intros -> He.
  destruct e as [x d|x|e|e|e|w|d| |]; simpl in He.
  - destruct t; try done; try (apply bind_Some in He as (? & _ & He)); simplify_eq; simpl; split; done || lia.
  - destruct l; try done; try (apply bind_Some in He as (? & _ & He)); simplify_eq; simpl;
      try destruct (x =? 0); simpl; split; done || lia.
  - apply bind_Some in He as ([q' [[[|[|i]] [r o]]|]] & _ & He); simplify_eq; simpl; [destruct t|destruct l|..]; simpl;
      try destruct (r =? 0); simpl; split; done || lia.
  - apply bind_Some in He as ([q' [[[|i] r]|]] & _ & He); simplify_eq; simpl; [destruct t|..]; simpl; split; done || lia.
  - apply bind_Some in He as ([q' [[[|[|i]] r]|]] & _ & He); simplify_eq; simpl; [destruct t|destruct l|..]; simpl;
      split; done || lia.
  - simplify_eq; simpl; split; done || lia.
  - simplify_eq; simpl; split; done || lia.
  - destruct ts; simplify_eq; simpl; split; done || lia.
  - simplify_eq; simpl; split; done || lia.
Qed.

Lemma loop_steps_bound s es s' :
  running s = false -> run_app s es = Some s' -> (loop_rank (loop s') + loop_steps es <= loop_rank (loop s))%nat.
Proof.
  revert s. induction es as [|e es IH]; intros s Hs Hr; simpl in Hr; [simplify_eq; simpl; lia|].
  apply bind_Some in Hr as (s1 & E1 & Hr). destruct (loop_rank_step _ _ _ Hs E1) as [Hs1 H1].
  specialize (IH s1 Hs1 Hr). destruct e; simpl in *; lia.
Qed.

(** Steps of the queue and of the event pair alone, up to the answer that the
    event loop waits for. *)
Lemma queue_run s es q1 e q2 a :
  ob_quiet (queue s) es = Some q1 -> ob_step q1 e = Some (q2, Some a) ->
  run_app s (map QueueStep es ++ [QueueStep e]) = Some (queue_answered a (set_objects q2 (sem s) (ep s) s)).
Proof.
  revert s. induction es as [|x es IH]; intros s Hq Hs; simpl in *; [simplify_eq; by rewrite Hs|].
  destruct (ob_step (queue s) x) as [[q' [?|]]|]; try done. simpl.
  by rewrite (IH (set_objects q' (sem s) (ep s) s)).
Qed.

Lemma ep_run s es v1 e v2 a :
  ob_quiet (ep s) es = Some v1 -> ob_step v1 e = Some (v2, Some a) ->
  run_app s (map EpStep es ++ [EpStep e]) = Some (ep_answered a (set_objects (queue s) (sem s) v2 s)).
Proof.
  revert s. induction es as [|x es IH]; intros s Hq Hs; simpl in *; [simplify_eq; by rewrite Hs|].
  destruct (ob_step (ep s) x) as [[q' [?|]]|]; try done. simpl.
  by rewrite (IH (set_objects (queue s) (sem s) q' s)).
Qed.

(** The event loop's own steps, and those of the monitor and the event pair. *)
Definition loop_only (e : app_event (E:=E) (ES:=ES) (EV:=EV)) : bool :=
  match e with LoopStep _ | QueueStep _ | EpStep _ => true | _ => false end.

Lemma loop_only_no_test es : forallb loop_only es = true -> forallb no_test es = true.
Proof. induction es as [|[] es IH]; simpl; done || apply IH. Qed.

(** The event loop gets nearer to its end. *)
Lemma loop_advance s :
  (2 <= clients)%nat -> app_inv s -> running s = false -> loop s <> LDone ->
  exists es s', forallb loop_only es = true /\ run_app s es = Some s' /\ (loop_rest (loop s') < loop_rest (loop s))%nat.
Proof.
  intros Hn (aq & am & av & Hq & Hm & Hv & H) Hrun Hd.
  assert (forall s', event_loop_step 0 s = Some s' -> (loop_rest (loop s') < loop_rest (loop s))%nat ->
    exists es s', forallb loop_only es = true /\ run_app s es = Some s' /\ (loop_rest (loop s') < loop_rest (loop s))%nat) as Hown.
  { intros s' Es Hlt. exists [LoopStep 0], s'. split_and!; [done| |done]. simpl. by rewrite Es. }
  destruct s as [run q sm v al k lv ts t l st tk rs hd]. cbn in Hrun. subst run. destruct H. cbn in *.
  destruct l; try done; try (eapply Hown; [reflexivity|simpl; lia]).
  - destruct (ob_enter q aq 1 GetReq 0 Hq) as [q' Eq]; [lia|done|]. rewrite Eq in Hown. eapply Hown; [reflexivity|simpl; lia].
  - destruct (ob_progress q aq 1 Hq) as (es & q1 & e & q2 & [r o] & Hes & He).
    { intros Hi. rewrite Hi in pl_lq0. by destruct pl_lq0 as [|[? ?]]. }
    eexists _, _. split_and!; [|eapply queue_run; [exact Hes|exact He]|].
    + rewrite forallb_app. simpl. rewrite andb_true_r. clear. by induction es.
    + simpl. destruct (r =? 0); simpl; lia.
  - destruct (ob_enter v av 1 (EpWaitReq Ev1) 0 Hv) as [v' Ev]; [lia|done|]. rewrite Ev in Hown. eapply Hown; [reflexivity|simpl; lia].
  - destruct (ob_progress v av 1 Hv) as (es & v1 & e & v2 & r & Hes & He).
    { intros Hi. rewrite Hi in pl_lv0. by destruct pl_lv0 as [|[? ?]]. }
    eexists _, _. split_and!; [|eapply ep_run; [exact Hes|exact He]|].
    + rewrite forallb_app. simpl. rewrite andb_true_r. clear. by induction es.
    + simpl. lia.
  - destruct (ob_enter v av 1 (EpSignalReq Ev2) 0 Hv) as [v' Ev]; [lia|done|]. rewrite Ev in Hown. eapply Hown; [reflexivity|simpl; lia].
  - destruct (ob_progress v av 1 Hv) as (es & v1 & e & v2 & r & Hes & He).
    { intros Hi. rewrite Hi in pl_lv0. by destruct pl_lv0 as [|[? ?]]. }
    eexists _, _. split_and!; [|eapply ep_run; [exact Hes|exact He]|].
    + rewrite forallb_app. simpl. rewrite andb_true_r. clear. by induction es.
    + simpl. lia.
Qed.

Lemma run_app_ok s es s' es' s'' :
  run_app s es = Some s' -> run_app s' es' = Some s'' -> run_app s (es ++ es') = Some s''.
Proof.
  revert s. induction es as [|e es IH]; intros s; simpl; [by intros [= ->]|].
  destruct (exec_app s e); simpl; [apply IH|done].
Qed.

Lemma stopped_stays s es s' : running s = false -> run_app s es = Some s' -> running s' = false.
Proof.
  revert s. induction es as [|e es IH]; intros s Hs Hr; simpl in Hr; [by simplify_eq|].
  apply bind_Some in Hr as (s1 & E1 & Hr). eapply IH; [|done]. by eapply loop_rank_step.
Qed.

(** C31: the event loop ends.  From any configuration that the program without
    its tests can reach, once running is cleared, the loop makes at most eight
    more steps of its own, whatever the others do; and it is never stuck for
    good: there is a way to its end that consists of its own steps and of steps
    of the monitor and of the event pair alone, which bring its calls of them
    to their ends. *)
Theorem app_loop_ends q sm e es s :
  (2 <= clients)%nat -> 0 <= size ->
  absQ q (ao_start []) -> absS sm (ao_start 1) -> absV e (ao_start 0) ->
  forallb no_test es = true -> run_app (app_start q sm e) es = Some s -> running s = false ->
  (forall es' s', run_app s es' = Some s' -> (loop_steps es' <= 8)%nat) /\
  exists es' s', forallb loop_only es' = true /\ run_app s es' = Some s' /\ loop s' = LDone.
Proof.
  intros Hn Hsz Hq Hm Hv Ht Hr Hrun. split.
  - intros es' s' Hr'. apply (loop_steps_bound _ _ _ Hrun) in Hr'.
    assert (loop_rank (loop s) <= 8)%nat by (destruct (loop s); simpl; lia). lia.
  - pose proof (run_app_inv app_inv no_test _ _ _ app_step_inv (app_inv_start q sm e Hsz Hq Hm Hv) Ht Hr) as H.
    clear Ht Hr. remember (loop_rest (loop s)) as k eqn:Hk. revert s Hrun H Hk.
    induction (lt_wf k) as [k _ IH]. intros s Hrun H ->.
    destruct (decide (loop_rest (loop s) = 0%nat)) as [Hd|Hd].
    { exists [], s. split_and!; [done..|]. by destruct (loop s). }
    destruct (loop_advance s Hn H Hrun) as (es1 & s1 & Ht1 & Hr1 & Hlt); [by intros E1; rewrite E1 in Hd|].
    destruct (IH _ Hlt s1) as (es2 & s2 & Ht2 & Hr2 & Hl2); [by eapply stopped_stays|eapply run_app_inv; [apply app_step_inv|done|by apply loop_only_no_test|done]|done|].
    exists (es1 ++ es2), s2. split_and!; [by rewrite forallb_app, Ht1|by eapply run_app_ok|done].
Qed.
End objects.

(** ** The arguments of the tasks *)

(** The tasks of earlier turns, and at most one of this turn, which is last. *)
Definition tasks_at s : Prop :=
  exists l r, tasks s = l ++ r /\ Forall (fun k => k < turn s)%nat l /\
    match loop s with
    | LTest | LSignal2 | LInSignal2 | LSleep | LDone => (length r <= 1)%nat /\ Forall (fun k => k <= turn s)%nat r
    | _ => r = []
    end.

Lemma tasks_same s s' :
  tasks_at s -> tasks s' = tasks s -> turn s' = turn s ->
  match loop s with LTest | LSignal2 | LInSignal2 | LSleep | LDone => True | _ => False end <->
  match loop s' with LTest | LSignal2 | LInSignal2 | LSleep | LDone => True | _ => False end ->
  tasks_at s'.
Proof.
  intros (l & r & -> & Hl & Hr) Et Ek Hp. exists l, r. rewrite Et, Ek. split_and!; [done..|].
  destruct (loop s), (loop s'); try done; destruct Hp as [Hp1 Hp2]; try (by destruct Hp1); by destruct Hp2.
Qed.

Lemma tasks_step s e s' : tasks_at s -> exec_app s e = Some s' -> tasks_at s'.
Proof.
  intros H He. destruct e as [x d|x|e|e|e|v|d| |]; simpl in He.
  - eapply tasks_same; [exact H|..]; destruct s as [run q sm e al k lv ts t l st tk rs hd];
      unfold read_sensor_step in He; destruct t; try done;
      try (apply bind_Some in He as (q' & _ & He)); csplit; done.
  - destruct s as [run q sm e al k lv ts t l st tk rs hd]. unfold event_loop_step in He.
    destruct l; try (apply bind_Some in He as (q' & _ & He));
      try (csplit; eapply tasks_same; [exact H|done..]); try done.
    + destruct run; simplify_eq; [|by eapply tasks_same].
      destruct H as (l & r & Et & Hl & [Hlen Hr]). cbn in *. subst ts. exists (l ++ r), []. cbn. split_and!; [by rewrite app_nil_r| |done].
      apply Forall_app. split; (eapply Forall_impl; [done|]); simpl; intros; lia.
    + destruct H as (l & r & Et & Hl & ->). cbn in *. rewrite app_nil_r in Et. subst ts.
      csplit; [exists l, [k]|exists l, []]; cbn; rewrite ?app_nil_r; split_and!; try done;
        first [by repeat constructor|simpl; lia].
  - apply bind_Some in He as ([q o] & _ & He). simplify_eq. destruct o as [[i [r o]]|]; [|by eapply tasks_same].
    destruct s as [run q0 sm e0 al k lv ts t l st tk rs hd].
    destruct i as [|[|i]]; simpl; [destruct t| |]; try (by eapply tasks_same; [exact H|done..]); [csplit; by eapply tasks_same|].
    destruct l; try (by eapply tasks_same; [exact H|done..]).
    destruct H as (l & r0 & Et & Hl & ->). cbn in *. rewrite app_nil_r in Et. subst ts. csplit; exists l, [];
      cbn; rewrite ?app_nil_r; split_and!; try done; simpl; lia.
  - apply bind_Some in He as ([q o] & _ & He). simplify_eq. destruct o as [[i r]|]; [|by eapply tasks_same].
    destruct s as [run q0 sm e0 al k lv ts t l st tk rs hd].
    destruct i as [|i]; simpl; [destruct t|]; by eapply tasks_same; [exact H|done..].
  - apply bind_Some in He as ([q o] & _ & He). simplify_eq. destruct o as [[i r]|]; [|by eapply tasks_same].
    destruct s as [run q0 sm e0 al k lv ts t l st tk rs hd].
    destruct i as [|[|i]]; simpl; [destruct t|destruct l|]; by eapply tasks_same; [exact H|done..].
  - simplify_eq. by eapply tasks_same.
  - simplify_eq. by eapply tasks_same.
  - destruct H as (l & r & E1 & Hl & Hr). destruct (tasks s) as [|k ts] eqn:Ets; simplify_eq.
    destruct l as [|x l]; simplify_eq/=.
    + exists [], ts. cbn. split_and!; [done..|]. destruct (loop s); try done; destruct Hr as [H1 H2]; simpl in H1;
        (split; [lia|by inversion H2]).
    + exists l, r. cbn. split_and!; [done|by inversion Hl|done].
  - simplify_eq. by eapply tasks_same.
Qed.

(** Whatever happens, of all tasks that wait in the pool only the last one can
    hold the address of a variable that still exists: that of the turn in
    which it was handed over. *)
Theorem tasks_dangle q sm v es s i k :
  run_app (app_start q sm v) es = Some s ->
  tasks s !! i = Some k -> (i + 1 < length (tasks s))%nat -> variable k s = None.
Proof.
  intros Hr Hi Hlast.
  assert (tasks_at s) as (l & r & E1 & Hl & Hm).
  { eapply (run_app_inv tasks_at (fun _ => true)); [intros; by eapply tasks_step| | |exact Hr].
    - exists [], []. cbn. split_and!; done || simpl; lia.
    - clear. by induction es. }
  assert (length r <= 1)%nat as Hr1 by (destruct (loop s); first [by destruct Hm|subst r; simpl; lia]).
  assert (k < turn s)%nat as Hk.
  { rewrite E1 in Hi, Hlast. rewrite length_app in Hlast. rewrite lookup_app_l in Hi by lia.
    by apply (Forall_lookup_1 _ _ _ _ Hl Hi). }
  unfold variable. by replace (k =? turn s)%nat with false by (symmetry; apply Nat.eqb_neq; lia).
Qed.
End theorems.

(** ** On the code of the three objects *)

Abbreviation app_config :=
  (bme680_app (config monitor mon_point unit) (config Z sem_point unit) (config Z ep_point unit)).
Abbreviation app_ev := (app_event (E:=event mon_point) (ES:=event sem_point) (EV:=event ep_point)).

(** As init leaves them, for the timer's thread and the event loop's. *)
Definition app_init (size : nat) : app_config := app_start (mon_start size 2) (sem_start 2 1) (ep_start 2).

(** A turn of read_sensor, a read of event_loop, and the rest of its turn. *)
Definition write_ex : list app_ev :=
  [SensorStep 0 warm; SensorStep 0 warm; SemStep (Run 0 0); SensorStep 0 warm;
   QueueStep (Run 0 0); QueueStep (Run 0 0); QueueStep (Run 0 0);
   SensorStep 0 warm; EpStep (Run 0 0); SensorStep 0 warm; SemStep (Run 0 0)].
Definition read_ex : list app_ev :=
  [LoopStep 0; LoopStep 0; QueueStep (Run 1 0); QueueStep (Run 1 0); QueueStep (Run 1 0);
   LoopStep 0; EpStep (Run 1 0); LoopStep 0].
Definition hand_ex : list app_ev :=
  [LoopStep 0; LoopStep 0; LoopStep 0; EpStep (Run 1 0); LoopStep 0].

(** The tests of main share the line with the event loop: a test's process
    between the loop's process and get makes the loop hand over the test's
    sample, and the sensor's sample is lost. *)
Theorem tests_mix :
  match run_app (app_init 2) (write_ex ++ read_ex ++ [TestProcess (test_data 0 true)] ++ hand_ex) with
  | Some s => taken s = [warm] /\ handed s = [Some (test_data 0 true)] /\ results s = [Some (test_data 0 true)]
  | None => False
  end.
Proof. vm_compute. done. Qed.

(** A second sample while the loop is between its wait and signal2: the
    signal is overwritten, and the loop sleeps in its wait for event 1 although
    the sample has been read; only a timeout lets it go on. *)
Theorem loop_waits_beside_sample :
  match run_app (app_init 2) (write_ex ++ read_ex ++ write_ex ++ hand_ex ++ firstn 7 read_ex) with
  | Some s => loop s = LInWait1 /\ taken s = [warm; warm] /\ shared (ep s) = 2 /\
      threads (ep s) !! 1%nat = Some (Waiting (EpResume Ev1) (ev_cond Ev1), tt)
  | None => False
  end.
Proof. vm_compute. done. Qed.

Definition path_ex : list app_ev :=
  write_ex ++ read_ex ++ [StageStore 30] ++ hand_ex ++ [SensorStep 0 warm; SensorStep 0 warm; SemStep (Run 0 0)].

Abbreviation monitor_abs size := (cond_abs mon_inv (ring_of (Z.of_nat size)) 2).
Abbreviation semaphore_abs := (cond_abs (fun _ => True) sem_repr 2).
Abbreviation event_pair_abs := (cond_abs (fun _ => True) (@eq Z) 2).

Lemma app_pipeline_witness :
  match run_app (app_init 2) path_ex with
  | Some s => handed s = [Some (with_temp 30 warm)] /\ taken s = [warm] /\
      Forall (fun d => valid_sample d = true) (taken s) /\ timer s = TCall warm /\
      exists am, semaphore_abs (sem s) am /\ 0 <= contents am /\
        contents am + inside_sem (timer s) (phases am 0) = 1
  | None => False
  end.
Proof.
  destruct (run_app (app_init 2) path_ex) as [s|] eqn:Hr; [|vm_compute in Hr; discriminate Hr].
  pose proof (monitor_object_start 2 2 ltac:(lia)) as Hq. pose proof (sem_object_start 2 1 (proj1 (cast_id_iff S32 1) eq_refl)) as Hm.
  destruct (app_pipeline (absQ:=monitor_abs 2) (absS:=semaphore_abs) (absV:=event_pair_abs) (size:=Z.of_nat 2) (clients:=2)
    (mon_start 2 2) (sem_start 2 1) (ep_start 2) path_ex s (Nat2Z.is_nonneg 2) Hq Hm (ep_object_start 2) eq_refl Hr)
    as (_ & _ & _ & Hv & _ & _ & Hs).
  assert (handed s = [Some (with_temp 30 warm)] /\ taken s = [warm] /\ timer s = TCall warm) as (H1 & H2 & H3)
    by (vm_compute in Hr; injection Hr as <-; split; [|split]; reflexivity).
  split; [exact H1|split; [exact H2|split; [exact Hv|split; [exact H3|exact Hs]]]].
Defined.

(** main clears running while the loop sleeps in bme680_monitor_read. *)
Definition stop_ex : list app_ev :=
  [LoopStep 0; LoopStep 0; QueueStep (Run 1 0); QueueStep (Run 1 0); Stop].

Lemma app_loop_ends_witness :
  match run_app (app_init 2) stop_ex with
  | Some s => loop s = LIn /\ running s = false /\
      exists es' s', forallb loop_only es' = true /\ run_app s es' = Some s' /\ loop s' = LDone
  | None => False
  end.
Proof.
  destruct (run_app (app_init 2) stop_ex) as [s|] eqn:Hr; [|vm_compute in Hr; discriminate Hr].
  assert (loop s = LIn /\ running s = false) as [H1 H2]
    by (vm_compute in Hr; injection Hr as <-; split; reflexivity).
  pose proof (monitor_object_start 2 2 ltac:(lia)) as Hq. pose proof (sem_object_start 2 1 (proj1 (cast_id_iff S32 1) eq_refl)) as Hm.
  destruct (app_loop_ends (absQ:=monitor_abs 2) (absS:=semaphore_abs) (absV:=event_pair_abs) (size:=Z.of_nat 2) (clients:=2)
    (mon_start 2 2) (sem_start 2 1) (ep_start 2) stop_ex s (le_n 2) (Nat2Z.is_nonneg 2) Hq Hm (ep_object_start 2) eq_refl Hr H2)
    as [_ Hend].
  split; [exact H1|split; [exact H2|exact Hend]].
Defined.

Lemma tasks_dangle_witness :
  match run_app (app_init 2) (path_ex ++ drop 3 write_ex ++ read_ex ++ hand_ex) with
  | Some s => tasks s = [1%nat; 2%nat] /\ variable 1 s = None
  | None => False
  end.
Proof.
  destruct (run_app _ _) as [s|] eqn:Hr; [|vm_compute in Hr; discriminate Hr].
  assert (tasks s = [1%nat; 2%nat]) as Ht by (vm_compute in Hr; injection Hr as <-; reflexivity).
  split; [exact Ht|]. apply (tasks_dangle _ _ _ _ _ 0 1 Hr); rewrite Ht; [reflexivity|simpl; lia].
Defined.
