(* ===== verification/RecursiveMutex.v ===== *)
(** * RecursiveMutex: a lock that its owner can take again (recursive_mutex.c)

    The shared state is [owner] and [count], and the pthread mutex under them
    (of the recursive kind: [holder] with its own nesting [hdepth]).  The code
    reads and writes [owner] and [count] outside any lock, so each access is
    a step of its own, and threads interleave between any two of them.
    [depth] is the history of a thread: the locks that returned 0 less the
    unlocks that did.  The theorem: mutual exclusion, [count] is the depth of
    the owner, what the operations return, and the mutex is free when nobody
    owns it, in every execution too short for [count] to overflow. *)

From S2P Require Import Prelude CInt.

Record recursive_mutex := {
  holder : option nat; hdepth : Z;
  owner : option nat;               (* None is 0 *)
  count : Z;
}.

Definition recursive_mutex_init : recursive_mutex :=
  {| holder := None; hdepth := 0; owner := None; count := 0 |}.

(** Where a thread is: outside, or before one of the accesses of
    recursive_mutex_lock ([L..]) or recursive_mutex_unlock ([U..]). *)
Inductive pc :=
| Out
| LTest | LIncr | LAcquire | LOwner | LCount
| UTest | UDecr | UZero | UOwner | URelease.

Record rm_thread := { at_pc : pc; depth : Z }.

(** A returned call: the thread, whether it was a lock, its depth when it was
    called, and the result. *)
Record rm_config := {
  rmutex : recursive_mutex;
  threads : list rm_thread;
  results : list (nat * bool * Z * Z);
}.

Inductive rm_event :=
| CallLock (i : nat)
| CallUnlock (i : nat)
| Step (i : nat)
| AcquireFails (i : nat) (err : Z).

(** One access: the new shared state and either the next point or the value
    returned; [None] while the thread is blocked. *)
Definition next (m : recursive_mutex) (p : pc) : option (recursive_mutex * (pc + Z)) :=
  Some (m, inl p).
Definition ret (m : recursive_mutex) (r : Z) : option (recursive_mutex * (pc + Z)) :=
  Some (m, inr r).

Definition with_owner (m : recursive_mutex) (o : option nat) : recursive_mutex :=
  {| holder := holder m; hdepth := hdepth m; owner := o; count := count m |}.
Definition with_count (m : recursive_mutex) (c : Z) : recursive_mutex :=
  {| holder := holder m; hdepth := hdepth m; owner := owner m; count := c |}.
Definition with_holder (m : recursive_mutex) (h : option nat) (d : Z) : recursive_mutex :=
  {| holder := h; hdepth := d; owner := owner m; count := count m |}.

(** pthread_mutex_lock and pthread_mutex_unlock of a recursive mutex. *)
Definition mutex_acquire (current : nat) (m : recursive_mutex) : option recursive_mutex :=
  match holder m with
  | None => Some (with_holder m (Some current) 1)
  | Some h => if (h =? current)%nat then Some (with_holder m (Some h) (hdepth m + 1)) else None
  end.
Definition mutex_release (m : recursive_mutex) : recursive_mutex :=
  if hdepth m =? 1 then with_holder m None 0 else with_holder m (holder m) (hdepth m - 1).

Definition recursive_mutex_lock (current : nat) (p : pc) (m : recursive_mutex) :=
  match p with
  | LTest => next m (if bool_decide (owner m = Some current) then LIncr else LAcquire)
  | LIncr => ret (with_count m (count m +[S32] 1)) 0
  | LAcquire => m ← mutex_acquire current m; next m LOwner
  | LOwner => next (with_owner m (Some current)) LCount
  | LCount => ret (with_count m 1) 0
  | _ => None
  end.

Definition recursive_mutex_unlock (current : nat) (p : pc) (m : recursive_mutex) :=
  match p with
  | UTest => if bool_decide (owner m <> Some current) then ret m (- EPERM) else next m UDecr
  | UDecr => next (with_count m (count m -[S32] 1)) UZero
  | UZero => if count m =? 0 then next m UOwner else ret m 0
  | UOwner => next (with_owner m None) URelease
  | URelease => ret (mutex_release m) 0
  | _ => None
  end.

Definition locking (p : pc) : bool :=
  match p with LTest | LIncr | LAcquire | LOwner | LCount => true | _ => false end.

(** The thread's history after a call returned [r]. *)
Definition returned (t : rm_thread) (r : Z) : rm_thread := {|
  at_pc := Out;
  depth := if r =? 0 then (if locking (at_pc t) then depth t + 1 else depth t - 1) else depth t;
|}.

Definition exec_rm (c : rm_config) (e : rm_event) : option rm_config :=
  match e with
  | CallLock i | CallUnlock i =>
      t ← threads c !! i;
      match at_pc t with
      | Out =>
          let p := match e with CallLock _ => LTest | _ => UTest end in
          Some {| rmutex := rmutex c; results := results c;
                  threads := <[i := {| at_pc := p; depth := depth t |}]> (threads c) |}
      | _ => None
      end
  | Step i =>
      t ← threads c !! i;
      x ← (if locking (at_pc t) then recursive_mutex_lock i (at_pc t) (rmutex c)
           else recursive_mutex_unlock i (at_pc t) (rmutex c));
      match x with
      | (m, inl p) =>
          Some {| rmutex := m; results := results c;
                  threads := <[i := {| at_pc := p; depth := depth t |}]> (threads c) |}
      | (m, inr r) =>
          Some {| rmutex := m; results := (i, locking (at_pc t), depth t, r) :: results c;
                  threads := <[i := returned t r]> (threads c) |}
      end
  | AcquireFails i err =>
      t ← threads c !! i;
      match at_pc t with
      | LAcquire =>
          if 0 <? err then
            Some {| rmutex := rmutex c; results := (i, true, depth t, err) :: results c;
                    threads := <[i := returned t err]> (threads c) |}
          else None
      | _ => None
      end
  end.

Fixpoint run_rm (c : rm_config) (es : list rm_event) : option rm_config :=
  match es with
  | [] => Some c
  | e :: es => c' ← exec_rm c e; run_rm c' es
  end.

Definition rm_start (n : nat) : rm_config :=
  {| rmutex := recursive_mutex_init; threads := replicate n {| at_pc := Out; depth := 0 |}; results := [] |}.

(** ** The invariant *)

(** The fields while thread [i] holds the mutex. *)
Definition mine (i : nat) (m : recursive_mutex) (o : option nat) (c : Z) : Prop :=
  holder m = Some i /\ hdepth m = 1 /\ owner m = o /\ count m = c.
Definition not_mine (i : nat) (m : recursive_mutex) : Prop :=
  holder m <> Some i /\ owner m <> Some i.

Definition place (i : nat) (m : recursive_mutex) (t : rm_thread) : Prop :=
  let d := depth t in
  match at_pc t with
  | Out | LTest | UTest => (0 < d /\ mine i m (Some i) d) \/ (d = 0 /\ not_mine i m)
  | LIncr | UDecr => 0 < d /\ mine i m (Some i) d
  | LAcquire => d = 0 /\ not_mine i m
  | LOwner => d = 0 /\ mine i m None (count m)
  | LCount => d = 0 /\ mine i m (Some i) (count m)
  | UZero => 0 < d /\ mine i m (Some i) (d - 1)
  | UOwner => d = 1 /\ mine i m (Some i) 0
  | URelease => d = 1 /\ mine i m None 0
  end.

Definition result_ok (x : nat * bool * Z * Z) : Prop :=
  match x with
  | (_, true, d, r) => r = 0 \/ (0 < r /\ d = 0)
  | (_, false, d, r) => (r = 0 /\ 0 < d) \/ (r = - EPERM /\ d = 0)
  end.

(** [k] bounds the events so far. *)
Record rm_inv (k : Z) (c : rm_config) : Prop := {
  ri_place i t : threads c !! i = Some t -> place i (rmutex c) t /\ depth t <= k;
  ri_held i : holder (rmutex c) = Some i -> is_Some (threads c !! i);
  ri_owner : owner (rmutex c) = None \/ owner (rmutex c) = holder (rmutex c);
  ri_results : Forall result_ok (results c);
}.

Lemma rm_inv_start n : rm_inv 0 (rm_start n).
Proof.
  constructor; simpl; try done; [|by left].
  intros i t Hi. apply lookup_replicate in Hi as [-> _]. unfold place, not_mine. simpl.
  split; [right; done|lia].
Qed.

(** A step of [i] that leaves the fields to [i] or to nobody does not concern
    the other threads. *)
Lemma place_other i j m m' t :
  i <> j -> place j m t -> holder m = None \/ holder m = Some i ->
  holder m' = None \/ holder m' = Some i -> owner m' = None \/ owner m' = Some i ->
  place j m' t.
Proof.
  unfold place, mine, not_mine. intros Hij Hp H1 H2 H3.
  assert (holder m <> Some j) by (destruct H1; congruence).
  assert (holder m' <> Some j) by (destruct H2; congruence).
  assert (owner m' <> Some j) by (destruct H3; congruence).
  destruct (at_pc t); intuition congruence.
Qed.

Lemma rm_inv_update k c i t m' t' rs :
  rm_inv k c -> threads c !! i = Some t -> place i m' t' -> depth t' <= k + 1 ->
  m' = rmutex c \/
  ((holder (rmutex c) = None \/ holder (rmutex c) = Some i) /\
   (holder m' = None \/ holder m' = Some i) /\ (owner m' = None \/ owner m' = Some i)) ->
  owner m' = None \/ owner m' = holder m' -> Forall result_ok rs ->
  rm_inv (k + 1) {| rmutex := m'; threads := <[i := t']> (threads c); results := rs |}.
Proof.
  intros [Hp Hh Ho Hr] Hi Hp' Hd Hm Ho' Hrs. constructor; simpl; try done.
  - intros j u Hj. apply list_lookup_insert_case in Hj as [(<- & -> & _)|(Hij & Hj)]; [done|].
    destruct (Hp j u Hj) as [Hpj Hdj]. split; [|lia].
    destruct Hm as [->|(H1 & H2 & H3)]; [done|]. by eapply place_other.
  - intros j Hj. destruct (decide (i = j)) as [<-|Hij].
    + eexists. apply list_lookup_insert_eq. by eapply lookup_lt_Some.
    + rewrite list_lookup_insert_ne by done. apply Hh.
      destruct Hm as [->|(_ & [H2|H2] & _)]; [done|congruence..].
Qed.

(** The effect of one access, from and to a place. *)
Lemma rm_lock_place i m t m' x k :
  place i m t -> (owner m = None \/ owner m = holder m) -> depth t <= k -> k < 2 ^ 31 - 1 ->
  recursive_mutex_lock i (at_pc t) m = Some (m', x) ->
  let t' := match x with inl p => {| at_pc := p; depth := depth t |} | inr r => returned t r end in
  place i m' t' /\ depth t' <= k + 1 /\
  (m' = m \/ ((holder m = None \/ holder m = Some i) /\
    (holder m' = None \/ holder m' = Some i) /\ (owner m' = None \/ owner m' = Some i))) /\
  (owner m' = None \/ owner m' = holder m') /\ (forall r, x = inr r -> r = 0).
Proof.
  destruct t as [p d]. unfold place, mine, not_mine. simpl. intros Hp Ho Hd Hk E.
  destruct p; simpl in *; try done.
  - unfold next in E. injection E as <- <-. simpl. split_and!; [|lia|by left|done|done].
    destruct Hp as [(? & ? & ? & ? & ?)|(? & ? & ?)]; case_bool_decide; simplify_eq; auto; congruence.
  - unfold ret in E. injection E as <- <-. unfold returned. simpl.
    destruct Hp as (? & ? & ? & ? & Hc). rewrite Hc, cast_id by (unfold in_range, tmax; simpl; lia).
    split_and!; [left; split_and!; [lia|done..]|lia|right; auto|right; congruence|congruence].
  - unfold mutex_acquire in E. destruct Hp as (-> & Hh & Hno). destruct (holder m) as [h|] eqn:Eh; simpl in E.
    + destruct (Nat.eqb_spec h i) as [->|]; [done|by simplify_eq].
    + unfold next in E. injection E as <- <-. simpl. assert (owner m = None) by (destruct Ho; congruence).
      split_and!; [done..|lia|right; auto|by left|done].
  - unfold next in E. injection E as <- <-. simpl. destruct Hp as (? & ? & ? & ? & _).
    split_and!; [done..|lia|right; auto|right; congruence|done].
  - unfold ret in E. injection E as <- <-. unfold returned. simpl. destruct Hp as (-> & ? & ? & ? & _).
    split_and!; [left; split_and!; [lia|done..]|lia|right; auto|right; congruence|congruence].
Qed.

Lemma rm_unlock_place i m t m' x k :
  place i m t -> (owner m = None \/ owner m = holder m) -> depth t <= k -> k < 2 ^ 31 - 1 ->
  locking (at_pc t) = false ->
  recursive_mutex_unlock i (at_pc t) m = Some (m', x) ->
  let t' := match x with inl p => {| at_pc := p; depth := depth t |} | inr r => returned t r end in
  place i m' t' /\ depth t' <= k + 1 /\
  (m' = m \/ ((holder m = None \/ holder m = Some i) /\
    (holder m' = None \/ holder m' = Some i) /\ (owner m' = None \/ owner m' = Some i))) /\
  (owner m' = None \/ owner m' = holder m') /\
  (forall r, x = inr r -> (r = 0 /\ 0 < depth t) \/ (r = - EPERM /\ depth t = 0)).
Proof.
  destruct t as [p d]. unfold place, mine, not_mine. simpl. intros Hp Ho Hd Hk Hl E.
  destruct p; simpl in *; try done.
  - case_bool_decide as Hown; injection E as <- <-; unfold returned; simpl.
    + destruct Hp as [(? & ? & ? & ? & ?)|(? & ? & ?)]; [congruence|].
      split_and!; [by right|lia|by left|done|]. intros r [= <-]. by right.
    + destruct Hp as [?|(? & ? & ?)]; [|congruence]. split_and!; [tauto..|lia|by left|done|done].
  - injection E as <- <-. simpl. destruct Hp as (? & ? & ? & ? & Hc).
    rewrite Hc, cast_id by (unfold in_range, tmax; simpl; lia).
    split_and!; [done..|lia|right; auto|right; congruence|done].
  - destruct Hp as (? & ? & ? & ? & Hc). destruct (Z.eqb_spec (count m) 0) as [E0|E0];
      injection E as <- <-; unfold returned; simpl.
    + split_and!; [lia|done..|lia|by left|done|done].
    + split_and!; [left; split_and!; [lia|done..]|lia|by left|done|].
      intros r [= <-]. by left.
  - injection E as <- <-. simpl. destruct Hp as (? & ? & ? & ? & Hc).
    split_and!; [done..|lia|right; auto|by left|done].
  - unfold mutex_release in E. destruct Hp as (-> & ? & Hh & Ho' & Hc). rewrite Hh in E.
    injection E as <- <-. unfold returned. simpl. rewrite Ho'.
    split_and!; [by right|lia|right; auto|by left|]. intros r [= <-]. left. split; [done|lia].
Qed.

Lemma rm_inv_step k c e c' :
  rm_inv k c -> k < 2 ^ 31 - 1 -> exec_rm c e = Some c' -> rm_inv (k + 1) c'.
Proof.
  intros Hc Hk E. pose proof (ri_results _ _ Hc) as Hr. destruct e as [i|i|i|i err].
  all: simpl in E; apply bind_Some in E as (t & Hi & E).
  all: destruct (ri_place _ _ Hc i t Hi) as [Hp Hd].
  1,2: destruct t as [[] d]; try done; injection E as <-;
    (eapply rm_inv_update; [done|done|exact Hp|simpl in *; lia|by left|apply (ri_owner _ _ Hc)|done]).
  - apply bind_Some in E as ([m' x] & Ex & E).
    assert (threads c !! i = Some t /\ rm_inv (k + 1) c') as [_ H]; [|done].
    split; [done|]. destruct (locking (at_pc t)) eqn:Hl.
    + pose proof (rm_lock_place i _ t m' x k Hp (ri_owner _ _ Hc) Hd Hk Ex) as (H1 & H2 & H3 & H4 & H5).
      destruct x as [p|r]; injection E as <-; (eapply rm_inv_update; [done|done|exact H1|done..|]); [done|].
      constructor; [|done]. rewrite (H5 r eq_refl). by left.
    + pose proof (rm_unlock_place i _ t m' x k Hp (ri_owner _ _ Hc) Hd Hk Hl Ex) as (H1 & H2 & H3 & H4 & H5).
      destruct x as [p|r]; injection E as <-; (eapply rm_inv_update; [done|done|exact H1|done..|]); [done|].
      constructor; [|done]. apply (H5 r eq_refl).
  - destruct t as [[] d]; try done. simpl in E. case_match eqn:He; [|done]. injection E as <-.
    apply Z.ltb_lt in He. unfold returned. simpl. replace (err =? 0) with false by lia.
    destruct Hp as [Hp0 Hp]. simpl in *.
    eapply rm_inv_update; [done|done|by right|simpl; lia|by left|apply (ri_owner _ _ Hc)|].
    constructor; [|done]. right. done.
Qed.

Lemma rm_inv_run k c es c' :
  rm_inv k c -> k + Z.of_nat (length es) < 2 ^ 31 -> run_rm c es = Some c' ->
  exists k', rm_inv k' c'.
Proof.
  revert k c. induction es as [|e es IH]; intros k c Hc Hk E; simpl in *.
  - simplify_eq. by exists k.
  - apply bind_Some in E as (c1 & E1 & E). eapply IH; [|..|done].
    + eapply rm_inv_step; [done|lia|done].
    + lia.
Qed.

(** ** Property *)

(** C9: the recursive mutex, in every execution of any number of threads of
    fewer than 2^31 events, under every interleaving of the single accesses
    and with failures of the pthread mutex: at most one thread has locks
    outstanding; if it is outside the operations it is the recorded owner,
    and [count] is the number of its outstanding locks; when no thread has
    any and all are outside, the pthread mutex is free.  An unlock returns 0
    exactly to a thread with a lock outstanding and -EPERM to any other; a
    lock returns 0, or the pthread mutex's error to a thread without one. *)
Theorem recursive_mutex_correct n es c :
  Z.of_nat (length es) < 2 ^ 31 -> run_rm (rm_start n) es = Some c ->
  (forall i j t u, threads c !! i = Some t -> threads c !! j = Some u ->
     0 < depth t -> 0 < depth u -> i = j) /\
  (forall i t, threads c !! i = Some t -> at_pc t = Out -> 0 < depth t ->
     owner (rmutex c) = Some i /\ count (rmutex c) = depth t) /\
  ((forall i t, threads c !! i = Some t -> at_pc t = Out /\ depth t = 0) ->
     holder (rmutex c) = None) /\
  Forall result_ok (results c).
Proof.
  intros Hn E. destruct (rm_inv_run 0 _ es c (rm_inv_start n) ltac:(lia) E) as [k Hc].
  assert (forall i t, threads c !! i = Some t -> 0 < depth t -> holder (rmutex c) = Some i) as Hh.
  { intros i [p d] Hi Hd. destruct (ri_place _ _ Hc i _ Hi) as [Hp _].
    unfold place, mine in Hp. simpl in *. destruct p; try tauto; intuition lia. }
  split_and!.
  - intros i j t u Hi Hj Ht Hu. pose proof (Hh _ _ Hi Ht). pose proof (Hh _ _ Hj Hu). congruence.
  - intros i [p d] Hi Ht Hd. destruct (ri_place _ _ Hc i _ Hi) as [Hp _].
    unfold place, mine in Hp. simpl in *. subst p. intuition lia.
  - intros Hall. destruct (holder (rmutex c)) as [i|] eqn:Eh; [|done].
    destruct (ri_held _ _ Hc i Eh) as [[p d] Hi]. destruct (Hall i _ Hi) as [Hp Hd]. simpl in *. subst.
    destruct (ri_place _ _ Hc i _ Hi) as [Hpl _]. unfold place, mine, not_mine in Hpl. simpl in Hpl.
    intuition (congruence || lia).
  - apply (ri_results _ _ Hc).
Qed.

(** ** Witness *)

Definition nested_locks : list rm_event :=
  [CallLock 0; Step 0; Step 0; Step 0; Step 0; CallLock 1; Step 1; CallLock 0; Step 0; Step 0;
   CallUnlock 0; Step 0; Step 0; Step 0].

Lemma recursive_mutex_correct_witness :
  exists c, run_rm (rm_start 2) nested_locks = Some c /\ count (rmutex c) = 1 /\
    owner (rmutex c) = Some 0%nat /\ Forall result_ok (results c).
Proof.
  eexists. split; [vm_compute; reflexivity|]. split; [reflexivity|]. split; [reflexivity|].
  apply (recursive_mutex_correct 2 nested_locks); [reflexivity|vm_compute; reflexivity].
Defined.
