(* ===== verification/ThreadPool.v ===== *)
(** * ThreadPool: workers, their queue, and the barrier they meet at (thread_pool.c)

    The tasks are a linked list in a heap of nodes ([chain]), with [head] and
    [tail] pointers.  Workers, enqueuers and the thread that destroys the pool
    interleave as in CondMonitor: every stretch of code runs under one of the
    pool's mutex, the barrier's, the event pair's, or none.  [running] is what
    pthread_join waits for.  The barrier and the event pair are those of
    Barrier and EventPair.

    The parameter [spurious] says whether the waits at the barrier may return
    by themselves; those of the workers may, with 0 or any error.  A worker
    whose wait times out goes on without the mutex (the [continue] of the inner
    loop): its next accesses are undefined, and the model stops it ([Hang]),
    while the others go on.

    The theorems: the list is a first-in first-out queue for every
    interleaving; but no task is ever run, because the barrier is initialised
    for one more thread than ever reaches it; and once a worker has taken a
    task thread_pool_destroy never returns. *)

From stdpp Require Import fin_maps fin_map_dom.
From S2P Require Import Prelude LinuxLib CondMonitor Barrier EventPair.

Record task := { func : Z; arg : Z; next : option nat }.   (* func 0 is NULL *)

Record thread_pool := {
  heap : gmap nat task;
  head : option nat;
  tail : option nat;
  shutdown : bool;
  bar : barrier;
  ep : Z;
  running : Z;
}.

Inductive pool_point :=
| PTop | PCheck | PCheckResume
| PBarrier (a : nat) | PBarrierResume (a : nat) | PRun (a : nat)
| PSignal (a : nat) | PEpWait (a : nat) | PEpResume (a : nat)
| PEnqueue (f x : Z) (malloc_ok : bool)
| PDestroy | PJoin.

(** The condition variables not taken from Barrier and EventPair, and the
    termination of a worker. *)
Definition pool_cond : nat := 3.
Definition joined : nat := 4.

Definition pool_outcome := outcome thread_pool pool_point.

Definition with_queue (tp : thread_pool) (h : gmap nat task) (hd tl : option nat) : thread_pool := {|
  heap := h; head := hd; tail := tl; shutdown := shutdown tp; bar := bar tp; ep := ep tp;
  running := running tp;
|}.
Definition with_bar (tp : thread_pool) (b : barrier) : thread_pool := {|
  heap := heap tp; head := head tp; tail := tail tp; shutdown := shutdown tp; bar := b; ep := ep tp;
  running := running tp;
|}.
Definition with_ep (tp : thread_pool) (e : Z) : thread_pool := {|
  heap := heap tp; head := head tp; tail := tail tp; shutdown := shutdown tp; bar := bar tp; ep := e;
  running := running tp;
|}.

(** thread_pool_init, once all threads have been created. *)
Definition thread_pool_init (num_threads : nat) : thread_pool := {|
  heap := ∅; head := None; tail := None; shutdown := false;
  bar := {| count := 0; total := Z.of_nat num_threads + 1 |}; ep := 0;
  running := Z.of_nat num_threads;
|}.

(** ** worker_thread *)

Definition worker_exit (tp : thread_pool) : pool_outcome :=
  Return {| heap := heap tp; head := head tp; tail := tail tp; shutdown := shutdown tp;
            bar := bar tp; ep := ep tp; running := running tp - 1 |} (Broadcast joined) 0.

(** After the inner loop: the shutdown test and the removal of the head. *)
Definition worker_take (tp : thread_pool) : pool_outcome :=
  if shutdown tp then worker_exit tp
  else match head tp with
  | None => Goto tp NoSignal PTop
  | Some a =>
      match heap tp !! a with
      | None => Hang
      | Some t =>
          Goto (with_queue tp (heap tp) (next t) (if next t is Some _ then tail tp else None))
            NoSignal (PBarrier a)
      end
  end.

Definition worker_loop (tp : thread_pool) : pool_outcome :=
  if bool_decide (head tp = None) && negb (shutdown tp) then Wait tp PCheckResume pool_cond
  else worker_take tp.

Definition worker_resume (ret : Z) (tp : thread_pool) : pool_outcome :=
  if ret =? ETIMEDOUT then Hang
  else if negb (ret =? 0) then worker_exit tp
  else worker_loop tp.

(** A call of barrier_wait by the worker that has task [a]. *)
Definition in_barrier (tp : thread_pool) (a : nat) (o : outcome barrier barrier_point) : pool_outcome :=
  match o with
  | Return b sg _ => Goto (with_bar tp b) sg (PRun a)
  | Wait b _ cv => Wait (with_bar tp b) (PBarrierResume a) cv
  | _ => Hang
  end.

(** A call of event_pair_wait2, its result ignored, then free(task). *)
Definition in_wait2 (tp : thread_pool) (a : nat) (o : outcome Z ep_point) : pool_outcome :=
  match o with
  | Return e sg _ =>
      let tp := with_ep tp e in
      Goto (with_queue tp (delete a (heap tp)) (head tp) (tail tp)) sg PTop
  | Wait e _ cv => Wait (with_ep tp e) (PEpResume a) cv
  | _ => Hang
  end.

Definition in_signal1 (tp : thread_pool) (a : nat) (o : outcome Z ep_point) : pool_outcome :=
  match o with Return e sg _ => Goto (with_ep tp e) sg (PEpWait a) | _ => Hang end.

(** ** thread_pool_enqueue *)

Definition set_next (n : option nat) (t : task) : task :=
  {| func := func t; arg := arg t; next := n |}.

(** Linking the new node at [a]; [None] is the dereference of a null tail. *)
Definition link_task (tp : thread_pool) (a : nat) (f x : Z) : option thread_pool :=
  let h := <[a := {| func := f; arg := x; next := None |}]> (heap tp) in
  match head tp, tail tp with
  | None, _ => Some (with_queue tp h (Some a) (Some a))
  | Some _, Some t => Some (with_queue tp (alter (set_next (Some a)) t h) (head tp) (Some a))
  | Some _, None => None
  end.

(** malloc: an address that is not in use. *)
Definition malloc_task (tp : thread_pool) : nat := fresh (dom (heap tp) : gset nat).

Definition thread_pool_enqueue (f x : Z) (malloc_ok : bool) (tp : thread_pool) : pool_outcome :=
  if f =? 0 then Return tp NoSignal (- EINVAL)
  else if negb malloc_ok then Return tp NoSignal (- ENOMEM)
  else match link_task tp (malloc_task tp) f x with
  | Some tp => Return tp (Signal pool_cond) 0
  | None => Hang
  end.

(** ** thread_pool_destroy *)

Definition thread_pool_destroy (tp : thread_pool) : pool_outcome :=
  Goto {| heap := heap tp; head := head tp; tail := tail tp; shutdown := true;
          bar := bar tp; ep := ep tp; running := running tp |} (Broadcast pool_cond) PJoin.

(** The loop that frees the tasks left; [size heap] turns are enough. *)
Fixpoint free_tasks (fuel : nat) (h : gmap nat task) (p : option nat) : gmap nat task :=
  match fuel, p with
  | S fuel, Some a =>
      match h !! a with Some t => free_tasks fuel (delete a h) (next t) | None => h end
  | _, _ => h
  end.

(** The pool itself is freed too: no pointer into its list remains. *)
Definition destroy_join (tp : thread_pool) : pool_outcome :=
  if 0 <? running tp then Wait tp PJoin joined
  else Return (with_queue tp (free_tasks (size (heap tp)) (heap tp) (head tp)) None None) NoSignal 0.

Definition pool_code (_ : nat) (p : pool_point) (ret : Z) (tp : thread_pool) : pool_outcome :=
  match p with
  | PTop => if shutdown tp then worker_exit tp else Goto tp NoSignal PCheck
  | PCheck => worker_loop tp
  | PCheckResume => worker_resume ret tp
  | PBarrier a => in_barrier tp a (barrier_wait (bar tp))
  | PBarrierResume a => in_barrier tp a (barrier_wait_resume (bar tp))
  | PRun a => Goto tp NoSignal (PSignal a)     (* task->func(task->arg) *)
  | PSignal a => in_signal1 tp a (event_pair_signal1 (ep tp))
  | PEpWait a => in_wait2 tp a (event_pair_wait2 (ep tp))
  | PEpResume a => in_wait2 tp a (event_wait_resume Ev2 ret (ep tp))
  | PEnqueue f x malloc_ok => thread_pool_enqueue f x malloc_ok tp
  | PDestroy => thread_pool_destroy tp
  | PJoin => destroy_join tp
  end.

(** What a thread may do: a worker runs worker_thread, once. *)
Inductive role := Worker | Finished | Client.
#[export] Instance role_eq_dec : EqDecision role.
Proof. solve_decision. Defined.

Definition pool_program (spurious : bool) : Program thread_pool pool_point role := {|
  code := pool_code;
  on_return _ _ g := match g with Worker => Finished | _ => g end;
  may_call g p := match g, p with
    | Worker, PTop => true
    | Client, (PEnqueue _ _ _ | PDestroy) => true
    | _, _ => false end;
  wake_ok p r := match p with
    | PCheckResume => 0 <=? r
    | PBarrierResume _ => spurious
    | PEpResume _ => 0 <=? r
    | _ => false end;
|}.

Definition pool_start (workers clients : nat) : config thread_pool pool_point role :=
  start (thread_pool_init workers) (replicate workers Worker ++ replicate clients Client).

(** ** The list in the heap *)

Fixpoint chain (h : gmap nat task) (p : option nat) (l : list (nat * (Z * Z))) : Prop :=
  match l with
  | [] => p = None
  | (a, (f, x)) :: l =>
      p = Some a /\ exists n, h !! a = Some {| func := f; arg := x; next := n |} /\ chain h n l
  end.

Record represents (tp : thread_pool) (l : list (nat * (Z * Z))) : Prop := {
  rp_chain : chain (heap tp) (head tp) l;
  rp_nodup : NoDup (l.*1);
  rp_tail : tail tp = last (l.*1);
}.

Lemma chain_frame h h' p l :
  chain h p l -> (forall a, a ∈ l.*1 -> h' !! a = h !! a) -> chain h' p l.
Proof.
  revert p. induction l as [|[a [f x]] l IH]; simpl; intros p Hc Hh; [done|].
  destruct Hc as (-> & n & Ha & Hc). split; [done|]. exists n. split.
  - rewrite Hh; [done|]. apply elem_of_cons. by left.
  - apply IH; [done|]. intros b Hb. apply Hh. apply elem_of_cons. by right.
Qed.

Lemma chain_dom h p l a : chain h p l -> a ∈ l.*1 -> is_Some (h !! a).
Proof.
  revert p. induction l as [|[b [f x]] l IH]; simpl; intros p Hc Ha; [by apply elem_of_nil in Ha|].
  destruct Hc as (_ & n & Hb & Hc). apply elem_of_cons in Ha as [->|Ha]; [by eexists|by eapply IH].
Qed.

(** Setting the next of the last node and writing a new last one. *)
Lemma chain_snoc h p l t a f x :
  chain h p l -> NoDup (l.*1) -> last (l.*1) = Some t -> a ∉ l.*1 ->
  chain (alter (set_next (Some a)) t (<[a := {| func := f; arg := x; next := None |}]> h)) p (l ++ [(a, (f, x))]).
Proof.
  revert p. induction l as [|[b [g y]] l IH]; intros p Hc Hnd Hl Ha; [done|].
  destruct Hc as (-> & n & Hb & Hc). simpl in *. split; [done|].
  apply not_elem_of_cons in Ha as [Hab Ha]. apply NoDup_cons in Hnd as [Hbl Hnd].
  destruct l as [|[b' z] l].
  - simpl in Hl, Hc. injection Hl as <-. exists (Some a). simpl in Hc. split.
    + rewrite lookup_alter_eq, lookup_insert_ne, Hb by done. done.
    + split; [done|]. exists None. rewrite lookup_alter_ne, lookup_insert_eq by done. done.
  - exists n. split; [|by apply IH].
    assert (t ∈ ((b', z) :: l).*1) as Ht by (apply last_Some_elem_of; by rewrite fmap_cons in Hl |- *).
    assert (t <> b) by (intros ->; by apply Hbl).
    rewrite lookup_alter_ne, lookup_insert_ne by done. done.
Qed.

Lemma malloc_fresh tp l : represents tp l -> heap tp !! malloc_task tp = None /\ malloc_task tp ∉ l.*1.
Proof.
  intros Hq. assert (heap tp !! malloc_task tp = None) as Hn.
  { apply (not_elem_of_dom (D := gset nat)). unfold malloc_task. apply is_fresh. }
  split; [done|]. intros Ha. apply (chain_dom _ _ _ _ (rp_chain _ _ Hq)) in Ha as [? E]. congruence.
Qed.

(** Linking appends, and keeps the nodes allocated. *)
Lemma link_task_represents tp l a f x :
  represents tp l -> heap tp !! a = None -> a ∉ l.*1 ->
  exists tp', link_task tp a f x = Some tp' /\ represents tp' (l ++ [(a, (f, x))]) /\
    shutdown tp' = shutdown tp /\ bar tp' = bar tp /\ running tp' = running tp /\
    (forall b, is_Some (heap tp !! b) -> is_Some (heap tp' !! b)).
Proof.
  intros [Hc Hnd Ht] Hn Ha. unfold link_task.
  assert (NoDup ((l ++ [(a, (f, x))]).*1)) as Hnd'.
  { rewrite fmap_app. apply NoDup_app. split_and!; [done| |apply NoDup_singleton].
    intros b Hb Hba. apply list_elem_of_singleton in Hba as ->. done. }
  assert (last ((l ++ [(a, (f, x))]).*1) = Some a) as Hla by (rewrite fmap_app; apply last_snoc).
  destruct (head tp) as [hd|] eqn:Hhd.
  - destruct l as [|[b z] l]; [done|]. rewrite Ht.
    destruct (last (((b, z) :: l).*1)) as [t|] eqn:El; [|by apply last_None in El].
    eexists. split; [done|]. split_and!; try done.
    + constructor; simpl; [|done..]. by apply (chain_snoc (heap tp) (Some hd) ((b, z) :: l) t a f x).
    + intros c Hb. simpl. rewrite lookup_alter_is_Some. destruct (decide (a = c)) as [->|].
      * by rewrite lookup_insert_eq.
      * by rewrite lookup_insert_ne.
  - destruct l as [|[b [g y]] l]; [|by destruct Hc]. simpl.
    eexists. split; [done|]. split_and!; try done.
    + constructor; simpl; [|done..]. split; [done|]. exists None. by rewrite lookup_insert_eq.
    + intros c Hb. simpl. destruct (decide (a = c)) as [->|].
      * by rewrite lookup_insert_eq.
      * by rewrite lookup_insert_ne.
Qed.

(** Freeing the list frees exactly its nodes. *)
Lemma free_tasks_lookup l h p n b :
  chain h p l -> NoDup (l.*1) -> (size h <= n)%nat ->
  free_tasks n h p !! b = if decide (b ∈ l.*1) then None else h !! b.
Proof.
  revert h p n. induction l as [|[a [f x]] l IH]; intros h p n Hc Hnd Hn.
  - simpl in Hc. subst p. rewrite decide_False by (apply not_elem_of_nil). by destruct n.
  - destruct Hc as (-> & m & Ha & Hc). rewrite fmap_cons in *. apply NoDup_cons in Hnd as [Hal Hnd].
    simpl in Hal.
    pose proof (map_size_delete_Some a h (ex_intro _ _ Ha)) as Hsz.
    assert (size h <> 0%nat) as Hs0 by (intros E; apply map_size_empty_inv in E; subst; by rewrite lookup_empty in Ha).
    destruct n as [|n]; [lia|]. simpl. rewrite Ha. simpl.
    rewrite IH; [|by eapply chain_frame; [|intros c Hcl; apply lookup_delete_ne; intros ->]|done|lia].
    destruct (decide (b = a)) as [->|Hba].
    + rewrite decide_False by done. rewrite decide_True by (apply elem_of_cons; by left).
      apply lookup_delete_eq.
    + rewrite lookup_delete_ne by done. destruct (decide (b ∈ l.*1)) as [Hb|Hb].
      * rewrite decide_True by (apply elem_of_cons; by right). done.
      * rewrite decide_False; [done|]. apply not_elem_of_cons. done.
Qed.

(** ** One step of the code on the queue *)

(** The task a thread at this point owns: taken and not yet freed. *)
Definition point_task (p : pool_point) : option nat :=
  match p with
  | PBarrier a | PBarrierResume a | PRun a | PSignal a | PEpWait a | PEpResume a => Some a
  | _ => None
  end.

Definition next_state (tp : thread_pool) (o : pool_outcome) : thread_pool :=
  match o with Return s _ _ | Goto s _ _ | Wait s _ _ => s | Hang => tp end.
Definition next_task (o : pool_outcome) : option nat :=
  match o with Goto _ _ p | Wait _ p _ => point_task p | _ => None end.

(** How the list [l] becomes [l']. *)
Definition list_step (tp : thread_pool) (p : pool_point) (o : pool_outcome)
    (l l' : list (nat * (Z * Z))) : Prop :=
  (l' = l /\ (next_task o = point_task p \/ next_task o = None)) \/
  (exists f x a, p = PEnqueue f x true /\ f <> 0 /\ heap tp !! a = None /\
     l' = l ++ [(a, (f, x))] /\ next_task o = None) \/
  (exists tp' a f x, (p = PCheck \/ p = PCheckResume) /\ l = (a, (f, x)) :: l' /\
     o = Goto tp' NoSignal (PBarrier a)) \/
  (p = PJoin /\ l' = [] /\ exists tp', o = Return tp' NoSignal 0).

Record good_step (tp : thread_pool) (p : pool_point) (ret : Z) (l : list (nat * (Z * Z)))
    (o : pool_outcome) : Prop := {
  gs_hang : o = Hang -> p = PCheckResume /\ ret = ETIMEDOUT;
  gs_list : exists l', represents (next_state tp o) l' /\ list_step tp p o l l';
  gs_heap b : is_Some (heap tp !! b) -> b ∉ l.*1 ->
    point_task p <> Some b \/ next_task o = point_task p ->
    is_Some (heap (next_state tp o) !! b);
}.

(** A step that touches neither the list nor the heap. *)
Lemma good_idle tp p ret l o :
  represents tp l -> (o = Hang -> p = PCheckResume /\ ret = ETIMEDOUT) -> (next_task o = point_task p \/ next_task o = None) ->
  heap (next_state tp o) = heap tp -> head (next_state tp o) = head tp ->
  tail (next_state tp o) = tail tp -> good_step tp p ret l o.
Proof.
  intros [] Ho Hn Hh Hd Ht. constructor; [done| |by rewrite Hh].
  exists l. split; [constructor; rewrite ?Hh, ?Hd, ?Ht; done|]. left. done.
Qed.

Lemma worker_take_good tp p ret l :
  represents tp l -> p = PCheck \/ p = PCheckResume -> good_step tp p ret l (worker_take tp).
Proof.
  intros Hq Hp. assert (point_task p = None) as Hpt by by destruct Hp as [-> | ->].
  unfold worker_take. destruct (shutdown tp).
  { by apply good_idle; try done; right. }
  destruct Hq as [Hc Hnd Ht]. destruct l as [|[a [f x]] l].
  { simpl in Hc. rewrite Hc. by apply good_idle; try done; right. }
  destruct Hc as (Hhd & n & Ha & Hc). rewrite Hhd, Ha. rewrite fmap_cons in *.
  apply NoDup_cons in Hnd as [_ Hnd]. constructor; simpl; [done| |done].
  exists l. split.
  - constructor; simpl; [done..|]. destruct l as [|[b [g y]] l]; simpl in Hc; [by subst|].
    destruct Hc as (-> & _). done.
  - right; right; left. by eexists _, a, f, x.
Qed.

Lemma worker_loop_good tp p ret l :
  represents tp l -> p = PCheck \/ p = PCheckResume -> good_step tp p ret l (worker_loop tp).
Proof.
  intros Hq Hp. unfold worker_loop.
  destruct (bool_decide (head tp = None) && negb (shutdown tp)); [|by apply worker_take_good].
  by apply good_idle; try done; right.
Qed.

Lemma in_wait2_good tp p ret a l o :
  represents tp l -> point_task p = Some a -> is_Some (heap tp !! a) -> a ∉ l.*1 ->
  (exists e sg r, o = Return e sg r) \/ (exists e k cv, o = Wait e k cv) ->
  good_step tp p ret l (in_wait2 tp a o).
Proof.
  intros Hq Hp Hs Ha [(e & sg & r & ->)|(e & k & cv & ->)]; simpl.
  - constructor; simpl; [done| |intros b Hb _ [Hne|E]].
    + exists l. split; [|by left; split; [|right]]. destruct Hq as [Hc Hnd Ht].
      constructor; simpl; [|done..]. eapply chain_frame; [done|].
      intros b Hb. apply lookup_delete_ne. by intros ->.
    + rewrite lookup_delete_ne; [done|]. intros ->. by rewrite Hp in Hne.
    + by rewrite Hp in E.
  - apply good_idle; simpl; rewrite ?Hp; auto; done.
Qed.

Lemma event_wait_loop_shape st :
  (exists e sg r, event_wait_loop Ev2 st = Return e sg r) \/
  (exists e k cv, event_wait_loop Ev2 st = Wait e k cv).
Proof. unfold event_wait_loop. case_match; [right|left]; eauto. Qed.

Lemma pool_code_good i p ret tp l :
  represents tp l -> (forall a, point_task p = Some a -> is_Some (heap tp !! a) /\ a ∉ l.*1) ->
  good_step tp p ret l (pool_code i p ret tp).
Proof.
  intros Hq Hheld. destruct p; simpl.
  - destruct (shutdown tp); apply good_idle; auto; done.
  - apply worker_loop_good; auto.
  - unfold worker_resume. destruct (Z.eqb_spec ret ETIMEDOUT); [by apply good_idle; auto|].
    destruct (ret =? 0); simpl; [apply worker_loop_good; auto|apply good_idle; auto; done].
  - unfold barrier_wait. cbn zeta. case_match; simpl; apply good_idle; auto; done.
  - apply good_idle; auto; done.
  - apply good_idle; auto; done.
  - apply good_idle; auto; done.
  - destruct (Hheld a eq_refl). apply in_wait2_good; auto. apply event_wait_loop_shape.
  - destruct (Hheld a eq_refl). apply in_wait2_good; auto. unfold event_wait_resume.
    case_match; [left; eauto|apply event_wait_loop_shape].
  - unfold thread_pool_enqueue. destruct (Z.eqb_spec f 0); [by apply good_idle; auto|].
    destruct malloc_ok; simpl; [|by apply good_idle; auto].
    destruct (malloc_fresh tp l Hq) as [Hn Hl].
    destruct (link_task_represents tp l _ f x Hq Hn Hl) as (tp' & -> & Hq' & _ & _ & _ & Hd).
    constructor; simpl; [done| |by auto].
    exists (l ++ [(malloc_task tp, (f, x))]). split; [done|]. right; left. by eexists f, x, _.
  - apply good_idle; auto; done.
  - unfold destroy_join. destruct (0 <? running tp); [by apply good_idle; auto|].
    constructor; simpl; [done| |].
    + exists []. split; [constructor; simpl; [done|apply NoDup_nil_2|done]|]. right; right; right. eauto.
    + intros b Hb Hbl _. rewrite (free_tasks_lookup l) by (done || apply Hq).
      by rewrite decide_False.
Qed.

(** ** The invariant of the queue *)

Definition held (t : thread pool_point role) : option nat :=
  match t.1 with Ready p _ | Waiting p _ => point_task p | _ => None end.

Record queue_inv (l : list (nat * (Z * Z))) (c : config thread_pool pool_point role) : Prop := {
  qi_rep : represents (shared c) l;
  qi_held i t a : threads c !! i = Some t -> held t = Some a ->
    is_Some (heap (shared c) !! a) /\ a ∉ l.*1;
  qi_distinct i j t u a : i <> j -> threads c !! i = Some t -> threads c !! j = Some u ->
    held t = Some a -> held u <> Some a;
}.

Lemma start_idle {S P G} (s : S) (gs : list G) i t :
  threads (start (P:=P) s gs) !! i = Some t -> exists g, t = (Idle, g) /\ gs !! i = Some g.
Proof. unfold start. simpl. rewrite list_lookup_fmap. destruct (gs !! i); naive_solver. Qed.

Lemma queue_inv_start n k : queue_inv [] (pool_start n k).
Proof.
  constructor; unfold pool_start.
  - constructor; simpl; [done|apply NoDup_nil_2|done].
  - intros i t a Hi Ha. apply start_idle in Hi as (g & -> & _). done.
  - intros i j t u a _ Hi _ Ha. apply start_idle in Hi as (g & -> & _). done.
Qed.

(** What a step of thread [i], from [t] to [t'], preserves it. *)
Lemma queue_inv_update l l' c c' i t t' sg pick :
  queue_inv l c -> threads c !! i = Some t ->
  deliver sg pick (<[i := t']> (threads c)) = Some (threads c') ->
  represents (shared c') l' ->
  (forall j u a, j <> i -> threads c !! j = Some u -> held u = Some a ->
     is_Some (heap (shared c') !! a) /\ (a ∉ l'.*1) /\ held t' <> Some a) ->
  (forall a, held t' = Some a -> is_Some (heap (shared c') !! a) /\ a ∉ l'.*1) ->
  queue_inv l' c'.
Proof.
  intros Hc Hi Hd Hq Hoth Hown.
  assert (forall j t1, threads c' !! j = Some t1 -> exists t0,
    (<[i := t']> (threads c)) !! j = Some t0 /\ held t1 = held t0 /\
    (t1 = t0 \/ exists p g, t1 = (Ready p 0, g))) as Hback.
  { intros j t1 Hj. destruct (deliver_lookup _ _ _ _ _ _ Hd Hj) as (t0 & H0 & H1).
    exists t0. split; [done|]. destruct H1 as [->|(p & cv & g & -> & -> & _)]; eauto. }
  constructor; [done|..].
  - intros j t1 a Hj Ha. destruct (Hback j t1 Hj) as (t0 & H0 & E & _). rewrite E in Ha.
    apply list_lookup_insert_case in H0 as [(<- & -> & _)|(Hne & H0)]; [auto|].
    destruct (Hoth j t0 a) as (? & ? & ?); auto.
  - intros j k t1 u1 a Hjk Hj Hk Ha Hb.
    destruct (Hback j t1 Hj) as (t0 & H0 & E & _). destruct (Hback k u1 Hk) as (u0 & H1 & E1 & _).
    rewrite E in Ha. rewrite E1 in Hb.
    apply list_lookup_insert_case in H0 as [(<- & -> & _)|(Hne & H0)];
      apply list_lookup_insert_case in H1 as [(<- & -> & _)|(Hne1 & H1)]; [done|..].
    + by destruct (Hoth k u0 a) as (_ & _ & ?).
    + by destruct (Hoth j t0 a) as (_ & _ & ?).
    + by apply (qi_distinct _ _ Hc j k t0 u0 a).
Qed.

(** What a step does to the queue: nothing; an enqueuer, which returns 0,
    appends its task; a worker takes the oldest one, and goes to the barrier
    with it; or the pool is destroyed. *)
Definition queue_step (c c' : config thread_pool pool_point role) (q q' : list (Z * Z)) : Prop :=
  q' = q \/
  (exists i f x ret g, threads c !! i = Some (Ready (PEnqueue f x true) ret, g) /\ f <> 0 /\
     q' = q ++ [(f, x)] /\ hist c' = (i, PEnqueue f x true, 0) :: hist c) \/
  (exists i a f x p ret g, threads c !! i = Some (Ready p ret, g) /\ (p = PCheck \/ p = PCheckResume) /\
     q = (f, x) :: q' /\ threads c' !! i = Some (Ready (PBarrier a) 0, g) /\
     (func <$> heap (shared c) !! a) = Some f /\ (arg <$> heap (shared c) !! a) = Some x) \/
  (exists i ret g, threads c !! i = Some (Ready PJoin ret, g) /\ q' = [] /\
     hist c' = (i, PJoin, 0) :: hist c).

Lemma queue_inv_code l c c' i p ret g o t' sg pick :
  queue_inv l c -> threads c !! i = Some (Ready p ret, g) ->
  pool_code i p ret (shared c) = o -> shared c' = next_state (shared c) o ->
  held t' = next_task o ->
  deliver sg pick (<[i := t']> (threads c)) = Some (threads c') ->
  exists l', queue_inv l' c' /\ list_step (shared c) p o l l'.
Proof.
  intros Hc Hi <- Hs Ht' Hd.
  assert (forall a, point_task p = Some a -> is_Some (heap (shared c) !! a) /\ a ∉ l.*1) as Hheld
    by (intros a Ha; by apply (qi_held _ _ Hc i (Ready p ret, g) a Hi)).
  destruct (pool_code_good i p ret (shared c) l (qi_rep _ _ Hc) Hheld)
    as [_ (l' & Hq & Hstep) Hheap].
  rewrite <- Hs in Hheap, Hq. exists l'. split; [|done].
  assert (forall b, b ∈ l'.*1 -> b ∈ l.*1 \/ heap (shared c) !! b = None) as Hl.
  { intros b Hb. destruct Hstep as [[-> _]|[(f & x & a & _ & _ & Ha & -> & _)|[(tp' & a & f & x & _ & -> & _)|(_ & -> & _)]]].
    - by left.
    - rewrite fmap_app in Hb. apply elem_of_app in Hb as [Hb|Hb]; [by left|].
      apply list_elem_of_singleton in Hb as ->. by right.
    - left. apply elem_of_cons. by right.
    - by apply elem_of_nil in Hb. }
  assert (forall a, next_task (pool_code i p ret (shared c)) = Some a -> point_task p <> Some a ->
    a ∈ l.*1 /\ (a ∉ l'.*1) /\ is_Some (heap (shared c') !! a)) as Hnew.
  { intros a Ha Hne.
    destruct Hstep as [[-> [E|E]]|[(f & x & b & _ & _ & _ & _ & E)|[(tp' & b & f & x & Hp & -> & E)|(_ & _ & tp' & E)]]];
      rewrite ?E in Ha; try done.
    simpl in Ha. injection Ha as <-. pose proof (rp_nodup _ _ (qi_rep _ _ Hc)) as Hnd.
    pose proof (rp_chain _ _ (qi_rep _ _ Hc)) as Hch. rewrite fmap_cons in *.
    apply NoDup_cons in Hnd as [Hb _]. split_and!; [apply elem_of_cons; by left|done|].
    rewrite Hs, E. simpl. replace (heap tp') with (heap (shared c)); [by destruct Hch as (_ & n & -> & _)|].
    clear - E Hp Hch. destruct Hch as (Hhd & n & Hn & _).
    assert (worker_take (shared c) = Goto tp' NoSignal (PBarrier b)) as E'.
    { destruct Hp as [-> | ->]; simpl in E; unfold worker_resume, worker_loop in E;
        repeat (case_match; try done). }
    unfold worker_take in E'. rewrite Hhd, Hn in E'. case_match; [done|]. by injection E' as <-. }
  eapply queue_inv_update; [exact Hc|exact Hi|exact Hd|exact Hq| |].
  - intros j u a Hji Hj Ha. destruct (qi_held _ _ Hc j u a Hj Ha) as [Hs0 Hl0].
    assert (point_task p <> Some a) as Hne.
    { intros E. apply (qi_distinct _ _ Hc j i u (Ready p ret, g) a Hji Hj Hi Ha). done. }
    split_and!.
    + apply Hheap; [done|done|by left].
    + intros Hb. destruct (Hl a Hb) as [|E]; [done|]. by destruct Hs0 as [? E1]; rewrite E in E1.
    + rewrite Ht'. intros E. by destruct (Hnew a E Hne).
  - intros a Ha. rewrite Ht' in Ha. destruct (decide (point_task p = Some a)) as [E|E].
    + destruct (Hheld a E) as [Hs0 Hl0]. split.
      * apply Hheap; [done|done|right; congruence].
      * intros Hb. destruct (Hl a Hb) as [|E1]; [done|]. by destruct Hs0 as [? E2]; rewrite E1 in E2.
    + by destruct (Hnew a Ha E) as (_ & ? & ?).
Qed.

(** The data of a node at the head of the list. *)
Lemma chain_head h p l a f x :
  chain h p ((a, (f, x)) :: l) -> (func <$> h !! a) = Some f /\ (arg <$> h !! a) = Some x.
Proof. intros (_ & n & -> & _). done. Qed.

(** A thread stops only where its wait timed out. *)
Lemma code_hang l c i p ret g :
  queue_inv l c -> threads c !! i = Some (Ready p ret, g) ->
  pool_code i p ret (shared c) = Hang -> p = PCheckResume /\ ret = ETIMEDOUT.
Proof.
  intros Hc Hi. refine (gs_hang _ _ _ _ _ (pool_code_good i p ret (shared c) l (qi_rep _ _ Hc) _)).
  intros a Ha. by apply (qi_held _ _ Hc i (Ready p ret, g) a Hi).
Qed.

Lemma queue_inv_step spurious l c e c' :
  queue_inv l c -> exec_event (H := pool_program spurious) c e = Some c' ->
  exists l', queue_inv l' c' /\ queue_step c c' (l.*2) (l'.*2).
Proof.
  intros Hc E. apply step_cases in E.
  destruct E as [i p g Hi Hm Hs Hh Hth|i p cv ret g Hi Hm Hs Hh Hth
    |i pick p ret g s sg x Hi Hcode Hs Hh Hd|i pick p ret g s sg p' Hi Hcode Hs Hh Hd
    |i pick p ret g s p' cv Hi Hcode Hs Hh Hth|i pick p ret g Hi Hcode Hs Hh Hth].
  1,2: exists l; split; [|by left]; eapply (queue_inv_update l l c c' i _ _ NoSignal 0);
    [done|done|simpl; by rewrite Hth|rewrite Hs; apply (qi_rep _ _ Hc)|rewrite Hs|rewrite Hs].
  1-4: intros.
  - destruct (qi_held _ _ Hc j u a) as [? ?]; [done..|]. split_and!; [done..|].
    destruct g, p; done.
  - by destruct g, p.
  - destruct (qi_held _ _ Hc j u a) as [? ?]; [done..|]. split_and!; [done..|].
    intros Ha. by apply (qi_distinct _ _ Hc j i u (Waiting p cv, g) a).
  - by apply (qi_held _ _ Hc i (Waiting p cv, g) a Hi).
  - destruct (queue_inv_code l c c' i p ret g _ (Idle, match g with Worker => Finished | _ => g end) sg pick
      Hc Hi Hcode Hs eq_refl Hd) as (l' & Hc' & Hstep).
    exists l'. split; [done|].
    destruct Hstep as [[-> _]|[(f & y & a & -> & Hf & _ & -> & _)|[(tp' & a & f & y & _ & _ & ?)|(-> & -> & tp' & E)]]];
      [by left|right; left|done|right; right; right].
    + exists i, f, y, ret, g. rewrite fmap_app. split_and!; try done. rewrite Hh. do 2 f_equal.
      simpl in Hcode. unfold thread_pool_enqueue in Hcode.
      destruct (Z.eqb_spec f 0); [done|]. simpl in Hcode. case_match; [|done]. by injection Hcode.
    + exists i, ret, g. split_and!; try done. rewrite Hh. by injection E as -> -> ->.
  - destruct (queue_inv_code l c c' i p ret g _ (Ready p' 0, g) sg pick
      Hc Hi Hcode Hs eq_refl Hd) as (l' & Hc' & Hstep).
    exists l'. split; [done|].
    destruct Hstep as [[-> _]|[(f & y & a & -> & Hf & _ & -> & _)|[(tp' & a & f & y & Hp & -> & E)|(-> & -> & tp' & E)]]];
      [by left| |right; right; left|done].
    + simpl in Hcode. unfold thread_pool_enqueue in Hcode. repeat (case_match; try done).
    + injection E as -> -> ->. exists i, a, f, y, p, ret, g.
      pose proof (chain_head _ _ _ _ _ _ (rp_chain _ _ (qi_rep _ _ Hc))) as [? ?].
      split_and!; try done. by eapply deliver_self.
  - destruct (queue_inv_code l c c' i p ret g _ (Waiting p' cv, g) NoSignal 0
      Hc Hi Hcode Hs eq_refl ltac:(simpl; by rewrite Hth)) as (l' & Hc' & Hstep).
    exists l'. split; [done|].
    destruct Hstep as [[-> _]|[(f & y & a & -> & Hf & _ & -> & _)|[(tp' & a & f & y & Hp & -> & E)|(-> & -> & tp' & E)]]];
      [by left| |done|done].
    simpl in Hcode. unfold thread_pool_enqueue in Hcode. repeat (case_match; try done).
  - destruct (queue_inv_code l c c' i p ret g _ (Hung, g) NoSignal 0
      Hc Hi Hcode Hs eq_refl ltac:(simpl; by rewrite Hth)) as (l' & Hc' & Hstep).
    exists l'. split; [done|].
    destruct (code_hang l c i p ret g Hc Hi Hcode) as [-> ->].
    destruct Hstep as [[-> _]|[(f & y & a & ? & _)|[(tp' & a & f & y & _ & _ & E)|(? & _)]]];
      [by left|done..].
Qed.

Lemma only_late_stop spurious l c e c' i g :
  queue_inv l c -> exec_event (H := pool_program spurious) c e = Some c' ->
  threads c' !! i = Some (Hung, g) ->
  threads c !! i = Some (Hung, g) \/ threads c !! i = Some (Ready PCheckResume ETIMEDOUT, g).
Proof.
  intros Hc E Hi'.
  assert (forall j t sg pick, t.1 <> Hung ->
    deliver sg pick (<[j := t]> (threads c)) = Some (threads c') ->
    threads c !! i = Some (Hung, g)) as Hold.
  { intros j t sg pick Ht Hd.
    destruct (deliver_lookup _ _ _ _ _ _ Hd Hi') as (t0 & H0 & [<-|(? & ? & ? & ? & ? & _)]); [|done].
    by apply list_lookup_insert_case in H0 as [(_ & <- & _)|(_ & ?)]. }
  apply step_cases in E.
  destruct E as [j p g' Hi Hm Hs Hh Hth|j p cv ret g' Hi Hm Hs Hh Hth
    |j pick p ret g' s sg x Hi Hcode Hs Hh Hd|j pick p ret g' s sg p' Hi Hcode Hs Hh Hd
    |j pick p ret g' s p' cv Hi Hcode Hs Hh Hth|j pick p ret g' Hi Hcode Hs Hh Hth].
  1,2,5: left; eapply (Hold j _ NoSignal 0%nat); [|simpl; by rewrite Hth]; done.
  1,2: left; eapply Hold; [|exact Hd]; done.
  rewrite Hth in Hi'. apply list_lookup_insert_case in Hi' as [(<- & [= <-] & _)|(_ & ?)]; [|by left].
  destruct (code_hang l c j p ret g Hc Hi Hcode) as [-> ->]. by right.
Qed.

Lemma queue_reachable spurious n k c :
  reachable (H := pool_program spurious) any (pool_start n k) c -> exists l, queue_inv l c.
Proof.
  apply (reachable_inv (H := pool_program spurious) (fun c => exists l, queue_inv l c)).
  - exists []. apply queue_inv_start.
  - intros c0 e c' _ [l Hc] E. destruct (queue_inv_step spurious l c0 e c' Hc E) as (l' & Hc' & _). eauto.
Qed.

(** ** The invariant of the barrier: everybody in it stays *)

Definition is_worker (t : thread pool_point role) : bool := negb (bool_decide (t.2 = Client)).
Definition active (t : thread pool_point role) : bool := bool_decide (t.2 = Worker).
Definition at_barrier : thread pool_point role -> bool := waits_on barrier_cond.

(** Where a thread can be: never past the barrier. *)
Definition stalled (t : thread pool_point role) : Prop :=
  match t with
  | (Idle, _) | (Hung, _) => True
  | (Ready (PTop | PCheck | PCheckResume | PBarrier _) _, g) => g = Worker
  | (Ready (PEnqueue _ _ _ | PDestroy | PJoin) _, g) => g = Client
  | (Waiting PCheckResume cv, g) => cv = pool_cond /\ g = Worker
  | (Waiting (PBarrierResume _) cv, g) => cv = barrier_cond /\ g = Worker
  | (Waiting PJoin cv, g) => cv = joined /\ g = Client
  | _ => False
  end.

Record stall_inv (n : nat) (c : config thread_pool pool_point role) : Prop := {
  si_place : Forall stalled (threads c);
  si_total : total (bar (shared c)) = Z.of_nat n + 1;
  si_count : count (bar (shared c)) = count_if at_barrier (threads c);
  si_workers : count_if is_worker (threads c) = Z.of_nat n;
  si_running : running (shared c) = count_if active (threads c);
}.

Lemma count_if_roles f n k :
  count_if f (threads (pool_start n k)) =
    (if f (Idle, Worker) then Z.of_nat n else 0) + (if f (Idle, Client) then Z.of_nat k else 0).
Proof.
  unfold pool_start, start. simpl. rewrite map_app, count_if_app.
  by rewrite !fmap_replicate, !count_if_replicate.
Qed.

Lemma stall_inv_start n k : stall_inv n (pool_start n k).
Proof.
  constructor; rewrite ?count_if_roles; [|simpl; lia..].
  apply Forall_lookup. intros i t Hi. by apply start_idle in Hi as (g & -> & _).
Qed.

(** Signals that are not the barrier's wake nobody at the barrier. *)
Definition sg_other (sg : signal) : Prop :=
  match sg with NoSignal => True | Signal cv | Broadcast cv => cv <> barrier_cond end.

Lemma deliver_other sg pick (ts ts' : list (thread pool_point role)) :
  sg_other sg -> deliver sg pick ts = Some ts' -> count_if at_barrier ts' = count_if at_barrier ts.
Proof.
  intros Hsg Hd. destruct sg as [|cv|cv]; simpl in Hsg.
  - by injection Hd as <-.
  - apply deliver_signal in Hd as [[_ ->]|(p & g & Hp & ->)]; [done|].
    rewrite (count_insert_delta _ _ _ _ _ Hp). unfold delta, at_barrier, waits_on. simpl.
    destruct (Nat.eqb_spec cv barrier_cond); [done|]. simpl. lia.
  - injection Hd as <-. apply count_if_map. intros [[| |p cv'|] g]; try done.
    unfold at_barrier, waits_on. simpl. destruct (Nat.eqb_spec cv' cv) as [->|]; [|done]. simpl.
    by destruct (Nat.eqb_spec cv barrier_cond).
Qed.

Lemma deliver_stalled sg pick ts ts' :
  sg_other sg -> deliver sg pick ts = Some ts' -> Forall stalled ts -> Forall stalled ts'.
Proof.
  intros Hsg Hd Hts. apply Forall_lookup. intros j t' Hj.
  destruct (deliver_lookup _ _ _ _ _ _ Hd Hj) as (t & Ht & Hcase).
  pose proof (Forall_lookup_1 _ _ _ _ Hts Ht) as Hok.
  destruct Hcase as [->|(p & cv & g & -> & -> & Hcv)]; [done|].
  destruct p; simpl in *; try done; destruct Hok as [-> ->]; try done.
  destruct Hcv as [-> | ->]; done.
Qed.

Lemma stall_update n c c' i t t' sg pick :
  stall_inv n c -> threads c !! i = Some t ->
  deliver sg pick (<[i := t']> (threads c)) = Some (threads c') ->
  sg_other sg -> stalled t' -> total (bar (shared c')) = total (bar (shared c)) ->
  count (bar (shared c')) = count (bar (shared c)) + delta at_barrier t t' ->
  is_worker t' = is_worker t ->
  running (shared c') = running (shared c) + delta active t t' -> stall_inv n c'.
Proof.
  intros [] Hi Hd Hsg Ht' Htot Hcnt Hw Hrun. constructor.
  - eapply deliver_stalled; [done|done|]. by apply Forall_insert.
  - congruence.
  - rewrite (deliver_other _ _ _ _ Hsg Hd), (count_insert_delta _ _ _ _ _ Hi). congruence.
  - rewrite (deliver_delta is_worker _ _ _ _ _ _ _ ltac:(by intros [[] ?]) Hi Hd).
    unfold delta. rewrite Hw. lia.
  - rewrite (deliver_delta active _ _ _ _ _ _ _ ltac:(by intros [[] ?]) Hi Hd). congruence.
Qed.

(** The worker that arrives at the barrier is not the last one it waits for. *)
Lemma barrier_never_full n c i a ret g :
  stall_inv n c -> threads c !! i = Some (Ready (PBarrier a) ret, g) ->
  count (bar (shared c)) + 1 < total (bar (shared c)).
Proof.
  intros [] Hi. pose proof (Forall_lookup_1 _ _ _ _ si_place0 Hi) as Hg. simpl in Hg. subst g.
  assert (count_if at_barrier (<[i := (Waiting (PBarrierResume a) barrier_cond, Worker)]> (threads c)) <=
          count_if is_worker (<[i := (Waiting (PBarrierResume a) barrier_cond, Worker)]> (threads c))) as Hle.
  { apply count_if_le. apply Forall_insert; [|done]. eapply Forall_impl; [done|].
    intros [[|p r|p cv|] g] Hst Hb; try done. unfold at_barrier, waits_on in Hb. simpl in Hb.
    destruct p; simpl in Hst; try done; by destruct Hst as [-> ->]. }
  rewrite !(count_insert_delta _ _ _ _ _ Hi) in Hle. unfold delta in Hle. simpl in Hle. lia.
Qed.

(** The outcomes of the code for a thread that is not past the barrier. *)
Inductive stall_step (n : nat) (tp : thread_pool) (p : pool_point) : pool_outcome -> Prop :=
| ss_exit : p = PTop \/ p = PCheck \/ p = PCheckResume -> stall_step n tp p (worker_exit tp)
| ss_return tp' sg r :
    bar tp' = bar tp -> running tp' = running tp -> sg_other sg ->
    (p = PJoin -> running tp <= 0) -> (exists f x b, p = PEnqueue f x b) \/ p = PJoin ->
    stall_step n tp p (Return tp' sg r)
| ss_goto tp' sg p' :
    bar tp' = bar tp -> running tp' = running tp -> sg_other sg ->
    (forall g r, stalled (Ready p r, g) -> stalled (Ready p' 0, g)) ->
    stall_step n tp p (Goto tp' sg p')
| ss_wait cv p' :
    cv <> barrier_cond -> (forall g r, stalled (Ready p r, g) -> stalled (Waiting p' cv, g)) ->
    stall_step n tp p (Wait tp p' cv)
| ss_barrier a :
    p = PBarrier a ->
    stall_step n tp p (Wait (with_bar tp {| count := count (bar tp) + 1; total := total (bar tp) |})
      (PBarrierResume a) barrier_cond)
| ss_hang : stall_step n tp p Hang.

Lemma worker_loop_stall n tp p :
  p = PCheck \/ p = PCheckResume -> stall_step n tp p (worker_loop tp).
Proof.
  intros Hp. unfold worker_loop, worker_take.
  destruct (bool_decide (head tp = None) && negb (shutdown tp)).
  { apply ss_wait; [done|]. destruct Hp as [-> | ->]; intros g r ->; done. }
  destruct (shutdown tp); [apply ss_exit; tauto|].
  destruct (head tp) as [a|]; [destruct (heap tp !! a); [|apply ss_hang]|];
    apply ss_goto; try done; destruct Hp as [-> | ->]; done.
Qed.

Lemma pool_code_stall n i p ret g tp :
  stalled (Ready p ret, g) ->
  (forall a, p = PBarrier a -> count (bar tp) + 1 < total (bar tp)) ->
  stall_step n tp p (pool_code i p ret tp).
Proof.
  intros Hst Hb. destruct p; simpl in Hst; try done; simpl.
  - destruct (shutdown tp); [apply ss_exit; auto|by apply ss_goto].
  - apply worker_loop_stall; auto.
  - unfold worker_resume. destruct (ret =? ETIMEDOUT); [apply ss_hang|].
    destruct (ret =? 0); simpl; [apply worker_loop_stall; auto|apply ss_exit; auto].
  - unfold barrier_wait. cbn zeta. simpl. specialize (Hb a eq_refl).
    replace (count (bar tp) + 1 <? total (bar tp)) with true by lia. by apply ss_barrier.
  - unfold thread_pool_enqueue. destruct (f =? 0); [apply ss_return; eauto 6; done|].
    destruct malloc_ok; simpl; [|apply ss_return; eauto 6; done].
    destruct (link_task tp (malloc_task tp) f x) as [tp'|] eqn:El; [|apply ss_hang].
    assert (bar tp' = bar tp /\ running tp' = running tp) as [Eb Er].
    { unfold link_task in El. repeat case_match; simplify_eq; done. }
    apply ss_return; eauto 6; done.
  - by apply ss_goto.
  - unfold destroy_join. destruct (Z.ltb_spec 0 (running tp)).
    + apply ss_wait; [done|]. intros g' r ->. done.
    + apply ss_return; auto; done.
Qed.

Definition no_join (x : nat * pool_point * Z) : Prop := x.1.2 <> PJoin.

(** A thread asleep at the barrier. *)
Definition sleeper (c : config thread_pool pool_point role) (i a : nat) : Prop :=
  threads c !! i = Some (Waiting (PBarrierResume a) barrier_cond, Worker).

Lemma sleeper_stays c c' i a j t t' sg pick :
  sleeper c i a -> threads c !! j = Some t -> j <> i -> sg_other sg ->
  deliver sg pick (<[j := t']> (threads c)) = Some (threads c') -> sleeper c' i a.
Proof.
  unfold sleeper. intros Hi Hj Hne Hsg Hd. pose proof (lookup_lt_Some _ _ _ Hi) as Hlt.
  destruct (lookup_lt_is_Some_2 (threads c') i) as [y Hy].
  { by rewrite (deliver_length _ _ _ _ Hd), length_insert. }
  destruct (deliver_lookup _ _ _ _ _ _ Hd Hy) as (t0 & H0 & Hcase).
  rewrite list_lookup_insert_ne, Hi in H0 by done. injection H0 as <-.
  destruct Hcase as [->|(p & cv & g & [= <- <- <-] & _ & Hcv)]; [done|].
  by destruct Hcv as [-> | ->].
Qed.

Definition keeps_sleepers (c c' : config thread_pool pool_point role) : Prop :=
  forall i a, sleeper c i a ->
    sleeper c' i a /\ (hist c' = hist c \/ exists x, hist c' = x :: hist c /\ no_join x).

Lemma stall_both n c c' i t t' sg pick :
  stall_inv n c -> threads c !! i = Some t ->
  deliver sg pick (<[i := t']> (threads c)) = Some (threads c') ->
  sg_other sg -> stalled t' -> total (bar (shared c')) = total (bar (shared c)) ->
  count (bar (shared c')) = count (bar (shared c)) + delta at_barrier t t' ->
  is_worker t' = is_worker t ->
  running (shared c') = running (shared c) + delta active t t' ->
  (forall p cv g, t <> (Waiting (PBarrierResume p) cv, g)) ->
  (0 < running (shared c) -> hist c' = hist c \/ exists x, hist c' = x :: hist c /\ no_join x) ->
  stall_inv n c' /\ keeps_sleepers c c'.
Proof.
  intros Hc Hi Hd Hsg Ht' Htot Hcnt Hw Hrun Hnb Hh. split; [by eapply stall_update|].
  intros j a Hj. split.
  - eapply sleeper_stays; [done|exact Hi| |done|exact Hd]. intros ->. unfold sleeper in Hj.
    rewrite Hi in Hj. injection Hj as ->. by eapply Hnb.
  - apply Hh. rewrite (si_running _ _ Hc). pose proof (count_if_lookup active _ _ _ Hj eq_refl). lia.
Qed.

Lemma stall_inv_step n l c e c' :
  stall_inv n c -> queue_inv l c -> exec_event (H := pool_program false) c e = Some c' ->
  stall_inv n c' /\ keeps_sleepers c c'.
Proof.
  intros Hc Hq E. apply step_cases in E.
  destruct E as [i p g Hi Hm Hs Hh Hth|i p cv ret g Hi Hm Hs Hh Hth
    |i pick p ret g s sg x Hi Hcode Hs Hh Hd|i pick p ret g s sg p' Hi Hcode Hs Hh Hd
    |i pick p ret g s p' cv Hi Hcode Hs Hh Hth|i pick p ret g Hi Hcode Hs Hh Hth].
  all: pose proof (Forall_lookup_1 _ _ _ _ (si_place _ _ Hc) Hi) as Hst.
  1: eapply (stall_both n c c' i _ _ NoSignal 0); [done|done|simpl; by rewrite Hth|done|..];
    rewrite ?Hs; unfold delta, active; simpl; try done; try lia; [by destruct g, p|intros _; by left].
  1: eapply (stall_both n c c' i _ _ NoSignal 0); [done|done|simpl; by rewrite Hth|done|..];
    rewrite ?Hs; unfold delta, active, at_barrier, waits_on; simpl; try done; try lia;
    [by destruct p; try done; destruct Hst as [-> ->]|destruct p; try done; destruct Hst as [-> ->]; simpl; lia|by destruct p|intros _; by left].
  all: assert (stall_step n (shared c) p (pool_code i p ret (shared c))) as HS
    by (eapply pool_code_stall; [exact Hst|intros a ->; by eapply barrier_never_full]).
  all: simpl in Hcode; rewrite Hcode in HS.
  - subst s. inversion HS as [Hp E1|? ? ? Eb Er Hsg Hj Hp| | | |].
    + subst sg x.
      assert (g = Worker) as -> by (by destruct Hp as [-> |[-> | ->]]).
      eapply stall_both; [done|done|exact Hd|done|..]; rewrite <- ?E1; unfold delta; simpl; try done; try lia.
      intros _. right. eexists. split; [exact Hh|]. by destruct Hp as [-> |[-> | ->]].
    + assert (g = Client) as -> by (by destruct Hp as [(? & ? & ? & ->) | ->]).
      eapply stall_both; [done|done|exact Hd|done|..]; rewrite ?Eb, ?Er; unfold delta; simpl; try done; try lia.
      intros Hr. right. eexists. split; [exact Hh|]. intros E. specialize (Hj E). lia.
  - subst s. inversion HS as [| |? ? ? Eb Er Hsg Hq'| | |].
    eapply stall_both; [done|done|exact Hd|done|..]; rewrite ?Eb, ?Er; unfold delta, active; simpl;
      try done; try lia; [by eapply Hq'|intros _; by left].
  - subst s. inversion HS as [| | |? ? Hcv Hq' E1|a Hp E1|].
    + eapply (stall_both n c c' i _ _ NoSignal 0); [done|done|simpl; by rewrite Hth|done|..];
        rewrite <- ?E1; unfold delta, active, at_barrier, waits_on; simpl; try done; try lia;
        [by eapply Hq'|intros _; by left].
    + subst p p' cv. eapply (stall_both n c c' i _ _ NoSignal 0); [done|done|simpl; by rewrite Hth|done|..];
        rewrite <- ?E1; unfold delta, active; simpl; try done; try lia; intros _; by left.
  - eapply (stall_both n c c' i _ _ NoSignal 0); [done|done|simpl; by rewrite Hth|done|..];
      rewrite ?Hs; unfold delta, active; simpl; try done; try lia. intros _; by left.
Qed.

Lemma stall_run n l c es c' :
  stall_inv n c -> queue_inv l c -> run (H := pool_program false) c es = Some c' ->
  stall_inv n c' /\ forall i a, sleeper c i a ->
    sleeper c' i a /\ exists new, hist c' = new ++ hist c /\ Forall no_join new.
Proof.
  revert l c. induction es as [|e es IH]; intros l c Hc Hq E; simpl in E.
  - injection E as <-. split; [done|]. intros i a Hi. split; [done|]. by exists [].
  - apply bind_Some in E as (c1 & E1 & E).
    destruct (stall_inv_step n l c e c1 Hc Hq E1) as [Hc1 Hk].
    destruct (queue_inv_step false l c e c1 Hq E1) as (l1 & Hq1 & _).
    destruct (IH l1 c1 Hc1 Hq1 E) as [Hc' Hrun]. split; [done|]. intros i a Hi.
    destruct (Hk i a Hi) as [Hi1 Hh]. destruct (Hrun i a Hi1) as [Hi' (new & Hn & Hf)].
    split; [done|]. destruct Hh as [Hh|(x & Hh & Hx)].
    + exists new. by rewrite Hn, Hh.
    + exists (new ++ [x]). rewrite Hn, Hh, <- app_assoc. split; [done|].
      apply Forall_app. split; [done|by constructor].
Qed.

Lemma pool_run n k es c :
  run (H := pool_program false) (pool_start n k) es = Some c ->
  stall_inv n c /\ exists l, queue_inv l c.
Proof.
  intros E. split.
  - by apply (stall_run n [] (pool_start n k) es c (stall_inv_start n k) (queue_inv_start n k) E).
  - apply (queue_reachable false n k). exists es. split; [clear; by induction es|done].
Qed.

(** ** Properties *)


(** C16: no task is ever run.  The barrier is initialised for one thread more
    than there are workers, and nobody else waits at it: unless a wait at the
    barrier is woken spuriously, in every execution every worker that takes a
    task sleeps at the barrier, which at most [n] threads ever reach while it
    waits for [n + 1].  A worker whose wait for tasks timed out stops there
    (C7), as what it does next is undefined. *)
Theorem thread_pool_runs_nothing n k es c :
  run (H := pool_program false) (pool_start n k) es = Some c ->
  (forall i a ret g, threads c !! i <> Some (Ready (PRun a) ret, g)) /\
  count (bar (shared c)) <= Z.of_nat n < total (bar (shared c)) /\
  (forall i a ret g pick c', threads c !! i = Some (Ready (PBarrier a) ret, g) ->
     exec_event (H := pool_program false) c (Run i pick) = Some c' -> sleeper c' i a).
Proof.
  intros E. apply pool_run in E as [Hc [l Hq]]. split_and!.
  - intros i a ret g Hi. by pose proof (Forall_lookup_1 _ _ _ _ (si_place _ _ Hc) Hi).
  - rewrite (si_count _ _ Hc), <- (si_workers _ _ Hc). apply count_if_le.
    eapply Forall_impl; [apply (si_place _ _ Hc)|]. intros [[|p r|p cv|] g] Hst Hb; try done.
    destruct p; simpl in Hst; try done; destruct Hst as [-> ->]; done.
  - rewrite (si_total _ _ Hc). lia.
  - intros i a ret g pick c' Hi E. simpl in E. rewrite Hi in E. simpl in E. unfold barrier_wait in E.
    cbn zeta in E. simpl in E. pose proof (barrier_never_full _ _ _ _ _ _ Hc Hi) as Hb.
    replace (count (bar (shared c)) + 1 <? total (bar (shared c))) with true in E by lia.
    injection E as <-. unfold sleeper. simpl.
    pose proof (Forall_lookup_1 _ _ _ _ (si_place _ _ Hc) Hi) as Hg. simpl in Hg. subst g.
    apply list_lookup_insert_eq. by eapply lookup_lt_Some.
Qed.

(** A pool that has been used cannot be destroyed.  Once a worker sleeps
    at the barrier with a task, it sleeps there in every continuation, and
    thread_pool_destroy, which joins all the workers, does not return. *)
Theorem thread_pool_destroy_hangs n k es c i a es' c' :
  run (H := pool_program false) (pool_start n k) es = Some c -> sleeper c i a ->
  run (H := pool_program false) c es' = Some c' ->
  sleeper c' i a /\ exists new, hist c' = new ++ hist c /\ Forall no_join new.
Proof.
  intros E Hi E'. apply pool_run in E as [Hc [l Hq]].
  by apply (stall_run n l c es' c' Hc Hq E').
Qed.

(** ** Witnesses *)

(** Two workers, two clients; the first client enqueues a task, and the first
    worker takes it to the barrier. *)
Definition pool_trace : list (event pool_point) :=
  [Call 0 PTop; Call 1 PTop; Run 0 0; Run 1 0; Run 0 0; Call 2 (PEnqueue 7 70 true); Run 2 0;
   Run 0 0].


Lemma thread_pool_runs_nothing_witness :
  exists c, run (H := pool_program false) (pool_start 2 2) (pool_trace ++ [Run 0 0]) = Some c /\
    sleeper c 0 0 /\ count (bar (shared c)) = 1 /\
    forall i a ret g, threads c !! i <> Some (Ready (PRun a) ret, g).
Proof.
  eexists. split; [vm_compute; reflexivity|]. split; [reflexivity|]. split; [reflexivity|].
  apply (thread_pool_runs_nothing 2 2 (pool_trace ++ [Run 0 0])). vm_compute. reflexivity.
Defined.

Lemma thread_pool_destroy_hangs_witness :
  exists c c', run (H := pool_program false) (pool_start 2 2) (pool_trace ++ [Run 0 0]) = Some c /\
    run (H := pool_program false) c
      [Call 3 PDestroy; Run 3 1; Run 1 0; Run 3 0] = Some c' /\ sleeper c' 0 0.
Proof.
  assert (exists c c', run (H := pool_program false) (pool_start 2 2) (pool_trace ++ [Run 0 0]) = Some c /\
    run (H := pool_program false) c [Call 3 PDestroy; Run 3 1; Run 1 0; Run 3 0] = Some c' /\
    sleeper c 0 0) as (c & c' & H1 & H2 & H3).
  { eexists _, _. split; [vm_compute; reflexivity|]. split; vm_compute; reflexivity. }
  exists c, c'. split; [assumption|]. split; [assumption|].
  apply (thread_pool_destroy_hangs 2 2 (pool_trace ++ [Run 0 0]) c 0 0
    [Call 3 PDestroy; Run 3 1; Run 1 0; Run 3 0] c' H1 H3 H2).
Defined.
