(* ===== verification/Lifecycle.v ===== *)
(** * Lifecycle: how the library's objects are created and destroyed

    The init and destroy functions of rwlock.c, fifo_semaphore.c,
    recursive_mutex.c, deadlock_detector.c, timer.c, barrier.c, event_pair.c,
    dining_philosophers.c, monitor.c, bme680_config.c, thread_pool.c and
    assembly_line.c, over the memory of CMem.  A parameter [T *x] is a
    variable of the definition (an assignment to it is a rebinding, which the
    caller does not see), a parameter [T **x] the address of the caller's
    variable.  They run while no other thread uses the object; how the
    threads they join end is an answer of the system.

    The first five functions assign their own parameter: they leak what they
    allocate and leave the caller's object as it was.  The others give the
    memory back in full, unless they own an object of the first kind. *)

From S2P Require Import Prelude CMem.
From S2P Require Rwlock.

(** Nothing runs when the thread is cancelled. *)
Definition no_cleanup (_ : ptr) : C unit := mret tt.

(** ** Objects whose init assigns its own parameter *)

Definition rwlock_init (rwlock : ptr) : C Z :=
  rwlock ← malloc 1;
  if is_null rwlock then mret (- ENOMEM) else
  _ ← pthread_mutex_init (rwlock ~> "mutex");
  _ ← pthread_cond_init (rwlock ~> "readers_proceed");
  _ ← pthread_cond_init (rwlock ~> "writer_proceed");
  _ ← store (rwlock ~> "active_readers") (VInt 0);
  _ ← store (rwlock ~> "active_writers") (VInt 0);
  _ ← store (rwlock ~> "waiting_readers") (VInt 0);
  _ ← store (rwlock ~> "waiting_writers") (VInt 0);
  mret 0.

Definition rwlock_destroy (rwlock : ptr) : C unit :=
  _ ← pthread_mutex_destroy (rwlock ~> "mutex");
  _ ← pthread_cond_destroy (rwlock ~> "readers_proceed");
  _ ← pthread_cond_destroy (rwlock ~> "writer_proceed");
  free rwlock.

(** rwlock_wrlock when no other thread is there: a wait times out. *)
Definition rwlock_wrlock (rwlock : ptr) : C Z :=
  _ ← pthread_mutex_lock (rwlock ~> "mutex");
  ww ← load_int (rwlock ~> "waiting_writers");
  if Rwlock.MAX_WAITING_WRITERS <=? ww then
    _ ← pthread_mutex_unlock (rwlock ~> "mutex"); mret (- EAGAIN)
  else
  _ ← store (rwlock ~> "waiting_writers") (VInt (ww + 1));
  ar ← load_int (rwlock ~> "active_readers");
  aw ← load_int (rwlock ~> "active_writers");
  if negb (ar =? 0) || negb (aw =? 0) then
    _ ← store (rwlock ~> "waiting_writers") (VInt ww);
    _ ← pthread_mutex_unlock (rwlock ~> "mutex"); mret (- ETIMEDOUT)
  else
  _ ← store (rwlock ~> "waiting_writers") (VInt ww);
  _ ← store (rwlock ~> "active_writers") (VInt (aw + 1));
  if (ar <? 0) || (aw + 1 <? 0) then
    _ ← pthread_mutex_unlock (rwlock ~> "mutex"); mret (- EINVAL)
  else
  _ ← pthread_mutex_unlock (rwlock ~> "mutex");
  mret 0.

Definition fifo_semaphore_init (sem : ptr) (value : Z) : C Z :=
  sem ← malloc 1;
  if is_null sem then mret (- ENOMEM) else
  _ ← pthread_mutex_init (sem ~> "mutex");
  _ ← pthread_cond_init (sem ~> "cond");
  if value <? 0 then _ ← free sem; mret (- EINVAL) else
  _ ← store (sem ~> "count") (VInt value);
  mret 0.

Definition fifo_semaphore_destroy (sem : ptr) : C unit :=
  _ ← pthread_mutex_destroy (sem ~> "mutex");
  _ ← pthread_cond_destroy (sem ~> "cond");
  free sem.

Definition recursive_mutex_init (rmutex : ptr) : C Z :=
  rmutex ← malloc 1;
  if is_null rmutex then mret (- ENOMEM) else
  _ ← pthread_mutex_init (rmutex ~> "mutex");
  _ ← store (rmutex ~> "owner") (VInt 0);
  _ ← store (rmutex ~> "count") (VInt 0);
  mret 0.

Definition recursive_mutex_destroy (rmutex : ptr) : C unit :=
  _ ← pthread_mutex_destroy (rmutex ~> "mutex");
  free rmutex.

Definition deadlock_detector_init (dd : ptr) (num_mutexes : Z) : C Z :=
  dd ← malloc 1;
  if is_null dd then mret (- ENOMEM) else
  locks ← malloc num_mutexes;
  _ ← store (dd ~> "locks") (VPtr locks);
  if is_null locks then _ ← free dd; mret (- ENOMEM) else
  _ ← store (dd ~> "num_mutexes") (VInt num_mutexes);
  _ ← for_each num_mutexes (fun i =>
        locks ← load_ptr (dd ~> "locks");
        _ ← store (locks ~[ i ] ~> "owner") (VInt 0);
        locks ← load_ptr (dd ~> "locks");
        store (locks ~[ i ] ~> "locked") (VInt 0));
  _ ← pthread_mutex_init (dd ~> "mutex");
  mret 0.

Definition deadlock_detector_destroy (dd : ptr) : C unit :=
  _ ← pthread_mutex_destroy (dd ~> "mutex");
  locks ← load_ptr (dd ~> "locks");
  _ ← free locks;
  free dd.

(** The handler that timer_task pushes. *)
Definition timer_cleanup (t : ptr) : C unit := free t.

Definition timer_init (timer : ptr) (interval_ms : Z) (callback arg : ptr) : C Z :=
  timer ← malloc 1;
  if is_null timer then mret (- ENOMEM) else
  _ ← store (timer ~> "interval_ms") (VInt interval_ms);
  _ ← store (timer ~> "callback") (VPtr callback);
  _ ← store (timer ~> "arg") (VPtr arg);
  _ ← store (timer ~> "running") (VInt 1);
  r ← pthread_create (timer ~> "thread") timer;
  if negb (r =? 0) then _ ← free timer; mret (-1) else
  mret 0.

Definition timer_destroy (timer : ptr) : C unit :=
  _ ← store (timer ~> "running") (VInt 0);
  _ ← pthread_cancel (timer ~> "thread");
  pthread_join timer_cleanup (timer ~> "thread").

(** ** Objects created through the address of the caller's pointer *)

Definition barrier_init (barrier : ptr) (total : Z) : C Z :=
  if total <=? 0 then mret (- EINVAL) else
  b ← malloc 1;
  _ ← store barrier (VPtr b);
  if is_null b then mret (- ENOMEM) else
  _ ← pthread_mutex_init (b ~> "mutex");
  _ ← pthread_cond_init (b ~> "cond");
  _ ← store (b ~> "count") (VInt 0);
  _ ← store (b ~> "total") (VInt total);
  mret 0.

Definition barrier_destroy (barrier : ptr) : C unit :=
  if is_null barrier then mret tt else
  _ ← pthread_mutex_destroy (barrier ~> "mutex");
  _ ← pthread_cond_destroy (barrier ~> "cond");
  free barrier.

Definition event_pair_init (ep : ptr) : C Z :=
  p ← malloc 1;
  _ ← store ep (VPtr p);
  if is_null p then mret (- ENOMEM) else
  _ ← pthread_mutex_init (p ~> "mutex");
  _ ← pthread_cond_init (p ~> "cond1");
  _ ← pthread_cond_init (p ~> "cond2");
  _ ← store (p ~> "state") (VInt 0);
  mret 0.

Definition event_pair_destroy (ep : ptr) : C unit :=
  _ ← pthread_mutex_destroy (ep ~> "mutex");
  _ ← pthread_cond_destroy (ep ~> "cond1");
  _ ← pthread_cond_destroy (ep ~> "cond2");
  free ep.

(** The handler that the waits push. *)
Definition event_cleanup (ep : ptr) : C unit :=
  _ ← pthread_cond_destroy (ep ~> "cond1");
  pthread_cond_destroy (ep ~> "cond2").

(** errno as an init reads it. *)
Definition get_errno : C Z := fun m => Done (errno m) m.

(** One turn of the loop over the forks; on a failure the forks before it
    are destroyed and the function returns. *)
Definition init_fork (d : ptr) (i : Z) : C (option Z) :=
  forks ← load_ptr (d ~> "forks");
  r ← pthread_mutex_init (forks ~[ i ]);
  if negb (r =? 0) then
    _ ← for_each i (fun j =>
          forks ← load_ptr (d ~> "forks");
          pthread_mutex_destroy (forks ~[ j ]));
    forks ← load_ptr (d ~> "forks");
    _ ← free forks;
    _ ← free d;
    e ← get_errno;
    mret (Some (- e))
  else mret None.

Definition dining_philosophers_init (dp : ptr) (num_philosophers : Z) : C Z :=
  if num_philosophers <=? 0 then mret (- EINVAL) else
  d ← malloc 1;
  _ ← store dp (VPtr d);
  if is_null d then mret (- ENOMEM) else
  _ ← store (d ~> "num_philosophers") (VInt num_philosophers);
  _ ← store (d ~> "running") (VInt 1);
  forks ← malloc num_philosophers;
  _ ← store (d ~> "forks") (VPtr forks);
  if is_null forks then _ ← free d; mret (- ENOMEM) else
  r ← for_loop (Z.to_nat num_philosophers) 0 (init_fork d);
  mret (default 0 r).

Definition dining_philosophers_destroy (dp : ptr) : C unit :=
  if is_null dp then mret tt else
  _ ← store (dp ~> "running") (VInt 0);
  n ← load_int (dp ~> "num_philosophers");
  _ ← for_each n (fun i =>
        forks ← load_ptr (dp ~> "forks");
        pthread_mutex_destroy (forks ~[ i ]));
  forks ← load_ptr (dp ~> "forks");
  _ ← free forks;
  free dp.

(** ** Objects that own other objects *)

Definition bme680_monitor_init (monitor : ptr) (size : Z) : C Z :=
  p ← malloc 1;
  _ ← store monitor (VPtr p);
  if is_null p then mret (- ENOMEM) else
  data ← malloc size;
  _ ← store (p ~> "data") (VPtr data);
  if is_null data then _ ← free p; mret (- ENOMEM) else
  _ ← store (p ~> "size") (VInt size);
  _ ← store (p ~> "head") (VInt 0);
  _ ← store (p ~> "tail") (VInt 0);
  _ ← store (p ~> "count") (VInt 0);
  _ ← pthread_mutex_init (p ~> "mutex");
  _ ← pthread_cond_init (p ~> "not_full");
  _ ← pthread_cond_init (p ~> "not_empty");
  _ ← rwlock_init (p ~> "rwlock");
  _ ← deadlock_detector_init (p ~> "dd") 2;
  mret 0.

Definition bme680_monitor_destroy (monitor : ptr) : C unit :=
  _ ← rwlock_wrlock (monitor ~> "rwlock");
  data ← load_ptr (monitor ~> "data");
  _ ← free data;
  _ ← pthread_mutex_destroy (monitor ~> "mutex");
  _ ← pthread_cond_destroy (monitor ~> "not_full");
  _ ← pthread_cond_destroy (monitor ~> "not_empty");
  _ ← rwlock_destroy (monitor ~> "rwlock");
  dd ← load_ptr (monitor ~> "dd");
  _ ← deadlock_detector_destroy dd;
  free monitor.

Definition bme680_config_init (config dev : ptr) : C Z :=
  c ← malloc 1;
  _ ← store config (VPtr c);
  if is_null c then mret (- ENOMEM) else
  _ ← store (c ~> "dev") (VPtr dev);
  _ ← rwlock_init (c ~> "rwlock");
  mret 0.

Definition bme680_config_destroy (config : ptr) : C unit :=
  _ ← rwlock_destroy (config ~> "rwlock");
  free config.

(** The list of tasks; [fuel] bounds its length. *)
Fixpoint free_task_list (fuel : nat) (task : ptr) : C unit :=
  if is_null task then mret tt else
  match fuel with
  | O => hangs
  | S fuel =>
    next ← load_ptr (task ~> "next");
    _ ← free task;
    free_task_list fuel next
  end.

Definition thread_pool_destroy (tp : ptr) : C unit :=
  _ ← pthread_mutex_lock (tp ~> "mutex");
  _ ← store (tp ~> "shutdown") (VInt 1);
  _ ← pthread_cond_broadcast (tp ~> "cond");
  _ ← pthread_mutex_unlock (tp ~> "mutex");
  n ← load_int (tp ~> "num_threads");
  _ ← for_each n (fun i =>
        threads ← load_ptr (tp ~> "threads");
        pthread_join no_cleanup (threads ~[ i ]));
  task ← load_ptr (tp ~> "head");
  _ ← (fun m => free_task_list (next m) task m);
  _ ← pthread_mutex_destroy (tp ~> "mutex");
  _ ← pthread_cond_destroy (tp ~> "cond");
  b ← load_ptr (tp ~> "barrier");
  _ ← barrier_destroy b;
  e ← load_ptr (tp ~> "ep");
  _ ← event_pair_destroy e;
  threads ← load_ptr (tp ~> "threads");
  _ ← free threads;
  free tp.

(** The handler that a worker pushes around a task. *)
Definition task_cleanup (task : ptr) : C unit := free task.

(** One turn of the loop that creates the workers. *)
Definition create_worker (tp : ptr) (i : Z) : C (option Z) :=
  threads ← load_ptr (tp ~> "threads");
  r ← pthread_create (threads ~[ i ]) tp;
  if negb (r =? 0) then _ ← thread_pool_destroy tp; mret (Some (-1))
  else mret None.

Definition thread_pool_init (tp : ptr) (num_threads : Z) : C Z :=
  p ← malloc 1;
  _ ← store tp (VPtr p);
  if is_null p then mret (- ENOMEM) else
  threads ← malloc num_threads;
  _ ← store (p ~> "threads") (VPtr threads);
  if is_null threads then _ ← free p; mret (- ENOMEM) else
  _ ← pthread_mutex_init (p ~> "mutex");
  _ ← pthread_cond_init (p ~> "cond");
  _ ← barrier_init (p ~> "barrier") (num_threads + 1);
  _ ← event_pair_init (p ~> "ep");
  _ ← store (p ~> "num_threads") (VInt num_threads);
  _ ← store (p ~> "head") (VPtr Null);
  _ ← store (p ~> "tail") (VPtr Null);
  _ ← store (p ~> "shutdown") (VInt 0);
  r ← for_loop (Z.to_nat num_threads) 0 (create_worker p);
  mret (default 0 r).

(** The handler of a stage frees its element of the array of stages. *)
Definition stage_cleanup (s : ptr) : C unit := free s.

(** One turn of the loop that ends the stages. *)
Definition join_stage (al : ptr) (i : Z) : C unit :=
  stages ← load_ptr (al ~> "stages");
  _ ← store (stages ~[ i ] ~> "running") (VInt 0);
  stages ← load_ptr (al ~> "stages");
  _ ← pthread_cancel (stages ~[ i ] ~> "thread");
  stages ← load_ptr (al ~> "stages");
  pthread_join stage_cleanup (stages ~[ i ] ~> "thread").

Definition assembly_line_destroy (al : ptr) : C unit :=
  r ← pthread_mutex_timedlock (al ~> "mutex");
  if negb (r =? 0) then mret tt else
  n ← load_int (al ~> "num_stages");
  _ ← for_each n (join_stage al);
  data ← load_ptr (al ~> "data");
  _ ← free data;
  b ← load_ptr (al ~> "barrier");
  _ ← barrier_destroy b;
  d ← load_ptr (al ~> "dp");
  _ ← dining_philosophers_destroy d;
  _ ← pthread_mutex_unlock (al ~> "mutex");
  _ ← pthread_mutex_destroy (al ~> "mutex");
  stages ← load_ptr (al ~> "stages");
  _ ← free stages;
  free al.

(** One turn of the loop that creates the stages. *)
Definition create_stage (al : ptr) (i : Z) : C (option Z) :=
  stages ← load_ptr (al ~> "stages");
  _ ← store (stages ~[ i ] ~> "id") (VInt i);
  _ ← store (stages ~[ i ] ~> "al") (VPtr al);
  _ ← store (stages ~[ i ] ~> "running") (VInt 1);
  r ← pthread_create (stages ~[ i ] ~> "thread") (stages ~[ i ]);
  if negb (r =? 0) then _ ← assembly_line_destroy al; mret (Some (-1))
  else mret None.

Definition assembly_line_init (al : ptr) (num_stages : Z) : C Z :=
  p ← malloc 1;
  _ ← store al (VPtr p);
  if is_null p then mret (- ENOMEM) else
  stages ← malloc num_stages;
  _ ← store (p ~> "stages") (VPtr stages);
  if is_null stages then _ ← free p; mret (- ENOMEM) else
  _ ← store (p ~> "num_stages") (VInt num_stages);
  _ ← pthread_mutex_init (p ~> "mutex");
  _ ← barrier_init (p ~> "barrier") num_stages;
  _ ← dining_philosophers_init (p ~> "dp") num_stages;
  data ← malloc 1;
  _ ← store (p ~> "data") (VPtr data);
  if is_null data then _ ← assembly_line_destroy p; mret (- ENOMEM) else
  r ← for_loop (Z.to_nat num_stages) 0 (create_stage p);
  mret (default 0 r).

(** * Theorems *)

(** ** What a run leaves of the memory *)

(** The blocks that existed are as they were. *)
Definition extends (m m' : mem) : Prop :=
  (next m <= next m')%nat /\ forall l, (l < next m)%nat -> heap m' !! l = heap m !! l.

(** A cell of the first block points into the second. *)
Definition edge (h : gmap nat block) (l l' : nat) : Prop :=
  exists b q q', h !! l = Some b /\ cells b !! q = Some (VPtr (At l' q')).

(** No pointer goes out of the blocks allocated so far. *)
Definition closed (m : mem) : Prop :=
  forall l l', edge (heap m) l l' -> (l' < next m)%nat.

(** From an old block only old blocks can be reached. *)
Lemma extends_unreachable m m' l l' :
  extends m m' -> closed m -> (l < next m)%nat -> rtc (edge (heap m')) l l' ->
  (l' < next m)%nat.
Proof.
  intros [_ He] Hc Hl Hr. induction Hr as [l|l l1 l' (b & q & q' & Hb & Hq) _ IH]; [done|].
  apply IH, (Hc l). exists b, q, q'. by rewrite <- He.
Qed.

(** ** The inits that assign their own parameter *)

(** A failure gives everything back; success adds the block [next m]. *)
Definition leak_post (m : mem) (r : Z) (m' : mem) : Prop :=
  extends m m' /\ scoped (heap m') (next m') /\
  (r < 0 /\ heap m' = heap m \/ r = 0 /\ is_Some (heap m' !! next m)).

Lemma leak_fail m r h ma mi cr en er lv nx :
  scoped (heap m) (next m) -> r < 0 -> (next m <= nx)%nat -> h = heap m ->
  leak_post m r (Mem h nx ma mi cr en er lv).
Proof.
  intros Hm Hr Hn ->. split; [done|]. split; [intros l Hl; apply Hm; simpl in *; lia|]. by left.
Qed.

Lemma leak_one m b ma mi cr en er lv nx :
  scoped (heap m) (next m) -> (next m < nx)%nat ->
  leak_post m 0 (Mem (<[next m := b]> (heap m)) nx ma mi cr en er lv).
Proof.
  intros Hm Hn. split; [split; simpl; [lia|]|].
  { intros l Hl. by rewrite lookup_insert_ne by lia. }
  split; [intros l Hl; simpl in *; rewrite lookup_insert_ne by lia; apply Hm; lia|].
  right. simpl. by rewrite lookup_insert_eq.
Qed.

Ltac leak :=
  first [ apply leak_one; [assumption|simpl; lia]
        | apply leak_fail;
          [assumption|unfold ENOMEM, EINVAL; lia|simpl; lia|cbn [heap]; heap_eq] ].

Section leaks.
Context (m : mem) (Hm : scoped (heap m) (next m)).

Lemma rwlock_init_leaks p : runs False (rwlock_init p) m (leak_post m).
Proof using Hm.
  destruct m. cbn in Hm. unfold rwlock_init. repeat mem_step; leak. Qed.

Lemma fifo_semaphore_init_leaks p v : runs False (fifo_semaphore_init p v) m (leak_post m).
Proof using Hm.
  destruct m. cbn in Hm. unfold fifo_semaphore_init. repeat mem_step. all: try leak.
  all: destruct (v <? 0); repeat mem_step; leak.
Qed.

Lemma recursive_mutex_init_leaks p : runs False (recursive_mutex_init p) m (leak_post m).
Proof using Hm.
  destruct m. cbn in Hm. unfold recursive_mutex_init. repeat mem_step; leak. Qed.

Lemma timer_init_leaks p ms cb arg : runs False (timer_init p ms cb arg) m (leak_post m).
Proof using Hm.
  destruct m. cbn in Hm. unfold timer_init. repeat mem_step; leak. Qed.

(** The block of the detector and the table are both lost. *)
Lemma deadlock_detector_init_leaks p n :
  runs False (deadlock_detector_init p n) m (leak_post m).
Proof using Hm.
  destruct m as [h nx ma mi cr en er lv]. cbn in Hm. unfold deadlock_detector_init.
  repeat mem_step; try leak.
  set (inv := fun (_ : Z) (m' : mem) => exists b c,
    m' = Mem (<[S nx := Block n c]> (<[nx := b]> h)) (S (S nx)) (tail (tail ma)) mi cr en er lv
    /\ cells b !! [inl "locks"] = Some (VPtr (At (S nx) []))).
  apply (runs_for_each _ inv).
  - eexists _, _. split; [|idtac].
    { rewrite (insert_insert_ne _ nx (S nx)) by lia. by rewrite !insert_insert_eq. }
    reflexivity.
  - intros i m' Hi (b & c & -> & Hb).
    assert (in_bounds (Block n c) [inr i; inl "owner"] = true) by (simpl; lia).
    repeat mem_step. mem_simpl. unfold inv. by eexists _, _.
  - intros m' (b & c & -> & Hb). repeat mem_step;
      (split; [split; simpl; [lia|]; intros l Hl; by rewrite !lookup_insert_ne by lia|]).
    all: split; [intros l Hl; simpl in *; rewrite !lookup_insert_ne by lia; apply Hm; lia|].
    all: right; split; [done|]; cbn; eexists; find_block.
Qed.
End leaks.

(** The inits of the objects passed as [T *]. *)
Definition by_value_inits (p : ptr) (v n ms : Z) (cb arg : ptr) : list (C Z) :=
  [rwlock_init p; fifo_semaphore_init p v; recursive_mutex_init p;
   deadlock_detector_init p n; timer_init p ms cb arg].

(** C37: An init that assigns its own parameter (read-write lock, FIFO
    semaphore, recursive mutex, deadlock detector, timer) never touches the
    object it was given, whatever the system answers.  When it fails, with a
    negative code, the heap is what it was; when it returns 0, the caller's
    object is still what it was, and a new block is left that no block of the
    caller leads to: the object is lost. *)
Theorem by_value_inits_leak (c : C Z) p v n ms cb arg m :
  c ∈ by_value_inits p v n ms cb arg -> scoped (heap m) (next m) -> closed m ->
  exists r m', c m = Done r m' /\
    (forall l, (l < next m)%nat -> heap m' !! l = heap m !! l) /\
    (r < 0 /\ heap m' = heap m \/
     r = 0 /\ exists l, heap m !! l = None /\ is_Some (heap m' !! l) /\
       forall l0, (l0 < next m)%nat -> ~ rtc (edge (heap m')) l0 l).
Proof.
  intros Hc Hs Hcl.
  assert (runs False c m (leak_post m)) as Hr.
  { unfold by_value_inits in Hc. rewrite !elem_of_cons in Hc.
    destruct Hc as [->|[->|[->|[->|[->|Hc]]]]]; [..|by apply not_elem_of_nil in Hc];
    [apply rwlock_init_leaks|apply fifo_semaphore_init_leaks|apply recursive_mutex_init_leaks
    |apply deadlock_detector_init_leaks|apply timer_init_leaks]; done. }
  apply runs_done in Hr as (r & m' & E & He & Hp). exists r, m'.
  split; [done|]. split; [apply He|].
  destruct Hp as [_ [Hp|[-> Hn]]]; [by left|right]. split; [done|].
  exists (next m). split; [by apply Hs|]. split; [done|].
  intros l0 Hl0 Hrtc. pose proof (extends_unreachable m m' l0 (next m) He Hcl Hl0 Hrtc). lia.
Qed.

(** A memory with the variable of a caller, not yet written. *)
Definition caller : mem := Mem {[ 0%nat := Block 1 ∅ ]} 1 [] [] [] [] 0 ∅.

Lemma caller_scoped : scoped (heap caller) (next caller).
Proof. intros l Hl. simpl in *. apply lookup_singleton_ne. lia. Qed.

Lemma caller_closed : closed caller.
Proof.
  intros l l' (b & q & q' & Hb & Hq). simpl in Hb.
  apply lookup_singleton_Some in Hb as [_ <-]. done.
Qed.

Lemma by_value_inits_leak_witness :
  exists r m', rwlock_init (At 0 []) caller = Done r m' /\
    (forall l, (l < 1)%nat -> heap m' !! l = heap caller !! l) /\
    (r < 0 /\ heap m' = heap caller \/
     r = 0 /\ exists l, heap caller !! l = None /\ is_Some (heap m' !! l) /\
       forall l0, (l0 < 1)%nat -> ~ rtc (edge (heap m')) l0 l).
Proof.
  apply (by_value_inits_leak _ (At 0 []) 0 0 0 Null Null caller);
    [by apply list_elem_of_here|apply caller_scoped|apply caller_closed].
Defined.

(** ** Objects created through the caller's pointer *)

(** What the destroy functions need of a block. *)
Definition barrier_obj (b : block) : Prop :=
  cells b !! [inl "mutex"] = Some (VMutex false) /\ cells b !! [inl "cond"] = Some VCond.

Definition event_pair_obj (b : block) : Prop :=
  cells b !! [inl "mutex"] = Some (VMutex false) /\
  cells b !! [inl "cond1"] = Some VCond /\ cells b !! [inl "cond2"] = Some VCond.

(** A table whose forks are in the block [f]. *)
Definition dining_obj (h : gmap nat block) (d f : nat) (n : Z) : Prop :=
  exists bd c, h !! d = Some bd /\ h !! f = Some (Block n c) /\ d <> f /\
    cells bd !! [inl "num_philosophers"] = Some (VInt n) /\
    cells bd !! [inl "forks"] = Some (VPtr (At f [])) /\
    forall i, 0 <= i < n -> c !! [inr i] = Some (VMutex false).

Section objects.
Context {U : Prop} {h : gmap nat block} {nx : nat} {ma mi cr : list bool}
  {en : list ending} {er : Z} {lv : gmap nat (ptr * bool)}.
Context {l : nat} {q : path} {b : block}.

Lemma runs_barrier_destroy (Q : unit -> mem -> Prop) :
  h !! l = Some b -> barrier_obj b -> Q tt (Mem (delete l h) nx ma mi cr en er lv) ->
  runs U (barrier_destroy (At l [])) (Mem h nx ma mi cr en er lv) Q.
Proof.
  intros Hl [Hm Hc] HQ. unfold barrier_destroy. repeat mem_step. by rewrite delete_insert_eq.
Qed.

Lemma runs_event_pair_destroy (Q : unit -> mem -> Prop) :
  h !! l = Some b -> event_pair_obj b -> Q tt (Mem (delete l h) nx ma mi cr en er lv) ->
  runs U (event_pair_destroy (At l [])) (Mem h nx ma mi cr en er lv) Q.
Proof.
  intros Hl (Hm & Hc1 & Hc2) HQ. unfold event_pair_destroy. repeat mem_step.
  by rewrite delete_insert_eq.
Qed.

(** A wait that is cancelled destroys the condition variables that the
    destruction of the event pair destroys again. *)
Lemma event_cleanup_undefined :
  h !! l = Some b -> event_pair_obj b ->
  (_ ← event_cleanup (At l []); event_pair_destroy (At l []))
    (Mem h nx ma mi cr en er lv) = Undefined.
Proof.
  intros Hl (Hm & Hc1 & Hc2). apply runs_undefined.
  unfold event_cleanup, event_pair_destroy. repeat mem_step. mem_simpl.
  apply runs_bind. eapply runs_load_absent; [done|find_block|].
  cbn [cells del_cell].
  rewrite lookup_delete_ne, lookup_delete_ne by discriminate. apply lookup_delete_eq.
Qed.

(** The pointer is set to a new object, or to NULL, or left alone. *)
Lemma runs_barrier_init total (Q : Z -> mem -> Prop) :
  h !! l = Some b -> in_bounds b q = true -> h !! nx = None ->
  default true (head mi) = true ->
  (total <= 0 -> Q (- EINVAL) (Mem h nx ma mi cr en er lv)) ->
  (0 < total -> default true (head ma) = true -> forall b', barrier_obj b' ->
   Q 0 (Mem (<[nx := b']> (<[l := set_cell q (VPtr (At nx [])) b]> h))
            (S nx) (tail ma) (tail mi) cr en er lv)) ->
  (0 < total -> default true (head ma) = false ->
   Q (- ENOMEM) (Mem (<[l := set_cell q (VPtr Null) b]> h) nx (tail ma) mi cr en er lv)) ->
  runs U (barrier_init (At l q) total) (Mem h nx ma mi cr en er lv) Q.
Proof.
  intros Hl Hb Hn Hmi H0 H1 H2. assert (l <> nx) by (intros ->; congruence).
  unfold barrier_init. destruct (Z.leb_spec total 0) as [Ht|Ht]; [by apply runs_ret, H0|].
  repeat mem_step; try congruence; [|by apply H2].
  rewrite (insert_insert_ne _ l nx), insert_insert_eq by done. by apply H1.
Qed.

Lemma runs_event_pair_init (Q : Z -> mem -> Prop) :
  h !! l = Some b -> in_bounds b q = true -> h !! nx = None ->
  default true (head mi) = true ->
  (default true (head ma) = true -> forall b', event_pair_obj b' ->
   Q 0 (Mem (<[nx := b']> (<[l := set_cell q (VPtr (At nx [])) b]> h))
            (S nx) (tail ma) (tail mi) cr en er lv)) ->
  (default true (head ma) = false ->
   Q (- ENOMEM) (Mem (<[l := set_cell q (VPtr Null) b]> h) nx (tail ma) mi cr en er lv)) ->
  runs U (event_pair_init (At l q)) (Mem h nx ma mi cr en er lv) Q.
Proof.
  intros Hl Hb Hn Hmi H1 H2. assert (l <> nx) by (intros ->; congruence).
  unfold event_pair_init. repeat mem_step; try congruence; [|by apply H2].
  rewrite (insert_insert_ne _ l nx), insert_insert_eq by done. by apply H1.
Qed.

(** The loop that destroys the first [k] forks. *)
Lemma runs_destroy_forks d f bd n c k (Q : unit -> mem -> Prop) :
  h !! d = Some bd -> h !! f = Some (Block n c) -> d <> f -> k <= n ->
  cells bd !! [inl "forks"] = Some (VPtr (At f [])) ->
  (forall i, 0 <= i < k -> c !! [inr i] = Some (VMutex false)) ->
  (forall c', Q tt (Mem (<[f := Block n c']> h) nx ma mi cr en er lv)) ->
  runs U (for_each k (fun i => forks ← load_ptr (At d [] ~> "forks");
                               pthread_mutex_destroy (forks ~[ i ])))
         (Mem h nx ma mi cr en er lv) Q.
Proof.
  intros Hd Hf Hne Hk Hp Hc HQ.
  set (inv := fun i m' => exists c', m' = Mem (<[f := Block n c']> h) nx ma mi cr en er lv /\
    forall j, i <= j < k -> c' !! [inr j] = Some (VMutex false)).
  apply (runs_for_each _ inv).
  - exists c. split; [by rewrite insert_id|done].
  - intros i m' Hi (c' & -> & Hc').
    assert (in_bounds (Block n c') [inr i] = true) by (simpl; lia).
    pose proof (Hc' i ltac:(lia)). repeat mem_step. mem_simpl.
    eexists. split; [reflexivity|]. intros j Hj. cbn. rewrite lookup_delete_ne by (intros [=]; lia).
    apply Hc'. lia.
  - by intros m' (c' & -> & _).
Qed.
End objects.

(** ** The table of philosophers *)

(** The cells of the first [k] forks. *)
Fixpoint mutexes (k : nat) : gmap path val :=
  match k with
  | O => ∅
  | S k => <[[inr (Z.of_nat k)] := VMutex false]> (mutexes k)
  end.

Lemma mutexes_lookup k i :
  0 <= i < Z.of_nat k -> mutexes k !! [inr i] = Some (VMutex false).
Proof.
  induction k as [|k IH]; intros Hi; cbn [mutexes]; [lia|].
  destruct (decide (i = Z.of_nat k)) as [->|Hne]; [apply lookup_insert_eq|].
  rewrite lookup_insert_ne by (intros [=]; lia). apply IH. lia.
Qed.

(** The table that init leaves. *)
Definition dining_block (n : Z) (f : nat) : block :=
  set_cell [inl "forks"] (VPtr (At f []))
    (set_cell [inl "running"] (VInt 1)
       (set_cell [inl "num_philosophers"] (VInt n) (Block 1 ∅))).

Section table.
Context {U : Prop} {h : gmap nat block} {nx : nat} {ma mi cr : list bool}
  {en : list ending} {er : Z} {lv : gmap nat (ptr * bool)}.

Lemma runs_dining_philosophers_destroy d f n (Q : unit -> mem -> Prop) :
  dining_obj h d f n -> 0 <= n ->
  Q tt (Mem (delete d (delete f h)) nx ma mi cr en er lv) ->
  runs U (dining_philosophers_destroy (At d [])) (Mem h nx ma mi cr en er lv) Q.
Proof.
  intros (bd & c & Hd & Hf & Hne & Hn & Hp & Hc) Hn0 HQ.
  unfold dining_philosophers_destroy. do 4 mem_step.
  mem_simpl. apply runs_bind.
  eapply (runs_destroy_forks d f (set_cell [inl "running"] (VInt 0) bd) n c);
    [find_block|find_block|done|done|find_cell|done|].
  intros c'. repeat mem_step.
  by rewrite delete_insert_eq, (delete_insert_ne _ f d), delete_insert_eq by done.
Qed.

(** The loop that initialises the forks: all of them, or those before the
    first refusal, which are then undone. *)
Lemma runs_init_forks d f bd n (Q : option Z -> mem -> Prop) :
  h !! d = Some bd -> h !! f = Some (Block n ∅) -> d <> f -> 0 <= n ->
  cells bd !! [inl "forks"] = Some (VPtr (At f [])) ->
  (forall mi', Forall (eq true) (take (Z.to_nat n) mi) ->
   mi' = drop (Z.to_nat n) mi ->
   Q None (Mem (<[f := Block n (mutexes (Z.to_nat n))]> h) nx ma mi' cr en er lv)) ->
  (forall i mi', 0 <= i < n -> mi !! Z.to_nat i = Some false ->
   Q (Some (- er)) (Mem (delete d (delete f h)) nx ma mi' cr en er lv)) ->
  runs U (for_loop (Z.to_nat n) 0 (init_fork (At d []))) (Mem h nx ma mi cr en er lv) Q.
Proof.
  intros Hd Hf Hne Hn Hp HN HS.
  set (inv := fun i m' =>
    m' = Mem (<[f := Block n (mutexes (Z.to_nat i))]> h) nx ma (drop (Z.to_nat i) mi) cr en er lv
    /\ Forall (eq true) (take (Z.to_nat i) mi)).
  apply (runs_for_loop _ inv).
  - split; [|constructor]. cbn. by rewrite insert_id.
  - intros i m' Hi [-> Hall].
    assert (in_bounds (Block n (mutexes (Z.to_nat i))) [inr i] = true) by (simpl; lia).
    unfold init_fork. repeat mem_step.
    + unfold inv. mem_simpl. cbn [set_cell bound cells].
      replace (Z.to_nat (i + 1)) with (S (Z.to_nat i)) by lia. cbn [mutexes].
      rewrite Z2Nat.id, <- tail_drop by lia. split; [done|by apply answer_yes].
    + mem_simpl.
      eapply (runs_destroy_forks d f bd n (mutexes (Z.to_nat i)) i);
        [find_block|find_block|done|lia|done|intros j Hj; apply mutexes_lookup; lia|].
      intros c'. repeat mem_step. unfold get_errno, runs. cbn [errno].
      rewrite !delete_insert_eq. apply (HS i); [lia|by apply answer_no].
  - intros m' [-> Hall]. rewrite Z2Nat.id, Z.add_0_l in * by lia. by apply HN.
Qed.
End table.

Section table_init.
Context {U : Prop} {h : gmap nat block} {nx : nat} {ma mi cr : list bool}
  {en : list ending} {er : Z} {lv : gmap nat (ptr * bool)}.
Context {l : nat} {q : path} {b : block}.

(** The caller's variable after an assignment to it. *)
Abbreviation set_var p := (<[l := set_cell q (VPtr p) b]> h).

Lemma runs_dining_philosophers_init n (Q : Z -> mem -> Prop) :
  h !! l = Some b -> in_bounds b q = true -> scoped h nx ->
  (n <= 0 -> Q (- EINVAL) (Mem h nx ma mi cr en er lv)) ->
  (0 < n -> default true (head ma) = false ->
   Q (- ENOMEM) (Mem (set_var Null) nx (tail ma) mi cr en er lv)) ->
  (0 < n -> default true (head ma) = true -> default true (head (tail ma)) = false ->
   Q (- ENOMEM) (Mem (set_var (At nx [])) (S nx) (tail (tail ma)) mi cr en er lv)) ->
  (0 < n -> default true (head ma) = true -> default true (head (tail ma)) = true ->
   Forall (eq true) (take (Z.to_nat n) mi) ->
   Q 0 (Mem (<[S nx := Block n (mutexes (Z.to_nat n))]>
               (<[nx := dining_block n (S nx)]> (set_var (At nx []))))
            (S (S nx)) (tail (tail ma)) (drop (Z.to_nat n) mi) cr en er lv)) ->
  (forall i mi', 0 <= i < n -> default true (head ma) = true ->
   default true (head (tail ma)) = true -> mi !! Z.to_nat i = Some false ->
   Q (- er) (Mem (set_var (At nx [])) (S (S nx)) (tail (tail ma)) mi' cr en er lv)) ->
  runs U (dining_philosophers_init (At l q) n) (Mem h nx ma mi cr en er lv) Q.
Proof.
  intros Hl Hb Hs H0 H1 H2 H3 H4.
  assert (l < nx)%nat by (apply not_ge; intros Hge; rewrite (Hs l Hge) in Hl; done).
  unfold dining_philosophers_init.
  destruct (Z.leb_spec n 0) as [Hn|Hn]; [by apply runs_ret, H0|].
  repeat mem_step; mem_simpl.
  - set (h' := <[nx := dining_block n (S nx)]> (set_var (At nx []))).
    match goal with |- runs _ _ (Mem ?hh _ _ _ _ _ _ _) _ =>
      replace hh with (<[S nx := Block n ∅]> h') end.
    2:{ unfold h', dining_block.
        rewrite (insert_insert_ne _ l nx), insert_insert_eq by lia.
        rewrite (insert_insert_ne _ nx (S nx)), insert_insert_eq by lia. done. }
    eapply (runs_init_forks nx (S nx) (dining_block n (S nx)) n);
      [unfold h'; find_block|find_block|lia|lia|reflexivity| |].
    + intros mi' Hall ->. apply runs_ret. rewrite insert_insert_eq. by apply H3.
    + intros i mi' Hi Hrej. apply runs_ret.
      replace (delete nx (delete (S nx) (<[S nx := Block n ∅]> h'))) with (set_var (At nx []));
        [by apply (H4 i)|].
      unfold h'. rewrite delete_insert_eq, (delete_insert_ne _ (S nx) nx), delete_insert_eq by lia.
      rewrite (delete_id (set_var (At nx []))) by (rewrite lookup_insert_ne by lia; apply Hs; lia).
      by rewrite delete_id by (rewrite lookup_insert_ne by lia; apply Hs; lia).
  - rewrite delete_insert_eq, (insert_insert_ne _ l nx), delete_insert_eq by lia.
    rewrite delete_id by (rewrite lookup_insert_ne by lia; apply Hs; lia). by apply H2.
  - by apply H1.
Qed.
End table_init.

Lemma dining_init_obj h n l b q nx :
  (l < nx)%nat -> 0 <= n ->
  dining_obj (<[S nx := Block n (mutexes (Z.to_nat n))]>
                (<[nx := dining_block n (S nx)]> (<[l := set_cell q (VPtr (At nx [])) b]> h)))
             nx (S nx) n.
Proof.
  intros Hl Hn. exists (dining_block n (S nx)), (mutexes (Z.to_nat n)).
  split; [find_block|]. split; [find_block|]. split; [lia|]. split; [reflexivity|].
  split; [reflexivity|]. intros i Hi. apply mutexes_lookup. lia.
Qed.

(** The tests on the constant results of an init. *)
Ltac sign := cbn [Z.ltb Z.compare Z.opp ENOMEM EINVAL].

(** Create an object and destroy it, as a caller that looks at the result. *)
Definition create_destroy (init : C Z) (destroy : ptr -> C unit) (var : ptr) : C Z :=
  r ← init;
  if r <? 0 then mret r else
  p ← load_ptr var;
  _ ← destroy p;
  mret r.

(** The objects created through the address of the variable [var], each with
    the number of mutexes that its init sets up. *)
Definition by_reference (var : ptr) (total n : Z) : list (C Z * (ptr -> C unit) * nat) :=
  [(barrier_init var total, barrier_destroy, 1%nat);
   (event_pair_init var, event_pair_destroy, 1%nat);
   (dining_philosophers_init var n, dining_philosophers_destroy, Z.to_nat n)].

(** When the [i]-th fork of a table cannot be initialised, init undoes
    everything: no block is left, and it returns [-errno].  But it leaves the
    caller's variable pointing to the freed table, and pthread_mutex_init does
    not set errno: with an errno of 0 the caller is told that the table
    exists, and the destruction that follows is undefined. *)
Theorem dining_philosophers_init_rollback l q b n i m :
  scoped (heap m) (next m) -> heap m !! l = Some b -> in_bounds b q = true ->
  mallocs m = [] -> 0 <= i < n -> minits m !! Z.to_nat i = Some false ->
  exists m' p, dining_philosophers_init (At l q) n m = Done (- errno m) m' /\
    heap m' = <[l := set_cell q (VPtr p) b]> (heap m) /\
    dining_philosophers_destroy p m' = Undefined.
Proof.
  intros Hs Hl Hb Hma Hi Hrej. destruct m as [h nx ma mi cr en er lv]. cbn in *. subst ma.
  assert (l < nx)%nat by (apply not_ge; intros Hge; rewrite (Hs l Hge) in Hl; done).
  assert (runs False (dining_philosophers_init (At l q) n) (Mem h nx [] mi cr en er lv)
    (fun r m' => r = - er /\ heap m' = <[l := set_cell q (VPtr (At nx [])) b]> h)) as Hr.
  { apply (runs_dining_philosophers_init (b:=b));
      [done..|lia|done|done|intros _ _ _ Hall|by intros j mi' _ _ _ _].
    exfalso. rewrite Forall_lookup in Hall. specialize (Hall (Z.to_nat i) false).
    rewrite lookup_take_lt in Hall by lia. by specialize (Hall Hrej). }
  apply runs_done in Hr as (r & m' & E & -> & Hh). exists m', (At nx []).
  split; [done|]. split; [done|].
  unfold dining_philosophers_destroy. cbn [is_null].
  apply C_bind_undefined, runs_undefined. destruct m' as [h' nx' ma' mi' cr' en' er' lv']. cbn in Hh. subst h'.
  apply runs_store_gone; [done|]. by rewrite lookup_insert_ne, Hs by lia.
Qed.

Lemma dining_philosophers_init_rollback_witness :
  exists m' p, dining_philosophers_init (At 0 []) 3
      (Mem (heap caller) 1 [] [true; true; false] [] [] 0 ∅) = Done 0 m' /\
    heap m' = <[0%nat := set_cell [] (VPtr p) (Block 1 ∅)]> (heap caller) /\
    dining_philosophers_destroy p m' = Undefined.
Proof.
  apply (dining_philosophers_init_rollback 0 [] (Block 1 ∅) 3 2
           (Mem (heap caller) 1 [] [true; true; false] [] [] 0 ∅));
    [apply caller_scoped|reflexivity|reflexivity|reflexivity|lia|reflexivity].
Defined.

(** A barrier or an event pair whose mutex is refused is reported as created
    all the same: its destruction destroys a mutex that does not exist. *)
Section refused.
Context {h : gmap nat block} {nx : nat} {mi cr : list bool} {en : list ending}
  {er : Z} {lv : gmap nat (ptr * bool)} {l : nat} {q : path} {b : block}.
Context (Hl : h !! l = Some b) (Hb : in_bounds b q = true) (Hn : h !! nx = None).
Context (Hmi : default true (head mi) = false).
#[local] Abbreviation here := (Mem h nx [] mi cr en er lv).

Ltac refused :=
  apply runs_undefined, runs_bind; repeat mem_step; try done; try congruence; sign;
  repeat mem_step; unfold pthread_mutex_destroy; do 2 apply runs_bind;
  eapply runs_load_absent; 
    [done|find_block|cbn [cells set_cell];
       rewrite !lookup_insert_ne by discriminate; apply lookup_empty].

Lemma barrier_mutex_refused total :
  0 < total -> create_destroy (barrier_init (At l q) total) barrier_destroy (At l q) here = Undefined.
Proof using All.
  intros Ht. assert (l <> nx) by (intros ->; congruence).
  unfold create_destroy, barrier_init.
  destruct (Z.leb_spec total 0) as [|_]; [lia|]. refused.
Qed.

Lemma event_pair_mutex_refused :
  create_destroy (event_pair_init (At l q)) event_pair_destroy (At l q) here = Undefined.
Proof using All.
  assert (l <> nx) by (intros ->; congruence).
  unfold create_destroy, event_pair_init. refused.
Qed.
End refused.

(** Answers for one mutex. *)
Lemma answered_yes mi : Forall (eq true) (take 1 mi) -> default true (head mi) = true.
Proof. destruct mi as [|x mi]; [done|]. by intros [<- _]%Forall_cons. Qed.

Lemma answered_no mi : false ∈ take 1 mi -> default true (head mi) = false.
Proof.
  destruct mi as [|x mi]; cbn; [by intros ?%not_elem_of_nil|].
  by rewrite list_elem_of_singleton.
Qed.

(** The two halves of the round trip: every mutex is accepted, or one is
    refused. *)
Section round_trip.
Context (init : C Z) (destroy : ptr -> C unit) (k l : nat) (q : path) (b : block).
Context (total n : Z) (m : mem).
Context (Hin : (init, destroy, k) ∈ by_reference (At l q) total n).
Context (Hs : scoped (heap m) (next m)) (Hl : heap m !! l = Some b).
Context (Hb : in_bounds b q = true).

Lemma refused_not_accepted i j mi :
  0 <= i < j -> Forall (eq true) (take (Z.to_nat j) mi) -> mi !! Z.to_nat i <> Some false.
Proof.
  intros Hi Hall E. rewrite Forall_lookup in Hall.
  specialize (Hall (Z.to_nat i) false). rewrite lookup_take_lt in Hall by lia.
  by specialize (Hall E).
Qed.

Lemma by_reference_created :
  Forall (eq true) (take k (minits m)) ->
  exists r m', create_destroy init destroy (At l q) m = Done r m' /\
    (heap m' = heap m \/ exists p, heap m' = <[l := set_cell q (VPtr p) b]> (heap m)).
Proof using All.
  intros Hmi. destruct m as [h nx ma mi cr en er lv]. cbn in *.
  assert (l < nx)%nat by (apply not_ge; intros Hge; rewrite (Hs l Hge) in Hl; done).
  assert (Hn : h !! nx = None) by (apply Hs; lia).
  apply runs_done. unfold by_reference in Hin. rewrite !elem_of_cons in Hin.
  destruct Hin as [[= -> -> ->]|[[= -> -> ->]|[[= -> -> ->]|Hin']]];
    [..|by apply not_elem_of_nil in Hin']; apply runs_bind.
  - apply answered_yes in Hmi.
    apply (runs_barrier_init (b:=b)); [done..|intros _|intros _ _ b' Hb'|intros _ _];
      sign; repeat mem_step; [by left|..|right; by eexists].
    eapply runs_barrier_destroy; [find_block|done|].
    repeat mem_step. right. eexists. cbn [heap].
    by rewrite delete_insert_eq, delete_id by no_block.
  - apply answered_yes in Hmi.
    apply (runs_event_pair_init (b:=b)); [done..|intros _ b' Hb'|intros _];
      sign; repeat mem_step; [|right; by eexists].
    eapply runs_event_pair_destroy; [find_block|done|].
    repeat mem_step. right. eexists. cbn [heap].
    by rewrite delete_insert_eq, delete_id by no_block.
  - apply (runs_dining_philosophers_init (b:=b)); [done..|intros _|intros _ _|intros _ _ _
      |intros Hp _ _ _|intros i mi' Hi _ _ Hno]; [..|by eapply refused_not_accepted in Hno];
      sign; repeat mem_step; [by left|right; by eexists..|].
    apply (runs_dining_philosophers_destroy nx (S nx) n);
      [apply dining_init_obj; lia|lia|].
    apply runs_ret. right. exists (At nx []). cbn [heap].
    rewrite delete_insert_eq, (delete_insert_ne _ (S nx) nx), delete_insert_eq by lia.
    by rewrite !delete_id by no_block.
Qed.

Lemma by_reference_refused :
  false ∈ take k (minits m) -> mallocs m = [] -> errno m = 0 -> 0 < total ->
  create_destroy init destroy (At l q) m = Undefined.
Proof using All.
  intros Hmi Hma Her Ht. unfold by_reference in Hin. rewrite !elem_of_cons in Hin.
  destruct Hin as [[= -> -> ->]|[[= -> -> ->]|[[= -> -> ->]|Hin']]];
    [..|by apply not_elem_of_nil in Hin'].
  1-2: apply answered_no in Hmi; destruct m as [h nx ma mi cr en er lv]; cbn in *; subst ma;
    assert (h !! nx = None) by (apply Hs; lia).
  - by apply (barrier_mutex_refused (b:=b)).
  - by apply (event_pair_mutex_refused (b:=b)).
  - apply list_elem_of_lookup in Hmi as [i [Hi Hi']%lookup_take_Some].
    destruct (dining_philosophers_init_rollback l q b n (Z.of_nat i) m)
      as (m' & p & E & Hh & Hd); [done..|lia|by rewrite Nat2Z.id|].
    unfold create_destroy. rewrite (C_bind_done _ _ _ _ _ E), Her. change (- 0 <? 0) with false.
    cbv iota.
    rewrite (C_bind_done _ _ _ p m'); [by apply C_bind_undefined|].
    destruct m' as [h' nx' ma' mi' cr' en' er' lv']. cbn in Hh. subst h'.
    assert (runs False (load_ptr (At l q)) (Mem (<[l := set_cell q (VPtr p) b]> (heap m))
      nx' ma' mi' cr' en' er' lv') (fun r m1 => r = p /\ m1 =
        Mem (<[l := set_cell q (VPtr p) b]> (heap m)) nx' ma' mi' cr' en' er' lv')) as Hr.
    { eapply runs_load_ptr; [find_block|by destruct b|apply lookup_insert_eq|done]. }
    by apply runs_done in Hr as (? & ? & -> & -> & ->).
Qed.
End round_trip.

(** C38: A barrier, an event pair or a table of philosophers that is created
    and destroyed gives back all memory and is never used after it was freed,
    whichever allocations fail and whatever number of threads is asked for,
    provided that pthread_mutex_init accepts every mutex of the object: the
    heap afterwards is the heap before, except for the caller's variable.
    When it refuses one of them (memory being there, and errno being 0, which
    pthread_mutex_init does not set), the object is reported as created all
    the same and its destruction is undefined. *)
Theorem by_reference_round_trip (init : C Z) destroy k l q b total n m :
  (init, destroy, k) ∈ by_reference (At l q) total n ->
  scoped (heap m) (next m) -> heap m !! l = Some b -> in_bounds b q = true ->
  (Forall (eq true) (take k (minits m)) ->
   exists r m', create_destroy init destroy (At l q) m = Done r m' /\
     (heap m' = heap m \/ exists p, heap m' = <[l := set_cell q (VPtr p) b]> (heap m))) /\
  (false ∈ take k (minits m) -> mallocs m = [] -> errno m = 0 -> 0 < total ->
   create_destroy init destroy (At l q) m = Undefined).
Proof.
  intros Hin Hs Hl Hb. split.
  - intros Hmi. by apply (by_reference_created init destroy k _ _ _ total n).
  - intros Hmi. by apply (by_reference_refused init destroy k _ _ b total n).
Qed.

Lemma by_reference_round_trip_witness :
  (exists r m', create_destroy (barrier_init (At 0 []) 4) barrier_destroy (At 0 []) caller
      = Done r m' /\
    (heap m' = heap caller \/
     exists p, heap m' = <[0%nat := set_cell [] (VPtr p) (Block 1 ∅)]> (heap caller))) /\
  create_destroy (dining_philosophers_init (At 0 []) 3) dining_philosophers_destroy (At 0 [])
    (Mem (heap caller) 1 [] [true; true; false] [] [] 0 ∅) = Undefined.
Proof.
  split.
  - apply (by_reference_round_trip _ _ 1 0 [] (Block 1 ∅) 4 0 caller);
      [by apply list_elem_of_here|apply caller_scoped|reflexivity|reflexivity|].
    apply Forall_nil_2.
  - apply (by_reference_round_trip _ _ 3 0 [] (Block 1 ∅) 1 3
             (Mem (heap caller) 1 [] [true; true; false] [] [] 0 ∅));
      [|apply caller_scoped|reflexivity|reflexivity| |reflexivity|reflexivity|reflexivity].
    + apply list_elem_of_further, list_elem_of_further, list_elem_of_here.
    + apply list_elem_of_further, list_elem_of_further, list_elem_of_here.
Defined.

(** ** Owners of a read-write lock *)

(** The objects that embed a lock, created through the variable [var]. *)
Definition lock_owners (var : ptr) (size : Z) (dev : ptr) : list (C Z * (ptr -> C unit)) :=
  [(bme680_monitor_init var size, bme680_monitor_destroy);
   (bme680_config_init var dev, bme680_config_destroy)].

(** The object [p] whose pointer is in the variable, and whose lock nothing
    ever wrote. *)
Definition owner_post (l : nat) (q : path) (p : nat) (r : Z) (m' : mem) : Prop :=
  r <> 0 \/
  exists b bp, heap m' !! l = Some b /\ in_bounds b q = true /\
    cells b !! q = Some (VPtr (At p [])) /\
    heap m' !! p = Some bp /\ cells bp !! ([inl "rwlock"; inl "mutex"] : path) = None.

Lemma scoped_insert h nx l b : scoped h nx -> (l < nx)%nat -> scoped (<[l := b]> h) nx.
Proof. intros H Hl l' Hl'. rewrite lookup_insert_ne by lia. by apply H. Qed.

Lemma scoped_S h nx : scoped h nx -> scoped h (S nx).
Proof. intros H l Hl. apply H. lia. Qed.

Ltac scope := repeat first [eassumption | apply scoped_insert; [|lia] | apply scoped_S].

Section owners.
Context {h : gmap nat block} {nx : nat} {ma mi cr : list bool} {en : list ending}
  {er : Z} {lv : gmap nat (ptr * bool)}.
Context {l : nat} {q : path} {b : block}.
Context (Hs : scoped h nx) (Hl : h !! l = Some b) (Hb : in_bounds b q = true).

Lemma var_below : (l < nx)%nat.
Proof using Hs Hl. apply not_ge. intros Hge. by rewrite (Hs l Hge) in Hl. Qed.

Lemma bme680_config_init_owner dev :
  runs False (bme680_config_init (At l q) dev) (Mem h nx ma mi cr en er lv)
    (owner_post l q nx).
Proof using Hs Hl Hb.
  pose proof var_below. unfold bme680_config_init. repeat mem_step; mem_simpl; [|by left].
  eapply runs_total; [apply rwlock_init_leaks; cbn; scope|].
  intros r m' [[_ He] _]. cbn in He. apply runs_ret. right.
  eexists _, _. split; [rewrite He by lia; find_block|]. split; [done|].
  split; [apply lookup_insert_eq|]. split; [rewrite He by lia; find_block|reflexivity].
Qed.

Lemma bme680_monitor_init_owner size :
  runs False (bme680_monitor_init (At l q) size) (Mem h nx ma mi cr en er lv)
    (owner_post l q nx).
Proof using Hs Hl Hb.
  pose proof var_below. unfold bme680_monitor_init.
  repeat mem_step; mem_simpl; try (by left).
  all: eapply runs_total; [apply rwlock_init_leaks; cbn; scope|].
  all: intros _ m1 ((Hn1 & He1) & Hs1 & _); cbn in Hn1, He1; apply runs_bind.
  all: eapply runs_total; [by apply deadlock_detector_init_leaks|].
  all: intros _ m2 ((_ & He2) & _ & _); apply runs_ret; right.
  all: eexists _, _; split; [rewrite He2, He1 by lia; find_block|]; split; [done|].
  all: split; [apply lookup_insert_eq|].
  all: split; [rewrite He2, He1 by lia; find_block|reflexivity].
Qed.
End owners.

(** What the caller then reads: a pointer to an object whose mutex it cannot
    read. *)
Lemma owner_post_load l q p m :
  owner_post l q p 0 m ->
  load_ptr (At l q) m = Done (At p []) m /\
  load (At p [inl "rwlock"; inl "mutex"]) m = Undefined.
Proof.
  intros [Hp|(b & bp & H1 & H2 & H3 & H4 & H5)]; [done|].
  unfold load_ptr, load, block_at, mbind, C_bind. split; [by rewrite H1, H2, H3|].
  rewrite H4. cbn [in_bounds]. by rewrite H5.
Qed.

(** A monitor or a configuration that init reports as created cannot be
    destroyed: rwlock_init wrote another lock than the one they embed, so the
    first thing that destroy does, taking or destroying that lock, is
    undefined. *)
Theorem lock_owner_destroy_undefined (init : C Z) destroy l q b size dev m :
  (init, destroy) ∈ lock_owners (At l q) size dev ->
  scoped (heap m) (next m) -> heap m !! l = Some b -> in_bounds b q = true ->
  exists r m', init m = Done r m' /\
    (r = 0 -> exists p, load_ptr (At l q) m' = Done p m' /\ destroy p m' = Undefined).
Proof.
  intros Hin Hs Hl Hb. destruct m as [h nx ma mi cr en er lv]. cbn in *.
  unfold lock_owners in Hin. rewrite !elem_of_cons in Hin.
  destruct Hin as [[= -> ->]|[[= -> ->]|Hin]]; [..|by apply not_elem_of_nil in Hin].
  - pose proof (bme680_monitor_init_owner (ma:=ma) (mi:=mi) (cr:=cr) (en:=en) (er:=er)
      (lv:=lv) Hs Hl Hb size) as (r & m' & E & Hp)%runs_done.
    exists r, m'. split; [done|]. intros ->. apply owner_post_load in Hp as [Hp Hu].
    exists (At nx []). split; [done|]. apply runs_undefined.
    do 3 apply runs_bind. unfold runs. cbn [field app]. by rewrite Hu.
  - pose proof (bme680_config_init_owner (ma:=ma) (mi:=mi) (cr:=cr) (en:=en) (er:=er)
      (lv:=lv) Hs Hl Hb dev) as (r & m' & E & Hp)%runs_done.
    exists r, m'. split; [done|]. intros ->. apply owner_post_load in Hp as [Hp Hu].
    exists (At nx []). split; [done|]. apply runs_undefined.
    do 3 apply runs_bind. unfold runs. cbn [field app]. by rewrite Hu.
Qed.

Lemma lock_owner_destroy_undefined_witness :
  exists r m', bme680_monitor_init (At 0 []) 100 caller = Done r m' /\
    (r = 0 -> exists p, load_ptr (At 0 []) m' = Done p m' /\
       bme680_monitor_destroy p m' = Undefined).
Proof.
  apply (lock_owner_destroy_undefined _ _ 0 [] (Block 1 ∅) 100 Null caller);
    [by apply list_elem_of_here|apply caller_scoped|reflexivity..].
Defined.

(** The monitor of the example is reported as created. *)
Example monitor_created :
  match bme680_monitor_init (At 0 []) 100 caller with Done r _ => r = 0 | _ => False end.
Proof. vm_compute. reflexivity. Qed.
