(* ===== verification/LifecycleThreads.v ===== *)
(** * LifecycleThreads: creating and destroying the objects that own threads

    Theorems about thread_pool_init, thread_pool_destroy, assembly_line_init
    and assembly_line_destroy of Lifecycle: when every call succeeds and every
    thread returns, a pool and a line give all memory back; a thread that
    cannot be created, an event pair that cannot be allocated and a stage that
    acts on its cancellation all end in undefined behaviour. *)

From S2P Require Import Prelude CMem Lifecycle.

(** The handles of [k] threads numbered from [t0], at an array element each;
    [f] is the field of the element that holds the handle. *)
Definition handles_at (c : gmap path val) (f : path) (t0 : nat) (k : Z) : Prop :=
  forall i, 0 <= i < k -> c !! (inr i :: f) = Some (VThread (t0 + Z.to_nat i)).

(** The threads from [j] to [k] run. *)
Definition alive (lv : gmap nat (ptr * bool)) (t0 : nat) (j k : Z) : Prop :=
  forall i, j <= i < k -> is_Some (lv !! (t0 + Z.to_nat i)%nat).

(** The fields of a pool of [n] threads, of which [k] were created. *)
Record pool_fields (h : gmap nat block) (p T B : nat) (ep : ptr) (n : Z) (c : gmap path val)
    (bp : block) : Prop := {
  pf_pool : h !! p = Some bp;
  pf_table : h !! T = Some (Block n c);
  pf_mutex : cells bp !! ([inl "mutex"] : path) = Some (VMutex false);
  pf_cond : cells bp !! ([inl "cond"] : path) = Some VCond;
  pf_num : cells bp !! ([inl "num_threads"] : path) = Some (VInt n);
  pf_threads : cells bp !! ([inl "threads"] : path) = Some (VPtr (At T []));
  pf_head : cells bp !! ([inl "head"] : path) = Some (VPtr Null);
  pf_barrier : cells bp !! ([inl "barrier"] : path) = Some (VPtr (At B []));
  pf_ep : cells bp !! ([inl "ep"] : path) = Some (VPtr ep);
  pf_barrier_obj : exists bb, h !! B = Some bb /\ barrier_obj bb;
}.

Section pool.
Context {U : Prop} {h : gmap nat block} {nx : nat} {ma mi cr : list bool} {er : Z}.

(** Joining the threads of a pool: all of them, unless one was never
    created. *)
Lemma runs_join_workers p T n k c bp t0 lv (Q : unit -> mem -> Prop) :
  h !! p = Some bp -> h !! T = Some (Block n c) ->
  cells bp !! ([inl "threads"] : path) = Some (VPtr (At T [])) ->
  0 <= k <= n -> handles_at c [] t0 k -> alive lv t0 0 k ->
  (k < n -> U /\ c !! ([inr k] : path) = None) ->
  (k = n -> forall lv', Q tt (Mem h nx ma mi cr [] er lv')) ->
  runs U (for_each n (fun i => threads ← load_ptr (At p [] ~> "threads");
                               pthread_join no_cleanup (threads ~[ i ])))
         (Mem h nx ma mi cr [] er lv) Q.
Proof.
  intros Hp HT Hc Hk Hh Ha HU HQ.
  set (inv := fun j m' => j <= k /\ exists lv', m' = Mem h nx ma mi cr [] er lv' /\ alive lv' t0 j k).
  apply (runs_for_each _ inv).
  - split; [lia|]. by exists lv.
  - intros j m' Hj (Hjk & lv' & -> & Ha'). repeat mem_step. mem_simpl.
    assert (in_bounds (Block n c) [inr j] = true) by (simpl; lia).
    destruct (decide (j = k)) as [->|Hne].
    + destruct (HU ltac:(lia)) as [Hu Habs].
      apply runs_bind. by eapply runs_load_absent.
    + destruct (Ha' j ltac:(lia)) as [th Hth].
      eapply runs_join; [done|done|apply Hh; lia|done|done|].
      split; [lia|]. eexists. split; [done|]. intros i Hi.
      rewrite lookup_delete_ne by lia. apply Ha'. lia.
  - intros m' (Hj & lv' & -> & _). apply HQ. lia.
Qed.

End pool.

(** No task was left. *)
Lemma runs_free_no_task U m (Q : unit -> mem -> Prop) :
  Q tt m -> runs U (fun m => free_task_list (next m) Null m) m Q.
Proof. unfold runs. by destruct (next m). Qed.

Lemma runs_load_null U m (Q : val -> mem -> Prop) : U -> runs U (load Null) m Q.
Proof. done. Qed.

Section pool_destroy.
Context {U : Prop} {h : gmap nat block} {nx : nat} {ma mi cr : list bool} {er : Z}.

Lemma runs_thread_pool_destroy p T B ep n k c bp t0 lv (Q : unit -> mem -> Prop) :
  pool_fields h p T B ep n c bp -> p <> T -> p <> B -> T <> B ->
  0 <= k <= n -> handles_at c [] t0 k -> alive lv t0 0 k ->
  (k < n -> U /\ c !! ([inr k] : path) = None) ->
  (k = n -> ep = Null -> U) ->
  (k = n -> ep <> Null -> exists E be, ep = At E [] /\ h !! E = Some be /\ event_pair_obj be /\
     E <> p /\ E <> T /\ E <> B /\
     forall lv', Q tt (Mem (delete p (delete T (delete E (delete B h)))) nx ma mi cr [] er lv')) ->
  runs U (thread_pool_destroy (At p [])) (Mem h nx ma mi cr [] er lv) Q.
Proof.
  intros [Hp HT Hm Hc Hn Ht Hh Hb He (bb & HB & Hbb)] HpT HpB HTB Hk Hha Hal Hrej Hnull Hep.
  unfold thread_pool_destroy. repeat mem_step. mem_simpl.
  eapply (runs_join_workers p T n k); [find_block|find_block|find_cell|done..|].
  intros Hkn lv'. repeat mem_step. mem_simpl.
apply runs_free_no_task. repeat mem_step.
  eapply runs_barrier_destroy; [find_block|done|]. repeat mem_step. mem_simpl.
  destruct (decide (ep = Null)) as [->|Hne].
  { do 2 apply runs_bind. apply runs_load_null. auto. }
  destruct (Hep Hkn Hne) as (E & be & -> & HE & Hbe & HEp & HET & HEB & HQ).
  eapply runs_event_pair_destroy; [find_block|done|]. repeat mem_step.
  rewrite (delete_insert_ne _ B p), (delete_insert_ne _ E p), (delete_insert_ne _ T p),
    delete_insert_eq by done. done.
Qed.
End pool_destroy.

(** ** The creation of the workers *)

Section workers.
Context {U : Prop} {h : gmap nat block} {nx : nat} {ma mi : list bool} {er : Z}.

(** One after the other, or until one is refused, which is undefined: the
    destruction joins a thread that was never created. *)
Lemma runs_create_workers p T B ep n bp cr lv (Q : option Z -> mem -> Prop) :
  pool_fields h p T B ep n ∅ bp -> p <> T -> p <> B -> T <> B -> 0 <= n ->
  (forall i, 0 <= i < n -> cr !! Z.to_nat i = Some false -> U) ->
  (forall c lv', Forall (eq true) (take (Z.to_nat n) cr) -> handles_at c [] nx n ->
     alive lv' nx 0 n ->
     Q None (Mem (<[T := Block n c]> h) (nx + Z.to_nat n) ma mi (drop (Z.to_nat n) cr) [] er lv')) ->
  runs U (for_loop (Z.to_nat n) 0 (create_worker (At p []))) (Mem h nx ma mi cr [] er lv) Q.
Proof.
  intros Hf HpT HpB HTB Hn HU HQ.
  set (inv := fun i m' => Forall (eq true) (take (Z.to_nat i) cr) /\ exists c lv',
    m' = Mem (<[T := Block n c]> h) (nx + Z.to_nat i) ma mi (drop (Z.to_nat i) cr) [] er lv' /\
    handles_at c [] nx i /\ alive lv' nx 0 i /\ forall j, i <= j -> c !! ([inr j] : path) = None).
  apply (runs_for_loop _ inv).
  - split; [constructor|]. exists ∅, lv. cbn. rewrite Nat.add_0_r, insert_id by apply Hf.
    split; [done|]. split; [intros i Hi; lia|]. split; [intros i Hi; lia|]. done.
  - intros i m' Hi (Hall & c & lv' & -> & Hh & Ha & Habs).
    assert (in_bounds (Block n c) [inr i] = true) by (simpl; lia).
    destruct Hf as [Hp HT Hm Hc Hnum Ht Hhead Hb He (bb & HB & Hbb)].
    unfold create_worker. repeat mem_step.
    + unfold inv. mem_simpl. cbn [set_cell bound cells].
      replace (Z.to_nat (i + 1)) with (S (Z.to_nat i)) by lia.
      split; [by apply answer_yes|]. eexists _, _.
      split; [by rewrite Nat.add_succ_r, <- tail_drop|].
      split; [|split].
      * intros j Hj. destruct (decide (j = i)) as [->|Hne]; [apply lookup_insert_eq|].
        rewrite lookup_insert_ne by (intros [=]; lia). apply Hh. lia.
      * intros j Hj. destruct (decide (j = i)) as [->|Hne]; [by rewrite lookup_insert_eq|].
        rewrite lookup_insert_ne by lia. apply Ha. lia.
      * intros j Hj. rewrite lookup_insert_ne by (intros [=]; lia). apply Habs. lia.
    + mem_simpl.
      assert (U) by (apply (HU i); [lia|by apply answer_no]).
      eapply (runs_thread_pool_destroy p T B ep n i c bp); 
        [|done|done|done|lia|done|done| |intros; exfalso; lia|intros; exfalso; lia].
      * split; try done; [find_block|find_block|]. exists bb. split; [find_block|done].
      * intros _. split; [done|]. apply Habs. lia.
  - intros m' (Hall & c & lv' & -> & Hh & Ha & _).
    rewrite Z2Nat.id, Z.add_0_l in * by lia. by apply HQ.
Qed.
End workers.

(** ** The creation of a pool *)

(** What init leaves: a pool whose event pair is there, or was not
    allocated. *)
Definition new_pool (h H : gmap nat block) (nx l : nat) (q : path) (b : block) (ep : ptr) (n : Z)
    (c : gmap path val) (bp : block) : Prop :=
  pool_fields H nx (S nx) (S (S nx)) ep n c bp /\
  H !! l = Some (set_cell q (VPtr (At nx [])) b) /\
  (ep <> Null -> ep = At (S (S (S nx))) [] /\
     (exists be, H !! S (S (S nx)) = Some be /\ event_pair_obj be) /\
     delete nx (delete (S nx) (delete (S (S (S nx))) (delete (S (S nx)) H))) =
       <[l := set_cell q (VPtr (At nx [])) b]> h).

(** The fields of a pool whose block is written out. *)
Ltac new_fields bb :=
  split; [find_block|find_block|reflexivity..|exists bb; split; [find_block|done]].

Section pool_init.
Context {U : Prop} {h : gmap nat block} {nx : nat} {ma cr : list bool} {er : Z}
  {lv : gmap nat (ptr * bool)}.

Lemma runs_thread_pool_init l q b n (Q : Z -> mem -> Prop) :
  h !! l = Some b -> in_bounds b q = true -> scoped h nx -> 0 <= n ->
  default true (head ma) = true -> default true (head (tail ma)) = true ->
  default true (head (tail (tail ma))) = true ->
  (forall i, 0 <= i < n -> cr !! Z.to_nat i = Some false -> U) ->
  (forall H ep c bp t0 nx' ma' cr' lv',
     new_pool h H nx l q b ep n c bp -> Forall (eq true) (take (Z.to_nat n) cr) ->
     (default true (head (tail (tail (tail ma)))) = false -> ep = Null) ->
     (default true (head (tail (tail (tail ma)))) = true -> ep <> Null) ->
     handles_at c [] t0 n -> alive lv' t0 0 n ->
     Q 0 (Mem H nx' ma' [] cr' [] er lv')) ->
  runs U (thread_pool_init (At l q) n) (Mem h nx ma [] cr [] er lv) Q.
Proof.
  intros Hl Hb Hs Hn M0 M1 M2 HU HQ. pose proof (var_below Hs Hl) as Hlt.
  unfold thread_pool_init. repeat mem_step; try congruence; try done.
  mem_simpl. eapply runs_barrier_init; [find_block|done| |done|lia|intros _ _ bb Hbb|congruence].
  { rewrite !lookup_insert_ne by lia. apply Hs. lia. }
  repeat mem_step.
  eapply runs_event_pair_init; [find_block|done| |done|intros M3 be Hbe|intros M3].
  { rewrite !lookup_insert_ne by lia. apply Hs. lia. }
  - repeat mem_step. mem_simpl.
    eapply (runs_create_workers nx (S nx) (S (S nx)) (At (S (S (S nx))) []));
      [new_fields bb|lia|lia|lia|done|done|].
    intros c lv' Hall Hh Ha. apply runs_ret. eapply (HQ _ (At _ [])); [|exact Hall|congruence|done|exact Hh|exact Ha].
    split; [new_fields bb|].
    split; [find_block|]. intros _. split; [done|].
    split; [exists be; split; [find_block|done]|]. clear -Hs Hlt. heap_eq.
  - repeat mem_step. mem_simpl.
    eapply (runs_create_workers nx (S nx) (S (S nx)) Null);
      [new_fields bb|lia|lia|lia|done|done|].
    intros c lv' Hall Hh Ha. apply runs_ret. eapply (HQ _ Null); [|exact Hall|done|congruence|exact Hh|exact Ha].
    split; [new_fields bb|]. split; [find_block|done].
Qed.
End pool_init.

(** C39: A pool of [n] workers.  When every call succeeds and every worker that
    is joined returns, creating and destroying it gives all memory back.  When
    a worker cannot be created, init has no defined behaviour, because it
    destroys the pool, which joins all [n] workers.  When the event pair
    cannot be allocated, init reports success and the destruction of the pool
    is undefined. *)
Theorem thread_pool_lifecycle l q b n m :
  scoped (heap m) (next m) -> heap m !! l = Some b -> in_bounds b q = true ->
  0 <= n < 2 ^ 31 - 1 -> minits m = [] -> endings m = [] ->
  (mallocs m = [] -> creates m = [] ->
   exists m' p, create_destroy (thread_pool_init (At l q) n) thread_pool_destroy (At l q) m
       = Done 0 m' /\ heap m' = <[l := set_cell q (VPtr p) b]> (heap m)) /\
  (forall i, mallocs m = [] -> 0 <= i < n -> creates m !! Z.to_nat i = Some false ->
   thread_pool_init (At l q) n m = Undefined) /\
  (mallocs m = [true; true; true; false] -> creates m = [] ->
   exists m' p, thread_pool_init (At l q) n m = Done 0 m' /\
     load_ptr (At l q) m' = Done p m' /\ thread_pool_destroy p m' = Undefined).
Proof.
  intros Hs Hl Hb Hn Hmi Hen. destruct m as [h nx ma mi cr en er lv]. cbn in *. subst mi en.
  split; [|split].
  - intros -> ->.
    assert (runs False (create_destroy (thread_pool_init (At l q) n) thread_pool_destroy (At l q))
      (Mem h nx [] [] [] [] er lv)
      (fun r m' => r = 0 /\ heap m' = <[l := set_cell q (VPtr (At nx [])) b]> h)) as Hr.
    { apply runs_bind, (runs_thread_pool_init l q b n); [done..|lia|done|done|done|done|].
      intros H ep c bp t0 nx' ma' cr' lv' (Hf & HL & Hep) _ _ Hne Hh Ha. sign. repeat mem_step.
      destruct (Hep (Hne eq_refl)) as (-> & (be & HE & Hbe) & Hdel).
      eapply (runs_thread_pool_destroy nx (S nx) (S (S nx)) _ n n);
        [exact Hf|lia|lia|lia|lia|exact Hh|exact Ha|lia|done|].
      intros _ _. eexists _, be. split; [done|]. split; [exact HE|]. split; [done|].
      split; [lia|]. split; [lia|]. split; [lia|]. intros lv''. by apply runs_ret. }
    apply runs_done in Hr as (r & m' & E & -> & Hh). by exists m', (At nx []).
  - intros i -> Hi Hno. apply runs_undefined.
    apply (runs_thread_pool_init l q b n); [done..|lia|done|done|done|done|].
    intros H ep c bp t0 nx' ma' cr' lv' _ Hall _ _ _ _. rewrite Forall_lookup in Hall.
    specialize (Hall (Z.to_nat i) false). rewrite lookup_take_lt in Hall by lia.
    by specialize (Hall Hno).
  - intros -> ->.
    assert (runs False (thread_pool_init (At l q) n)
      (Mem h nx [true; true; true; false] [] [] [] er lv)
      (fun r m' => r = 0 /\ load_ptr (At l q) m' = Done (At nx []) m' /\
         thread_pool_destroy (At nx []) m' = Undefined)) as Hr.
    { apply (runs_thread_pool_init l q b n); [done..|lia|done|done|done|done|].
      intros H ep c bp t0 nx' ma' cr' lv' (Hf & HL & _) _ Hnull _ Hh Ha.
      split; [done|]. split; [by eapply load_var|].
      rewrite (Hnull eq_refl) in Hf. apply runs_undefined.
      eapply (runs_thread_pool_destroy nx (S nx) (S (S nx)) Null n n);
        [exact Hf|lia|lia|lia|lia|exact Hh|exact Ha|lia|done|done]. }
    apply runs_done in Hr as (r & m' & E & -> & Hp & Hd). by exists m', (At nx []).
Qed.

Lemma thread_pool_lifecycle_witness :
  (exists m' p, create_destroy (thread_pool_init (At 0 []) 4) thread_pool_destroy (At 0 []) caller
     = Done 0 m' /\ heap m' = <[0%nat := set_cell [] (VPtr p) (Block 1 ∅)]> (heap caller)) /\
  (forall i, @nil bool = [] -> 0 <= i < 4 -> @nil bool !! Z.to_nat i = Some false ->
   thread_pool_init (At 0 []) 4 caller = Undefined) /\
  (@nil bool = [true; true; true; false] -> @nil bool = [] ->
   exists m' p, thread_pool_init (At 0 []) 4 caller = Done 0 m' /\
     load_ptr (At 0 []) m' = Done p m' /\ thread_pool_destroy p m' = Undefined).
Proof.
  destruct (thread_pool_lifecycle 0 [] (Block 1 ∅) 4 caller) as [H1 H2];
    [apply caller_scoped|reflexivity|reflexivity|lia|reflexivity|reflexivity|].
  split; [apply H1; reflexivity|exact H2].
Defined.

(** The two failures happen: the third worker refused, and no event pair. *)
Example thread_pool_refused :
  thread_pool_init (At 0 []) 4
    (Mem (heap caller) 1 [] [] [true; true; false] [] 0 ∅) = Undefined /\
  create_destroy (thread_pool_init (At 0 []) 4) thread_pool_destroy (At 0 [])
    (Mem (heap caller) 1 [true; true; true; false] [] [] [] 0 ∅) = Undefined.
Proof. split; vm_compute; reflexivity. Qed.

(** ** The stages of an assembly line *)

Definition alive_stages (lv : gmap nat (ptr * bool)) (S t0 : nat) (j k : Z) : Prop :=
  forall i, j <= i < k -> exists c, lv !! (t0 + Z.to_nat i)%nat = Some (At S [inr i], c).

(** The fields of a line of [n] stages that its destruction reads first. *)
Record line_fields (h : gmap nat block) (p S : nat) (n : Z) (c : gmap path val)
    (bp : block) : Prop := {
  lf_line : h !! p = Some bp;
  lf_table : h !! S = Some (Block n c);
  lf_mutex : cells bp !! ([inl "mutex"] : path) = Some (VMutex false);
  lf_num : cells bp !! ([inl "num_stages"] : path) = Some (VInt n);
  lf_stages : cells bp !! ([inl "stages"] : path) = Some (VPtr (At S []));
}.

(** Freeing an element of an array: the array when it is the first, and
    undefined otherwise. *)
Lemma runs_free_elem U h nx ma mi cr en er lv S b i (Q : unit -> mem -> Prop) :
  U -> h !! S = Some b -> Q tt (Mem (delete S h) nx ma mi cr en er lv) ->
  runs U (free (At S [inr i])) (Mem h nx ma mi cr en er lv) Q.
Proof. intros HU H HQ. unfold runs, free. destruct i; [cbn [heap]; by rewrite H|done..]. Qed.

Section stages.
Context {U : Prop} {h : gmap nat block} {nx : nat} {ma mi cr : list bool} {er : Z}.

(** Ending one stage.  When it acted on its cancellation it freed its element
    of the array: undefined, or for stage 0 the array itself is gone. *)
Lemma runs_join_stage p S n c bp j t a en lv (Q : unit -> mem -> Prop) :
  h !! p = Some bp -> h !! S = Some (Block n c) -> p <> S ->
  cells bp !! ([inl "stages"] : path) = Some (VPtr (At S [])) -> 0 <= j < n ->
  c !! ([inr j; inl "thread"] : path) = Some (VThread t) ->
  lv !! t = Some (At S [inr j], a) ->
  default Returns (head en) <> Never ->
  (default Returns (head en) = Cancelled ->
   U /\ forall lv', Q tt (Mem (delete S h) nx ma mi cr (tail en) er lv')) ->
  (default Returns (head en) = Returns ->
   Q tt (Mem (<[S := Block n (<[[inr j; inl "running"] := VInt 0]> c)]> h) nx ma mi cr (tail en) er
             (delete t (<[t := (At S [inr j], true)]> lv)))) ->
  runs U (join_stage (At p []) j) (Mem h nx ma mi cr en er lv) Q.
Proof.
  intros Hp HS HpS Hc Hj Hcell Hth Hnev HC HR.
  assert (in_bounds (Block n c) [inr j; inl "running"] = true) by (simpl; lia).
  assert (Hcell' : <[[inr j; inl "running"] := VInt 0]> c !! ([inr j; inl "thread"] : path)
    = Some (VThread t)) by by rewrite lookup_insert_ne by discriminate.
  unfold join_stage. repeat mem_step.
  eapply runs_cancel; [find_block|done|exact Hcell'|exact Hth|].
  repeat mem_step. mem_simpl.
  destruct (default Returns (head en)) eqn:Hend; [..|done].
  - eapply runs_join; [find_block|done|exact Hcell'|apply lookup_insert_eq|done|]. by apply HR.
  - destruct (HC eq_refl) as [Hu HQ].
    eapply runs_join_cancelled; [find_block|done|exact Hcell'|apply lookup_insert_eq|done|].
    eapply runs_free_elem; [done|find_block|]. rewrite delete_insert_eq. apply HQ.
Qed.

(** The stage after those that were created, and a stage of an array that is
    gone. *)
Lemma runs_join_stage_absent p S n c bp j en lv (Q : unit -> mem -> Prop) :
  U -> h !! p = Some bp -> h !! S = Some (Block n c) -> p <> S ->
  cells bp !! ([inl "stages"] : path) = Some (VPtr (At S [])) -> 0 <= j < n ->
  c !! ([inr j; inl "thread"] : path) = None ->
  runs U (join_stage (At p []) j) (Mem h nx ma mi cr en er lv) Q.
Proof.
  intros Hu Hp HS HpS Hc Hj Hcell.
  assert (in_bounds (Block n c) [inr j; inl "running"] = true) by (simpl; lia).
  unfold join_stage. repeat mem_step. apply runs_bind.
  eapply runs_load_absent; [done|find_block|]. cbn [cells set_cell].
  by rewrite lookup_insert_ne by discriminate.
Qed.

Lemma runs_join_stage_gone p S bp j en lv (Q : unit -> mem -> Prop) :
  U -> h !! p = Some bp -> h !! S = None ->
  cells bp !! ([inl "stages"] : path) = Some (VPtr (At S [])) ->
  runs U (join_stage (At p []) j) (Mem h nx ma mi cr en er lv) Q.
Proof.
  intros Hu Hp HS Hc. unfold join_stage. do 3 mem_step. mem_simpl. by apply runs_store_gone.
Qed.
End stages.

Section stages_loop.
Context {U : Prop} {h : gmap nat block} {nx : nat} {ma mi cr : list bool} {er : Z}.

(** Ending all stages, of which [k] were created: the array is still there,
    or a stage acted on its cancellation, or the run was undefined before. *)
Lemma runs_join_stages p S n k c bp t0 en lv (Q : unit -> mem -> Prop) :
  h !! p = Some bp -> h !! S = Some (Block n c) -> p <> S ->
  cells bp !! ([inl "stages"] : path) = Some (VPtr (At S [])) ->
  0 <= k <= n -> handles_at c [inl "thread"] t0 k -> alive_stages lv S t0 0 k ->
  (forall i, en !! i <> Some Never) ->
  (forall i, 0 <= i < k -> en !! Z.to_nat i = Some Cancelled -> U) ->
  (k < n -> U /\ c !! ([inr k; inl "thread"] : path) = None) ->
  (k = n -> (forall i, 0 <= i < n -> en !! Z.to_nat i <> Some Cancelled) ->
   forall c' en' lv', Q tt (Mem (<[S := Block n c']> h) nx ma mi cr en' er lv')) ->
  (U -> k = n -> forall en' lv', Q tt (Mem (delete S h) nx ma mi cr en' er lv')) ->
  runs U (for_each n (join_stage (At p []))) (Mem h nx ma mi cr en er lv) Q.
Proof.
  intros Hp HS HpS Hc Hk Hh Ha Hnev HUc HUk HQ HG.
  set (ok := fun j m' => (forall i, 0 <= i < j -> en !! Z.to_nat i <> Some Cancelled) /\
    exists c' lv', m' = Mem (<[S := Block n c']> h) nx ma mi cr (drop (Z.to_nat j) en) er lv' /\
      handles_at c' [inl "thread"] t0 k /\ alive_stages lv' S t0 j k /\
      (k < n -> c' !! ([inr k; inl "thread"] : path) = None)).
  set (gone := fun m' => U /\ exists en' lv', m' = Mem (delete S h) nx ma mi cr en' er lv').
  apply (runs_for_each _ (fun j m' => j <= k /\ (ok j m' \/ gone m'))).
  - split; [lia|]. left. split; [lia|]. exists c, lv. rewrite insert_id by done.
    repeat split; [done|done|]. intros Hkn. by apply HUk.
  - intros j m' Hj (Hjk & [(Hnc & c' & lv' & -> & Hh' & Ha' & Habs)|(Hu & en' & lv' & ->)]).
    2:{ eapply runs_join_stage_gone; [done|find_block|apply lookup_delete_eq|done]. }
    destruct (decide (j = k)) as [->|Hne].
    { eapply (runs_join_stage_absent p S n c'); [apply HUk; lia|find_block|find_block|done..|].
      apply Habs. lia. }
    destruct (Ha' j ltac:(lia)) as [a Hth].
    eapply (runs_join_stage p S n c'); [find_block|find_block|done..|apply Hh'; lia|exact Hth
      |rewrite head_drop|rewrite head_drop|rewrite head_drop].
    + intros Hend. apply (Hnev (Z.to_nat j)). by destruct (en !! Z.to_nat j) as [[]|].
    + intros Hend. assert (U) as Hu.
      { apply (HUc j); [lia|]. by destruct (en !! Z.to_nat j) as [[]|]. }
      split; [done|]. intros lv''. rewrite delete_insert_eq.
      split; [lia|]. right. split; [done|]. by eexists _, _.
    + intros Hend. split; [lia|]. left. split.
      { intros i Hi. destruct (decide (i = j)) as [->|]; [|apply Hnc; lia].
        intros E. by rewrite E in Hend. }
      rewrite insert_insert_eq. eexists _, _.
      split; [by replace (Z.to_nat (j + 1)) with (Datatypes.S (Z.to_nat j)) by lia; rewrite tail_drop|].
      split; [|split].
      * intros i Hi. rewrite lookup_insert_ne by discriminate. by apply Hh'.
      * intros i Hi. rewrite lookup_delete_ne, lookup_insert_ne by lia. apply Ha'. lia.
      * intros Hkn. rewrite lookup_insert_ne by discriminate. by apply Habs.
  - intros m' (Hjk & [(Hnc & c' & lv' & -> & _)|(Hu & en' & lv' & ->)]).
    + apply HQ; [lia|]. intros i Hi. apply Hnc. lia.
    + apply HG; [done|lia].
Qed.
End stages_loop.

(** A table is where it was when other blocks change. *)
Lemma dining_obj_insert h l b d f n :
  dining_obj h d f n -> l <> d -> l <> f -> dining_obj (<[l := b]> h) d f n.
Proof.
  intros (bd & c & Hd & Hf & H) Hld Hlf. exists bd, c.
  rewrite !lookup_insert_ne by done. done.
Qed.

Lemma dining_obj_delete h l d f n :
  dining_obj h d f n -> l <> d -> l <> f -> dining_obj (delete l h) d f n.
Proof.
  intros (bd & c & Hd & Hf & H) Hld Hlf. exists bd, c.
  rewrite !lookup_delete_ne by done. done.
Qed.

(** The data, the barrier and the table of a line, once its stages are
    joined. *)
Ltac free_parts d f n :=
  repeat mem_step; eapply runs_barrier_destroy; [find_block|done|]; repeat mem_step;
  apply (runs_dining_philosophers_destroy d f n);
  [repeat first [apply dining_obj_insert; [|lia|lia] | apply dining_obj_delete; [|lia|lia]]; done
  |lia|].

Section line.
Context {U : Prop} {h : gmap nat block} {nx : nat} {ma mi cr : list bool} {er : Z}.

(** What the second half of the destruction needs: the data, the barrier and
    the table. *)
Definition line_parts (h : gmap nat block) (p S B d f D : nat) (n : Z) (bp : block) : Prop :=
  cells bp !! ([inl "data"] : path) = Some (VPtr (At D [])) /\ is_Some (h !! D) /\
  cells bp !! ([inl "barrier"] : path) = Some (VPtr (At B [])) /\
  (exists bb, h !! B = Some bb /\ barrier_obj bb) /\
  cells bp !! ([inl "dp"] : path) = Some (VPtr (At d [])) /\ dining_obj h d f n /\
  (p < S < B)%nat /\ (B < d < f)%nat /\ (f < D)%nat.

Lemma runs_assembly_line_destroy p S n k c bp t0 en lv (Q : unit -> mem -> Prop) :
  line_fields h p S n c bp -> p <> S -> 0 <= k <= n ->
  handles_at c [inl "thread"] t0 k -> alive_stages lv S t0 0 k ->
  (forall i, en !! i <> Some Never) ->
  (forall i, 0 <= i < k -> en !! Z.to_nat i = Some Cancelled -> U) ->
  (k < n -> U /\ c !! ([inr k; inl "thread"] : path) = None) ->
  (k = n -> exists B d f D, line_parts h p S B d f D n bp /\
     ((forall i, 0 <= i < n -> en !! Z.to_nat i <> Some Cancelled) -> forall en' lv',
      Q tt (Mem (delete p (delete S (delete d (delete f (delete B (delete D h))))))
                nx ma mi cr en' er lv'))) ->
  runs U (assembly_line_destroy (At p [])) (Mem h nx ma mi cr en er lv) Q.
Proof.
  intros [Hp HS Hm Hn Ht] HpS Hk Hh Ha Hnev HUc HUk HQ.
  unfold assembly_line_destroy. repeat mem_step. mem_simpl.
  eapply (runs_join_stages p S n k); [find_block|find_block|done|find_cell|done..|intros Hkn|intros Hu Hkn];
    destruct (HQ Hkn) as (B & d & f & D & (HD & [bD HbD] & HB & (bb & Hbb & Hob) & Hd & Hdo & Hl1 & Hl2 & Hl3) & HQ').
  - intros Hnc c' en' lv'. free_parts d f n.
    repeat mem_step.
    match goal with |- Q tt (Mem ?hh _ _ _ _ _ _ _) =>
      replace hh with (delete p (delete S (delete d (delete f (delete B (delete D h)))))) end;
      [by apply HQ'|heap_eq].
  - intros en' lv'. free_parts d f n. repeat mem_step.
    apply runs_free_gone; [done|]. no_block.
Qed.
End line.

Section line_init.
Context {U : Prop} {h : gmap nat block} {nx : nat} {ma mi : list bool} {er : Z}.

(** The stages are created one after the other; when one is refused, init
    destroys the line, which cancels a thread that was never created. *)
Lemma runs_create_stages p S n bp cr en lv (Q : option Z -> mem -> Prop) :
  line_fields h p S n ∅ bp -> p <> S -> 0 <= n -> (forall i, en !! i <> Some Never) ->
  (forall i, 0 <= i < n -> cr !! Z.to_nat i = Some false -> U) ->
  (forall c lv', Forall (eq true) (take (Z.to_nat n) cr) ->
     handles_at c [inl "thread"] nx n -> alive_stages lv' S nx 0 n ->
     Q None (Mem (<[S := Block n c]> h) (nx + Z.to_nat n) ma mi (drop (Z.to_nat n) cr) en er lv')) ->
  runs U (for_loop (Z.to_nat n) 0 (create_stage (At p []))) (Mem h nx ma mi cr en er lv) Q.
Proof.
  intros Hf HpS Hn Hnev HU HQ.
  set (inv := fun i m' => Forall (eq true) (take (Z.to_nat i) cr) /\ exists c lv',
    m' = Mem (<[S := Block n c]> h) (nx + Z.to_nat i) ma mi (drop (Z.to_nat i) cr) en er lv' /\
    handles_at c [inl "thread"] nx i /\ alive_stages lv' S nx 0 i /\
    forall j, i <= j -> c !! ([inr j; inl "thread"] : path) = None).
  apply (runs_for_loop _ inv).
  - split; [constructor|]. exists ∅, lv. cbn. rewrite Nat.add_0_r, insert_id by apply Hf.
    split; [done|]. split; [intros i Hi; lia|]. split; [intros i Hi; lia|]. done.
  - intros i m' Hi (Hall & c & lv' & -> & Hh & Ha & Habs).
    assert (Hbd : forall c' f, in_bounds (Block n c') (inr i :: f) = true) by (intros; simpl; lia).
    destruct Hf as [Hp HS Hm Hnum Ht]. pose proof (Hbd c [inl "id"]).
    unfold create_stage. repeat mem_step.
    + unfold inv. mem_simpl. cbn [set_cell bound cells].
      replace (Z.to_nat (i + 1)) with (Datatypes.S (Z.to_nat i)) by lia.
      split; [by apply answer_yes|]. eexists _, _.
      split; [by rewrite Nat.add_succ_r, <- tail_drop|].
      split; [|split].
      * intros j Hj. destruct (decide (j = i)) as [->|Hne]; [apply lookup_insert_eq|].
        cbn [cells set_cell]. rewrite !lookup_insert_ne by (intros [=]; lia). apply Hh. lia.
      * intros j Hj. destruct (decide (j = i)) as [->|Hne];
          [by rewrite lookup_insert_eq; eexists|].
        rewrite lookup_insert_ne by lia. apply Ha. lia.
      * intros j Hj. cbn [cells set_cell].
        rewrite !lookup_insert_ne by (intros [=]; lia). apply Habs. lia.
    + mem_simpl. assert U by (apply (HU i); [lia|by apply answer_no]).
      eapply (runs_assembly_line_destroy p S n i _ bp);
        [split; [find_block|find_block|done..]|done|lia| |exact Ha|done|done| |intros; exfalso; lia].
      * intros j Hj. cbn [cells set_cell]. rewrite !lookup_insert_ne by discriminate. by apply Hh.
      * intros _. split; [done|]. cbn [cells set_cell].
        rewrite !lookup_insert_ne by discriminate. apply Habs. lia.
  - intros m' (Hall & c & lv' & -> & Hh & Ha & _).
    rewrite Z2Nat.id, Z.add_0_l in * by lia. by apply HQ.
Qed.
End line_init.

(** What init leaves when everything was allocated. *)
Definition new_line (h H : gmap nat block) (nx l : nat) (q : path) (b : block) (n : Z)
    (c : gmap path val) (bp : block) : Prop :=
  let S1 := S nx in let S2 := S S1 in let S3 := S S2 in let S4 := S S3 in let S5 := S S4 in
  line_fields H nx S1 n c bp /\
  H !! l = Some (set_cell q (VPtr (At nx [])) b) /\
  line_parts H nx S1 S2 S3 S4 S5 n bp /\
  delete nx (delete S1 (delete S3 (delete S4 (delete S2 (delete S5 H))))) =
    <[l := set_cell q (VPtr (At nx [])) b]> h.

(** The fields of a line whose block is written out. *)
Ltac new_line_fields := split; [find_block|find_block|reflexivity..].

Section line_new.
Context {U : Prop} {h : gmap nat block} {nx : nat} {cr : list bool} {er : Z}.

(** The first five allocations succeed, the last answer is [ans]. *)
Lemma runs_assembly_line_init l q b n ans en lv (Q : Z -> mem -> Prop) :
  h !! l = Some b -> in_bounds b q = true -> scoped h nx -> 0 < n ->
  (forall i, en !! i <> Some Never) ->
  (ans = false -> U) ->
  (forall i, 0 <= i < n -> cr !! Z.to_nat i = Some false -> U) ->
  (forall H c bp t0 nx' cr' lv',
     ans = true -> new_line h H nx l q b n c bp -> Forall (eq true) (take (Z.to_nat n) cr) ->
     handles_at c [inl "thread"] t0 n -> alive_stages lv' (S nx) t0 0 n ->
     Q 0 (Mem H nx' [] [] cr' en er lv')) ->
  runs U (assembly_line_init (At l q) n)
       (Mem h nx [true; true; true; true; true; ans] [] cr en er lv) Q.
Proof.
  intros Hl Hb Hs Hn Hnev Ha HU HQ. pose proof (var_below Hs Hl) as Hlt.
  unfold assembly_line_init. repeat mem_step; try done.
  mem_simpl. eapply runs_barrier_init; [find_block|done| |done|lia|intros _ _ bb Hbb|done].
  { rewrite !lookup_insert_ne by lia. apply Hs. lia. }
  repeat mem_step.
  eapply runs_dining_philosophers_init; [find_block|done| |lia|done|done|intros _ _ _ _|done].
  { scope. }
  rewrite drop_nil. repeat mem_step; mem_simpl.
  - eapply (runs_create_stages nx (S nx) n); [new_line_fields|lia|lia|done|done|].
    intros c lv' Hall Hh Hal. apply runs_ret.
    eapply HQ; [done| |exact Hall|exact Hh|exact Hal].
    split; [new_line_fields|]. split; [find_block|]. split; [|clear -Hs Hlt; heap_eq].
    split; [reflexivity|]. split; [eexists; find_block|]. split; [reflexivity|].
    split; [exists bb; split; [find_block|done]|]. split; [reflexivity|].
    split; [|lia]. exists (dining_block n (S (S (S (S nx))))), (mutexes (Z.to_nat n)).
    split; [find_block|]. split; [find_block|]. split; [lia|]. split; [reflexivity|].
    split; [reflexivity|]. intros i Hi. apply mutexes_lookup. lia.
  - assert U by auto.
    eapply (runs_assembly_line_destroy nx (S nx) n 0 _ _ 0);
      [new_line_fields|lia|lia|intros i Hi; lia|intros i Hi; lia|done|intros i Hi; lia
      |intros _; done|intros; exfalso; lia].
Qed.
End line_new.

(** A new line is destroyed in full, unless a stage acts on its
    cancellation. *)
Lemma runs_new_line_destroy U h H nx l q b n c bp t0 nx' ma mi cr en er lv
    (Q : unit -> mem -> Prop) :
  new_line h H nx l q b n c bp -> 0 < n -> handles_at c [inl "thread"] t0 n ->
  alive_stages lv (S nx) t0 0 n -> (forall i, en !! i <> Some Never) ->
  (forall i, 0 <= i < n -> en !! Z.to_nat i = Some Cancelled -> U) ->
  ((forall i, 0 <= i < n -> en !! Z.to_nat i <> Some Cancelled) -> forall m',
   heap m' = <[l := set_cell q (VPtr (At nx [])) b]> h -> Q tt m') ->
  runs U (assembly_line_destroy (At nx [])) (Mem H nx' ma mi cr en er lv) Q.
Proof.
  intros (Hf & _ & Hp & Hdel) Hn Hh Ha Hnev HU HQ.
  eapply (runs_assembly_line_destroy nx (S nx) n n _ _ t0);
    [exact Hf|lia|lia|done|done|done|done|lia|].
  intros _. do 4 eexists. split; [exact Hp|]. intros Hnc en' lv''. by apply HQ.
Qed.

(** C40: An assembly line of [n] stages, whose threads all end.  When every
    call succeeds and no stage acts on its cancellation, creating and
    destroying it gives all memory back.  When some stage acts on it, the
    stage's handler frees one element of the array of stages, and the
    destruction is undefined.  When a stage or the data cannot be created,
    init is undefined: it destroys the line, which cancels and joins stages
    that were never created. *)
Theorem assembly_line_lifecycle l q b n ans m :
  scoped (heap m) (next m) -> heap m !! l = Some b -> in_bounds b q = true -> 0 < n ->
  minits m = [] -> mallocs m = [true; true; true; true; true; ans] ->
  (forall i, endings m !! i <> Some Never) ->
  let cycle := create_destroy (assembly_line_init (At l q) n) assembly_line_destroy (At l q) in
  (ans = true -> creates m = [] -> (forall i, endings m !! i <> Some Cancelled) ->
   exists m' p, cycle m = Done 0 m' /\ heap m' = <[l := set_cell q (VPtr p) b]> (heap m)) /\
  (ans = true -> creates m = [] ->
   (exists i, 0 <= i < n /\ endings m !! Z.to_nat i = Some Cancelled) -> cycle m = Undefined) /\
  (ans = false \/ (exists i, 0 <= i < n /\ creates m !! Z.to_nat i = Some false) ->
   assembly_line_init (At l q) n m = Undefined).
Proof.
  intros Hs Hl Hb Hn Hmi Hma Hnev cycle. destruct m as [h nx ma mi cr en er lv].
  cbn in *. subst mi ma.
  split; [|split].
  - intros -> -> Hnc.
    assert (runs False cycle (Mem h nx [true; true; true; true; true; true] [] [] en er lv)
      (fun r m' => r = 0 /\ heap m' = <[l := set_cell q (VPtr (At nx [])) b]> h)) as Hr.
    { apply runs_bind, (runs_assembly_line_init l q b n true); [done..|].
      intros H c bp t0 nx' cr' lv' _ Hnew _ Hh Ha. sign. pose proof Hnew as (_ & HL & _).
      repeat mem_step.
      eapply runs_new_line_destroy; [exact Hnew|done|exact Hh|exact Ha|done|..].
      - intros i _. apply Hnc.
      - intros _ m' Hm'. by apply runs_ret. }
    apply runs_done in Hr as (r & m' & E & -> & Hh). by exists m', (At nx []).
  - intros -> -> (i & Hi & Hc). apply runs_undefined.
    apply runs_bind, (runs_assembly_line_init l q b n true); [done..|].
    intros H c bp t0 nx' cr' lv' _ Hnew _ Hh Ha. sign. pose proof Hnew as (_ & HL & _).
    repeat mem_step.
    eapply runs_new_line_destroy; [exact Hnew|done|exact Hh|exact Ha|done|done|].
    intros Hnc. by destruct (Hnc i Hi).
  - intros Hfail. apply runs_undefined.
    apply (runs_assembly_line_init l q b n ans); [done..|].
    intros H c bp t0 nx' cr' lv' -> _ Hall _ _. destruct Hfail as [|(i & Hi & Hno)]; [done|].
    rewrite Forall_lookup in Hall. specialize (Hall (Z.to_nat i) false).
    rewrite lookup_take_lt in Hall by lia. by specialize (Hall Hno).
Qed.

(** A memory in which the stage 1 of three acts on its cancellation. *)
Definition caller_cancelled : mem :=
  Mem (heap caller) 1 [true; true; true; true; true; true] [] [] [Returns; Cancelled] 0 ∅.

Lemma assembly_line_lifecycle_witness :
  create_destroy (assembly_line_init (At 0 []) 3) assembly_line_destroy (At 0 []) caller_cancelled
    = Undefined.
Proof.
  apply (assembly_line_lifecycle 0 [] (Block 1 ∅) 3 true caller_cancelled);
    [apply caller_scoped|reflexivity|reflexivity|lia|reflexivity|reflexivity
    | |reflexivity|reflexivity|exists 1; split; [lia|reflexivity]].
  intros [|[|[|i]]]; done.
Defined.

(** A line of no stages is reported as created, but the barrier and the table
    refuse 0, so the destruction reads pointers that were never written. *)
Example assembly_line_no_stages :
  match assembly_line_init (At 0 []) 0 caller with Done r _ => r = 0 | _ => False end /\
  create_destroy (assembly_line_init (At 0 []) 0) assembly_line_destroy (At 0 []) caller
    = Undefined.
Proof. split; vm_compute; reflexivity. Qed.

(** Three stages that return: only the caller's variable is left. *)
Example assembly_line_returns :
  match create_destroy (assembly_line_init (At 0 []) 3) assembly_line_destroy (At 0 []) caller with
  | Done r m' => (r, (map_to_list (heap m')).*1) = (0, [0%nat])
  | _ => False
  end.
Proof. vm_compute. reflexivity. Qed.
