(* ===== verification/AppMain.v ===== *)
(** * AppMain: main of bme680_app.c over memory

    main from line 247 to its end, as a computation of CMem on the functions
    of Lifecycle: what it creates, the event thread, the tests, and its
    cleanup.  (The two calls before it are in App, on Logger.)  [app] is the
    variable of main; the functions that Lifecycle lacks are here: the fork
    handler's and ipc_sync's init and destroy, publish and subscribe's, the
    device's, and the assembly line's process and get_result.  The system's
    answers are those of the memory, and arguments for open, ioctl and the
    System V calls.  Other threads do nothing but end when they are joined.

    The theorem: six of the pointers in [app] are never set, whatever the
    system answers, and main cannot return: its cleanup uses them. *)

From S2P Require Import Prelude CMem Lifecycle.
From S2P Require App AppLoop.

(** ** fork_handler.c *)

Definition fork_handler_destroy (fh : ptr) : C unit :=
  _ ← pthread_mutex_lock (fh ~> "mutex");
  _ ← store (fh ~> "running") (VInt 0);
  _ ← pthread_mutex_unlock (fh ~> "mutex");
  n ← load_int (fh ~> "num_threads");
  _ ← for_each n (fun i =>
        threads ← load_ptr (fh ~> "threads");
        pthread_join no_cleanup (threads ~[ i ]));
  _ ← pthread_mutex_destroy (fh ~> "mutex");
  threads ← load_ptr (fh ~> "threads");
  _ ← free threads;
  free fh.

Definition fork_handler_init (fh : ptr) (num_threads : Z) : C Z :=
  fh ← malloc 1;
  if is_null fh then mret (- ENOMEM) else
  threads ← malloc num_threads;
  _ ← store (fh ~> "threads") (VPtr threads);
  if is_null threads then _ ← free fh; mret (- ENOMEM) else
  _ ← pthread_mutex_init (fh ~> "mutex");
  _ ← store (fh ~> "num_threads") (VInt num_threads);
  _ ← store (fh ~> "running") (VInt 1);
  r ← for_loop (Z.to_nat num_threads) 0 (fun i =>
        threads ← load_ptr (fh ~> "threads");
        r ← pthread_create (threads ~[ i ]) fh;
        if negb (r =? 0) then _ ← fork_handler_destroy fh; mret (Some (-1))
        else mret None);
  mret (default 0 r).

(** ** ipc_sync.c *)

(** What the System V calls answer; [shmat] is [None] for the address -1. *)
Record sysv_env := { shmget : Z; shmat : option ptr; semget : Z; semctl : Z }.

Definition ipc_sync_init (ipc : ptr) (env : sysv_env) : C Z :=
  p ← malloc 1;
  _ ← store ipc (VPtr p);
  if is_null p then mret (- ENOMEM) else
  _ ← store (p ~> "shmid") (VInt (shmget env));
  if shmget env <? 0 then _ ← free p; e ← get_errno; mret (- e) else
  _ ← store (p ~> "data") (match shmat env with Some d => VPtr d | None => VInt (-1) end);
  if bool_decide (shmat env = None) then _ ← free p; e ← get_errno; mret (- e) else
  _ ← store (p ~> "semid") (VInt (semget env));
  if semget env <? 0 then _ ← free p; e ← get_errno; mret (- e) else
  if semctl env <? 0 then _ ← free p; e ← get_errno; mret (- e) else
  mret 0.

(** shmdt, shmctl and semctl get the three fields. *)
Definition ipc_sync_destroy (ipc : ptr) : C unit :=
  _ ← load (ipc ~> "data");
  _ ← load_int (ipc ~> "shmid");
  _ ← load_int (ipc ~> "semid");
  free ipc.

(** ** pubsub.c, on its static object *)

Definition pubsub_init (ps : ptr) : C unit :=
  _ ← pthread_mutex_init (ps ~> "mutex");
  _ ← event_pair_init (ps ~> "ep");
  store (ps ~> "subscribers") (VPtr Null).

Fixpoint free_subscribers (fuel : nat) (sub : ptr) : C unit :=
  if is_null sub then mret tt else
  match fuel with
  | O => hangs
  | S fuel =>
    next ← load_ptr (sub ~> "next");
    topic ← load_ptr (sub ~> "topic");
    _ ← free topic;
    _ ← free sub;
    free_subscribers fuel next
  end.

(** The last line passes the address of the pointer. *)
Definition pubsub_destroy (ps : ptr) : C unit :=
  r ← pthread_mutex_timedlock (ps ~> "mutex");
  if negb (r =? 0) then mret tt else
  sub ← load_ptr (ps ~> "subscribers");
  _ ← (fun m => free_subscribers (next m) sub m);
  _ ← pthread_mutex_unlock (ps ~> "mutex");
  _ ← pthread_mutex_destroy (ps ~> "mutex");
  event_pair_destroy (ps ~> "ep").

(** ** The device *)

(** [open_fd] and [ioctl_ret] are the results of the two calls, [to_int] is the
    pointer after its conversion to int and back, [missing] the argument that
    the call of bme680_config_init leaves out. *)
Record dev_env := { open_fd : Z; ioctl_ret : Z; to_int : ptr -> val; missing : ptr }.

Definition bme680_dev_init (env : dev_env) (addr : Z) : C val :=
  dev ← malloc 1;
  if is_null dev then mret (VInt (- ENOMEM)) else
  _ ← store (dev ~> "fd") (VInt (open_fd env));
  if open_fd env <? 0 then _ ← free dev; mret (VInt (- ENODEV)) else
  _ ← store (dev ~> "addr") (VInt addr);
  if ioctl_ret env <? 0 then _ ← free dev; mret (VInt (- EIO)) else
  _ ← bme680_config_init (dev ~> "config") (missing env);
  mret (to_int env dev).

Definition bme680_dev_destroy (dev : ptr) : C unit :=
  if is_null dev then mret tt else
  _ ← load_int (dev ~> "fd");
  free dev.

(** ** The line, and its tests *)

(** memcpy of a struct bme680_fifo_data. *)
Definition copy_data (dst src : ptr) : C unit :=
  t ← load (src ~> "temp"); _ ← store (dst ~> "temp") t;
  p ← load (src ~> "pressure"); _ ← store (dst ~> "pressure") p;
  h ← load (src ~> "humidity"); _ ← store (dst ~> "humidity") h;
  g ← load (src ~> "gas_resistance"); store (dst ~> "gas_resistance") g.

Definition assembly_line_process (al data : ptr) : C Z :=
  _ ← pthread_mutex_lock (al ~> "mutex");
  d ← load_ptr (al ~> "data");
  _ ← copy_data d data;
  _ ← pthread_mutex_unlock (al ~> "mutex");
  mret 0.

Definition assembly_line_get_result (al result : ptr) : C Z :=
  _ ← pthread_mutex_lock (al ~> "mutex");
  d ← load_ptr (al ~> "data");
  _ ← copy_data result d;
  _ ← pthread_mutex_unlock (al ~> "mutex");
  mret 0.

(** The block of a local variable; its lifetime is not ended. *)
Definition local_var : C ptr := fun m =>
  Done (At (next m) [])
    (Mem (<[next m := Block 1 ∅]> (heap m)) (S (next m)) (mallocs m) (minits m) (creates m)
         (endings m) (errno m) (live m)).

Definition test_assembly_line (app : ptr) (iterations : Z) (invalid : bool) : C unit :=
  for_each iterations (fun i =>
    data ← local_var;
    let d := AppLoop.test_data i invalid in
    _ ← store (data ~> "temp") (VInt (Bme680Data.temp d));
    _ ← store (data ~> "pressure") (VInt (Bme680Data.pressure d));
    _ ← store (data ~> "humidity") (VInt (Bme680Data.humidity d));
    _ ← store (data ~> "gas_resistance") (VInt (Bme680Data.gas_res d));
    al ← load_ptr (app ~> "al");
    _ ← assembly_line_process al data;
    al ← load_ptr (app ~> "al");
    _ ← assembly_line_get_result al data;
    mret tt).

(** ** main *)

Definition app_cleanup (ps app : ptr) : C unit :=
  fh ← load_ptr (app ~> "fh"); _ ← fork_handler_destroy fh;
  ipc ← load_ptr (app ~> "ipc_sync"); _ ← ipc_sync_destroy ipc;
  rw ← load_ptr (app ~> "rwlock"); _ ← rwlock_destroy rw;
  rm ← load_ptr (app ~> "rmutex"); _ ← recursive_mutex_destroy rm;
  dd ← load_ptr (app ~> "dd"); _ ← deadlock_detector_destroy dd;
  dp ← load_ptr (app ~> "dp"); _ ← dining_philosophers_destroy dp;
  b ← load_ptr (app ~> "barrier"); _ ← barrier_destroy b;
  al ← load_ptr (app ~> "al"); _ ← assembly_line_destroy al;
  t ← load_ptr (app ~> "timer"); _ ← timer_destroy t;
  ep ← load_ptr (app ~> "ep"); _ ← event_pair_destroy ep;
  sem ← load_ptr (app ~> "sem"); _ ← fifo_semaphore_destroy sem;
  mon ← load_ptr (app ~> "monitor"); _ ← bme680_monitor_destroy mon;
  tp ← load_ptr (app ~> "tp"); _ ← thread_pool_destroy tp;
  dev ← load_ptr (app ~> "dev"); _ ← bme680_dev_destroy dev;
  pubsub_destroy ps.

(** Lines 247 to 277; [false]: goto cleanup.  [read_sensor] is the address of
    that function. *)
Definition app_setup (ps app event_thread read_sensor : ptr) (args : App.app_args) (ipc : sysv_env) (dev : dev_env)
    : C bool :=
  _ ← pubsub_init ps;
  _ ← thread_pool_init (app ~> "tp") (App.threads args);
  _ ← bme680_monitor_init (app ~> "monitor") 100;
  _ ← fifo_semaphore_init (app ~> "sem") 1;
  _ ← event_pair_init (app ~> "ep");
  _ ← timer_init (app ~> "timer") 1000 read_sensor app;
  r ← assembly_line_init (app ~> "al") (App.num_stages args);
  if negb (r =? 0) then mret false else
  _ ← fork_handler_init (app ~> "fh") (App.threads args);
  _ ← ipc_sync_init (app ~> "ipc_sync") ipc;
  _ ← rwlock_init (app ~> "rwlock");
  _ ← recursive_mutex_init (app ~> "rmutex");
  _ ← deadlock_detector_init (app ~> "dd") 10;
  _ ← dining_philosophers_init (app ~> "dp") (App.num_stages args);
  _ ← barrier_init (app ~> "barrier") (App.threads args);
  d ← bme680_dev_init dev 0x77;
  _ ← store (app ~> "dev") d;
  if bool_decide (d = VInt 0 \/ d = VPtr Null) then mret false else
  _ ← store (app ~> "running") (VInt 1);
  r ← pthread_create event_thread app;
  if negb (r =? 0) then mret false else mret true.

Definition app_body (ps app event_thread read_sensor : ptr) (args : App.app_args) (ipc : sysv_env) (dev : dev_env)
    : C Z :=
  ok ← app_setup ps app event_thread read_sensor args ipc dev;
  _ ← (if ok && App.run_tests args then
         _ ← test_assembly_line app (App.iterations args) false;
         test_assembly_line app (App.iterations args) true
       else mret tt);
  _ ← store (app ~> "running") (VInt 0);
  _ ← pthread_join (app_cleanup ps) event_thread;
  _ ← app_cleanup ps app;
  mret 0.

(** * Theorems *)

(** The pointers of struct bme680_app whose init gets them by value. *)
Definition by_value : list string := ["fh"; "sem"; "timer"; "rwlock"; "rmutex"; "dd"]%string.

Section unset.
(** One of them, and the block of main's variable app. *)
Context (name : string) (Hname : bool_decide (name ∈ by_value) = true) (f : nat).

(** The cell is not written. *)
Definition unset (m : mem) : Prop := forall b, heap m !! f = Some b -> cells b !! ([inl name] : path) = None.

(** A computation that leaves it so. *)
Definition keeps {A} (c : C A) : Prop :=
  forall m, unset m -> match c m with Done _ m' => unset m' | _ => True end.

(** An address that is not that of the cell. *)
Definition elsewhere (p : ptr) : Prop := p <> At f [inl name].

Lemma elsewhere_field p s : s <> name -> elsewhere (p ~> s).
Proof.
  unfold elsewhere. destruct p as [|l q]; [done|]. intros Hs [= _ E].
  by apply (app_inj_tail _ []) in E as [_ [= ?]].
Qed.

Lemma elsewhere_elem p i : elsewhere (p ~[ i ]).
Proof.
  unfold elsewhere. destruct p as [|l q]; [done|]. intros [= _ E].
  by apply (app_inj_tail _ []) in E as [_ ?].
Qed.

Lemma keeping_ret {A} (a : A) : keeps (mret a).
Proof. by intros m H. Qed.

Lemma keeping_bind {A B} (c : C A) (k : A -> C B) :
  keeps c -> (forall a, keeps (k a)) -> keeps (c ≫= k).
Proof.
  intros Hc Hk m H. specialize (Hc m H). unfold mbind, C_bind. destruct (c m); [by apply Hk|done..].
Qed.

Lemma keeps_undefined {A} : keeps (undefined (A:=A)).
Proof. by intros m H. Qed.
Lemma keeps_hangs {A} : keeps (hangs (A:=A)).
Proof. by intros m H. Qed.

(** What does not change the heap, or shrinks it. *)
Lemma keeps_heap {A} (c : C A) :
  (forall m, match c m with Done _ m' => heap m' = heap m | _ => True end) -> keeps c.
Proof. intros Hc m H. specialize (Hc m). destruct (c m); [intros b; rewrite Hc; apply H|done..]. Qed.

Lemma keeps_load p : keeps (load p).
Proof. apply keeps_heap. intros m. unfold load.
  destruct (block_at m p) as [[[l q] b]|]; [by destruct (cells b !! q)|done]. Qed.

Lemma keeps_get_errno : keeps get_errno.
Proof. by apply keeps_heap. Qed.

Lemma keeps_store p v : elsewhere p -> keeps (store p v).
Proof.
  intros Hp m H. unfold store. destruct (block_at m p) as [[[l q] b]|] eqn:Eb; [|done].
  intros b'. cbn. destruct (decide (l = f)) as [->|Hne].
  - rewrite lookup_insert_eq. intros [= <-]. cbn. unfold block_at in Eb. destruct p as [|l' q']; [done|].
    repeat case_match; simplify_eq. rewrite lookup_insert_ne by (intros ->; by apply Hp). by apply H.
  - rewrite lookup_insert_ne by done. apply H.
Qed.

Lemma keeps_remove_cell p : keeps (remove_cell p).
Proof.
  intros m H. unfold remove_cell. destruct (block_at m p) as [[[l q] b]|] eqn:Eb; [|done].
  intros b'. cbn. destruct (decide (l = f)) as [->|Hne].
  - rewrite lookup_insert_eq. intros [= <-]. cbn. unfold block_at in Eb. destruct p as [|l' q']; [done|].
    repeat case_match; simplify_eq. apply lookup_delete_None. right. by apply H.
  - rewrite lookup_insert_ne by done. apply H.
Qed.

Lemma keeps_new_block (m : mem) n nx ma mi cr en er lv :
  unset m -> unset (Mem (<[next m := Block n ∅]> (heap m)) nx ma mi cr en er lv).
Proof.
  intros H b. cbn. destruct (decide (next m = f)) as [->|Hne];
    [rewrite lookup_insert_eq; by intros [= <-]|rewrite lookup_insert_ne by done; apply H].
Qed.

Lemma keeps_malloc n : keeps (malloc n).
Proof.
  intros m H. unfold malloc. destruct (default true (head (mallocs m))); [by apply keeps_new_block|done].
Qed.

Lemma keeps_local_var : keeps local_var.
Proof. intros m H. by apply keeps_new_block. Qed.

Lemma keeps_free p : keeps (free p).
Proof.
  intros m H. assert (forall l, unset (set_heap (delete l (heap m)) m)) as Hd.
  { intros l b. cbn. intros [_ ?]%lookup_delete_Some. by apply H. }
  destruct p as [|l [|[s|[| |]] [|]]]; simpl; try done; by destruct (heap m !! l).
Qed.

Lemma keeps_mutex_init p : elsewhere p -> keeps (pthread_mutex_init p).
Proof.
  intros Hp m H. unfold pthread_mutex_init. destruct (default true (head (minits m))); [|done].
  by apply (keeping_bind _ _ (keeps_store p (VMutex false) Hp) (fun _ => keeping_ret 0)).
Qed.

Lemma keeps_create p arg : elsewhere p -> keeps (pthread_create p arg).
Proof.
  intros Hp m H. unfold pthread_create. destruct (default true (head (creates m))); [|done].
  by apply (keeping_bind _ _ (keeps_store p _ Hp) (fun _ => keeping_ret 0)).
Qed.

Lemma keeps_end_thread t : keeps (end_thread t).
Proof. apply keeps_heap. intros m. unfold end_thread. by destruct (live m !! t). Qed.

(** The list walks get the bound from the memory. *)
Lemma keeps_fuel {A} (c : nat -> C A) : (forall k, keeps (c k)) -> keeps (fun m => c (next m) m).
Proof. intros Hc m. apply Hc. Qed.

Lemma keeps_for_loop {A} k i (body : Z -> C (option A)) :
  (forall j, keeps (body j)) -> keeps (for_loop k i body).
Proof.
  intros Hb. revert i. induction k as [|k IH]; intros i; [apply keeping_ret|].
  apply keeping_bind; [apply Hb|]. intros [a|]; [apply keeping_ret|apply IH].
Qed.

Lemma keeps_for_each n (body : Z -> C unit) : (forall j, keeps (body j)) -> keeps (for_each n body).
Proof.
  intros Hb. apply keeping_bind; [|intros ?; apply keeping_ret]. apply keeps_for_loop.
  intros j. apply keeping_bind; [apply Hb|intros ?; apply keeping_ret].
Qed.

(** A field that is none of the six. *)
Ltac other_field :=
  let E := fresh in intros E; pose proof Hname as Hn; rewrite <- E in Hn; vm_compute in Hn; discriminate Hn.

Ltac elsewhere_tac :=
  first [ apply elsewhere_elem | apply elsewhere_field; other_field | assumption ].

Create HintDb keeps.

(** The rule for each construct and operation. *)
Ltac keeps_tac :=
  repeat first
    [ apply keeping_ret | apply keeps_undefined | apply keeps_hangs | apply keeps_load | apply keeps_get_errno
    | apply keeps_malloc | apply keeps_free | apply keeps_remove_cell | apply keeps_local_var | apply keeps_end_thread
    | apply keeps_store; elsewhere_tac
    | apply keeps_mutex_init; elsewhere_tac
    | apply keeps_create; elsewhere_tac
    | solve [eauto with keeps nocore]
    | apply keeps_for_loop; intros ?
    | apply keeps_for_each; intros ?
    | lazymatch goal with |- keeps (_ ≫= _) => apply keeping_bind; [|intros ?; cbv beta] end
    | case_match ].

Lemma keeps_load_int p : keeps (load_int p).
Proof. unfold load_int. keeps_tac. Qed.
Lemma keeps_load_ptr p : keeps (load_ptr p).
Proof. unfold load_ptr. keeps_tac. Qed.
Lemma keeps_cond_init p : elsewhere p -> keeps (pthread_cond_init p).
Proof. apply keeps_store. Qed.
Lemma keeps_mutex_destroy p : keeps (pthread_mutex_destroy p).
Proof. unfold pthread_mutex_destroy. keeps_tac. Qed.
Lemma keeps_cond_destroy p : keeps (pthread_cond_destroy p).
Proof. unfold pthread_cond_destroy. keeps_tac. Qed.
Lemma keeps_mutex_lock p : elsewhere p -> keeps (pthread_mutex_lock p).
Proof. intros Hp. unfold pthread_mutex_lock. keeps_tac. Qed.
Lemma keeps_timedlock p : elsewhere p -> keeps (pthread_mutex_timedlock p).
Proof. intros Hp. unfold pthread_mutex_timedlock. keeps_tac. Qed.
Lemma keeps_mutex_unlock p : elsewhere p -> keeps (pthread_mutex_unlock p).
Proof. intros Hp. unfold pthread_mutex_unlock. keeps_tac. Qed.
Lemma keeps_cond_broadcast p : keeps (pthread_cond_broadcast p).
Proof. unfold pthread_cond_broadcast. keeps_tac. Qed.

Lemma keeps_cancel p : keeps (pthread_cancel p).
Proof.
  unfold pthread_cancel. apply keeping_bind; [apply keeps_load|]. intros [z|q|b| |t]; try apply keeps_undefined.
  apply keeps_heap. intros m. by destruct (live m !! t) as [[arg c]|].
Qed.

Lemma keeps_join g p : (forall q, keeps (g q)) -> keeps (pthread_join g p).
Proof. intros Hg. unfold pthread_join. keeps_tac; apply Hg. Qed.
Lemma keeps_no_cleanup q : keeps (no_cleanup q).
Proof. apply keeping_ret. Qed.

(** With the operations of the library. *)
Ltac keeps_op :=
  repeat first
    [ apply keeps_load_int | apply keeps_load_ptr | apply keeps_mutex_destroy | apply keeps_cond_destroy
    | apply keeps_cond_broadcast | apply keeps_cancel
    | apply keeps_cond_init; elsewhere_tac
    | apply keeps_mutex_lock; elsewhere_tac | apply keeps_timedlock; elsewhere_tac
    | apply keeps_mutex_unlock; elsewhere_tac
    | apply keeps_join; intros ?; cbv beta
    | progress keeps_tac ].

Hint Resolve keeps_no_cleanup : keeps.

Lemma keeps_rwlock_init p : keeps (rwlock_init p).
Proof. unfold rwlock_init. keeps_op. Qed.
Lemma keeps_rwlock_destroy p : keeps (rwlock_destroy p).
Proof. unfold rwlock_destroy. keeps_op. Qed.
Lemma keeps_rwlock_wrlock p : keeps (rwlock_wrlock p).
Proof. unfold rwlock_wrlock. keeps_op. Qed.
Lemma keeps_fifo_semaphore_init p v : keeps (fifo_semaphore_init p v).
Proof. unfold fifo_semaphore_init. keeps_op. Qed.
Lemma keeps_fifo_semaphore_destroy p : keeps (fifo_semaphore_destroy p).
Proof. unfold fifo_semaphore_destroy. keeps_op. Qed.
Lemma keeps_recursive_mutex_init p : keeps (recursive_mutex_init p).
Proof. unfold recursive_mutex_init. keeps_op. Qed.
Lemma keeps_recursive_mutex_destroy p : keeps (recursive_mutex_destroy p).
Proof. unfold recursive_mutex_destroy. keeps_op. Qed.
Lemma keeps_deadlock_detector_init p n : keeps (deadlock_detector_init p n).
Proof. unfold deadlock_detector_init. keeps_op. Qed.
Lemma keeps_deadlock_detector_destroy p : keeps (deadlock_detector_destroy p).
Proof. unfold deadlock_detector_destroy. keeps_op. Qed.
Lemma keeps_timer_init p ms cb arg : keeps (timer_init p ms cb arg).
Proof. unfold timer_init. keeps_op. Qed.
Lemma keeps_timer_destroy p : keeps (timer_destroy p).
Proof. unfold timer_destroy, timer_cleanup. keeps_op. Qed.
Lemma keeps_barrier_init p n : elsewhere p -> keeps (barrier_init p n).
Proof. intros Hp. unfold barrier_init. keeps_op. Qed.
Lemma keeps_barrier_destroy p : keeps (barrier_destroy p).
Proof. unfold barrier_destroy. keeps_op. Qed.
Lemma keeps_event_pair_init p : elsewhere p -> keeps (event_pair_init p).
Proof. intros Hp. unfold event_pair_init. keeps_op. Qed.
Lemma keeps_event_pair_destroy p : keeps (event_pair_destroy p).
Proof. unfold event_pair_destroy. keeps_op. Qed.
Lemma keeps_dining_init p n : elsewhere p -> keeps (dining_philosophers_init p n).
Proof. intros Hp. unfold dining_philosophers_init, init_fork. keeps_op. Qed.
Lemma keeps_dining_destroy p : keeps (dining_philosophers_destroy p).
Proof. unfold dining_philosophers_destroy. keeps_op. Qed.
Hint Resolve keeps_rwlock_init keeps_rwlock_destroy keeps_rwlock_wrlock keeps_fifo_semaphore_init
  keeps_fifo_semaphore_destroy keeps_recursive_mutex_init keeps_recursive_mutex_destroy
  keeps_deadlock_detector_init keeps_deadlock_detector_destroy keeps_timer_init keeps_timer_destroy
  keeps_barrier_destroy keeps_event_pair_destroy keeps_dining_destroy : keeps.

(** And with the inits that get an address. *)
Ltac keeps_call :=
  repeat first
    [ apply keeps_barrier_init; elsewhere_tac
    | apply keeps_event_pair_init; elsewhere_tac
    | apply keeps_dining_init; elsewhere_tac
    | progress keeps_op ].

Lemma keeps_monitor_init p n : elsewhere p -> keeps (bme680_monitor_init p n).
Proof. intros Hp. unfold bme680_monitor_init. keeps_call. Qed.
Lemma keeps_monitor_destroy p : keeps (bme680_monitor_destroy p).
Proof. unfold bme680_monitor_destroy. keeps_call. Qed.
Lemma keeps_config_init p d : elsewhere p -> keeps (bme680_config_init p d).
Proof. intros Hp. unfold bme680_config_init. keeps_call. Qed.

Lemma keeps_free_task_list k p : keeps (free_task_list k p).
Proof. revert p. induction k as [|k IH]; intros p; simpl; keeps_call; apply IH. Qed.
Lemma keeps_free_subscribers k p : keeps (free_subscribers k p).
Proof. revert p. induction k as [|k IH]; intros p; simpl; keeps_call; apply IH. Qed.

Lemma keeps_thread_pool_destroy p : keeps (thread_pool_destroy p).
Proof.
  unfold thread_pool_destroy. keeps_call.
  apply (keeps_fuel (fun k => free_task_list k _)). intros k. apply keeps_free_task_list.
Qed.
Hint Resolve keeps_thread_pool_destroy keeps_monitor_destroy : keeps.
Lemma keeps_thread_pool_init p n : elsewhere p -> keeps (thread_pool_init p n).
Proof. intros Hp. unfold thread_pool_init, create_worker. keeps_call. Qed.

Lemma keeps_assembly_line_destroy p : keeps (assembly_line_destroy p).
Proof. unfold assembly_line_destroy, join_stage, stage_cleanup. keeps_call. Qed.
Hint Resolve keeps_assembly_line_destroy : keeps.
Lemma keeps_assembly_line_init p n : elsewhere p -> keeps (assembly_line_init p n).
Proof. intros Hp. unfold assembly_line_init, create_stage. keeps_call. Qed.

Lemma keeps_fork_handler_destroy p : keeps (fork_handler_destroy p).
Proof. unfold fork_handler_destroy. keeps_call. Qed.
Hint Resolve keeps_fork_handler_destroy : keeps.
Lemma keeps_fork_handler_init p n : keeps (fork_handler_init p n).
Proof. unfold fork_handler_init. keeps_call. Qed.
Lemma keeps_ipc_sync_init p env : elsewhere p -> keeps (ipc_sync_init p env).
Proof. intros Hp. unfold ipc_sync_init. keeps_call. Qed.
Lemma keeps_ipc_sync_destroy p : keeps (ipc_sync_destroy p).
Proof. unfold ipc_sync_destroy. keeps_call. Qed.
Lemma keeps_pubsub_init p : keeps (pubsub_init p).
Proof. unfold pubsub_init. keeps_call. Qed.
Lemma keeps_pubsub_destroy p : keeps (pubsub_destroy p).
Proof.
  unfold pubsub_destroy. keeps_call.
  apply (keeps_fuel (fun k => free_subscribers k _)). intros k. apply keeps_free_subscribers.
Qed.
Lemma keeps_dev_init env addr : keeps (bme680_dev_init env addr).
Proof. unfold bme680_dev_init. keeps_call. apply keeps_config_init. elsewhere_tac. Qed.
Lemma keeps_dev_destroy p : keeps (bme680_dev_destroy p).
Proof. unfold bme680_dev_destroy. keeps_call. Qed.
Hint Resolve keeps_fork_handler_init keeps_ipc_sync_destroy keeps_pubsub_init keeps_pubsub_destroy
  keeps_dev_init keeps_dev_destroy : keeps.

Lemma keeps_copy_data p q : keeps (copy_data p q).
Proof. unfold copy_data. keeps_call. Qed.
Hint Resolve keeps_copy_data : keeps.
Lemma keeps_process p q : keeps (assembly_line_process p q).
Proof. unfold assembly_line_process. keeps_call. Qed.
Lemma keeps_get_result p q : keeps (assembly_line_get_result p q).
Proof. unfold assembly_line_get_result. keeps_call. Qed.
Hint Resolve keeps_process keeps_get_result : keeps.
Lemma keeps_tests p n b : keeps (test_assembly_line p n b).
Proof. unfold test_assembly_line. cbv zeta. keeps_call. Qed.
Lemma keeps_app_cleanup ps p : keeps (app_cleanup ps p).
Proof. unfold app_cleanup. keeps_call. Qed.
Hint Resolve keeps_tests keeps_app_cleanup : keeps.

(** ** Everything before the cleanup *)

Lemma keeps_setup ps e rs args ipc dev :
  elsewhere e -> keeps (app_setup ps (At f []) e rs args ipc dev).
Proof.
  intros He. unfold app_setup.
  repeat first
    [ apply keeps_thread_pool_init; elsewhere_tac | apply keeps_monitor_init; elsewhere_tac
    | apply keeps_assembly_line_init; elsewhere_tac | apply keeps_ipc_sync_init; elsewhere_tac
    | progress keeps_call ].
Qed.

Lemma unset_load m : unset m -> load_ptr (At f [] ~> name) m = Undefined.
Proof.
  intros H. unfold load_ptr. apply C_bind_undefined. unfold load, block_at. cbn [field app].
  destruct (heap m !! f) as [b|] eqn:Hb; [|done]. cbn [in_bounds app].
  by rewrite (H b Hb).
Qed.

(** A run that keeps the cell unset, followed by one that cannot end then. *)
Lemma no_end_bind {A B} (c : C A) (k : A -> C B) m :
  keeps c -> unset m -> (forall a m', unset m' -> forall r m2, k a m' <> Done r m2) ->
  forall r m2, (c ≫= k) m <> Done r m2.
Proof.
  intros Hc Hm Hk r m2. specialize (Hc m Hm). unfold mbind, C_bind. destruct (c m); [by apply Hk|done..].
Qed.
End unset.

(** C32: main of bme680_app.c, past its logger.  Whatever the arguments and
    whatever the system answers, the pointers fh, sem, timer, rwlock, rmutex
    and dd of the variable app are not set when the start is over, whether it
    got through or gave up, since their inits get them by value: every use of
    them is undefined.  main cannot return: it joins a thread, and then its
    cleanup, which begins with app->fh, has no defined behaviour. *)
Theorem app_never_ends ps f e rs args ipc dev m :
  heap m !! f = Some (Block 1 ∅) -> e <> f ->
  (forall ok m', app_setup ps (At f []) (At e []) rs args ipc dev m = Done ok m' ->
   forall name, name ∈ by_value -> load_ptr (At f [] ~> name) m' = Undefined) /\
  forall r m', app_body ps (At f []) (At e []) rs args ipc dev m <> Done r m'.
Proof.
  intros Hf He.
  assert (forall name, unset name f m) as Hu by (intros name b Hb; rewrite Hf in Hb; by injection Hb as <-).
  assert (forall name, elsewhere name f (At e [])) as Hel by (intros name [= ? _]; done).
  split.
  - intros ok m' E name Hn. assert (bool_decide (name ∈ by_value) = true) as Hb by by apply bool_decide_eq_true.
    apply unset_load. pose proof (keeps_setup name Hb f ps (At e []) rs args ipc dev (Hel name) m (Hu name)) as Hk.
    by rewrite E in Hk.
  - unfold app_body.
    apply (no_end_bind "fh" f); [by apply keeps_setup|done|]. intros ok m1 H1.
    apply (no_end_bind "fh" f); [|done|].
    { destruct (ok && App.run_tests args); [|apply keeping_ret].
      apply keeping_bind; [by apply keeps_tests|intros ?; by apply keeps_tests]. }
    intros _ m2 H2. apply (no_end_bind "fh" f); [by apply keeps_store, elsewhere_field|done|].
    intros _ m3 H3. apply (no_end_bind "fh" f); [by apply keeps_join; intros ?; apply keeps_app_cleanup|done|].
    intros _ m4 H4 r m5. unfold app_cleanup, mbind, C_bind.
    by rewrite (unset_load "fh" f m4 H4).
Qed.

(** ** A run *)

(** The variables of main, and the static object of publish and subscribe. *)
Definition main_mem : mem :=
  Mem (<[0%nat := Block 1 ∅]> (<[1%nat := Block 1 ∅]> {[2%nat := Block 1 ∅]})) 3 [] [] [] [] 0 ∅.
Definition args_ex : App.app_args :=
  {| App.iterations := 2; App.threads := 2; App.num_stages := 2; App.run_tests := true |}.
Definition sysv_ex : sysv_env := {| shmget := 1; shmat := Some (At 99 []); semget := 1; semctl := 0 |}.
Definition dev_ex : dev_env := {| open_fd := 3; ioctl_ret := 0; to_int := VPtr; missing := Null |}.

(** With every call a success the start gets through, both tests run, and the
    cleanup is reached. *)
Lemma app_never_ends_witness :
  match app_setup (At 2 []) (At 0 []) (At 1 []) Null args_ex sysv_ex dev_ex main_mem with
  | Done ok m => ok = true /\ load_ptr (At 0 [] ~> "fh") m = Undefined /\
      is_Some (heap m !! 0%nat ≫= fun b => cells b !! ([inl "al"%string] : path))
  | _ => False
  end /\
  app_body (At 2 []) (At 0 []) (At 1 []) Null args_ex sysv_ex dev_ex main_mem = Undefined.
Proof.
  destruct (app_never_ends (At 2 []) 0 1 Null args_ex sysv_ex dev_ex main_mem eq_refl ltac:(discriminate)) as [Hu Hn].
  assert (match app_setup (At 2 []) (At 0 []) (At 1 []) Null args_ex sysv_ex dev_ex main_mem with
          | Done ok m => ok = true /\ is_Some (heap m !! 0%nat ≫= fun b => cells b !! ([inl "al"%string] : path))
          | _ => False
          end) as Hs by (vm_compute; split; [reflexivity|by eexists]).
  assert (match app_body (At 2 []) (At 0 []) (At 1 []) Null args_ex sysv_ex dev_ex main_mem with
          | Hangs => False | _ => True end) as Hb by (vm_compute; exact I).
  split.
  - destruct (app_setup _ _ _ _ _ _ _ main_mem) as [ok m| |]; [|exact Hs..].
    destruct Hs as [Hok Hal]. split; [exact Hok|split; [|exact Hal]].
    apply (Hu ok m eq_refl "fh"%string). apply list_elem_of_here.
  - destruct (app_body _ _ _ _ _ _ _ main_mem) as [r m'| |];
      [destruct (Hn r m' eq_refl)|reflexivity|destruct Hb].
Defined.
